(* ===== verification/_CoqProject ===== *)
-Q . S2P
Prelude.v
MemoryChecker.v
Kernel.v
Log.v
LogTasks.v
Uapi.v
EventQueue.v
CbtMap.v
DiffBuffer.v
DiffIo.v
DiffStorage.v
Effects.v
Chunk.v
DiffArea.v
ChunkSpecs.v
CowInv.v
Cow.v
CowSteps.v
CowImage.v
CowSafety.v
CowPlug.v
CowLive.v
Footprint.v
StorageUse.v
AreaNew.v
State.v
BdevFilter.v
FilterHook.v
SnapImage.v
Tracker.v
Snapshot.v
SnapshotSpecs.v
SnapshotTake.v
SimFreeze.v
Lifecycle.v
Fleet.v
FleetInv.v
FleetSafety.v
FleetTake.v
FleetRuns.v
SuperFreeze.v
Main.v
DebugState.v
UserSpace.v
LibBlksnap.v
Fiemap.v
Session.v
SessionSpecs.v
SessionThread.v
Tool.v
ToolSpecs.v
ToolOptions.v
CbtRead.v
