(* ===== verification/Prelude.v ===== *)
(** * blksnap: a verified model of the block-device snapshot module, its library and its tool

    ** The program

    The kernel module blksnap (src/module/) makes snapshots of block devices. A
    filter in the submission of bios (bdevfilter.c) hands every write to a tracked
    device to its tracker (tracker.c). The tracker marks the written blocks in a
    change tracking map (cbt_map.c) and, while a snapshot is taken, lets a
    difference area (diff_area.c) save the chunks (chunk.c) that the write is about
    to overwrite: into memory buffers (diff_buffer.c), and through asynchronous
    requests (diff_io.c) into regions of a difference storage (diff_storage.c) whose
    ranges user space provides; the storage asks for more through an event queue
    (event_queue.c). A snapshot image (snapimage.c) is a block device that reads
    and writes the frozen contents through the difference area. Snapshots
    (snapshot.c) hold the trackers, the storage and the images together; main.c is
    the control device with the ioctls of blksnap.h; log.c writes a log file;
    memory_checker.c counts the objects that are allocated.

    In user space, the library (src/lib/blksnap/, src/include/blksnap/) wraps the
    ioctls in [CBlksnap], reads change tracking maps with [CCbt], and runs a snapshot
    as a [CSession] (Session.cpp): a thread waits for the module's events and appends
    storage, from ranges of a device or from files whose extents it asks the file
    system for. The tool (src/tools/blksnap/main.cpp) has a command for each ioctl and
    a service that stretches the storage of a snapshot.

    The configuration is that of Makefile-standalone: STANDALONE_BDEVFILTER,
    BLK_SNAP_MODIFICATION, BLK_SNAP_FILELOG, BLK_SNAP_SEQUENTALFREEZE and
    BLK_SNAP_DEBUG_MEMORY_LEAK, a kernel with [bi_bdev] and without
    HAVE_SUPER_BLOCK_FREEZE and HAVE_GENHD_H. SimFreeze.v, SuperFreeze.v and DebugState.v
    have the code of other configurations.

    ** The files

    - Prelude.v: constants, machine arithmetic ([u8], [u32], [u64]), the state monad
      [M S A] in which a C function is a total function from a state to a result and
      a state, its weakest precondition [wp], the tactics that run it symbolically
      ([wp_step], [wp_steps], [wp_call]), lists indexed by [Z].
    - MemoryChecker.v: memory_checker.c. Kernel.v: the kernel around the module: the
      contents of the disks, the count of openings of each device, the allocation
      counters, [current->bio_list], and a list of answers ([w_oracle]) that decides
      allocations, copies to user space, identifiers and time; module parameters are
      the class [ModuleParams].
    - Uapi.v: blksnap.h. EventQueue.v: event_queue.c.
    - Log.v: log.c, the code of each task. LogTasks.v: the printers, the thread and a
      restart as tasks that are interleaved ([log_move]).
    - CbtMap.v: cbt_map.c. DiffBuffer.v: diff_buffer.c. DiffIo.v: diff_io.c.
      DiffStorage.v: diff_storage.c; the class [RegionContract] is what the chunks
      rely on when they ask for a region. Effects.v: computations that keep a part of
      their state.
    - Chunk.v, DiffArea.v: chunk.c and diff_area.c, on a state [sys] that has one
      area, its storage and the kernel. ChunkSpecs.v: what the operations on chunks
      do. CowInv.v: the invariant of one area and its preservation by the turns of
      [diff_area_copy], [diff_area_wait] and the callbacks.
    - Cow.v: all tasks on one area as a step relation [cow_step]: writers that the
      filter holds ([writer_turn] is [tracker_submit_bio] from [diff_area_copy] on),
      bios that end in any order, work items, the cache release, the image's worker,
      and the rest of the system. CowSteps.v, CowImage.v: the steps of the cache
      release and of the image. CowSafety.v: the theorems on safety. CowPlug.v: who holds
      back which requests. CowLive.v: the tasks can always finish. Footprint.v: the
      sectors that an area owns in its storage, and that its tasks write no others.
      StorageUse.v: the tasks change the storage only by taking regions and by events.
    - AreaNew.v: making an area, its chunk size, and that it starts the protocol.
    - State.v: the control side: objects behind pointers ([modst]). BdevFilter.v:
      bdevfilter.c. FilterHook.v: how the filter is put in front of
      [submit_bio_noacct] and taken away again. SnapImage.v: snapimage.c. Tracker.v: tracker.c. Snapshot.v:
      snapshot.c, with the list of snapshots as its links in memory.
      SnapshotSpecs.v, SnapshotTake.v: their theorems. SimFreeze.v: the variant that
      freezes all devices at once. Lifecycle.v: runs through all components.
    - Fleet.v: the areas of all devices and snapshots in one module, with the storages
      they share, the filter their bios pass, user space that appends storage and the
      control side, as one step relation [fleet_step]. FleetInv.v: its invariant.
      FleetSafety.v: the theorems. FleetTake.v: [snapshot_take] is a step of it.
      FleetRuns.v: runs of snapshots made by the operations of Snapshot.v.
    - SuperFreeze.v: the variants for kernels in which [freeze_bdev] returns a super
      block; the kernel's two functions are the class [SuperKernel].
    - Main.v: main.c. DebugState.v: the debug queries of main.c, snapshot.c and
      snapimage.c.
    - UserSpace.v: a process: C++ exceptions, the operating system around it (the class
      [Os]), and [ioctl], which runs the dispatcher of Main.v on the module's state after
      whatever others have done to it ([p_env]). LibBlksnap.v: Blksnap.cpp, Cbt.cpp and
      Service.cpp. Fiemap.v: files as storage, in Session.cpp and in the tool. Session.v:
      Session.cpp. SessionSpecs.v, SessionThread.v: the theorems on sessions.
    - Tool.v: main.cpp of the tool. ToolSpecs.v: its theorems. ToolOptions.v: the
      options its commands declare. CbtRead.v: reading a
      change tracking map, from the library and the tool down to the module's table.

    ** What the theorems show

    - Copy-on-write (CowSafety.v, CowLive.v, SnapImage.v, AreaNew.v): under every interleaving,
      and whatever fails, while the area is not marked corrupted and no writer is
      killed, the image shows the device as it was when the snapshot was taken,
      changed only by writes to the image; data is saved before it is overwritten;
      nothing is lost; a read bio of the image is answered with those contents; a
      new area starts the protocol. From every reachable state the tasks can finish
      without help from outside, so that no two of them wait for each other. Where
      writers can be killed, or are refused in the middle of a copy, two theorems show
      what goes wrong.
    - The whole module (Footprint.v, Fleet*.v): the same for all areas at once. While an
      area and its change tracking map are not corrupted its image is frozen, whatever
      becomes of the others; no area writes what another has saved; the filter holds
      every write to a device for the area of that device. The conditions are those of
      [fleet_step]: a difference storage overlaps no other and does not lie on the
      device of another snapshot (a theorem shows what happens when it does), nobody else
      writes into a storage, no sleeping writer is killed, no device is in two snapshots.
      A snapshot that is taken while others are at work joins them without disturbing them.
    - Change tracking (CbtMap.v, Tracker.v): creation ends and gives a well-formed
      map; a write marks exactly its blocks; the blocks above a reported number are
      exactly those written since, until the number wraps; no write escapes. What the
      library returns to its caller is exactly that table, so that the blocks it reports
      are the blocks written between two snapshots (CbtRead.v).
    - Storage, buffers and I/O (DiffStorage.v, DiffBuffer.v, DiffIo.v): regions are
      disjoint and inside the ranges given; events and exhaustion; buffers are
      conserved; iterators stay in bounds; a request moves exactly its region in
      whichever order its bios end.
    - The control side (BdevFilter.v, FilterHook.v, Tracker.v, Snapshot*.v, SimFreeze.v,
      SuperFreeze.v, Lifecycle.v, Main.v): the list of extensions refines a finite map, the linked
      list of snapshots a sequence; taking a snapshot is all or nothing; images give
      back their references; every command
      reaches its handler; destroying a snapshot ends the copy-on-write of its devices,
      whichever snapshot had begun it.
    - Sessions (SessionSpecs.v, SessionThread.v, Fiemap.v): the thread gives the module
      the sectors of the user's ranges in order, each once, so that every region of the
      storage lies in one of those ranges, whatever the tasks of the areas do meanwhile
      ([env_act] says what the rest of the system may do); the ranges must not overlap
      each other; files
      become the ranges of their extents; names of images lead back to their devices; a
      session that fails leaves its snapshot.
    - The tool (ToolSpecs.v): ranges are read back as they are printed; a command
      ends with an exit code and closes what it opened, unless it has a loop that others
      must end or an ioctl does not come back, and reads its options as it has
      declared them (ToolOptions.v); two commands that cannot do their work.
    - The log (Log.v, LogTasks.v): under every interleaving of messages, the thread and restarts
      the pool is conserved, as long as no restart begins while a message is on its way
      (a theorem shows what happens when it does); nothing queued is lost at the end.
    - Behaviour that the code does not mean to have is proved too, each on the path
      that leads to it; the theorem's comment says what happens.

    ** Bounds, fuel and waiting

    Loops that are not structural have fuel, and the theorems show that it is
    enough: the shift of a map's block size doubles (at most 8 turns, for devices
    below 2^55 sectors), the shift of an area's chunk size grows by one (at most 64
    turns, for devices up to 2^54 sectors); [bio_fill] and
    [bio_loop] take a sector at least in every turn, so the number of sectors is
    enough; the loops over a cache, a list or an array have the length as fuel; the
    walk along the links of the snapshot list has the number of links;
    [AllocateDiffStorage] turns at most twice for each range and once more; the loops
    of [FiemapStorage] have as fuel what the theorem asks for, and [Endless] when it is
    not enough, which the theorem on holes shows for every fuel; the thread of a session
    and the stretching service, which run until they are told to stop, are modelled for
    every number of turns. A loop that
    waits, as in [diff_area_copy], is one turn per step of [cow_step], so that the
    task sleeps between the turns. A lock that is held when nobody else can
    release it sets [stuck] or [hung]; a null or freed pointer that is followed sets
    [broken] or [oops]. Sector numbers, counts and sizes are integers with the wrap
    around of their C type where it can be reached.

    ** Not modelled

    Waits that change no state ([diff_area_throttling_io], the waits of
    [diff_area_free] and [tracker_wait_for_release]); the text of messages and
    printk; what the kernel does for the ftrace and livepatch hooks, of which FilterHook.v
    has what a call then reaches; the comparison of devices by [bi_disk]; BLK_SNAP_ALLOW_DIFF_STORAGE_IN_MEMORY;
    boost's parsing of options, libuuid's text of identifiers and the time zone, which
    are parameters of the tool; the tests. A descriptor is counted, not numbered. The
    thread of a session runs whole turns between the calls of its constructor, and
    others change the module only between ioctls. A synchronous transfer of [diff_io_do] is one
    step, in which the semaphore of its chunk is held. The log is restarted by one task at a time. The control side is one operation at a time: the locks of snapshot.c
    and tracker.c make each operation a step, but operations that race between two
    locked sections are not interleaved; in [fleet_step] the destruction of a snapshot is
    any change that leaves the other areas alone. The log counts its memory in a world of its
    own. *)

From stdpp Require Export base numbers gmap sets tactics.
From stdpp Require Export list.

#[global] Set Default Goal Selector "!".

(** ** Scope and constants of the platform *)

Declare Scope blksnap_scope.
Delimit Scope blksnap_scope with blk.
Global Open Scope Z_scope.

(** A sector is 512 bytes and a page 4096, so a page holds eight sectors
    (diff_buffer.h defines [PAGE_SECTORS] when the kernel does not). *)
Definition SECTOR_SHIFT : Z := 9.
Definition SECTOR_SIZE : Z := 512.
Definition PAGE_SHIFT : Z := 12.
Definition PAGE_SIZE : Z := 4096.
Definition PAGE_SECTORS : Z := Z.shiftl 1 (PAGE_SHIFT - SECTOR_SHIFT).

(** Error numbers, as <uapi/asm-generic/errno*.h> documents them. *)
Definition EPERM : Z := 1.
Definition ENOENT : Z := 2.
Definition ESRCH : Z := 3.
Definition EINTR : Z := 4.
Definition EIO : Z := 5.
Definition EAGAIN : Z := 11.
Definition ENOMEM : Z := 12.
Definition EFAULT : Z := 14.
Definition EBUSY : Z := 16.
Definition ENODEV : Z := 19.
Definition EINVAL : Z := 22.
Definition ENOTTY : Z := 25.
Definition ENOSPC : Z := 28.
Definition ENODATA : Z := 61.
Definition ENOBUFS : Z := 105.
Definition EALREADY : Z := 114.
Definition ERESTARTSYS : Z := 512.

(** A pointer-or-[ERR_PTR] result, and the [int] a function returns when it
    forwards one. *)
Inductive result (A : Type) : Type :=
  | Ok (a : A)
  | Err (errno : Z).
Arguments Ok {A} a.
Arguments Err {A} errno.

Definition is_err {A} (r : result A) : bool :=
  match r with Ok _ => false | Err _ => true end.

(** ** Machine integers: unsigned w-bit arithmetic written out *)

Definition u8 (x : Z) : Z := x mod 2 ^ 8.
Definition u16 (x : Z) : Z := x mod 2 ^ 16.
Definition u32 (x : Z) : Z := x mod 2 ^ 32.
Definition u64 (x : Z) : Z := x mod 2 ^ 64.

(** The [round_up] and [round_down] macros of <linux/math.h>, on [u64]
    operands; the second operand is a power of two. *)
Definition round_up (x y : Z) : Z := u64 (Z.lor (u64 (x - 1)) (y - 1) + 1).
Definition round_down (x y : Z) : Z := Z.land x (Z.lnot (y - 1)).

Lemma u64_small x : 0 ≤ x < 2 ^ 64 → u64 x = x.
Proof. apply Z.mod_small. Qed.

Lemma u32_small x : 0 ≤ x < 2 ^ 32 → u32 x = x.
Proof. apply Z.mod_small. Qed.

Lemma u64_range x : 0 ≤ u64 x < 2 ^ 64.
Proof. apply Z.mod_pos_bound. lia. Qed.

Lemma u16_small x : 0 ≤ x < 2 ^ 16 → u16 x = x.
Proof. apply Z.mod_small. Qed.

Lemma u8_small x : 0 ≤ x < 2 ^ 8 → u8 x = x.
Proof. apply Z.mod_small. Qed.

Lemma pow2_pos k : 0 ≤ k → 0 < 2 ^ k.
Proof. intros. apply Z.pow_pos_nonneg; lia. Qed.

Lemma shiftl_1 k : 0 ≤ k → Z.shiftl 1 k = 2 ^ k.
Proof. intros. rewrite Z.shiftl_mul_pow2 by done. lia. Qed.


Lemma round_down_pow2 x k : 0 ≤ k → round_down x (2 ^ k) = x / 2 ^ k * 2 ^ k.
Proof.
  intros Hk. unfold round_down.
  replace (2 ^ k - 1) with (Z.ones k) by (rewrite Z.ones_equiv; lia).
  rewrite <- Z.ldiff_land, Z.ldiff_ones_r by done.
  by rewrite Z.shiftl_mul_pow2, Z.shiftr_div_pow2 by done.
Qed.

Lemma lor_ones_pow2 x k : 0 ≤ k → Z.lor x (2 ^ k - 1) = x / 2 ^ k * 2 ^ k + (2 ^ k - 1).
Proof.
  intros Hk. replace (2 ^ k - 1) with (Z.ones k) by (rewrite Z.ones_equiv; lia).
  rewrite <- (Z.shiftr_div_pow2 x k), <- Z.shiftl_mul_pow2 by done.
  rewrite Z.add_nocarry_lxor.
  - apply Z.bits_inj'. intros n Hn.
    rewrite Z.lor_spec, Z.lxor_spec, Z.shiftl_spec by done.
    destruct (decide (n < k)).
    + rewrite Z.ones_spec_low, (Z.testbit_neg_r _ (n - k)) by lia. by destruct (Z.testbit x n).
    + rewrite Z.ones_spec_high, Z.shiftr_spec by lia.
      rewrite orb_false_r, xorb_false_r. f_equal. lia.
  - apply Z.bits_inj'. intros n Hn.
    rewrite Z.land_spec, Z.shiftl_spec, Z.bits_0 by done.
    destruct (decide (n < k)).
    + by rewrite (Z.testbit_neg_r _ (n - k)) by lia.
    + rewrite Z.ones_spec_high by lia. by rewrite andb_false_r.
Qed.

(** Rounding up is the usual quotient form when nothing overflows. *)
Lemma round_up_pow2 x k :
  0 ≤ k < 64 → 0 ≤ x → x + 2 ^ k ≤ 2 ^ 64 →
  round_up x (2 ^ k) = (x + (2 ^ k - 1)) / 2 ^ k * 2 ^ k.
Proof.
  intros Hk Hx Hov. pose proof (pow2_pos k ltac:(lia)) as Hp. unfold round_up.
  rewrite lor_ones_pow2 by lia.
  destruct (decide (x = 0)) as [->|Hx0].
  - assert (Hp64 : 2 ^ 64 = 2 ^ (64 - k) * 2 ^ k) by (rewrite <- Z.pow_add_r by lia; f_equal; lia).
    assert (Hq : u64 (0 - 1) / 2 ^ k = 2 ^ (64 - k) - 1).
    { symmetry. apply (Z.div_unique _ _ _ (2 ^ k - 1)); [lia|].
      change (u64 (0 - 1)) with (2 ^ 64 - 1). lia. }
    rewrite Hq. replace (_ * 2 ^ k + (2 ^ k - 1) + 1) with (2 ^ 64) by lia.
    rewrite Z.div_small by lia. reflexivity.
  - rewrite (u64_small (x - 1)) by lia.
    replace (x + (2 ^ k - 1)) with (x - 1 + 1 * 2 ^ k) by lia.
    rewrite Z.div_add by lia.
    rewrite u64_small; [lia|].
    pose proof (Z.mul_div_le (x - 1) (2 ^ k) Hp).
    pose proof (Z.div_pos (x - 1) (2 ^ k) ltac:(lia) Hp). nia.
Qed.

(** ** A state monad for the C functions, and its weakest preconditions

    A C function with side effects is a function of type [M S A]: from a state
    to its result and the state it leaves. stdpp's [mret], [mbind] and their
    notations are used for sequencing. *)
Definition M (S A : Type) : Type := S → A * S.

#[global] Instance M_mret S : MRet (M S) := λ A a s, (a, s).
#[global] Instance M_mbind S : MBind (M S) := λ A B f m s, f (m s).1 (m s).2.

Definition gets {S A} (f : S → A) : M S A := λ s, (f s, s).
Definition modify {S} (f : S → S) : M S unit := λ s, (tt, f s).
Definition skip {S} : M S unit := λ s, (tt, s).
Definition when {S} (b : bool) (m : M S unit) : M S unit := if b then m else skip.

(** Run a computation on a component [T] of a larger state [S]. *)
Definition zoom {S T A} (get : S → T) (put : T → S → S) (m : M T A) : M S A :=
  λ s, ((m (get s)).1, put (m (get s)).2 s).

(** [wp m s Q]: running [m] from [s] ends with a result and a state that
    satisfy [Q]. The functions are total, so this is total correctness. *)
Definition wp {S A} (m : M S A) (s : S) (Q : A → S → Prop) : Prop :=
  Q (m s).1 (m s).2.

Section wp_rules.
Context {S : Type}.

Lemma wp_ret {A} (a : A) (s : S) Q : wp (mret a) s Q ↔ Q a s.
Proof. done. Qed.

Lemma wp_bind {A B} (m : M S A) (f : A → M S B) s Q :
  wp (m ≫= f) s Q ↔ wp m s (λ a s', wp (f a) s' Q).
Proof. done. Qed.

Lemma wp_gets {A} (f : S → A) s Q : wp (gets f) s Q ↔ Q (f s) s.
Proof. done. Qed.

Lemma wp_modify (f : S → S) s Q : wp (modify f) s Q ↔ Q tt (f s).
Proof. done. Qed.

Lemma wp_skip (s : S) Q : wp skip s Q ↔ Q tt s.
Proof. done. Qed.

Lemma wp_zoom {T A} (get : S → T) put (m : M T A) s Q :
  wp (zoom get put m) s Q ↔ wp m (get s) (λ a t, Q a (put t s)).
Proof. done. Qed.

Lemma wp_mono {A} (m : M S A) s (P Q : A → S → Prop) :
  wp m s P → (∀ a s', P a s' → Q a s') → wp m s Q.
Proof. unfold wp. auto. Qed.

Lemma wp_and {A} (m : M S A) s (P Q : A → S → Prop) :
  wp m s P → wp m s Q → wp m s (λ a s', P a s' ∧ Q a s').
Proof. by unfold wp. Qed.

Lemma wp_eq {A} (m : M S A) s (Q : A → S → Prop) :
  (∀ a s', m s = (a, s') → Q a s') → wp m s Q.
Proof. unfold wp. destruct (m s) eqn:?; eauto. Qed.

Lemma wp_run {A} (m : M S A) s (Q : A → S → Prop) a s' :
  wp m s Q → m s = (a, s') → Q a s'.
Proof. unfold wp. intros HQ E. by rewrite E in HQ. Qed.
End wp_rules.

Create HintDb blk.

(** Symbolic execution: [WpStep m s Q R] says that [R] is enough for
    [wp m s Q]. The rules of the primitive operations are the hints of the database
    [wp], which later files extend; [wp_steps] applies them to the operation in front. *)
Class WpStep {S A : Type} (m : M S A) (s : S) (Q : A → S → Prop) (R : Prop) : Prop :=
  wp_step_rule : R → wp m s Q.

Create HintDb wp discriminated.
#[global] Hint Constants Opaque : wp.

Definition wp_step_bind {S A B} (m : M S A) (f : A → M S B) s Q :
  WpStep (m ≫= f) s Q (wp m s (λ a s', wp (f a) s' Q)) := proj2 (wp_bind m f s Q).
Definition wp_step_ret {S A} (a : A) (s : S) Q :
  WpStep (mret a) s Q (Q a s) := proj2 (wp_ret a s Q).
Definition wp_step_gets {S A} (f : S → A) s Q :
  WpStep (gets f) s Q (Q (f s) s) := proj2 (wp_gets f s Q).
Definition wp_step_modify {S} (f : S → S) s Q :
  WpStep (modify f) s Q (Q tt (f s)) := proj2 (wp_modify f s Q).
Definition wp_step_skip {S} (s : S) Q :
  WpStep skip s Q (Q tt s) := proj2 (wp_skip s Q).
Definition wp_step_zoom {S T A} (get : S → T) put (m : M T A) s Q :
  WpStep (zoom get put m) s Q (wp m (get s) (λ a t, Q a (put t s))) :=
  proj2 (wp_zoom get put m s Q).

#[global] Hint Resolve wp_step_bind wp_step_ret wp_step_gets wp_step_modify wp_step_skip
  wp_step_zoom : wp.

Lemma wp_step_apply {S A} (m : M S A) s Q R : WpStep m s Q R → R → wp m s Q.
Proof. auto. Qed.

Ltac wp_step :=
  notypeclasses refine (wp_step_apply _ _ _ _ _ _); [ typeclasses eauto with wp | cbv beta ].
Ltac wp_steps := repeat (lazymatch goal with |- wp _ _ _ => wp_step end).

(** Use a specification of the call in front, and name its result. *)
Tactic Notation "wp_call" uconstr(H) :=
  wp_steps; eapply wp_mono; [ apply H | cbv beta ].

(** Case split on the condition of the [if] in the goal. *)
Ltac wp_if H :=
  match goal with
  | |- wp (if ?b then _ else _) _ _ => destruct b eqn:H
  | |- wp (when ?b _) _ _ => unfold when at 1; destruct b eqn:H
  end.

Ltac bool_hyps :=
  repeat match goal with
  | H : (_ && _)%bool = true |- _ => apply andb_true_iff in H as [? ?]
  | H : (_ || _)%bool = false |- _ => apply orb_false_iff in H as [? ?]
  | H : negb _ = true |- _ => apply negb_true_iff in H
  | H : negb _ = false |- _ => apply negb_false_iff in H
  | H : (_ <? _) = true |- _ => apply Z.ltb_lt in H
  | H : (_ <? _) = false |- _ => apply Z.ltb_ge in H
  | H : (_ <=? _) = true |- _ => apply Z.leb_le in H
  | H : (_ <=? _) = false |- _ => apply Z.leb_gt in H
  | H : (_ =? _) = true |- _ => apply Z.eqb_eq in H
  | H : (_ =? _) = false |- _ => apply Z.eqb_neq in H
  end.

(** ** Lists indexed by machine integers *)

(** [map[inx]] and [map[inx] = v] on a buffer of known length. *)
Definition nthZ {A} (l : list A) (i : Z) : option A :=
  if i <? 0 then None else l !! Z.to_nat i.
Definition setZ {A} (i : Z) (v : A) (l : list A) : list A :=
  if i <? 0 then l else <[Z.to_nat i := v]> l.
Definition lenZ {A} (l : list A) : Z := Z.of_nat (length l).

Section listZ.
Context {A : Type}.
Implicit Types l : list A.

Lemma nthZ_Some l i : 0 ≤ i < lenZ l → is_Some (nthZ l i).
Proof.
  unfold nthZ, lenZ. intros [? ?]. destruct (Z.ltb_spec i 0); [lia|].
  apply lookup_lt_is_Some. lia.
Qed.

Lemma nthZ_inv l i a : nthZ l i = Some a → 0 ≤ i < lenZ l.
Proof.
  unfold nthZ, lenZ. destruct (Z.ltb_spec i 0); [done|].
  intros ?%lookup_lt_Some. lia.
Qed.

Lemma lenZ_setZ l i a : lenZ (setZ i a l) = lenZ l.
Proof. unfold setZ, lenZ. destruct (_ <? _); [done|]. by rewrite length_insert. Qed.

Lemma nthZ_setZ l i j a :
  0 ≤ i < lenZ l → nthZ (setZ i a l) j = if j =? i then Some a else nthZ l j.
Proof.
  unfold nthZ, setZ, lenZ. intros [? ?].
  destruct (Z.ltb_spec i 0); [lia|]. destruct (Z.ltb_spec j 0).
  - destruct (Z.eqb_spec j i); [lia|done].
  - rewrite list_lookup_insert. destruct (Z.eqb_spec j i); case_decide; try done; lia.
Qed.

Lemma lenZ_replicate n (a : A) : 0 ≤ n → lenZ (replicate (Z.to_nat n) a) = n.
Proof. unfold lenZ. rewrite length_replicate. lia. Qed.

Lemma nthZ_replicate n (a : A) i : 0 ≤ i < n → nthZ (replicate (Z.to_nat n) a) i = Some a.
Proof.
  intros. unfold nthZ. destruct (Z.ltb_spec i 0); [lia|]. apply lookup_replicate_2. lia.
Qed.
End listZ.

(** Function update at a point. *)
Definition upd {A B} `{EqDecision A} (f : A → B) (a : A) (b : B) : A → B :=
  λ x, if decide (x = a) then b else f x.

Lemma upd_eq {A B} `{EqDecision A} (f : A → B) a b : upd f a b a = b.
Proof. unfold upd. by rewrite decide_True. Qed.

Lemma upd_ne {A B} `{EqDecision A} (f : A → B) a b x : x ≠ a → upd f a b x = f x.
Proof. intros. unfold upd. by rewrite decide_False. Qed.

Lemma alter_lookup_Some {A} (f : A → A) k (m : gmap Z A) x :
  m !! k = Some x → alter f k m = <[k := f x]> m.
Proof.
  intros Hx. apply map_eq. intros j. destruct (decide (j = k)) as [->|Hne];
    [by rewrite lookup_alter_eq, lookup_insert_eq, Hx|by rewrite lookup_alter_ne, lookup_insert_ne].
Qed.
