(* ===== verification/MemoryChecker.v ===== *)
(** * The allocation counters (memory_checker.c, memory_checker.h)

    Every [kzalloc], [alloc_page] and [kfree] of the module is paired with
    [memory_object_inc] or [memory_object_dec] on the counter of the object's
    type; [memory_object_print] reports what is still allocated. *)
From S2P Require Import Prelude.

Inductive memory_object_type : Set :=
  | memory_object_page
  | memory_object_cbt_map
  | memory_object_cbt_buffer
  | memory_object_chunk
  | memory_object_blk_snap_snapshot_event
  | memory_object_diff_area
  | memory_object_diff_io
  | memory_object_diff_storage
  | memory_object_storage_bdev
  | memory_object_storage_block
  | memory_object_diff_region
  | memory_object_diff_buffer
  | memory_object_event
  | memory_object_snapimage
  | memory_object_snapshot
  | memory_object_tracker
  | memory_object_tracked_device
  | memory_object_blk_snap_cbt_info
  | memory_object_blk_snap_block_range
  | memory_object_blk_snap_dev
  | memory_object_tracker_array
  | memory_object_snapimage_array
  | memory_object_superblock_array
  | memory_object_blk_snap_image_info
  | memory_object_log_filepath.

#[global] Instance memory_object_type_eq_dec : EqDecision memory_object_type.
Proof. solve_decision. Defined.

(** The enumeration in the order of the counters' array. *)
Definition memory_object_types : list memory_object_type :=
  [ memory_object_page; memory_object_cbt_map; memory_object_cbt_buffer;
    memory_object_chunk; memory_object_blk_snap_snapshot_event;
    memory_object_diff_area; memory_object_diff_io; memory_object_diff_storage;
    memory_object_storage_bdev; memory_object_storage_block;
    memory_object_diff_region; memory_object_diff_buffer; memory_object_event;
    memory_object_snapimage; memory_object_snapshot; memory_object_tracker;
    memory_object_tracked_device; memory_object_blk_snap_cbt_info;
    memory_object_blk_snap_block_range; memory_object_blk_snap_dev;
    memory_object_tracker_array; memory_object_snapimage_array;
    memory_object_superblock_array; memory_object_blk_snap_image_info;
    memory_object_log_filepath ].

(** [memory_counter] and [memory_counter_max]. *)
Record memory_counters := MemoryCounters {
  memory_counter : memory_object_type → Z;
  memory_counter_max : memory_object_type → Z;
}.

Definition memory_counters_init : memory_counters :=
  {| memory_counter := λ _, 0; memory_counter_max := λ _, 0 |}.

Definition memory_counter_inc (type : memory_object_type) (m : memory_counters) : memory_counters :=
  let value := memory_counter m type + 1 in
  {| memory_counter := upd (memory_counter m) type value;
     memory_counter_max :=
       if memory_counter_max m type <? value
       then upd (memory_counter_max m) type (memory_counter_max m type + 1)
       else memory_counter_max m |}.

Definition memory_counter_dec (type : memory_object_type) (m : memory_counters) : memory_counters :=
  {| memory_counter := upd (memory_counter m) type (memory_counter m type - 1);
     memory_counter_max := memory_counter_max m |}.

(** What [memory_object_print] prints: one line per non-zero counter and the
    total [not_free]. *)
Definition memory_object_print (m : memory_counters) : list (memory_object_type * Z) * Z :=
  fold_left
    (λ '(lines, not_free) type,
       let count := memory_counter m type in
       if count =? 0 then (lines, not_free)
       else (lines ++ [(type, count)], not_free + count))
    memory_object_types ([], 0).

Definition memory_object_max_print (m : memory_counters) : list (memory_object_type * Z) :=
  fold_left
    (λ lines type,
       let count := memory_counter_max m type in
       if count =? 0 then lines else lines ++ [(type, count)])
    memory_object_types [].

(** ** The counters' invariant: the maximum bounds the current value *)
Definition memory_counters_wf (m : memory_counters) : Prop :=
  ∀ t, memory_counter m t ≤ memory_counter_max m t.

Lemma memory_counters_init_wf : memory_counters_wf memory_counters_init.
Proof. intros t. simpl. lia. Qed.

Lemma memory_counter_inc_wf t m :
  memory_counters_wf m → memory_counters_wf (memory_counter_inc t m).
Proof.
  intros Hm t'. specialize (Hm t'). simpl.
  destruct (Z.ltb_spec (memory_counter_max m t) (memory_counter m t + 1));
    unfold upd; repeat case_decide; subst; lia.
Qed.

Lemma memory_counter_dec_wf t m :
  memory_counters_wf m → memory_counters_wf (memory_counter_dec t m).
Proof.
  intros Hm t'. specialize (Hm t'). simpl. unfold upd. case_decide; subst; lia.
Qed.

Lemma memory_object_types_complete t : t ∈ memory_object_types.
Proof. destruct t; set_solver. Qed.
