(* ===== verification/Kernel.v ===== *)
(** * The kernel environment the module runs in

    The module's code calls the kernel for memory, for the contents of block
    devices and for answers it cannot predict. [world] is what those calls
    read and change:
    - [w_mem], the module's own allocation counters;
    - [w_oracle], the answers of the environment in the order they are asked
      for: 0 is success, anything else the failure a call documents (an
      exhausted list answers 0). Every theorem quantifies over the oracle, so
      it covers every pattern of failures;
    - [w_disk], the bytes of every block device: [w_disk w bdev addr];
    - [w_open], how many references to each block device the module holds
      ([blkdev_get_by_dev] and [blkdev_put]). A block device is named by its
      device number;
    - [w_garbage], the bytes a page holds when [alloc_page] returns it, and
      the bytes a failed transfer leaves behind;
    - [w_bio_list], the running task's [current->bio_list]: [None] when it is
      NULL, else the owners ([bi_private]) of the bios that were submitted and
      are held back until the task submits them again. *)
From S2P Require Import Prelude MemoryChecker.

Record world := World {
  w_mem : memory_counters;
  w_oracle : list Z;
  w_disk : Z → Z → Z;
  w_open : Z → Z;
  w_garbage : Z → Z;
  w_bio_list : option (list Z);
}.

Notation K := (M world).

(** A world in which nothing fails and every byte is zero. *)
Definition world0 : world :=
  {| w_mem := memory_counters_init; w_oracle := []; w_disk := λ _ _, 0;
     w_open := λ _, 0; w_garbage := λ _, 0;
     w_bio_list := None |}.

(** The next answer of the environment. *)
Definition oracle : K Z :=
  λ w, match w_oracle w with
       | [] => (0, w)
       | v :: vs => (v, {| w with w_oracle := vs |})
       end.

(** [kzalloc], [kcalloc], [__vmalloc], [alloc_page]: does the allocation
    succeed? *)
Definition alloc : K bool := v ← oracle; mret (v =? 0).

(** [copy_from_user], [copy_to_user]: the number of bytes not copied. *)
Definition copy_user (size : Z) : K Z := v ← oracle; mret (Z.max 0 (Z.min v size)).

Definition memory_object_inc (t : memory_object_type) : K unit :=
  modify (λ w, {| w with w_mem := memory_counter_inc t (w_mem w) |}).
Definition memory_object_dec (t : memory_object_type) : K unit :=
  modify (λ w, {| w with w_mem := memory_counter_dec t (w_mem w) |}).

(** [blkdev_get_by_dev]: the device, or an error pointer. *)
Definition blkdev_get_by_dev (dev_id : Z) : K (result Z) :=
  v ← oracle;
  if v =? 0 then
    modify (λ w, {| w with w_open := upd (w_open w) dev_id (w_open w dev_id + 1) |});;
    mret (Ok dev_id)
  else mret (Err (- Z.abs v)).
Definition blkdev_put (bdev : Z) : K unit :=
  modify (λ w, {| w with w_open := upd (w_open w) bdev (w_open w bdev - 1) |}).

(** Transfers of [len] bytes between a device and memory. *)
Definition disk_write (bdev addr len : Z) (data : Z → Z) (d : Z → Z → Z) : Z → Z → Z :=
  λ b a, if (b =? bdev) && (addr <=? a) && (a <? addr + len) then data (a - addr) else d b a.

Lemma disk_write_in bdev addr len data d a :
  addr ≤ a < addr + len → disk_write bdev addr len data d bdev a = data (a - addr).
Proof.
  intros. unfold disk_write.
  by rewrite Z.eqb_refl, (proj2 (Z.leb_le _ _)), (proj2 (Z.ltb_lt _ _)) by lia.
Qed.

Lemma disk_write_out bdev addr len data d b a :
  b ≠ bdev ∨ a < addr ∨ addr + len ≤ a → disk_write bdev addr len data d b a = d b a.
Proof.
  intros H. unfold disk_write.
  destruct (Z.eqb_spec b bdev); destruct (Z.leb_spec addr a);
    destruct (Z.ltb_spec a (addr + len)); simpl; try done; lia.
Qed.

(** ** What the kernel calls leave unchanged

    The device contents are changed by I/O only, and the counters by the
    counter calls only. *)
Lemma wp_oracle w Q :
  (∀ v vs, Q v {| w with w_oracle := vs |}) → wp oracle w Q.
Proof.
  intros H. unfold wp, oracle. destruct (w_oracle w) as [|v vs] eqn:E; simpl; [|apply H].
  specialize (H 0 []). rewrite <- E in H. by destruct w.
Qed.

Lemma wp_alloc w (Q : bool → world → Prop) :
  (∀ b vs, Q b {| w with w_oracle := vs |}) → wp alloc w Q.
Proof. intros H. unfold alloc. wp_steps. apply wp_oracle. intros. wp_steps. apply H. Qed.

(** An environment with nothing left to refuse. *)
Lemma wp_oracle_nil w Q : w_oracle w = [] → wp oracle w Q ↔ Q 0 w.
Proof. intros E. unfold wp, oracle. by rewrite E. Qed.

Lemma wp_alloc_nil w (Q : bool → world → Prop) : w_oracle w = [] → wp alloc w Q ↔ Q true w.
Proof. intros E. unfold alloc. by rewrite wp_bind, wp_oracle_nil. Qed.

Lemma wp_copy_user size w (Q : Z → world → Prop) :
  0 ≤ size →
  (∀ n vs, 0 ≤ n ≤ size → Q n {| w with w_oracle := vs |}) → wp (copy_user size) w Q.
Proof.
  intros Hs H. unfold copy_user. wp_steps. apply wp_oracle. intros. wp_steps. apply H. lia.
Qed.

Lemma wp_memory_object_inc t w Q :
  wp (memory_object_inc t) w Q ↔ Q tt {| w with w_mem := memory_counter_inc t (w_mem w) |}.
Proof. done. Qed.

Lemma wp_memory_object_dec t w Q :
  wp (memory_object_dec t) w Q ↔ Q tt {| w with w_mem := memory_counter_dec t (w_mem w) |}.
Proof. done. Qed.

Lemma wp_blkdev_put bdev w Q :
  wp (blkdev_put bdev) w Q ↔
  Q tt {| w with w_open := upd (w_open w) bdev (w_open w bdev - 1) |}.
Proof. done. Qed.

Definition wp_step_object_inc t w Q : WpStep (memory_object_inc t) w Q _ :=
  proj2 (wp_memory_object_inc t w Q).
Definition wp_step_object_dec t w Q : WpStep (memory_object_dec t) w Q _ :=
  proj2 (wp_memory_object_dec t w Q).
Definition wp_step_blkdev_put bdev w Q : WpStep (blkdev_put bdev) w Q _ :=
  proj2 (wp_blkdev_put bdev w Q).
#[global] Hint Resolve wp_step_object_inc wp_step_object_dec wp_step_blkdev_put : wp.

Lemma wp_blkdev_get_by_dev dev w (Q : result Z → world → Prop) :
  (∀ e vs, e < 0 → Q (Err e) {| w with w_oracle := vs |}) →
  (∀ vs, Q (Ok dev) {| w with w_oracle := vs;
                          w_open := upd (w_open w) dev (w_open w dev + 1) |}) →
  wp (blkdev_get_by_dev dev) w Q.
Proof.
  intros HE HO. unfold blkdev_get_by_dev. wp_steps. apply wp_oracle. intros v vs.
  wp_if E; wp_steps; [apply HO|]. bool_hyps. apply HE. lia.
Qed.

(** From [w] to [w'] only the counters have changed and answers of the
    environment were consumed. *)
Record quiet (w w' : world) : Prop := {
  quiet_disk : w_disk w' = w_disk w;
  quiet_open : w_open w' = w_open w;
  quiet_garbage : w_garbage w' = w_garbage w;
  quiet_bio_list : w_bio_list w' = w_bio_list w;
}.

Ltac solve_quiet :=
  repeat match goal with H : quiet _ _ |- _ => destruct H end;
  split; simpl in *; congruence.
#[export] Hint Extern 0 (quiet _ _) => solve_quiet : core.

#[global] Instance quiet_preorder : PreOrder quiet.
Proof. split; [intros w; done|intros w1 w2 w3 ? ?; done]. Qed.

(** Two worlds with the same allocation counts. *)
Definition mem_delta (w w' : world) (t : memory_object_type) (d : Z) : Prop :=
  memory_counter (w_mem w') t = memory_counter (w_mem w) t + d.

(** Module parameters (main.c); the defaults are [default_params]. *)
Class ModuleParams := {
  tracking_block_minimum_shift : Z;
  tracking_block_maximum_count : Z;
  chunk_minimum_shift : Z;
  chunk_maximum_count : Z;
  chunk_maximum_in_cache : Z;
  free_diff_buffer_pool_size : Z;
  diff_storage_minimum : Z;
}.

Definition default_params : ModuleParams :=
  {| tracking_block_minimum_shift := 16;
     tracking_block_maximum_count := 2097152;
     chunk_minimum_shift := 18;
     chunk_maximum_count := 2097152;
     chunk_maximum_in_cache := 32;
     free_diff_buffer_pool_size := 128;
     diff_storage_minimum := 2097152 |}.
