(* ===== verification/Log.v ===== *)
(** * Logging to a file (log.c, log.h)

    Messages take a request from a pool of 128, are queued, and are written by a
    thread. The prefix's time stamp and process id are not modelled; a message is
    its level and its bytes.

    The functions are the code of one task that is not interrupted; LogTasks.v cuts
    them at the points where another task can come in and has the theorems about all
    interleavings. *)
From S2P Require Import Prelude MemoryChecker Kernel.

(** [sizeof(struct list_head)] is 16 and [sizeof(struct log_request_header)] 32. *)
Definition LOG_REQUEST_BUFFER_SIZE : Z := 512 - 16 - 32.
Definition LOG_REQUEST_POOL_SIZE : Z := 128.
Definition LOGLEVEL_INFO : Z := 6.
Definition LOGLEVEL_DEBUG : Z := 7.

(** [struct log_request] without its link: the header's level, and as many bytes of
    the buffer as the header's size says. *)
Record log_request := LogRequest { rq_level : Z; rq_text : list Z }.

(** The thread: it has been created and runs, or it has returned by itself. *)
Inductive thread : Type := Running | Exited.

(** The static variables of log.c, and of the thread's function its [filp] (the
    path of the file that is open). [lg_written] is what has been written, as pairs
    of a path and a message. [lg_bad] records a use of the thread after it has
    returned or of a level without a text, [lg_after_close] a write to a file that
    has been closed. *)
Record logst := LogSt {
  log_requests_pool : Z → log_request;
  log_level : Z;
  log_filepath : option (list Z);
  log_tz_minuteswest : Z;
  log_free_requests : list Z;
  log_active_requests : list Z;
  log_task : option thread;
  log_missed_counter : Z;
  lg_filp : option (list Z);
  lg_kern : world;
  lg_written : list (list Z * log_request);
  lg_bad : bool;
  lg_after_close : bool;
}.

Notation L := (M logst).

Definition lg_on {A} (m : K A) : L A := zoom lg_kern (λ w s, {| s with lg_kern := w |}) m.
Definition lg_misuse : L unit := modify (λ s, {| s with lg_bad := true |}).

(** The numbers of the requests in the pool, in the order [log_init] links them. *)
Definition pool_numbers : list Z := Z.of_nat <$> seq 0 (Z.to_nat LOG_REQUEST_POOL_SIZE).

Definition log_init : L unit := modify (λ s, {| s with log_free_requests := pool_numbers |}).

Definition done_filepath : L unit :=
  p ← gets log_filepath;
  match p with
  | None => skip
  | Some _ =>
      lg_on (memory_object_dec memory_object_log_filepath);;
      modify (λ s, {| s with log_filepath := None |})
  end.

(** ** Requests *)

Definition log_request_new : L (option Z) :=
  l ← gets log_free_requests;
  match l with
  | [] => modify (λ s, {| s with log_missed_counter := log_missed_counter s + 1 |});; mret None
  | rq :: l => modify (λ s, {| s with log_free_requests := l |});; mret (Some rq)
  end.

Definition log_request_free (rq : Z) : L unit :=
  modify (λ s, {| s with log_free_requests := log_free_requests s ++ [rq] |}).

Definition log_request_push (rq : Z) : L unit :=
  modify (λ s, {| s with log_active_requests := log_active_requests s ++ [rq] |}).

Definition log_request_get : L (option Z) :=
  l ← gets log_active_requests;
  match l with
  | [] => mret None
  | rq :: l => modify (λ s, {| s with log_active_requests := l |});; mret (Some rq)
  end.

Definition log_request_is_ready : L bool :=
  l ← gets log_active_requests;
  mret (negb (bool_decide (l = []))).

(** [log_level_text] has eight entries. *)
Definition log_request_write (filp : option (list Z)) (rq : log_request) : L unit :=
  match filp with
  | None => skip
  | Some path =>
      when ((rq_level rq <? 0) || (7 <? rq_level rq)) lg_misuse;;
      modify (λ s, {| s with lg_written := lg_written s ++ [(path, rq)] |})
  end.

(** [vscnprintf] writes at most one byte less than the buffer has. *)
Definition log_request_fill (level : Z) (text : list Z) : log_request :=
  {| rq_level := level; rq_text := take (Z.to_nat (LOG_REQUEST_BUFFER_SIZE - 1)) text |}.

Definition log_printk_direct (filp : option (list Z)) (level : Z) (text : list Z) : L unit :=
  log_request_write filp (log_request_fill level text).

(** ** The thread *)

Definition log_reopen : L unit :=
  f ← gets lg_filp;
  match f with
  | Some _ => skip
  | None =>
      p ← gets log_filepath;
      match p with
      | None => skip
      | Some path =>
          err ← lg_on oracle;
          if err =? 0 then modify (λ s, {| s with lg_filp := Some path |}) else done_filepath
      end
  end.

Definition log_close : L unit := modify (λ s, {| s with lg_filp := None |}).

(** Write the request and give it back. *)
Definition write_and_free (rq : Z) : L unit :=
  filp ← gets lg_filp;
  r ← gets (λ s, log_requests_pool s rq);
  log_request_write filp r;;
  log_request_free rq.

(** [text_missed n] is the text of the message about [n] missed messages. *)
Section params.
Context (text_missed : Z → list Z) (text_start text_stop : list Z).

(** A turn of the [while] loop of [log_processor]; [false] for its [break].
    [woken] is what [log_waiting] returns. *)
Definition log_processor_turn (woken : bool) : L bool :=
  missed ← gets log_missed_counter;
  (if negb (missed =? 0) then
     modify (λ s, {| s with log_missed_counter := log_missed_counter s - missed |});;
     log_reopen;;
     filp ← gets lg_filp;
     log_printk_direct filp LOGLEVEL_INFO (text_missed missed)
   else skip);;
  rq ← log_request_get;
  match rq with
  | Some rq =>
      log_reopen;;
      write_and_free rq;;
      filp ← gets lg_filp;
      mret (match filp with Some _ => true | None => false end)
  | None => when (negb woken) log_close;; mret true
  end.

(** The second loop, which empties the queue; one turn per active request. *)
Fixpoint log_drain (fuel : nat) : L unit :=
  match fuel with
  | O => skip
  | S fuel =>
      rq ← log_request_get;
      match rq with
      | None => skip
      | Some rq => write_and_free rq;; log_drain fuel
      end
  end.

(** What [log_processor] does after its loop. *)
Definition log_processor_end : L unit :=
  log_reopen;;
  l ← gets log_active_requests;
  log_drain (S (length l));;
  filp ← gets lg_filp;
  log_printk_direct filp LOGLEVEL_INFO text_stop;;
  log_close.

(** The thread takes a turn, and returns when the loop breaks. *)
Definition log_processor (woken : bool) : L unit :=
  again ← log_processor_turn woken;
  if (again : bool) then skip
  else log_processor_end;; modify (λ s, {| s with log_task := Some Exited |}).

(** [kthread_stop] lets the thread finish and waits for it; a thread that has
    returned is gone. *)
Definition done_task : L unit :=
  t ← gets log_task;
  match t with
  | None => skip
  | Some t =>
      (match t with Running => log_processor_end | Exited => lg_misuse end);;
      modify (λ s, {| s with log_task := None |})
  end.

Definition log_done : L unit :=
  modify (λ s, {| s with log_level := -1 |});;
  done_task;;
  done_filepath.

(** The paths of [log_restart] through its label [fail]. *)
Definition restart_fail (ret : Z) : L Z := lg_on (memory_object_dec memory_object_log_filepath);; mret ret.

(** [log_restart] behind its call of [log_init]: the file is tried, the thread is
    created, the variables are set and the first message is written. *)
Definition log_start (level : Z) (path : list Z) (tz_minuteswest : Z) : L Z :=
  err ← lg_on oracle;
  if negb (err =? 0) then restart_fail (- Z.abs err)
  else
    ret ← lg_on oracle;
    if ret <? 0 then restart_fail ret
    else
      err ← lg_on oracle;
      if negb (err =? 0) then restart_fail (- Z.abs err)
      else
        modify (λ s, {| s with log_task := Some Running; log_filepath := Some path;
          log_level := if level <=? LOGLEVEL_DEBUG then level else LOGLEVEL_DEBUG;
          log_tz_minuteswest := tz_minuteswest; lg_filp := None; lg_after_close := true |});;
        log_printk_direct (Some path) LOGLEVEL_INFO text_start;;
        mret 0.

(** [log_restart]; the caller has counted the memory of [filepath]. *)
Definition log_restart (level : Z) (filepath : option (list Z)) (tz_minuteswest : Z) : L Z :=
  match filepath with
  | None => if level <? 0 then log_done;; mret 0 else mret (- EINVAL)
  | Some path =>
      p ← gets log_filepath;
      if bool_decide (p = Some path) then
        l ← gets log_level;
        if level =? l then restart_fail (- EALREADY)
        else
          when (0 <=? level) (modify (λ s, {| s with log_level := level |}));;
          restart_fail 0
      else
        log_done;;
        log_init;;
        log_start level path tz_minuteswest
  end.
End params.

(** ** Messages *)

Definition log_vprintk (level : Z) (text : list Z) : L unit :=
  rq ← log_request_new;
  match rq with
  | None => skip
  | Some rq =>
      modify (λ s, {| s with log_requests_pool :=
        upd (log_requests_pool s) rq (log_request_fill level text) |});;
      log_request_push rq
  end.

Definition log_printk (level : Z) (text : list Z) : L unit :=
  l ← gets log_level;
  when (level <=? l) (log_vprintk level text).

(** Symbolic execution that computes the fields of an updated state at once. *)
Ltac lg_steps :=
  repeat (lazymatch goal with |- wp _ _ _ => wp_step;
    cbn [log_requests_pool log_level log_filepath log_tz_minuteswest log_free_requests
         log_active_requests log_task log_missed_counter lg_filp lg_kern lg_written lg_bad
         lg_after_close] end).

(** ** Properties *)

(** The pool: every request is free or waits to be written, and only once. *)
Definition pool_ok (s : logst) : Prop := log_free_requests s ++ log_active_requests s ≡ₚ pool_numbers.

Definition request_ok (r : log_request) : Prop :=
  0 ≤ rq_level r ≤ 7 ∧ lenZ (rq_text r) < LOG_REQUEST_BUFFER_SIZE.

Record log_ok (s : logst) : Prop := {
  lo_pool : pool_ok s;
  lo_requests : Forall (λ rq, request_ok (log_requests_pool s rq)) (log_active_requests s);
  lo_idle : log_task s = None → log_active_requests s = [] ∧ log_level s = -1 ∧ log_filepath s = None;
  lo_bad : lg_bad s = false;
}.

Section steps.
Context (text_missed : Z → list Z) (text_start text_stop : list Z).

(** What happens to the log when every task runs to its end: a message of one of the
    eight levels, a turn of the thread while it runs, a request to restart while it has
    not returned by itself. *)
Inductive log_step : logst → logst → Prop :=
  | log_step_printk s level text s' :
      0 ≤ level ≤ 7 → log_printk level text s = (tt, s') → log_step s s'
  | log_step_thread s woken s' :
      log_task s = Some Running → log_processor text_missed text_stop woken s = (tt, s') → log_step s s'
  | log_step_restart s level path tz ret s' :
      log_task s ≠ Some Exited → log_restart text_start text_stop level path tz s = (ret, s') →
      log_step s s'.

Lemma fill_ok level text : 0 ≤ level ≤ 7 → request_ok (log_request_fill level text).
Proof.
  intros. split; [done|]. unfold log_request_fill, lenZ, LOG_REQUEST_BUFFER_SIZE. cbn [rq_text].
  rewrite length_take. lia.
Qed.

(** Only the file, the messages written, the path and the kernel change. *)
Record log_same (s s' : logst) : Prop := {
  ls_pool : log_requests_pool s' = log_requests_pool s;
  ls_free : log_free_requests s' = log_free_requests s;
  ls_active : log_active_requests s' = log_active_requests s;
  ls_task : log_task s' = log_task s;
  ls_level : log_level s' = log_level s;
  ls_bad : lg_bad s' = lg_bad s;
  ls_path : log_filepath s' = log_filepath s ∨ log_filepath s' = None;
}.

Ltac solve_same := split; simpl in *; first [congruence|left; congruence|right; congruence].

Lemma log_same_ok s s' : log_same s s' → log_ok s → log_ok s'.
Proof.
  intros [Ep Ef Ea Et El Eb Eph] [Hp Hr Hi Hb]. split; unfold pool_ok; rewrite ?Ep, ?Ef, ?Ea, ?Et, ?El, ?Eb;
    try done. intros H. destruct (Hi H) as (? & ? & ?). split_and!; try done. by destruct Eph as [->|].
Qed.

Lemma write_spec filp r s :
  request_ok r → wp (log_request_write filp r) s (λ _ s',
    log_same s s' ∧ lg_filp s' = lg_filp s ∧ log_filepath s' = log_filepath s ∧
    lg_written s' = lg_written s ++ match filp with Some p => [(p, r)] | None => [] end).
Proof.
  intros [[? ?] _]. unfold log_request_write. destruct filp as [p|]; wp_steps; cbn.
  - rewrite (proj2 (Z.ltb_ge _ _)), (proj2 (Z.ltb_ge _ _)) by lia. cbn. wp_steps. split_and!; try done. solve_same.
  - rewrite app_nil_r. split_and!; try done. solve_same.
Qed.

Lemma done_filepath_spec s : wp done_filepath s (λ _ s',
  log_same s s' ∧ lg_filp s' = lg_filp s ∧ log_filepath s' = None ∧ lg_written s' = lg_written s).
Proof.
  unfold done_filepath, lg_on. wp_steps. destruct (log_filepath s) eqn:E; wp_steps; split_and!; try done; solve_same.
Qed.

Lemma log_reopen_spec s : wp log_reopen s (λ _ s',
  log_same s s' ∧ lg_written s' = lg_written s ∧
  match lg_filp s with Some p => s' = s | None => lg_filp s' = None ∨ lg_filp s' = log_filepath s end).
Proof.
  unfold log_reopen. wp_steps. destruct (lg_filp s) eqn:Ef; [wp_steps; split_and!; try done; solve_same|]. wp_steps.
  destruct (log_filepath s) as [p|] eqn:Ep; wp_steps; [|split_and!; [solve_same|done|by left]].
  unfold lg_on. wp_steps. apply wp_oracle. intros v vs. destruct (v =? 0).
  - wp_steps. split_and!; [solve_same|done|by right].
  - eapply wp_mono; [apply done_filepath_spec|]. intros [] s' ([] & Hf & Hp & Hw). cbn in *.
    split_and!; [solve_same|done|left; congruence].
Qed.

Lemma write_and_free_spec rq s l :
  log_ok {| s with log_active_requests := rq :: l |} →
  wp (write_and_free rq) {| s with log_active_requests := l |} (λ _ s',
    log_ok s' ∧ log_active_requests s' = l ∧ lg_filp s' = lg_filp s ∧ log_task s' = log_task s ∧
    log_requests_pool s' = log_requests_pool s ∧ log_level s' = log_level s ∧
    lg_written s' = lg_written s ++
      match lg_filp s with Some p => [(p, log_requests_pool s rq)] | None => [] end).
Proof.
  intros [Hp Hr Hi Hb]. cbn in *. inversion_clear Hr as [|? ? Hr1 Hr2]. unfold write_and_free. wp_steps.
  eapply wp_mono; [by apply write_spec|]. intros [] s1 ([Ep Ef Ea Et El Eb Eph] & Hf & _ & Hw).
  cbn in *. unfold log_request_free. wp_steps. cbn. split_and!; try congruence. split; cbn.
  - unfold pool_ok in *. cbn in *. by rewrite Ef, Ea, <- Hp, <- app_assoc.
  - by rewrite Ea, Ep.
  - rewrite Et. intros H. by destruct (Hi H).
  - congruence.
Qed.

Lemma log_request_get_spec s :
  wp log_request_get s (λ r s',
    match log_active_requests s with
    | [] => r = None ∧ s' = s
    | rq :: l => r = Some rq ∧ s' = {| s with log_active_requests := l |}
    end).
Proof. unfold log_request_get. wp_steps. by destruct (log_active_requests s); wp_steps. Qed.

(** The messages of the active requests, as they go to an open file. *)
Definition pending (s : logst) : list log_request := log_requests_pool s <$> log_active_requests s.
Definition to_file (filp : option (list Z)) (l : list log_request) : list (list Z * log_request) :=
  match filp with Some p => pair p <$> l | None => [] end.

Lemma log_drain_spec fuel s :
  log_ok s → (length (log_active_requests s) < fuel)%nat →
  wp (log_drain fuel) s (λ _ s',
    log_ok s' ∧ log_active_requests s' = [] ∧ lg_filp s' = lg_filp s ∧ log_task s' = log_task s ∧
    log_level s' = log_level s ∧ lg_written s' = lg_written s ++ to_file (lg_filp s) (pending s)).
Proof.
  revert s. induction fuel as [|fuel IH]; intros s Hok Hlen; [lia|]. cbn [log_drain]. wp_step.
  eapply wp_mono; [apply log_request_get_spec|]. intros r s1 H1. unfold pending.
  destruct (log_active_requests s) as [|rq l] eqn:Ea.
  - destruct H1 as [-> ->]. wp_steps. split_and!; try done. cbn. unfold to_file.
    by destruct (lg_filp s); rewrite app_nil_r.
  - destruct H1 as [-> ->]. wp_step. eapply wp_mono.
    { apply write_and_free_spec. rewrite <- Ea. by destruct s. }
    intros [] s2 (Hok2 & Ha2 & Hf2 & Ht2 & Hp2 & Hl2 & Hw2). cbn in Hlen.
    eapply wp_mono; [apply (IH s2 Hok2); rewrite Ha2; lia|].
    intros [] s3 (Hok3 & Ha3 & Hf3 & Ht3 & Hl3 & Hw3). split_and!; try congruence.
    rewrite Hw3, Hw2, Hf2. unfold pending. rewrite Ha2, Hp2, <- app_assoc. by destruct (lg_filp s).
Qed.

Lemma end_spec s :
  log_ok s →
  wp (log_processor_end text_stop) s (λ _ s',
    log_ok s' ∧ log_active_requests s' = [] ∧ log_task s' = log_task s ∧ log_level s' = log_level s ∧
    (∀ p, lg_filp s = Some p →
       lg_written s' = lg_written s ++ to_file (Some p) (pending s ++ [log_request_fill LOGLEVEL_INFO text_stop]))).
Proof.
  intros Hok. unfold log_processor_end. wp_step. eapply wp_mono; [apply log_reopen_spec|].
  intros [] s1 (Hs1 & Hw1 & Hf1). pose proof (log_same_ok _ _ Hs1 Hok) as Hok1. wp_steps.
  eapply wp_mono; [apply log_drain_spec; [done|lia]|].
  intros [] s2 (Hok2 & Ha2 & Hf2 & Ht2 & Hl2 & Hw2). wp_steps. unfold log_printk_direct.
  eapply wp_mono; [apply write_spec, fill_ok; unfold LOGLEVEL_INFO; lia|].
  intros [] s3 (Hs3 & Hf3 & _ & Hw3). unfold log_close. wp_steps. cbn.
  pose proof (log_same_ok _ _ Hs3 Hok2) as Hok3. destruct Hs1, Hs3. split_and!; try congruence.
  - by destruct Hok3.
  - intros p Hp. rewrite Hp in Hf1. subst s1. rewrite Hw3, Hf2, Hp, Hw2, Hp. unfold to_file.
    by rewrite fmap_app, <- app_assoc.
Qed.

Lemma log_turn_spec woken s :
  log_ok s → log_task s = Some Running →
  wp (log_processor_turn text_missed woken) s (λ _ s', log_ok s' ∧ log_task s' = Some Running).
Proof.
  intros Hok Ht. unfold log_processor_turn. wp_step. wp_step. wp_step.
  apply wp_mono with (P := λ _ s', log_ok s' ∧ log_task s' = Some Running).
  { destruct (negb _); [|by wp_steps]. wp_steps.
    eapply wp_mono; [apply log_reopen_spec|]. intros [] s1 (Hs1 & _). wp_steps. unfold log_printk_direct.
    eapply wp_mono; [apply write_spec, fill_ok; unfold LOGLEVEL_INFO; lia|]. intros [] s2 (Hs2 & _).
    split; [|destruct Hs1, Hs2; cbn in *; congruence]. eapply log_same_ok; [done|].
    eapply log_same_ok; [done|]. by destruct Hok. }
  intros [] s1 [Hok1 Ht1]. wp_step. eapply wp_mono; [apply log_request_get_spec|]. intros r s2 H2.
  destruct (log_active_requests s1) as [|rq l] eqn:Ea; destruct H2 as [-> ->].
  { unfold when, log_close. destruct (negb woken); wp_steps; (split; [|done]); [by destruct Hok1|done]. }
  wp_step. eapply wp_mono; [apply log_reopen_spec|]. intros [] s3 ([Ep Ef Ea3 Et El Eb Eph] & _ & _). cbn in *. wp_step.
  assert (s3 = {| s3 with log_active_requests := l |}) as -> by (rewrite <- Ea3; by destruct s3).
  eapply wp_mono; [apply write_and_free_spec|].
  { destruct Hok1 as [Hp Hr Hi Hb]. split; cbn.
    - unfold pool_ok in *. cbn. by rewrite Ef, <- Ea.
    - by rewrite Ep, <- Ea.
    - by rewrite Et, Ht1.
    - congruence. }
  intros [] s4 (Hok4 & _ & _ & Ht4 & _). wp_steps. split; [done|congruence].
Qed.

Lemma log_done_spec s :
  log_ok s → log_task s ≠ Some Exited →
  wp (log_done text_stop) s (λ _ s',
    log_ok s' ∧ log_active_requests s' = [] ∧ log_task s' = None ∧ log_level s' = -1 ∧
    (∀ p, log_task s = Some Running → lg_filp s = Some p →
       lg_written s' = lg_written s ++ to_file (Some p) (pending s ++ [log_request_fill LOGLEVEL_INFO text_stop]))).
Proof.
  intros [Hp Hr Hi Hb] Ht. unfold log_done, done_task. wp_steps. cbn [log_task].
  set (s1 := {| s with log_level := -1 |}).
  destruct (log_task s) as [[]|] eqn:Et; [|done|].
  - wp_step. eapply wp_mono; [apply (end_spec s1); split; try done; cbn; by rewrite Et|].
    intros [] s2 (Hok2 & Ha2 & Ht2 & Hl2 & Hw2). wp_steps.
    eapply wp_mono; [apply done_filepath_spec|]. intros [] s3 ([Ep Ef Ea Et3 El Eb Eph] & _ & Hpn & Hw3). cbn in *.
    split_and!; try congruence.
    + destruct Hok2 as [Hp2 Hr2 Hi2 Hb2]. split; unfold pool_ok in *; rewrite ?Ef, ?Ea, ?Ep, ?El, ?Eb; done.
    + intros p _ Hf. rewrite Hw3. by apply Hw2.
  - wp_steps. eapply wp_mono; [apply done_filepath_spec|]. intros [] s3 ([Ep Ef Ea Et3 El Eb Eph] & _ & Hpn & Hw3).
    cbn in *. destruct (Hi eq_refl) as [Hi1 Hi2].
    split_and!; try congruence. split; unfold pool_ok in *; rewrite ?Ef, ?Ea, ?Ep, ?El, ?Eb; done.
Qed.

Lemma log_printk_spec level text s :
  log_ok s → 0 ≤ level ≤ 7 →
  wp (log_printk level text) s (λ _ s',
    log_ok s' ∧ log_task s' = log_task s ∧
    if level <=? log_level s then
      match log_free_requests s with
      | [] => s' = {| s with log_missed_counter := log_missed_counter s + 1 |}
      | rq :: l => log_free_requests s' = l ∧ pending s' = pending s ++ [log_request_fill level text] ∧
                   log_missed_counter s' = log_missed_counter s
      end
    else s' = s).
Proof.
  intros Hok Hl. unfold log_printk, when. wp_steps. destruct (Z.leb_spec level (log_level s)) as [Hlv|_]; [|by wp_steps].
  destruct Hok as [Hp Hr Hi Hb]. unfold log_vprintk, log_request_new, log_request_push. wp_steps.
  destruct (log_free_requests s) as [|rq l] eqn:Ef; wp_steps.
  { rewrite <- Ef. by split_and!. }
  assert (Hrq : rq ∉ log_active_requests s).
  { unfold pool_ok in Hp. rewrite Ef in Hp. assert (Hnd : NoDup (rq :: l ++ log_active_requests s)).
    { rewrite Hp. apply NoDup_fmap_2; [by intros ? ? ?%Nat2Z.inj|]. apply NoDup_ListNoDup, seq_NoDup. }
    apply NoDup_cons in Hnd as [Hnd _]. intros Hin. apply Hnd, elem_of_app. by right. }
  assert (Hsame : ∀ r, r ∈ log_active_requests s →
    upd (log_requests_pool s) rq (log_request_fill level text) r = log_requests_pool s r).
  { intros r Hr'. apply upd_ne. by intros ->. }
  split_and!; cbn; try done.
  - split; cbn; try done.
    + unfold pool_ok in *. cbn. rewrite <- Hp, Ef. rewrite (Permutation_app_comm _ [rq]). cbn.
      by rewrite <- Permutation_middle.
    + apply Forall_app. split; [|constructor; [by rewrite upd_eq; apply fill_ok|constructor]].
      rewrite Forall_forall in *. intros r Hr'. rewrite Hsame by done. by apply Hr.
    + intros Ht. destruct (Hi Ht) as [_ Hi2]. lia.
  - unfold pending. cbn. rewrite fmap_app. cbn. rewrite upd_eq. f_equal. apply list_fmap_ext.
    intros j r Hj. apply Hsame. by eapply list_elem_of_lookup_2.
Qed.

Lemma log_step_ok s s' : log_ok s → log_step s s' → log_ok s'.
Proof.
  intros Hok Hst. destruct Hst as [s level text s' Hl E|s woken s' Ht E|s level path tz ret s' Ht E].
  - by apply (wp_run _ _ _ _ _ (log_printk_spec level text s Hok Hl) E).
  - eapply (wp_run _ _ (λ _ s', log_ok s')); [|exact E]. unfold log_processor. wp_step.
    eapply wp_mono; [by apply log_turn_spec|]. intros again s1 [Hok1 Ht1]. destruct again; [by wp_steps|].
    wp_step. eapply wp_mono; [by apply end_spec|]. intros [] s2 (Hok2 & _). wp_steps.
    destruct Hok2. by split.
  - eapply (wp_run _ _ (λ _ s', log_ok s')); [|exact E]. unfold log_restart, restart_fail, log_start, lg_on.
    destruct path as [path|].
    2:{ destruct (_ <? _); wp_steps; [|done]. eapply wp_mono; [by apply log_done_spec|].
        intros [] s1 (? & _). by wp_steps. }
    wp_step. wp_step. case_bool_decide as Hpath.
    { wp_steps. destruct (level =? log_level s) eqn:El; wp_steps; [by destruct Hok|].
      unfold when. destruct (0 <=? level); wp_steps; [|by destruct Hok].
      destruct Hok as [Hp Hr Hi Hb]. split; try done. cbn. intros H. destruct (Hi H) as (_ & _ & ?). congruence. }
    wp_step. eapply wp_mono; [by apply log_done_spec|]. intros [] s1 ([Hp Hr Hi Hb] & Ha & Ht1 & Hl & _).
    assert (Hp0 : ∀ l, pool_numbers ++ l ≡ₚ pool_numbers ↔ l = []).
    { intros l. split; [|intros ->; by rewrite app_nil_r]. intros H%Permutation_length.
      rewrite length_app in H. apply nil_length_inv. lia. }
    unfold log_init. lg_steps. apply wp_oracle. intros v1 vs1.
    assert (Hok1 : ∀ w, log_ok {| s1 with log_free_requests := pool_numbers; lg_kern := w |}).
    { intros w. split; try done. unfold pool_ok. cbn. by apply Hp0. }
    destruct (v1 =? 0); cbn [negb]; lg_steps; [|apply Hok1]. apply wp_oracle. intros v2 vs2.
    destruct (v2 <? 0); lg_steps; [apply Hok1|]. apply wp_oracle. intros v3 vs3.
    destruct (v3 =? 0); cbn [negb]; lg_steps; [|apply Hok1].
    unfold log_printk_direct. eapply wp_mono; [apply write_spec, fill_ok; unfold LOGLEVEL_INFO; lia|].
    intros [] s2 (Hs2 & _). lg_steps. eapply log_same_ok; [exact Hs2|]. split; try done; cbn.
    unfold pool_ok. cbn. by apply Hp0.
Qed.

(** A message is queued behind the others, or it is counted as missed.
    [log_printk] of a level that is logged appends the message, cut to 463 bytes, to
    those that wait, if a request is free, and else adds one to the count of missed
    messages; a level above the log's changes nothing. *)
Theorem log_printk_queues level text s0 s :
  log_free_requests s0 = pool_numbers → log_active_requests s0 = [] → log_level s0 = -1 →
  log_filepath s0 = None → lg_bad s0 = false → rtc log_step s0 s → 0 ≤ level ≤ 7 →
  wp (log_printk level text) s (λ _ s',
    if level <=? log_level s then
      match log_free_requests s with
      | [] => s' = {| s with log_missed_counter := log_missed_counter s + 1 |}
      | rq :: l =>
          log_free_requests s' = l ∧
          pending s' = pending s ++ [{| rq_level := level; rq_text := take 463 text |}] ∧
          log_missed_counter s' = log_missed_counter s
      end
    else s' = s).
Proof.
  intros Hf Ha Hl Hp Hb Hr Hlv. assert (Hok : log_ok s).
  { assert (H0 : log_ok s0); [|clear -H0 Hr; induction Hr; eauto using log_step_ok].
    split; try done; [unfold pool_ok; by rewrite Hf, Ha, app_nil_r|by rewrite Ha]. }
  eapply wp_mono; [by apply log_printk_spec|]. by intros [] s' (_ & _ & H).
Qed.

(** C29: stopping the log writes everything that is queued. When the thread runs
    with its file open, [log_done] leaves the file with all queued messages in
    their order behind what was there, then the message about the stop, and the
    queue empty. *)
Theorem log_done_flushes s p :
  log_ok s → log_task s = Some Running → lg_filp s = Some p →
  wp (log_done text_stop) s (λ _ s',
    log_active_requests s' = [] ∧ log_task s' = None ∧
    lg_written s' = lg_written s ++
      (pair p <$> pending s ++ [log_request_fill LOGLEVEL_INFO text_stop])).
Proof.
  intros Hok Ht Hf. eapply wp_mono; [apply log_done_spec; [done|congruence]|].
  intros [] s' (_ & Ha & Ht' & _ & Hw). split_and!; try done. by apply Hw.
Qed.
End steps.

(** ** Witnesses *)

Definition log0 (oracle : list Z) : logst :=
  {| log_requests_pool := λ _, {| rq_level := 0; rq_text := [] |}; log_level := -1; log_filepath := None;
     log_tz_minuteswest := 0; log_free_requests := pool_numbers; log_active_requests := [];
     log_task := None; log_missed_counter := 0; lg_filp := None;
     lg_kern := {| world0 with w_oracle := oracle |}; lg_written := []; lg_bad := false;
     lg_after_close := false |}.

Definition ex_text_missed (n : Z) : list Z := [77; n].
Definition ex_restart (path : list Z) (s : logst) : logst :=
  (log_restart [1] [2] 6 (Some path) 0 s).2.
Definition ex_printk (s : logst) : logst := (log_printk 6 [65; 66] s).2.
Definition ex_thread (s : logst) : logst := (log_processor ex_text_missed [2] true s).2.

(** Two messages wait and the thread has written a third. *)
Definition ex_log : logst := ex_printk (ex_printk (ex_thread (ex_printk (ex_restart [47; 108] (log0 []))))).

Lemma ex_restart_step path s :
  log_task s ≠ Some Exited → log_step ex_text_missed [1] [2] s (ex_restart path s).
Proof. intros H. eapply log_step_restart; [exact H|]. apply surjective_pairing. Qed.
Lemma ex_printk_step s : log_step ex_text_missed [1] [2] s (ex_printk s).
Proof.
  eapply (log_step_printk _ _ _ _ 6 [65; 66]); [lia|]. unfold ex_printk. by destruct (log_printk _ _ s) as [[] ?].
Qed.
Lemma ex_thread_step s : log_task s = Some Running → log_step ex_text_missed [1] [2] s (ex_thread s).
Proof.
  intros H. eapply (log_step_thread _ _ _ _ true); [exact H|].
  unfold ex_thread. by destruct (log_processor _ _ _ s) as [[] ?].
Qed.

Lemma ex_log_reach : rtc (log_step ex_text_missed [1] [2]) (log0 []) ex_log.
Proof.
  eapply rtc_l; [by apply (ex_restart_step [47; 108])|]. eapply rtc_l; [apply ex_printk_step|].
  eapply rtc_l; [apply ex_thread_step; vm_compute; reflexivity|]. eapply rtc_l; [apply ex_printk_step|].
  apply rtc_once, ex_printk_step.
Qed.

Lemma log_printk_queues_witness :
  pending (log_printk 6 [67] ex_log).2 = pending ex_log ++ [{| rq_level := 6; rq_text := [67] |}].
Proof.
  assert (Hl : 0 ≤ 6 ≤ 7) by lia.
  pose proof (log_printk_queues ex_text_missed [1] [2] 6 [67] (log0 []) ex_log eq_refl eq_refl eq_refl eq_refl
    eq_refl ex_log_reach Hl) as H.
  unfold wp in H. change (6 <=? log_level ex_log) with true in H. cbv iota in H.
  assert (E : is_true (match log_free_requests ex_log with [] => false | _ => true end))
    by (vm_compute; reflexivity).
  destruct (log_free_requests ex_log) as [|rq l]; [discriminate E|]. exact (proj1 (proj2 H)).
Defined.

Lemma ex_log_ok : log_ok ex_log.
Proof.
  assert (H0 : log_ok (log0 [])) by (split; try done; unfold pool_ok; cbn; by rewrite app_nil_r).
  pose proof ex_log_reach as Hr. revert H0. induction Hr; eauto using log_step_ok.
Qed.

Lemma log_done_flushes_witness :
  lg_written (log_done [2] ex_log).2 =
    lg_written ex_log ++ (pair [47; 108] <$> pending ex_log ++ [log_request_fill LOGLEVEL_INFO [2]]).
Proof.
  assert (Ht : log_task ex_log = Some Running) by (vm_compute; reflexivity).
  assert (Hf : lg_filp ex_log = Some [47; 108]) by (vm_compute; reflexivity).
  exact (proj2 (proj2 (log_done_flushes [2] ex_log [47; 108] ex_log_ok Ht Hf))).
Defined.

(** Restarting the log after its thread has returned by itself breaks it. When
    the log file cannot be opened again, the thread returns, but messages are still
    queued; the next [log_restart] stops the thread that is gone, and links a
    request that is queued into the free list as well. *)
Theorem log_restart_after_exit_breaks :
  let s := ex_printk (ex_thread (ex_printk (ex_restart [47; 108] (log0 [0; 0; 0; 5])))) in
  log_task s = Some Exited ∧ log_free_requests s ++ log_active_requests s ≡ₚ pool_numbers ∧
  let s' := ex_restart [47; 109] s in
  lg_bad s' = true ∧ log_active_requests s' = [1] ∧ log_free_requests s' = pool_numbers.
Proof.
  cbv zeta. split; [vm_compute; reflexivity|]. split; [|vm_compute; done].
  assert (Hok : log_ok (log0 [0; 0; 0; 5])).
  { split; try done. unfold pool_ok. cbn. by rewrite app_nil_r. }
  eapply log_step_ok; [|apply ex_printk_step].
  eapply log_step_ok; [|apply ex_thread_step; vm_compute; reflexivity].
  eapply log_step_ok; [|apply ex_printk_step]. by eapply log_step_ok; [|apply ex_restart_step].
Qed.
