(* ===== verification/LogTasks.v ===== *)
(** * The log as tasks that run at the same time (log.c)

    Any number of tasks print messages, the log's thread writes them, and one task
    restarts the log. The functions of Log.v are cut where another task can come in:
    the list operations hold a spin lock each, and nothing is locked in between, so a
    request is in the hands of a printer from [log_request_new] to [log_request_push]
    and in the hands of the thread from [log_request_get] to [log_request_free]. *)
From S2P Require Import Prelude MemoryChecker Kernel Log.

(** A task in [log_printk] behind the check of the level: before [log_request_new],
    before [log_request_fill], before [log_request_push]. *)
Inductive printer : Type :=
  | Entered (level : Z) (text : list Z)
  | Holds (rq level : Z) (text : list Z)
  | Filled (rq : Z).

(** The thread in [log_processor]: at the condition of its loop, before
    [log_request_get], with a request, with a request that is written, the same three
    in the second loop, and when it has returned or has not been started. *)
Inductive position : Type :=
  | Top
  | Take
  | Got (rq : Z)
  | Written (rq : Z)
  | EndTake
  | EndGot (rq : Z)
  | EndWritten (rq : Z)
  | Gone.

(** The task in [log_restart], with the parameters it goes on with behind [log_done]:
    not there, before [done_task], in [kthread_stop], before [done_filepath], before
    [log_init], behind it. *)
Inductive restarter : Type :=
  | Idle
  | Done (next : option (Z * list Z * Z))
  | Stop (next : option (Z * list Z * Z))
  | Path (next : option (Z * list Z * Z))
  | Init (next : Z * list Z * Z)
  | Open (next : Z * list Z * Z).

Record logsys := LogSys {
  ly_log : logst;
  ly_printers : list printer;
  ly_thread : position;
  ly_restart : restarter;
}.

(** The next piece of [log_vprintk]; [None] when it returns. *)
Definition printer_move (p : printer) : L (option printer) :=
  match p with
  | Entered level text =>
      rq ← log_request_new;
      mret ((λ rq, Holds rq level text) <$> rq)
  | Holds rq level text =>
      modify (λ s, {| s with log_requests_pool := upd (log_requests_pool s) rq (log_request_fill level text) |});;
      mret (Some (Filled rq))
  | Filled rq => log_request_push rq;; mret None
  end.

Definition write_request (rq : Z) : L unit :=
  filp ← gets lg_filp;
  r ← gets (λ s, log_requests_pool s rq);
  log_request_write filp r.

Definition exit_thread : L unit := modify (λ s, {| s with log_task := Some Exited |}).

Section moves.
Context (text_missed : Z → list Z) (text_start text_stop : list Z).

(** The message about messages that were missed. *)
Definition log_missed : L unit :=
  missed ← gets log_missed_counter;
  if negb (missed =? 0) then
    modify (λ s, {| s with log_missed_counter := log_missed_counter s - missed |});;
    log_reopen;;
    filp ← gets lg_filp;
    log_printk_direct filp LOGLEVEL_INFO (text_missed missed)
  else skip.

(** The next piece of [log_processor]; [stop] is [kthread_should_stop] and [woken] what
    [log_waiting] returns. *)
Definition thread_move (stop woken : bool) (p : position) : L position :=
  match p with
  | Top => if stop then log_reopen;; mret EndTake else log_missed;; mret Take
  | Take =>
      rq ← log_request_get;
      match rq with
      | Some rq => mret (Got rq)
      | None => when (negb woken) log_close;; mret Top
      end
  | Got rq => log_reopen;; write_request rq;; mret (Written rq)
  | Written rq =>
      log_request_free rq;;
      filp ← gets lg_filp;
      match filp with
      | Some _ => mret Top
      | None => log_reopen;; mret EndTake
      end
  | EndTake =>
      rq ← log_request_get;
      match rq with
      | Some rq => mret (EndGot rq)
      | None =>
          filp ← gets lg_filp;
          log_printk_direct filp LOGLEVEL_INFO text_stop;;
          log_close;;
          exit_thread;;
          mret Gone
      end
  | EndGot rq => write_request rq;; mret (EndWritten rq)
  | EndWritten rq => log_request_free rq;; mret EndTake
  | Gone => mret Gone
  end.

(** The beginning of [log_restart], to the first assignment of [log_done]. *)
Definition restart_begin (level : Z) (filepath : option (list Z)) (tz_minuteswest : Z) : L restarter :=
  let done (next : option (Z * list Z * Z)) : L restarter :=
    modify (λ s, {| s with log_level := -1 |});; mret (Done next) in
  match filepath with
  | None => if level <? 0 then done None else mret Idle
  | Some path =>
      p ← gets log_filepath;
      if bool_decide (p = Some path) then
        l ← gets log_level;
        when (negb (level =? l) && (0 <=? level)) (modify (λ s, {| s with log_level := level |}));;
        _ ← restart_fail 0;
        mret Idle
      else done (Some (level, path, tz_minuteswest))
  end.

(** The next piece of [log_restart]. [kthread_stop] must not be called for a thread
    that has returned; it comes back when the thread has returned. *)
Definition restart_move (r : restarter) : L restarter :=
  match r with
  | Idle => mret Idle
  | Done next =>
      t ← gets log_task;
      match t with
      | None => mret (Path next)
      | Some t => (match t with Running => skip | Exited => lg_misuse end);; mret (Stop next)
      end
  | Stop next => modify (λ s, {| s with log_task := None |});; mret (Path next)
  | Path next => done_filepath;; mret (match next with None => Idle | Some next => Init next end)
  | Init next => log_init;; mret (Open next)
  | Open (level, path, tz) => _ ← log_start text_start level path tz; mret Idle
  end.

Definition stopping (r : restarter) : bool := match r with Stop _ => true | _ => false end.

(** The thread is woken up at the end of a restart that has created it. *)
Definition woken_up (r : restarter) (s : logst) (p : position) : position :=
  match r, log_task s with Open _, Some Running => Top | _, _ => p end.

(** A task does its next piece. In a [strict] run a restart does not begin while a
    message is between its check of the level and its place in the queue, and not when
    the thread has returned by itself. *)
Inductive log_move (strict : bool) : logsys → logsys → Prop :=
  | mv_enter y level text :
      0 ≤ level ≤ 7 → level ≤ log_level (ly_log y) →
      log_move strict y {| y with ly_printers := ly_printers y ++ [Entered level text] |}
  | mv_printer y l1 p l2 q s' :
      ly_printers y = l1 ++ p :: l2 → printer_move p (ly_log y) = (q, s') →
      log_move strict y {| y with ly_log := s'; ly_printers := l1 ++ option_list q ++ l2 |}
  | mv_thread y woken p s' :
      thread_move (stopping (ly_restart y)) woken (ly_thread y) (ly_log y) = (p, s') →
      log_move strict y {| y with ly_log := s'; ly_thread := p |}
  | mv_begin y level path tz r s' :
      ly_restart y = Idle → restart_begin level path tz (ly_log y) = (r, s') →
      (strict = true → r ≠ Idle → ly_printers y = []) →
      log_move strict y {| y with ly_log := s'; ly_restart := r |}
  | mv_restart y r s' :
      ly_restart y ≠ Idle → (stopping (ly_restart y) = true → log_task (ly_log y) = Some Exited) →
      (strict = true → ∀ next, ly_restart y = Done next → log_task (ly_log y) ≠ Some Exited) →
      restart_move (ly_restart y) (ly_log y) = (r, s') →
      log_move strict y {| y with ly_log := s'; ly_restart := r;
        ly_thread := woken_up (ly_restart y) s' (ly_thread y) |}.

(** ** The invariant *)

Definition held_by (p : printer) : list Z := match p with Entered _ _ => [] | Holds rq _ _ | Filled rq => [rq] end.
Definition ready_by (p : printer) : list Z := match p with Filled rq => [rq] | _ => [] end.
Definition thread_rq (p : position) : list Z :=
  match p with Got rq | Written rq | EndGot rq | EndWritten rq => [rq] | _ => [] end.
Definition level_ok (p : printer) : Prop :=
  match p with Entered level _ | Holds _ level _ => 0 ≤ level ≤ 7 | Filled _ => True end.

(** Where the requests of the pool are. *)
Definition whereabouts (y : logsys) : list Z :=
  log_free_requests (ly_log y) ++ log_active_requests (ly_log y) ++
  (ly_printers y ≫= held_by) ++ thread_rq (ly_thread y).

(** The requests that have been filled. *)
Definition messages (y : logsys) : list Z :=
  log_active_requests (ly_log y) ++ (ly_printers y ≫= ready_by) ++ thread_rq (ly_thread y).

Record sys_ok (y : logsys) : Prop := {
  so_pool : whereabouts y ≡ₚ pool_numbers;
  so_messages : Forall (λ rq, request_ok (log_requests_pool (ly_log y) rq)) (messages y);
  so_levels : Forall level_ok (ly_printers y);
  so_bad : lg_bad (ly_log y) = false;
  so_thread : log_task (ly_log y) ≠ Some Running → ly_thread y = Gone;
  so_restart : ly_restart y ≠ Idle → ly_printers y = [] ∧ log_level (ly_log y) = -1;
  so_stop : stopping (ly_restart y) = true → log_task (ly_log y) = Some Exited → log_active_requests (ly_log y) = [];
  so_none : log_task (ly_log y) = None →
    log_active_requests (ly_log y) = [] ∧ ly_printers y = [] ∧ log_level (ly_log y) = -1 ∧
    ((∀ next, ly_restart y ≠ Path next) → log_filepath (ly_log y) = None);
  so_path : ∀ next, ly_restart y = Stop next → is_Some (log_task (ly_log y));
  so_init : match ly_restart y with Path _ | Init _ | Open _ => log_task (ly_log y) = None | _ => True end;
}.

(** ** Every move keeps the invariant *)

Lemma sys_same y s' : log_same (ly_log y) s' → sys_ok y → sys_ok {| y with ly_log := s' |}.
Proof.
  intros [Ep Ef Ea Et El Eb Eph] []. split; unfold whereabouts, messages in *; cbn;
    rewrite ?Ep, ?Ef, ?Ea, ?Et, ?El, ?Eb; try done.
  intros H. destruct (so_none0 H) as (? & ? & ? & Hp). split_and!; try done. intros Hn.
  destruct Eph as [->|]; auto.
Qed.

Lemma pool_NoDup : NoDup pool_numbers.
Proof. apply NoDup_fmap_2; [by intros ? ? ?%Nat2Z.inj|]. apply NoDup_ListNoDup, seq_NoDup. Qed.

(** A request in one place is in no other. *)
Lemma nowhere_else y rq l :
  whereabouts y ≡ₚ pool_numbers → whereabouts y ≡ₚ rq :: l → rq ∉ l.
Proof. intros H1 H2. pose proof pool_NoDup as Hd. rewrite <- H1, H2 in Hd. by apply NoDup_cons in Hd as []. Qed.

Lemma ready_held l rq : rq ∈ (l ≫= ready_by) → rq ∈ (l ≫= held_by).
Proof.
  rewrite !list_elem_of_bind. intros (p & Hp & Hl). exists p. split; [|done]. destruct p; cbn in *; [done|by apply not_elem_of_nil in Hp|done].
Qed.

(** While there are printers, nobody restarts the log and there is a thread. *)
Lemma printers_alive y : sys_ok y → ly_printers y ≠ [] → ly_restart y = Idle ∧ log_task (ly_log y) ≠ None.
Proof.
  intros [_ _ _ _ _ Hr _ Hn _ _] Hne. split; [|by intros (_ & ? & _)%Hn].
  revert Hr. destruct (ly_restart y); try done; intros Hr; by destruct Hr.
Qed.

Lemma printer_move_ok y l1 p l2 :
  sys_ok y → ly_printers y = l1 ++ p :: l2 →
  wp (printer_move p) (ly_log y) (λ q s',
    sys_ok {| y with ly_log := s'; ly_printers := l1 ++ option_list q ++ l2 |}).
Proof.
  intros Hok E. destruct (printers_alive y Hok) as [Hid Htk]; [rewrite E; by destruct l1|].
  destruct Hok as [Hp Hm Hl Hb Ht Hr Hs Hn Hpa Hi].
  rewrite E in Hl. apply Forall_app in Hl as [Hl1 Hl]. apply list.Forall_cons in Hl as [Hlp Hl2].
  pose proof (nowhere_else y) as Hnw. unfold whereabouts, messages in *. rewrite E in *. rewrite !bind_app in *. cbn in *.
  destruct p as [level text|rq level text|rq]; cbn [printer_move held_by ready_by] in *.
  - unfold log_request_new. lg_steps. destruct (log_free_requests (ly_log y)) as [|rq l] eqn:Ef; lg_steps.
    + split; unfold whereabouts, messages; cbn; rewrite ?Hid, ?bind_app; try done.
      * by rewrite Ef.
      * by apply Forall_app.
    + split; unfold whereabouts, messages; cbn; rewrite ?Hid, ?bind_app; cbn; try done.
      * rewrite <- Hp. solve_Permutation.
      * apply Forall_app. split; [done|]. by constructor.
  - lg_steps. assert (Hout : ∀ r, r ∈ log_active_requests (ly_log y) ++ (l1 ≫= ready_by) ++ (l2 ≫= ready_by) ++
      thread_rq (ly_thread y) → r ≠ rq).
    { intros r Hr' ->. apply (Hnw rq (log_free_requests (ly_log y) ++ log_active_requests (ly_log y) ++
        (l1 ≫= held_by) ++ (l2 ≫= held_by) ++ thread_rq (ly_thread y)) Hp); [solve_Permutation|].
      rewrite !elem_of_app in *. naive_solver eauto using ready_held. }
    assert (Hsame : ∀ l, (∀ r, r ∈ l → r ∈ log_active_requests (ly_log y) ++ (l1 ≫= ready_by) ++ (l2 ≫= ready_by) ++
      thread_rq (ly_thread y)) → Forall (λ rq, request_ok (log_requests_pool (ly_log y) rq)) l →
      Forall (λ r, request_ok (upd (log_requests_pool (ly_log y)) rq (log_request_fill level text) r)) l).
    { intros l Hl. rewrite !Forall_forall. intros HF r Hr'. rewrite upd_ne by (apply Hout; auto). auto. }
    rewrite !Forall_app in Hm. destruct Hm as (Hm1 & (Hm2 & _ & Hm3) & Hm4).
    split; unfold whereabouts, messages; cbn; rewrite ?Hid, ?bind_app; cbn; try done.
    + repeat (apply Forall_app; split).
      3: constructor; [rewrite upd_eq; by apply fill_ok|].
      all: apply Hsame; [intros r; rewrite !elem_of_app; tauto|done].
    + apply Forall_app. split; [done|]. by constructor.
  - unfold log_request_push. lg_steps.
    split; unfold whereabouts, messages; cbn; rewrite ?Hid, ?bind_app; cbn; try done.
    + rewrite <- Hp. solve_Permutation.
    + rewrite !Forall_app in *. naive_solver.
    + by apply Forall_app.
Qed.

(** The thread goes on with the same request, or without one. *)
Lemma sys_thread y s' p :
  sys_ok y → log_same (ly_log y) s' → log_task (ly_log y) = Some Running → thread_rq p = thread_rq (ly_thread y) →
  sys_ok {| y with ly_log := s'; ly_thread := p |}.
Proof.
  intros Hok Hs Ht Ep. destruct (sys_same _ _ Hs Hok). pose proof (ls_task _ _ Hs) as Et.
  split; unfold whereabouts, messages in *; cbn in *; rewrite ?Ep; try done. by rewrite Et, Ht.
Qed.

(** It takes a request from the queue. *)
Lemma sys_take y :
  sys_ok y → log_task (ly_log y) = Some Running → thread_rq (ly_thread y) = [] →
  wp log_request_get (ly_log y) (λ r s',
    match r with
    | Some rq => ∀ p, thread_rq p = [rq] → sys_ok {| y with ly_log := s'; ly_thread := p |}
    | None => s' = ly_log y ∧ log_active_requests s' = []
    end).
Proof.
  intros [Hp Hm Hl Hb Ht Hr Hs Hn Hpa Hi] Etk Ey. eapply wp_mono; [apply log_request_get_spec|]. intros r s' H.
  destruct (log_active_requests (ly_log y)) as [|rq l] eqn:Ea; destruct H as [-> ->]; [done|].
  intros p Ep. unfold whereabouts, messages in *. rewrite Ea, Ey in *. split; unfold whereabouts, messages; cbn; rewrite ?Ep; try done.
  - rewrite <- Hp. cbn. solve_Permutation.
  - rewrite app_nil_r in Hm. cbn in Hm. apply list.Forall_cons in Hm as [Hm1 Hm2].
    rewrite !Forall_app in *. split_and!; try apply Hm2. by constructor.
  - intros E. congruence.
  - intros E. congruence.
Qed.

(** It gives its request back. *)
Lemma sys_give y rq p :
  sys_ok y → log_task (ly_log y) = Some Running → thread_rq (ly_thread y) = [rq] → thread_rq p = [] →
  wp (log_request_free rq) (ly_log y) (λ _ s', sys_ok {| y with ly_log := s'; ly_thread := p |}).
Proof.
  intros [Hp Hm Hl Hb Ht Hr Hs Hn Hpa Hi] Etk Ey Ep. unfold log_request_free. lg_steps.
  unfold whereabouts, messages in *. rewrite Ey in *. split; unfold whereabouts, messages; cbn; rewrite ?Ep; try done.
  - rewrite <- Hp. solve_Permutation.
  - rewrite !Forall_app in *. split_and!; try apply Hm. constructor.
Qed.

Lemma write_request_spec y rq :
  sys_ok y → thread_rq (ly_thread y) = [rq] →
  wp (write_request rq) (ly_log y) (λ _ s', log_same (ly_log y) s').
Proof.
  intros Hok Ey. unfold write_request. lg_steps. eapply wp_mono; [apply write_spec|by intros [] s' (? & _)].
  destruct Hok as [_ Hm _ _ _ _ _ _ _ _]. unfold messages in Hm. rewrite Ey, !Forall_app in Hm.
  destruct Hm as (_ & _ & Hm). by inversion Hm.
Qed.

Lemma log_same_trans s1 s2 s3 : log_same s1 s2 → log_same s2 s3 → log_same s1 s3.
Proof.
  intros [? ? ? ? ? ? P1] [? ? ? ? ? ? P2]. split; try congruence.
  destruct P1 as [E|E], P2 as [E'|E']; [left|right..]; congruence.
Qed.

Lemma log_same_refl s : log_same s s.
Proof. split; auto. Qed.

Lemma log_missed_spec s : wp log_missed s (λ _ s', log_same s s').
Proof.
  unfold log_missed. lg_steps. destruct (negb _); [|lg_steps; apply log_same_refl]. lg_steps.
  eapply wp_mono; [apply log_reopen_spec|]. intros [] s1 ([] & _). lg_steps. unfold log_printk_direct.
  eapply wp_mono; [apply write_spec, fill_ok; unfold LOGLEVEL_INFO; lia|]. intros [] s2 (Hs2 & _).
  eapply log_same_trans; [|exact Hs2]. by split.
Qed.

Lemma reopen_same s : wp log_reopen s (λ _ s', log_same s s').
Proof. eapply wp_mono; [apply log_reopen_spec|]. by intros [] s' (? & _). Qed.

Lemma thread_running y : sys_ok y → ly_thread y ≠ Gone → log_task (ly_log y) = Some Running.
Proof.
  intros [_ _ _ _ Ht _ _ _ _ _] Hne. destruct (log_task (ly_log y)) as [[]|]; [done|by destruct Hne; apply Ht..].
Qed.

(** The thread returns when it has found the queue empty. *)
Lemma sys_gone y s' :
  sys_ok y → log_same (ly_log y) s' → log_active_requests (ly_log y) = [] → thread_rq (ly_thread y) = [] →
  log_task (ly_log y) = Some Running →
  sys_ok {| y with ly_log := {| s' with lg_filp := None; log_task := Some Exited |}; ly_thread := Gone |}.
Proof.
  intros [Hp Hm Hl Hb Ht Hr Hs Hn Hpa Hi] [Ep Ef Ea Et El Eb _] Ha Ey Etk. unfold whereabouts, messages in *.
  rewrite Ey in *. split; unfold whereabouts, messages; cbn; rewrite ?Ep, ?Ef, ?Ea, ?El, ?Eb; try done.
  revert Hi. destruct (ly_restart y); rewrite ?Etk; done.
Qed.

Lemma thread_move_ok y woken :
  sys_ok y →
  wp (thread_move (stopping (ly_restart y)) woken (ly_thread y)) (ly_log y) (λ p s',
    sys_ok {| y with ly_log := s'; ly_thread := p |}).
Proof.
  intros Hok. pose proof (thread_running y Hok) as Hrun.
  destruct (ly_thread y) as [| |rq|rq| |rq|rq|] eqn:Ey; cbn [thread_move];
    try (specialize (Hrun ltac:(done)); assert (Erq := f_equal thread_rq Ey); cbn in Erq).
  - destruct (stopping _); lg_steps; (eapply wp_mono; [first [apply reopen_same|apply log_missed_spec]|]);
      intros [] s1 Hs1; lg_steps; apply sys_thread; by rewrite ?Erq.
  - wp_step. eapply wp_mono; [by apply (sys_take y)|]. intros [rq|] s1 H1; [lg_steps; by apply H1|].
    destruct H1 as [-> _]. unfold when, log_close. destruct (negb woken); lg_steps.
    + apply sys_thread; rewrite ?Erq; try done. by split; auto.
    + apply sys_thread; rewrite ?Erq; try done. apply log_same_refl.
  - wp_step. eapply wp_mono; [apply reopen_same|]. intros [] s1 Hs1. wp_step.
    set (y1 := {| y with ly_log := s1 |}). pose proof (sys_same _ _ Hs1 Hok) as Hok1.
    eapply wp_mono; [apply (write_request_spec y1); [exact Hok1|exact Erq]|]. intros [] s2 Hs2. lg_steps.
    apply (sys_thread y); rewrite ?Erq; try done. by eapply log_same_trans.
  - wp_step. eapply wp_mono; [by apply (sys_give y rq EndTake)|]. intros [] s1 Hok1. lg_steps.
    assert (Hrun1 : log_task s1 = Some Running) by (by apply (thread_running _ Hok1)).
    destruct (lg_filp s1); lg_steps.
    + by apply (sys_thread _ s1 Top) in Hok1; [|apply log_same_refl|..].
    + eapply wp_mono; [apply reopen_same|]. intros [] s2 Hs2. lg_steps.
      by apply (sys_thread _ s2 EndTake) in Hok1.
  - wp_step. eapply wp_mono; [by apply (sys_take y)|]. intros [rq|] s1 H1; [lg_steps; by apply H1|].
    destruct H1 as [-> Ha]. lg_steps. unfold log_printk_direct.
    eapply wp_mono; [apply write_spec, fill_ok; unfold LOGLEVEL_INFO; lia|]. intros [] s2 (Hs2 & _).
    unfold log_close, exit_thread. lg_steps. by apply sys_gone.
  - wp_step. eapply wp_mono; [by apply write_request_spec; [|exact Erq]|]. intros [] s2 Hs2. lg_steps.
    by apply sys_thread; rewrite ?Erq.
  - wp_step. eapply wp_mono; [by apply (sys_give y rq EndTake)|]. intros [] s1 Hok1. by lg_steps.
  - lg_steps. rewrite <- Ey. by destruct y.
Qed.

(** [log_done] sets the level, and no message comes in any more. *)
Lemma sys_done y next :
  sys_ok y → ly_restart y = Idle → ly_printers y = [] →
  sys_ok {| y with ly_log := let s := ly_log y in {| s with log_level := -1 |}; ly_restart := Done next |}.
Proof.
  intros [Hp Hm Hl Hb Ht Hr Hs Hn Hpa Hi] Er Epr. split; unfold whereabouts, messages in *; cbn; rewrite ?Epr in *; try done.
  intros H. destruct (Hn H) as (? & ? & ? & Hph). split_and!; try done. intros _. apply Hph. by rewrite Er.
Qed.

Lemma restart_begin_ok y level path tz :
  sys_ok y → ly_restart y = Idle →
  wp (restart_begin level path tz) (ly_log y) (λ r s',
    (r ≠ Idle → ly_printers y = []) → sys_ok {| y with ly_log := s'; ly_restart := r |}).
Proof.
  intros Hok Er. assert (Ey : sys_ok {| y with ly_restart := Idle |}) by (rewrite <- Er; by destruct y).
  unfold restart_begin. destruct path as [path|].
  2:{ destruct (level <? 0); lg_steps; [intros H; by apply sys_done; auto|intros _; by destruct y]. }
  lg_steps. case_bool_decide as Hpath; lg_steps; [|intros H; by apply sys_done; auto].
  unfold when, restart_fail, lg_on. destruct (_ && _); lg_steps; intros _; [|by destruct Ey].
  destruct Ey as [Hp Hm Hl Hb Ht Hr Hs Hn Hpa Hi]. split; try done. cbn in *. intros H.
  destruct (Hn H) as (_ & _ & _ & Hph). rewrite Hph in Hpath; done.
Qed.

(** While nothing runs, the whole pool is free. *)
Lemma sys_free y :
  sys_ok y → log_task (ly_log y) = None →
  ly_printers y = [] ∧ ly_thread y = Gone ∧ log_active_requests (ly_log y) = [] ∧
  log_free_requests (ly_log y) ≡ₚ pool_numbers.
Proof.
  intros [Hp Hm Hl Hb Ht Hr Hs Hn Hpa Hi] Etk. destruct (Hn Etk) as (Ha & Hpr & _). rewrite Etk in Ht.
  unfold whereabouts in Hp. rewrite Ha, Hpr, Ht, app_nil_r in Hp by done. auto.
Qed.

Lemma log_start_spec level path tz s :
  lg_bad s = false → wp (log_start text_start level path tz) s (λ _ s',
    log_requests_pool s' = log_requests_pool s ∧ log_free_requests s' = log_free_requests s ∧
    log_active_requests s' = log_active_requests s ∧ lg_bad s' = false ∧
    (log_task s' = Some Running ∨
     log_task s' = log_task s ∧ log_level s' = log_level s ∧ log_filepath s' = log_filepath s)).
Proof.
  intros Hb. unfold log_start, restart_fail, lg_on. lg_steps. apply wp_oracle. intros v1 vs1.
  destruct (v1 =? 0); cbn [negb]; lg_steps; [|split_and!; auto]. apply wp_oracle. intros v2 vs2.
  destruct (v2 <? 0); lg_steps; [split_and!; auto|]. apply wp_oracle. intros v3 vs3.
  destruct (v3 =? 0); cbn [negb]; lg_steps; [|split_and!; auto].
  unfold log_printk_direct. eapply wp_mono; [apply write_spec, fill_ok; unfold LOGLEVEL_INFO; lia|].
  intros [] s2 ([] & _). cbn in *. lg_steps. split_and!; try congruence. left. congruence.
Qed.

Lemma restart_move_ok y :
  sys_ok y → ly_restart y ≠ Idle → (stopping (ly_restart y) = true → log_task (ly_log y) = Some Exited) →
  (∀ next, ly_restart y = Done next → log_task (ly_log y) ≠ Some Exited) →
  wp (restart_move (ly_restart y)) (ly_log y) (λ r s',
    sys_ok {| y with ly_log := s'; ly_restart := r; ly_thread := woken_up (ly_restart y) s' (ly_thread y) |}).
Proof.
  intros Hok Hne Hstop Hdone. pose proof Hok as [Hp Hm Hl Hb Ht Hr Hs Hn Hpa Hi].
  destruct (Hr Hne) as [Hpr Hlv]. pose proof (sys_free y Hok) as Hfree. unfold whereabouts, messages in *.
  destruct (ly_restart y) as [|next|next|next|next|[[level path] tz]] eqn:Er; cbn [restart_move woken_up stopping] in *; [done|..].
  - lg_steps. specialize (Hdone next eq_refl). destruct (log_task (ly_log y)) as [[]|] eqn:Etk; [|done|]; lg_steps.
    + split; unfold whereabouts, messages; cbn; rewrite ?Etk; try done.
    + destruct (Hn eq_refl) as (? & ? & ? & Hph).
      split; unfold whereabouts, messages; cbn; rewrite ?Etk; try done. intros _. split_and!; try done. intros Hnp. by destruct (Hnp next).
  - lg_steps. specialize (Hstop eq_refl). specialize (Hs eq_refl Hstop).
    split; unfold whereabouts, messages; cbn; try done.
    + intros _. apply Ht. by rewrite Hstop.
    + intros _. split_and!; try done. intros H. by destruct (H next).
  - wp_step. eapply wp_mono; [apply done_filepath_spec|]. intros [] s' ([Ep Ef Ea Et El Eb _] & _ & Hph & _). lg_steps.
    destruct (Hfree Hi) as (? & Hg & ? & _).
    split; unfold whereabouts, messages; cbn; rewrite ?Ep, ?Ef, ?Ea, ?Et, ?El, ?Eb; try done; by destruct next.
  - unfold log_init. lg_steps. destruct (Hfree Hi) as (_ & Hg & Ha & Hf). destruct (Hn Hi) as (_ & _ & _ & Hph).
    split; unfold whereabouts, messages; cbn; rewrite ?Hg, ?Ha, ?Hpr; cbn; try done.
    intros _. split_and!; auto.
  - wp_step. eapply wp_mono; [by apply log_start_spec|]. intros ret s' (Ep & Ef & Ea & Eb & Hor). lg_steps.
    destruct (Hfree Hi) as (_ & Hg & Ha & Hf). destruct (Hn Hi) as (_ & _ & _ & Hph). rewrite Hg, Ha, Hpr in *.
    assert (Hnil : thread_rq (woken_up (Open (level, path, tz)) s' Gone) = []) by (cbn; by destruct (log_task s') as [[]|]).
    cbn [woken_up] in Hnil.
    split; unfold whereabouts, messages; cbn; rewrite ?Ep, ?Ef, ?Ea, ?Hpr, ?Hnil, ?Ha; cbn; try done.
    + intros H. by destruct (log_task s') as [[]|].
    + intros H. destruct Hor as [E|(Et & El & Eph)]; [congruence|]. split_and!; try done; try congruence.
      intros _. rewrite Eph. by apply Hph.
Qed.

Lemma sys_enter y level text :
  sys_ok y → 0 ≤ level ≤ 7 → level ≤ log_level (ly_log y) →
  sys_ok {| y with ly_printers := ly_printers y ++ [Entered level text] |}.
Proof.
  intros [Hp Hm Hl Hb Ht Hr Hs Hn Hpa Hi] H1 H2.
  split; unfold whereabouts, messages in *; cbn; rewrite ?bind_app; cbn; rewrite ?app_nil_r; try done.
  - apply Forall_app; split; [done|]; constructor; [done|constructor].
  - intros [_ ?]%Hr. lia.
  - intros (_ & _ & ? & _)%Hn. lia.
Qed.

Lemma log_move_ok y y' : sys_ok y → log_move true y y' → sys_ok y'.
Proof.
  intros Hok Hmv. destruct Hmv as [y level text H1 H2|y l1 p l2 q s' E1 E2|y woken p s' E|y level path tz r s' Er E H|y r s' Hr Hs Hd E].
  - by apply sys_enter.
  - exact (wp_run _ _ _ _ _ (printer_move_ok y l1 p l2 Hok E1) E2).
  - exact (wp_run _ _ _ _ _ (thread_move_ok y woken Hok) E).
  - apply (wp_run _ _ _ _ _ (restart_begin_ok y level path tz Hok Er) E). by apply H.
  - exact (wp_run _ _ _ _ _ (restart_move_ok y Hok Hr Hs (Hd eq_refl)) E).
Qed.

(** ** Runs of one task *)

Lemma log_run_bind {A B} (m : L A) (f : A → L B) s : (m ≫= f) s = f (m s).1 (m s).2.
Proof. done. Qed.

Fixpoint thread_run (n : nat) (stop woken : bool) (p : position) : L position :=
  match n with
  | O => mret p
  | S n => p' ← thread_move stop woken p; thread_run n stop woken p'
  end.

Lemma thread_run_rtc b woken n y :
  rtc (log_move b) y
    {| y with ly_log := (thread_run n (stopping (ly_restart y)) woken (ly_thread y) (ly_log y)).2;
              ly_thread := (thread_run n (stopping (ly_restart y)) woken (ly_thread y) (ly_log y)).1 |}.
Proof.
  revert y. induction n as [|n IH]; intros y; [by destruct y|].
  destruct (thread_move (stopping (ly_restart y)) woken (ly_thread y) (ly_log y)) as [p s1] eqn:E.
  eapply rtc_l; [by eapply mv_thread|]. cbn [thread_run]. unfold mbind, M_mbind. rewrite E. cbn.
  apply (IH {| y with ly_log := s1; ly_thread := p |}).
Qed.

Lemma thread_run_add n m stop woken p s :
  thread_run (n + m) stop woken p s =
  thread_run m stop woken (thread_run n stop woken p s).1 (thread_run n stop woken p s).2.
Proof. revert p s. induction n as [|n IH]; intros p s; [done|]. apply IH. Qed.

(** One message, printed without an interruption, is [log_printk]. *)
Theorem log_printk_is_moves b y level text :
  0 ≤ level ≤ 7 →
  rtc (log_move b) y {| y with ly_log := (log_printk level text (ly_log y)).2 |}.
Proof.
  intros Hl. unfold log_printk. rewrite log_run_bind. cbn [gets fst snd].
  destruct (Z.leb_spec level (log_level (ly_log y))) as [Hle|_]; cbn [when]; [|by destruct y].
  eapply rtc_l; [by apply (mv_enter _ _ level text)|]. unfold log_vprintk.
  rewrite log_run_bind.
  destruct (log_request_new (ly_log y)) as [[rq|] s1] eqn:E; cbn [fst snd].
  - eapply rtc_l; [eapply (mv_printer _ _ (ly_printers y) (Entered level text) []); [done|]|].
    { cbn [printer_move ly_log]. rewrite log_run_bind, E. reflexivity. }
    cbn. eapply rtc_l; [eapply (mv_printer _ _ (ly_printers y) (Holds rq level text) []); [done|reflexivity]|].
    cbn. eapply rtc_l; [eapply (mv_printer _ _ (ly_printers y) (Filled rq) []); [done|reflexivity]|].
    cbn. rewrite app_nil_r. by destruct y.
  - eapply rtc_l; [eapply (mv_printer _ _ (ly_printers y) (Entered level text) []); [done|]|].
    { cbn [printer_move ly_log]. rewrite log_run_bind, E. reflexivity. }
    cbn. rewrite app_nil_r. by destruct y.
Qed.

(** The end of [log_processor] behind its loops. *)
Definition log_finish : L unit :=
  filp ← gets lg_filp;
  log_printk_direct filp LOGLEVEL_INFO text_stop;;
  log_close;;
  exit_thread.

Lemma drain_is_moves stop woken fuel s :
  (length (log_active_requests s) < fuel)%nat →
  ∃ n, thread_run n stop woken EndTake s = (Gone, ((log_drain fuel;; log_finish) s).2).
Proof.
  revert s. induction fuel as [|fuel IH]; intros s Hlen; [lia|]. cbn [log_drain].
  pose proof (log_request_get_spec s) as Hg. unfold wp in Hg.
  destruct (log_request_get s) as [r s1] eqn:E. cbn [fst snd] in Hg.
  assert (E1 : ∀ f, (log_request_get ≫= f) s = (f r s1 : position * logst)) by (intros f; by rewrite log_run_bind, E).
  destruct (log_active_requests s) as [|rq l] eqn:Ea; destruct Hg as [-> ->].
  - exists 1%nat. cbn [thread_run thread_move]. rewrite log_run_bind, E1. rewrite !log_run_bind, E. reflexivity.
  - cbn in Hlen. set (s1 := {| s with log_active_requests := l |}) in *.
    set (s2 := (write_and_free rq s1).2).
    assert (Ha2 : log_active_requests s2 = l).
    { unfold s2, write_and_free, log_request_free. rewrite !log_run_bind. cbn.
      unfold log_request_write. by destruct (lg_filp s) as [p|]; [|done]; unfold when; destruct (_ || _). }
    destruct (IH s2) as [n Hn]; [rewrite Ha2; lia|]. exists (S (S (S n))).
    cbn [thread_run thread_move]. rewrite log_run_bind, E1. rewrite !log_run_bind, E. cbn [fst snd].
    exact Hn.
Qed.

Lemma end_is_moves stop woken s :
  ∃ n, thread_run n stop woken EndTake (log_reopen s).2 =
    (Gone, ((log_processor_end text_stop;; exit_thread) s).2).
Proof.
  destruct (drain_is_moves stop woken (S (length (log_active_requests (log_reopen s).2))) (log_reopen s).2) as [n Hn]; [lia|].
  exists n. exact Hn.
Qed.

Lemma turn_eq woken s :
  log_processor_turn text_missed woken s =
  let r := log_request_get (log_missed s).2 in
  match r.1 with
  | Some rq =>
      let s4 := (write_and_free rq (log_reopen r.2).2).2 in
      (match lg_filp s4 with Some _ => true | None => false end, s4)
  | None => (true, (when (negb woken) log_close r.2).2)
  end.
Proof.
  unfold log_processor_turn. rewrite log_run_bind. cbn [gets fst snd]. rewrite !log_run_bind.
  change ((if negb (log_missed_counter s =? 0) then _ else _) s) with (log_missed s).
  cbv zeta. by destruct (log_request_get (log_missed s).2) as [[rq|] s2].
Qed.

(** A turn of the thread without an interruption is [log_processor]. *)
Theorem log_processor_is_moves b y woken :
  ly_thread y = Top → stopping (ly_restart y) = false →
  ∃ p, rtc (log_move b) y {| y with ly_log := (log_processor text_missed text_stop woken (ly_log y)).2; ly_thread := p |} ∧
    (p = Top ∨ p = Gone).
Proof.
  intros Ey Es. assert (H : ∃ n p, thread_run n false woken Top (ly_log y) =
    (p, (log_processor text_missed text_stop woken (ly_log y)).2) ∧ (p = Top ∨ p = Gone)).
  2:{ destruct H as (n & p & E & Hp). exists p. split; [|done].
      pose proof (thread_run_rtc b woken n y) as Hr. rewrite Ey, Es, E in Hr. exact Hr. }
  unfold log_processor. rewrite log_run_bind, turn_eq. cbv zeta.
  destruct (log_request_get (log_missed (ly_log y)).2) as [[rq|] s2] eqn:E; cbn [fst snd].
  - set (s4 := (write_and_free rq (log_reopen s2).2).2).
    assert (H3 : thread_run 3 false woken Top (ly_log y) = (Written rq, (write_request rq (log_reopen s2).2).2)).
    { cbn [thread_run thread_move]. rewrite !log_run_bind. cbn [fst snd mret M_mret thread_move]. rewrite !log_run_bind, E. reflexivity. }
    destruct (lg_filp s4) as [f|] eqn:Ef.
    + exists (3 + 1)%nat, Top. split; [|by left]. rewrite thread_run_add, H3. cbn [fst snd thread_run thread_move].
      rewrite !log_run_bind. change ((log_request_free rq _).2) with s4. cbn [gets fst snd]. by rewrite Ef.
    + destruct (end_is_moves false woken s4) as [n Hn]. exists (3 + (1 + n))%nat, Gone. split; [|by right].
      rewrite thread_run_add, H3. cbn [fst snd]. rewrite thread_run_add. cbn [thread_run thread_move].
      rewrite !log_run_bind. change ((log_request_free rq _).2) with s4. cbn [gets fst snd]. rewrite Ef. exact Hn.
  - exists 2%nat, Top. split; [|by left]. cbn [thread_run thread_move]. rewrite !log_run_bind. cbn [fst snd mret M_mret thread_move].
    rewrite !log_run_bind, E. reflexivity.
Qed.

(** ** Stopping the thread *)

Definition finishes (woken : bool) (p : position) (s : logst) : Prop :=
  ∃ n, (thread_run n true woken p s).1 = Gone ∧ log_task (thread_run n true woken p s).2 = Some Exited.

Lemma finishes_step woken p s :
  finishes woken (thread_move true woken p s).1 (thread_move true woken p s).2 → finishes woken p s.
Proof. intros [n Hn]. exists (S n). exact Hn. Qed.

(** Wherever the thread is, it returns when it is told to stop and takes its next steps. *)
Lemma thread_finishes woken p s : p ≠ Gone → finishes woken p s.
Proof.
  assert (Hdrain : ∀ s, finishes woken EndTake s).
  { intros s0. destruct (drain_is_moves true woken (S (length (log_active_requests s0))) s0) as [n Hn]; [lia|].
    exists n. by rewrite Hn. }
  assert (Htop : ∀ s, finishes woken Top s) by (intros s0; apply finishes_step, Hdrain).
  assert (Hwritten : ∀ rq s, finishes woken (Written rq) s).
  { intros rq s0. apply finishes_step. cbn [thread_move]. rewrite !log_run_bind. cbn [gets fst snd].
    destruct (lg_filp _); [apply Htop|apply Hdrain]. }
  assert (Hgot : ∀ rq s, finishes woken (Got rq) s) by (intros rq s0; apply finishes_step, Hwritten).
  intros Hp. destruct p as [| |rq|rq| |rq|rq|]; auto; try done.
  - apply finishes_step. cbn [thread_move]. rewrite !log_run_bind.
    destruct (log_request_get s) as [[rq|] s1]; cbn [fst snd]; [apply Hgot|apply Htop].
  - do 2 apply finishes_step. apply Hdrain.
  - apply finishes_step, Hdrain.
Qed.

(** ** Properties *)

(** The log as [log_init] leaves it when the module is loaded. *)
Record log_fresh (y : logsys) : Prop := {
  lf_free : log_free_requests (ly_log y) = pool_numbers;
  lf_active : log_active_requests (ly_log y) = [];
  lf_level : log_level (ly_log y) = -1;
  lf_path : log_filepath (ly_log y) = None;
  lf_task : log_task (ly_log y) = None;
  lf_bad : lg_bad (ly_log y) = false;
  lf_idle : ly_printers y = [] ∧ ly_thread y = Gone ∧ ly_restart y = Idle;
}.

Lemma fresh_ok y : log_fresh y → sys_ok y.
Proof.
  intros [Hf Ha Hl Hp Ht Hb (Hpr & Hth & Hr)].
  split; unfold whereabouts, messages; rewrite ?Hf, ?Ha, ?Hpr, ?Hth, ?Hr, ?Ht, ?Hp, ?Hl; try done.
Qed.

Lemma reach_ok y0 y : log_fresh y0 → rtc (log_move true) y0 y → sys_ok y.
Proof. intros H0%fresh_ok Hr. induction Hr; eauto using log_move_ok. Qed.

(** C28: the log's pool of requests is conserved under every interleaving. Any number of
    tasks print messages, the thread writes them and a task restarts or stops the log;
    every operation on a list, the filling of a request, every write and every piece
    of a restart is a step of its own, and files may fail to open or be created.
    As long as no restart begins while a message is between its check of the level
    and its place in the queue, and the thread is not stopped after it has returned by itself:
    every one of the 128 requests is free, queued, in the hands of one printer or in the
    hands of the thread, exactly once; every message that is queued, ready to be queued or being
    written has a level with a text and fits its buffer with the final zero; and no
    thread that is gone is stopped. *)
Theorem log_pool_conserved y0 y :
  log_fresh y0 → rtc (log_move true) y0 y →
  log_free_requests (ly_log y) ++ log_active_requests (ly_log y) ++
    (ly_printers y ≫= held_by) ++ thread_rq (ly_thread y) ≡ₚ pool_numbers ∧
  Forall (λ rq, request_ok (log_requests_pool (ly_log y) rq))
    (log_active_requests (ly_log y) ++ (ly_printers y ≫= ready_by) ++ thread_rq (ly_thread y)) ∧
  lg_bad (ly_log y) = false.
Proof. intros H0 Hr. by destruct (reach_ok y0 y H0 Hr). Qed.

(** A restart step for any run. *)
Lemma restart_step b y :
  ly_restart y ≠ Idle → (stopping (ly_restart y) = true → log_task (ly_log y) = Some Exited) →
  (∀ next, ly_restart y = Done next → log_task (ly_log y) ≠ Some Exited) →
  log_move b y
    {| y with ly_log := (restart_move (ly_restart y) (ly_log y)).2; ly_restart := (restart_move (ly_restart y) (ly_log y)).1;
       ly_thread := woken_up (ly_restart y) (restart_move (ly_restart y) (ly_log y)).2 (ly_thread y) |}.
Proof. intros H1 H2 H3. apply mv_restart; try done; apply surjective_pairing. Qed.

(** The thread is stopped: from the call of [kthread_stop] on, with nothing else going on,
    the restart gets as far as [done_filepath]. *)
Lemma stop_completes b y next :
  ly_restart y = Stop next → ly_thread y ≠ Gone →
  ∃ s, rtc (log_move b) y {| ly_log := s; ly_printers := ly_printers y; ly_thread := Gone; ly_restart := Path next |} ∧
    log_task s = None.
Proof.
  intros Er Hne. destruct (thread_finishes true (ly_thread y) (ly_log y) Hne) as (n & Hg & Ht).
  pose proof (thread_run_rtc b true n y) as Hrun. rewrite Er in Hrun. cbn [stopping] in Hrun. rewrite Hg in Hrun.
  set (s1 := (thread_run n true true (ly_thread y) (ly_log y)).2) in *.
  exists {| s1 with log_task := None |}. split; [|done]. eapply rtc_r; [exact Hrun|].
  set (y1 := {| ly_log := s1; ly_printers := ly_printers y; ly_thread := Gone; ly_restart := Stop next |}).
  exact (restart_step b y1 ltac:(done) ltac:(done) ltac:(done)).
Qed.

(** [log_done] without an interruption, from its first assignment on. *)
Lemma done_is_moves b y next :
  ly_restart y = Idle → (log_task (ly_log y) = Some Running ∧ ly_thread y = Top ∨ log_task (ly_log y) = None) →
  ∃ p, rtc (log_move b)
    {| y with ly_log := let s := ly_log y in {| s with log_level := -1 |}; ly_restart := Done next |}
    {| y with ly_log := (log_done text_stop (ly_log y)).2; ly_thread := p;
              ly_restart := match next with None => Idle | Some next => Init next end |}.
Proof.
  intros Er Hth. set (s1 := let s := ly_log y in {| s with log_level := -1 |}).
  assert (Hend : ∀ s p, rtc (log_move b) {| y with ly_log := s; ly_thread := p; ly_restart := Path next |}
    {| y with ly_log := (done_filepath s).2; ly_thread := p;
              ly_restart := match next with None => Idle | Some next => Init next end |}).
  { intros s p. apply rtc_once. set (y1 := {| y with ly_log := s; ly_thread := p; ly_restart := Path next |}).
    exact (restart_step b y1 ltac:(done) ltac:(done) ltac:(done)). }
  unfold log_done. rewrite log_run_bind. unfold done_task. rewrite !log_run_bind. cbn [gets fst snd modify log_task]. fold s1.
  destruct Hth as [[Ht Ey]|Ht]; rewrite Ht.
  - exists Gone. destruct (end_is_moves true true s1) as [n Hn].
    set (y2 := {| y with ly_log := s1; ly_restart := Stop next |}). eapply rtc_l.
    { apply (mv_restart _ {| y with ly_log := s1; ly_restart := Done next |} (Stop next) s1); try done; cbn; [congruence|].
      rewrite log_run_bind. cbn. by rewrite Ht. }
    etrans; [exact (thread_run_rtc b true (1 + n) y2)|].
    rewrite thread_run_add. cbn [y2 ly_restart ly_thread ly_log stopping]. rewrite Ey.
    change (thread_run 1 true true Top s1) with (EndTake, (log_reopen s1).2). cbn [fst snd]. rewrite Hn. cbn [fst snd].
    set (s2 := (log_processor_end text_stop s1).2).
    eapply rtc_l; [|exact (Hend {| s2 with log_task := None |} Gone)].
    set (y3 := {| y with ly_log := {| s2 with log_task := Some Exited |}; ly_thread := Gone; ly_restart := Stop next |}).
    exact (restart_step b y3 ltac:(done) ltac:(done) ltac:(done)).
  - exists (ly_thread y). eapply rtc_l; [|apply (Hend s1)].
    apply (mv_restart _ {| y with ly_log := s1; ly_restart := Done next |} (Path next) s1); try done; cbn; [congruence|].
    rewrite log_run_bind. cbn. by rewrite Ht.
Qed.

(** Restarting or stopping the log without an interruption is [log_restart]. *)
Theorem log_restart_is_moves y level path tz :
  ly_restart y = Idle → ly_printers y = [] →
  (log_task (ly_log y) = Some Running ∧ ly_thread y = Top ∨ log_task (ly_log y) = None) →
  ∃ p, rtc (log_move true) y {| y with ly_log := (log_restart text_start text_stop level path tz (ly_log y)).2; ly_thread := p |}.
Proof.
  intros Er Epr Hth. set (s1 := let s := ly_log y in {| s with log_level := -1 |}).
  assert (Hbegin : ∀ next, restart_begin level path tz (ly_log y) = (Done next, s1) →
    log_move true y {| y with ly_log := s1; ly_restart := Done next |}).
  { intros next E. by apply (mv_begin _ _ level path tz). }
  assert (Hstay : ∀ s', restart_begin level path tz (ly_log y) = (Idle, s') →
    rtc (log_move true) y {| y with ly_log := s'; ly_thread := ly_thread y |}).
  { intros s' E. apply rtc_once. rewrite Er.
    by apply (mv_begin true y level path tz Idle s'). }
  destruct path as [path|]; cbn [restart_begin log_restart] in *.
  2:{ destruct (level <? 0) eqn:El; [|exists (ly_thread y); by apply Hstay].
      destruct (done_is_moves true y None Er Hth) as [p Hp]. exists p. eapply rtc_l; [by apply (Hbegin None)|].
      rewrite Er. exact Hp. }
  rewrite log_run_bind in *. cbn [gets fst snd] in *. case_bool_decide as Hpath.
  { exists (ly_thread y). apply Hstay. rewrite log_run_bind. cbn [gets fst snd].
    rewrite bool_decide_true by done. rewrite !log_run_bind. cbn [gets fst snd]. unfold when. destruct (level =? _); cbn; [done|]. by destruct (0 <=? level). }
  destruct (done_is_moves true y (Some (level, path, tz)) Er Hth) as [p Hp].
  eexists. eapply rtc_l; [apply (Hbegin (Some (level, path, tz)))|].
  { rewrite log_run_bind. cbn [gets fst snd]. by rewrite bool_decide_false. }
  etrans; [exact Hp|].
  set (s2 := (log_done text_stop (ly_log y)).2). rewrite !log_run_bind. fold s2.
  set (y3 := {| y with ly_log := s2; ly_thread := p; ly_restart := Init (level, path, tz) |}).
  eapply rtc_l; [exact (restart_step true y3 ltac:(done) ltac:(done) ltac:(done))|].
  match goal with |- rtc _ ?x _ => set (y4 := x) end.
  apply rtc_once. rewrite Er.
  exact (restart_step true y4 ltac:(done) ltac:(done) ltac:(done)).
Qed.

(** C30: what the condition of the theorem on the pool is for. Whenever a message is ready to
    be queued while the thread runs, a restart with another file can go on to the point
    behind [log_init], which links the whole pool into the free list without taking
    the lock and whoever holds a request; the message is queued then, and its
    request is free and queued at the same time. *)
Theorem log_restart_race y0 y rq l1 l2 level path tz :
  log_fresh y0 → rtc (log_move true) y0 y →
  ly_printers y = l1 ++ Filled rq :: l2 → ly_thread y ≠ Gone → log_filepath (ly_log y) ≠ Some path →
  ∃ y', rtc (log_move false) y y' ∧ ly_restart y' = Open (level, path, tz) ∧
    rq ∈ log_free_requests (ly_log y') ∧ rq ∈ log_active_requests (ly_log y').
Proof.
  intros H0 Hr Epr Hne Hpath. pose proof (reach_ok y0 y H0 Hr) as Hok.
  destruct (printers_alive y Hok) as [Er _]; [rewrite Epr; by destruct l1|].
  pose proof (thread_running y Hok Hne) as Ht.
  assert (Hin : rq ∈ pool_numbers).
  { rewrite <- (so_pool _ Hok). unfold whereabouts. rewrite Epr, bind_app, !elem_of_app. cbn. set_solver. }
  set (next := Some (level, path, tz)).
  set (y1 := {| y with ly_log := let s := ly_log y in {| s with log_level := -1 |}; ly_restart := Done next |}).
  assert (H1 : log_move false y y1).
  { apply (mv_begin _ _ level (Some path) tz); [done| |done]. unfold restart_begin. rewrite log_run_bind. cbn [gets fst snd].
    by rewrite bool_decide_false. }
  set (y2 := {| y1 with ly_restart := Stop next |}).
  assert (H2 : log_move false y1 y2).
  { apply (mv_restart _ y1); try done. cbn [restart_move ly_restart y1]. rewrite log_run_bind. cbn. by rewrite Ht. }
  destruct (stop_completes false y2 next eq_refl Hne) as (s3 & H3 & Ht3).
  set (y3 := {| ly_log := s3; ly_printers := ly_printers y; ly_thread := Gone; ly_restart := Path next |}).
  pose proof (restart_step false y3 ltac:(done) ltac:(done) ltac:(done)) as H4.
  match type of H4 with log_move _ _ ?x => set (y4 := x) in H4 end.
  pose proof (restart_step false y4 ltac:(done) ltac:(done) ltac:(done)) as H5.
  match type of H5 with log_move _ _ ?x => set (y5 := x) in H5 end.
  eexists. split; [|split].
  - eapply rtc_l; [exact H1|]. eapply rtc_l; [exact H2|]. etrans; [exact H3|].
    eapply rtc_l; [exact H4|]. eapply rtc_l; [exact H5|]. apply rtc_once.
    eapply (mv_printer _ y5 l1 (Filled rq) l2); [exact Epr|reflexivity].
  - done.
  - split; [exact Hin|]. cbn. apply elem_of_app. right. by left.
Qed.
End moves.

(** ** Runs of the whole log *)

(** What a task does next: a message comes in, printer [i] moves, the thread moves, a
    restart begins or moves. *)
Inductive log_act : Type :=
  | AEnter (level : Z) (text : list Z)
  | APrinter (i : nat)
  | AThread
  | ABegin (level : Z) (path : list Z)
  | ARestart.

Definition may_move (r : restarter) (t : option thread) : bool :=
  match r, t with
  | Idle, _ | Done _, Some Exited | Stop _, None | Stop _, Some Running => false
  | _, _ => true
  end.

Definition log_act_do (a : log_act) (y : logsys) : logsys :=
  match a with
  | AEnter level text =>
      if (0 <=? level) && (level <=? 7) && (level <=? log_level (ly_log y))
      then {| y with ly_printers := ly_printers y ++ [Entered level text] |} else y
  | APrinter i =>
      match ly_printers y !! i with
      | Some p =>
          let r := printer_move p (ly_log y) in
          {| y with ly_log := r.2; ly_printers := take i (ly_printers y) ++ option_list r.1 ++ drop (S i) (ly_printers y) |}
      | None => y
      end
  | AThread =>
      let r := thread_move ex_text_missed [2] (stopping (ly_restart y)) true (ly_thread y) (ly_log y) in
      {| y with ly_log := r.2; ly_thread := r.1 |}
  | ABegin level path =>
      match ly_restart y, ly_printers y with
      | Idle, [] => let r := restart_begin level (Some path) 0 (ly_log y) in {| y with ly_log := r.2; ly_restart := r.1 |}
      | _, _ => y
      end
  | ARestart =>
      if may_move (ly_restart y) (log_task (ly_log y)) then
        let r := restart_move [1] (ly_restart y) (ly_log y) in
        {| y with ly_log := r.2; ly_restart := r.1; ly_thread := woken_up (ly_restart y) r.2 (ly_thread y) |}
      else y
  end.

Lemma log_act_rtc a y : rtc (log_move ex_text_missed [1] [2] true) y (log_act_do a y).
Proof.
  destruct a as [level text|i| |level path|]; cbn [log_act_do].
  - destruct (_ && _) eqn:E; [|done]. bool_hyps. apply rtc_once. apply mv_enter; lia.
  - destruct (ly_printers y !! i) as [p|] eqn:E; [|done]. apply rtc_once. eapply mv_printer; [|apply surjective_pairing].
    symmetry. by apply take_drop_middle.
  - apply rtc_once. apply (mv_thread _ _ _ _ y true). apply surjective_pairing.
  - destruct (ly_restart y) eqn:Er; try done. destruct (ly_printers y) eqn:Ep; [|done]. apply rtc_once.
    rewrite <- Ep at 1. apply (mv_begin _ _ _ _ y level (Some path) 0); try done. apply surjective_pairing.
  - destruct (may_move _ _) eqn:E; [|done]. apply rtc_once. unfold may_move in E.
    apply mv_restart; [..|apply surjective_pairing]; destruct (ly_restart y), (log_task (ly_log y)) as [[]|]; done.
Qed.

Definition log_acts (l : list log_act) (y : logsys) : logsys := foldl (λ y a, log_act_do a y) y l.

Lemma log_acts_rtc l y : rtc (log_move ex_text_missed [1] [2] true) y (log_acts l y).
Proof. revert y. induction l as [|a l IH]; intros y; [done|]. cbn. etrans; [apply log_act_rtc|apply IH]. Qed.

Definition logsys0 : logsys := {| ly_log := log0 []; ly_printers := []; ly_thread := Gone; ly_restart := Idle |}.

Lemma logsys0_fresh : log_fresh logsys0.
Proof. by split. Qed.

(** The log is started; four messages come in, of which the first has its request, the second
    is ready to be queued, the third is queued and the thread has the fourth. *)
Definition ex_busy : logsys :=
  log_acts [ABegin 6 [47; 108]; ARestart; ARestart; ARestart; ARestart; AEnter 6 [65]; AEnter 5 [66]; AEnter 4 [67];
            AEnter 3 [68]; APrinter 0; APrinter 1; APrinter 1; APrinter 2; APrinter 3; APrinter 3; APrinter 3;
            APrinter 2; APrinter 2; AThread; AThread] logsys0.

Lemma log_pool_conserved_witness :
  ly_printers ex_busy = [Holds 0 6 [65]; Filled 1] ∧ ly_thread ex_busy = Got 3 ∧
  log_active_requests (ly_log ex_busy) = [2] ∧
  log_free_requests (ly_log ex_busy) ++ log_active_requests (ly_log ex_busy) ++
    (ly_printers ex_busy ≫= held_by) ++ thread_rq (ly_thread ex_busy) ≡ₚ pool_numbers.
Proof.
  repeat (split; [vm_compute; reflexivity|]).
  exact (proj1 (log_pool_conserved ex_text_missed [1] [2] logsys0 ex_busy logsys0_fresh (log_acts_rtc _ logsys0))).
Defined.

Lemma log_restart_race_witness :
  ∃ y', rtc (log_move ex_text_missed [1] [2] false) ex_busy y' ∧ ly_restart y' = Open (6, [47; 109], 0) ∧
    1 ∈ log_free_requests (ly_log y') ∧ 1 ∈ log_active_requests (ly_log y').
Proof.
  assert (Epr : ly_printers ex_busy = [Holds 0 6 [65]] ++ Filled 1 :: []) by (vm_compute; reflexivity).
  assert (Hth : ly_thread ex_busy ≠ Gone) by (vm_compute; discriminate).
  assert (Hp : log_filepath (ly_log ex_busy) ≠ Some [47; 109]) by (vm_compute; discriminate).
  exact (log_restart_race ex_text_missed [1] [2] logsys0 ex_busy 1 [Holds 0 6 [65]] [] 6 [47; 109] 0 logsys0_fresh
    (log_acts_rtc _ logsys0) Epr Hth Hp).
Defined.
