(* ===== verification/Uapi.v ===== *)
(** * The user interface's data (module/blksnap.h)

    The structures that cross the ioctl boundary. A user pointer to an array is
    the list of its elements ([None] for a null pointer); a UUID is a 128-bit
    number. *)
From S2P Require Import Prelude.

(** [struct blk_snap_dev], and the kernel's packing of a device number. *)
Record blk_snap_dev := BlkSnapDev { mj : Z; mn : Z }.

#[global] Instance blk_snap_dev_eq_dec : EqDecision blk_snap_dev.
Proof. solve_decision. Defined.

Definition MINORBITS : Z := 20.
Definition MINORMASK : Z := 2 ^ MINORBITS - 1.
Definition MKDEV (major minor : Z) : Z := u32 (Z.lor (Z.shiftl major MINORBITS) minor).
Definition MAJOR (dev : Z) : Z := Z.shiftr dev MINORBITS.
Definition MINOR (dev : Z) : Z := Z.land dev MINORMASK.

(** [struct blk_snap_block_range]. *)
Record blk_snap_block_range := BlockRange { sector_offset : Z; sector_count : Z }.

(** [struct blk_snap_cbt_info]. *)
Record blk_snap_cbt_info := CbtInfo {
  ci_dev_id : blk_snap_dev;
  ci_blk_size : Z;
  ci_device_capacity : Z;
  ci_blk_count : Z;
  ci_generation_id : Z;
  ci_snap_number : Z;
}.

(** [struct blk_snap_image_info]. *)
Record blk_snap_image_info := ImageInfo {
  orig_dev_id : blk_snap_dev;
  image_dev_id : blk_snap_dev;
}.

(** [enum blk_snap_event_codes]. *)
Definition blk_snap_event_code_low_free_space : Z := 0.
Definition blk_snap_event_code_corrupted : Z := 1.

(** The event bodies, [struct blk_snap_event_low_free_space] and
    [struct blk_snap_event_corrupted], as the bytes' meaning. *)
Inductive event_data : Type :=
  | low_free_space (requested_nr_sect : Z)
  | corrupted (orig_dev_id : blk_snap_dev) (err_code : Z).

Definition event_data_size (d : event_data) : Z :=
  match d with low_free_space _ => 8 | corrupted _ _ => 12 end.

(** [enum blk_snap_ioctl], in its order. *)
Inductive blk_snap_ioctl : Set :=
  | blk_snap_ioctl_version
  | blk_snap_ioctl_tracker_remove
  | blk_snap_ioctl_tracker_collect
  | blk_snap_ioctl_tracker_read_cbt_map
  | blk_snap_ioctl_tracker_mark_dirty_blocks
  | blk_snap_ioctl_snapshot_create
  | blk_snap_ioctl_snapshot_destroy
  | blk_snap_ioctl_snapshot_append_storage
  | blk_snap_ioctl_snapshot_take
  | blk_snap_ioctl_snapshot_collect
  | blk_snap_ioctl_snapshot_collect_images
  | blk_snap_ioctl_snapshot_wait_event.

#[global] Instance blk_snap_ioctl_eq_dec : EqDecision blk_snap_ioctl.
Proof. solve_decision. Defined.

Definition IOCTL_MOD : Z := 32.

(** ** The arguments of the ioctls

    A user pointer to an array that is read is the list of its elements, so that
    [count] is its length; of an array that is written, only whether it is there
    matters. The fields that user space reads back are in the replies of Main.v. *)

(** [struct blk_snap_version]. *)
Record blk_snap_version := Version { v_major : Z; v_minor : Z; v_revision : Z; v_build : Z }.

(** [struct blk_snap_tracker_remove]. *)
Record blk_snap_tracker_remove := TrackerRemove { tr_remove_dev_id : blk_snap_dev }.

(** [struct blk_snap_tracker_collect]. *)
Record blk_snap_tracker_collect := TrackerCollect { tc_count : Z; tc_cbt_info_array : bool }.

(** [struct blk_snap_tracker_read_cbt_bitmap]. *)
Record blk_snap_tracker_read_cbt_bitmap := ReadCbtBitmap {
  rc_dev_id : blk_snap_dev;
  rc_offset : Z;
  rc_length : Z;
}.

(** [struct blk_snap_tracker_mark_dirty_blocks]. *)
Record blk_snap_tracker_mark_dirty_blocks := MarkDirtyBlocks {
  md_dev_id : blk_snap_dev;
  dirty_blocks_array : list blk_snap_block_range;
}.

(** [struct blk_snap_snapshot_create]. *)
Record blk_snap_snapshot_create := SnapshotCreate { dev_id_array : list blk_snap_dev }.

(** [struct blk_snap_snapshot_destroy], [struct blk_snap_snapshot_take]. *)
Record blk_snap_snapshot_destroy := SnapshotDestroy { sd_id : Z }.
Record blk_snap_snapshot_take := SnapshotTake { sk_id : Z }.

(** [struct blk_snap_snapshot_append_storage]. *)
Record blk_snap_snapshot_append_storage := AppendStorage {
  as_id : Z;
  as_dev_id : blk_snap_dev;
  as_ranges : list blk_snap_block_range;
}.

(** [struct blk_snap_snapshot_collect]. *)
Record blk_snap_snapshot_collect := SnapshotCollect { sc_count : Z; sc_ids : bool }.

(** [struct blk_snap_snapshot_collect_images]. *)
Record blk_snap_snapshot_collect_images := CollectImages {
  sci_id : Z;
  sci_count : Z;
  sci_image_info_array : bool;
}.

(** [struct blk_snap_snapshot_event]; [data] has 4096 - 32 bytes. *)
Record blk_snap_snapshot_event := SnapshotEvent {
  se_id : Z;
  timeout_ms : Z;
  se_code : Z;
  time_label : Z;
  se_data : option event_data;
}.
Definition EVENT_DATA_SIZE : Z := 4096 - 32.

(** [struct blk_snap_setlog]; a null [filepath] is [None]. *)
Record blk_snap_setlog := SetLog {
  tz_minuteswest : Z;
  sl_level : Z;
  sl_filepath : option (list Z);
}.

(** [enum blk_snap_compat_flags]. *)
Definition blk_snap_compat_flag_debug_sector_state : Z := 0.
Definition blk_snap_compat_flag_setlog : Z := 1.

(** ** Packing device numbers *)
Lemma MKDEV_value a b :
  0 ≤ a < 2 ^ 12 → 0 ≤ b < 2 ^ 20 → MKDEV a b = a * 2 ^ 20 + b.
Proof.
  intros Ha Hb. unfold MKDEV, MINORBITS, u32.
  rewrite Z.shiftl_mul_pow2 by lia.
  assert (Hl : Z.land (a * 2 ^ 20) b = 0).
  { apply Z.bits_inj'. intros n Hn. rewrite Z.land_spec, Z.bits_0, Z.mul_pow2_bits by lia.
    destruct (decide (n < 20)).
    - by rewrite (Z.testbit_neg_r _ (n - 20)) by lia.
    - rewrite (Z.bits_above_log2 b n), andb_false_r; [done|lia|].
      destruct (decide (b = 0)) as [->|]; [simpl; lia|].
      apply Z.log2_lt_pow2; [lia|]. pose proof (Z.pow_le_mono_r 2 20 n). lia. }
  rewrite <- Z.lxor_lor, <- Z.add_nocarry_lxor by done.
  apply Z.mod_small. lia.
Qed.

Lemma MAJOR_MKDEV a b : 0 ≤ a < 2 ^ 12 → 0 ≤ b < 2 ^ 20 → MAJOR (MKDEV a b) = a.
Proof.
  intros. rewrite MKDEV_value by done. unfold MAJOR, MINORBITS.
  rewrite Z.shiftr_div_pow2, Z.add_comm, Z.div_add by lia. rewrite Z.div_small by lia. lia.
Qed.

Lemma MINOR_MKDEV a b : 0 ≤ a < 2 ^ 12 → 0 ≤ b < 2 ^ 20 → MINOR (MKDEV a b) = b.
Proof.
  intros. rewrite MKDEV_value by done. unfold MINOR, MINORMASK, MINORBITS.
  replace (2 ^ 20 - 1) with (Z.ones 20) by reflexivity.
  rewrite Z.land_ones, Z.add_comm, Z.mod_add by lia. apply Z.mod_small. lia.
Qed.
