(* ===== verification/EventQueue.v ===== *)
(** * The event queue (event_queue.c, event_queue.h)

    A FIFO of events for the user-space process that holds the snapshot. *)
From S2P Require Import Prelude MemoryChecker Kernel Uapi.

(** [struct event]; [ev_time] is the [ktime_get] stamp. *)
Record event := Event {
  ev_time : Z;
  ev_code : Z;
  ev_data_size : Z;
  ev_data : event_data;
}.

(** [struct event_queue]; the lock and the wait-queue head have no state of
    their own between operations. *)
Record event_queue := EventQueue { eq_list : list event }.

Definition event_queue_init : event_queue := {| eq_list := [] |}.

Definition event_free (e : option event) : K unit :=
  match e with
  | None => skip
  | Some _ => memory_object_dec memory_object_event
  end.

Fixpoint free_events (l : list event) : K unit :=
  match l with
  | [] => skip
  | e :: l => event_free (Some e);; free_events l
  end.

Definition event_queue_done (q : event_queue) : K event_queue :=
  free_events (eq_list q);; mret {| eq_list := [] |}.

Definition event_gen (q : event_queue) (code : Z) (data : event_data) : K (Z * event_queue) :=
  ok ← alloc;
  if negb ok then mret (- ENOMEM, q)
  else
    memory_object_inc memory_object_event;;
    time ← oracle;
    let e := {| ev_time := time; ev_code := code;
                ev_data_size := event_data_size data; ev_data := data |} in
    mret (0, {| eq_list := eq_list q ++ [e] |}).

(** [event_wait]: [ret] is what [wait_event_interruptible_timeout] returned.
    That call documents: positive only if the condition (a non-empty list)
    held, 0 on timeout, [-ERESTARTSYS] on a signal. The list is popped under
    the lock afterwards; [None] in the result stands for [list_first_entry] on
    an empty list, which is not an event. *)
Definition event_wait (q : event_queue) (ret : Z) : option (result event * event_queue) :=
  if 0 <? ret then
    match eq_list q with
    | [] => None
    | e :: l => Some (Ok e, {| eq_list := l |})
    end
  else if ret =? 0 then Some (Err (- ENOENT), q)
  else if ret =? - ERESTARTSYS then Some (Err (- EINTR), q)
  else Some (Err ret, q).

(** ** Lemmas *)

Lemma event_gen_spec q code data w :
  wp (event_gen q code data) w (λ '(r, q') w',
    quiet w w' ∧
    ((r = - ENOMEM ∧ q' = q) ∨
     (r = 0 ∧ ∃ e, ev_code e = code ∧ ev_data e = data ∧
                   ev_data_size e = event_data_size data ∧
                   eq_list q' = eq_list q ++ [e]))).
Proof.
  unfold event_gen. wp_steps. apply wp_alloc. intros ok vs. wp_if E.
  - wp_steps. simpl. eauto.
  - wp_steps. apply wp_oracle. intros. wp_steps. simpl. split; [done|].
    right. split; [done|]. eexists. repeat split; eauto.
Qed.

Lemma free_events_spec l w :
  wp (free_events l) w (λ _ w',
    quiet w w' ∧
    mem_delta w w' memory_object_event (- Z.of_nat (length l)) ∧
    ∀ t, t ≠ memory_object_event → mem_delta w w' t 0).
Proof.
  revert w. induction l as [|e l IH]; intros w.
  - cbn [free_events]. wp_steps. unfold mem_delta. simpl. split_and!; intros; try done; lia.
  - cbn [free_events event_free]. wp_steps.
    wp_call IH. intros _ w' (Hd & Hm & Ho). unfold mem_delta in *. simpl in *.
    split; [done|]. split.
    + rewrite Hm, upd_eq. lia.
    + intros t Ht. rewrite Ho by done. by rewrite upd_ne by done.
Qed.
