(* ===== verification/CbtMap.v ===== *)
(** * The change-block-tracking map (cbt_map.c, cbt_map.h)

    One byte per tracking block holds the number of the last snapshot interval
    in which the block was written. Two tables: [write_map] is live,
    [read_map] is the copy made when a snapshot is taken. A null table is
    [None]; an access the C code has no right to make (a null or short buffer)
    makes the operation's result [None]. *)
From S2P Require Import Prelude MemoryChecker Kernel Uapi.

(** [struct cbt_map]. *)
Record cbt_map := CbtMap {
  kref : Z;
  blk_size_shift : Z;
  blk_count : Z;
  device_capacity : Z;
  read_map : option (list Z);
  write_map : option (list Z);
  snap_number_active : Z;
  snap_number_previous : Z;
  generation_id : Z;
  is_corrupted : bool;
}.

(** What [kzalloc] returns. *)
Definition cbt_map_zero : cbt_map :=
  {| kref := 0; blk_size_shift := 0; blk_count := 0; device_capacity := 0;
     read_map := None; write_map := None; snap_number_active := 0;
     snap_number_previous := 0; generation_id := 0; is_corrupted := false |}.

Definition count_by_shift (capacity shift : Z) : Z :=
  let blk_size := u64 (Z.shiftl 1 (shift - SECTOR_SHIFT)) in
  round_up capacity blk_size / blk_size.

Section params.
Context {P : ModuleParams}.

(** The [while] loop: [None] when the fuel is too small. *)
Fixpoint block_size_loop (fuel : nat) (capacity shift count : Z) : option (Z * Z) :=
  if u64 tracking_block_maximum_count <? count then
    match fuel with
    | O => None
    | S fuel =>
        let shift := u64 (Z.shiftl shift 1) in
        block_size_loop fuel capacity shift (count_by_shift capacity shift)
    end
  else Some (shift, count).

Definition cbt_map_calculate_block_size (m : cbt_map) : option cbt_map :=
  let shift := u64 tracking_block_minimum_shift in
  let count := count_by_shift (device_capacity m) shift in
  '(shift, count) ← block_size_loop 8 (device_capacity m) shift count;
  Some {| m with blk_size_shift := shift; blk_count := count |}.
End params.

(** [__vmalloc(size, ... | __GFP_ZERO)]: zeroed bytes; a request of no bytes
    fails. *)
Definition vzalloc (size : Z) : K (option (list Z)) :=
  ok ← alloc;
  mret (if ok && (0 <? size) then Some (replicate (Z.to_nat size) 0) else None).

Definition cbt_map_allocate (m : cbt_map) : K (Z * cbt_map) :=
  let size := blk_count m in
  match read_map m, write_map m with
  | None, None =>
      rm ← vzalloc size;
      match rm with
      | None => mret (- ENOMEM, m)
      | Some rm =>
          wm ← vzalloc size;
          match wm with
          | None => mret (- ENOMEM, m)
          | Some wm =>
              memory_object_inc memory_object_cbt_buffer;;
              memory_object_inc memory_object_cbt_buffer;;
              uuid ← oracle;
              mret (0, {| m with read_map := Some rm; write_map := Some wm;
                          snap_number_previous := 0; snap_number_active := 1;
                          generation_id := uuid; is_corrupted := false |})
          end
      end
  | _, _ => mret (- EINVAL, m)
  end.

Definition cbt_map_deallocate (m : cbt_map) : K cbt_map :=
  when (if read_map m then true else false) (memory_object_dec memory_object_cbt_buffer);;
  when (if write_map m then true else false) (memory_object_dec memory_object_cbt_buffer);;
  mret {| m with is_corrupted := false; read_map := None; write_map := None |}.

Section params2.
Context {P : ModuleParams}.

(** [None] only if the block-size loop does not end. *)
Definition cbt_map_reset (m : cbt_map) (capacity : Z) : K (option (Z * cbt_map)) :=
  m ← cbt_map_deallocate m;
  match cbt_map_calculate_block_size {| m with device_capacity := capacity |} with
  | None => mret None
  | Some m => r ← cbt_map_allocate m; mret (Some r)
  end.

Definition cbt_map_destroy (m : cbt_map) : K unit :=
  cbt_map_deallocate m;;
  memory_object_dec memory_object_cbt_map.

(** [capacity] is [bdev_nr_sectors(bdev)]. The outer option is the fuel of
    the block-size loop, the inner one the pointer returned. *)
Definition cbt_map_create (capacity : Z) : K (option (option cbt_map)) :=
  ok ← alloc;
  if negb ok then mret (Some None)
  else
    memory_object_inc memory_object_cbt_map;;
    match cbt_map_calculate_block_size {| cbt_map_zero with device_capacity := capacity |} with
    | None => mret None
    | Some m =>
        '(ret, m) ← cbt_map_allocate m;
        if ret =? 0 then
          mret (Some (Some {| m with kref := 1; is_corrupted := false |}))
        else
          cbt_map_destroy m;;
          mret (Some None)
    end.
End params2.

Definition cbt_map_get (m : cbt_map) : cbt_map := {| m with kref := kref m + 1 |}.

(** [cbt_map_put]: [None] when the last reference destroyed the map. *)
Definition cbt_map_put (m : cbt_map) : K (option cbt_map) :=
  if kref m - 1 =? 0 then cbt_map_destroy m;; mret None
  else mret (Some {| m with kref := kref m - 1 |}).

Definition cbt_map_switch (m : cbt_map) : K (option cbt_map) :=
  match read_map m, write_map m with
  | Some rm, Some wm =>
      let previous := snap_number_active m in
      let active := u64 (snap_number_active m + 1) in
      if active =? 256 then
        uuid ← oracle;
        mret (Some {| m with snap_number_previous := previous; snap_number_active := 1;
                      write_map := Some (replicate (Z.to_nat (blk_count m)) 0);
                      generation_id := uuid |})
      else
        mret (Some {| m with snap_number_previous := previous; snap_number_active := active;
                      read_map := Some wm |})
  | _, _ => mret None
  end.

(** The loop of [_cbt_map_set]. It visits at most one index past the table. *)
Fixpoint cbt_set_loop (fuel : nat) (count last snap_number inx : Z) (map : list Z)
    : option (Z * list Z) :=
  if inx <=? last then
    if count <=? inx then Some (- EINVAL, map)
    else
      match fuel with
      | O => None
      | S fuel =>
          num ← nthZ map inx;
          let map := if num <? snap_number then setZ inx snap_number map else map in
          cbt_set_loop fuel count last snap_number (inx + 1) map
      end
  else Some (0, map).

Definition cbt_block (m : cbt_map) (sector : Z) : Z :=
  Z.shiftr sector (blk_size_shift m - SECTOR_SHIFT).

Definition _cbt_map_set (m : cbt_map) (sector_start sector_cnt snap_number : Z)
    (map : list Z) : option (Z * list Z) :=
  let cbt_block_first := cbt_block m sector_start in
  let cbt_block_last := cbt_block m (u64 (sector_start + sector_cnt - 1)) in
  cbt_set_loop (Z.to_nat (blk_count m)) (blk_count m) cbt_block_last snap_number
    cbt_block_first map.

Definition cbt_map_set (m : cbt_map) (sector_start sector_cnt : Z) : option (Z * cbt_map) :=
  if is_corrupted m then Some (- EINVAL, m)
  else
    wm ← write_map m;
    '(res, wm) ← _cbt_map_set m sector_start sector_cnt (u8 (snap_number_active m)) wm;
    Some (res, {| m with write_map := Some wm; is_corrupted := negb (res =? 0) |}).

Definition cbt_map_set_both (m : cbt_map) (sector_start sector_cnt : Z) : option (Z * cbt_map) :=
  if is_corrupted m then Some (- EINVAL, m)
  else
    wm ← write_map m;
    '(res, wm) ← _cbt_map_set m sector_start sector_cnt (u8 (snap_number_active m)) wm;
    let m := {| m with write_map := Some wm |} in
    if res =? 0 then
      rm ← read_map m;
      '(res, rm) ← _cbt_map_set m sector_start sector_cnt (u8 (snap_number_previous m)) rm;
      Some (res, {| m with read_map := Some rm |})
    else Some (res, m).

(** [cbt_map_read_to_user]: the [size_t] returned and the bytes written to the
    user's buffer. The copy starts at the beginning of the table whatever
    [offset] is; [None] when it runs past the table's end. *)
Definition cbt_map_read_to_user (m : cbt_map) (offset size : Z) : K (option (Z * list Z)) :=
  let real_size := Z.min (u64 (blk_count m - offset)) size in
  if is_corrupted m then mret (Some (u64 (- EFAULT), []))
  else
    match read_map m with
    | None => mret None
    | Some rm =>
        if lenZ rm <? real_size then mret None
        else
          left_size ← copy_user real_size;
          let readed := if left_size =? 0 then real_size else real_size - left_size in
          mret (Some (readed, take (Z.to_nat readed) rm))
    end.

Fixpoint cbt_map_mark_dirty_blocks (m : cbt_map) (block_ranges : list blk_snap_block_range)
    : option (Z * cbt_map) :=
  match block_ranges with
  | [] => Some (0, m)
  | r :: rs =>
      '(ret, m) ← cbt_map_set_both m (sector_offset r) (sector_count r);
      if ret =? 0 then cbt_map_mark_dirty_blocks m rs else Some (ret, m)
  end.

Definition cbt_map_get_sector_state (m : cbt_map) (sector : Z)
    : option (result (Z * Z)) :=
  let cbt_block := cbt_block m sector in
  if blk_count m <=? cbt_block then Some (Err (- EINVAL))
  else if is_corrupted m then Some (Err (- EINVAL))
  else
    wm ← write_map m; rm ← read_map m;
    curr ← nthZ wm cbt_block; prev ← nthZ rm cbt_block;
    Some (Ok (prev, curr)).

(** [cbt_map_blk_size]: [1 << blk_size_shift] is an [int] expression, so a
    shift of 31 or more has no defined value. *)
Definition cbt_map_blk_size (m : cbt_map) : option Z :=
  if blk_size_shift m <? 31 then Some (Z.shiftl 1 (blk_size_shift m)) else None.

(** ** The loop of [_cbt_map_set] raises exactly the blocks of its range *)

Definition marked (first last snap_number : Z) (j num : Z) : Z :=
  if (first <=? j) && (j <=? last) then Z.max num snap_number else num.

Lemma marked_id first last sn map :
  (∀ j, 0 ≤ j < lenZ map → ¬ first ≤ j ≤ last) →
  ∀ j, nthZ map j = marked first last sn j <$> nthZ map j.
Proof.
  intros H j. unfold marked. destruct (nthZ map j) as [x|] eqn:E; simpl; [|done].
  apply nthZ_inv in E. specialize (H j E).
  destruct (Z.leb_spec first j); destruct (Z.leb_spec j last); try done; lia.
Qed.

Lemma cbt_set_loop_spec fuel count last sn inx map :
  0 ≤ inx → lenZ map = count → count - inx ≤ Z.of_nat fuel →
  ∃ map', cbt_set_loop fuel count last sn inx map =
            Some (if (last <? inx) || (last <? count) then 0 else - EINVAL, map') ∧
          lenZ map' = count ∧
          ∀ j, nthZ map' j = marked inx last sn j <$> nthZ map j.
Proof.
  revert inx map. induction fuel as [|fuel IH]; intros inx map Hi Hl Hf;
    cbn [cbt_set_loop];
    (destruct (Z.leb_spec inx last);
     [|rewrite (proj2 (Z.ltb_lt last inx)) by lia; exists map;
       split_and!; [done..|]; apply marked_id; lia]);
    (destruct (Z.leb_spec count inx);
     [rewrite (proj2 (Z.ltb_ge last inx)), (proj2 (Z.ltb_ge last count)) by lia;
      exists map; split_and!; [done..|]; apply marked_id; lia|]); [lia|].
  destruct (nthZ_Some map inx) as [num Hnum]; [lia|]. rewrite Hnum. simpl.
  set (map1 := if num <? sn then setZ inx sn map else map).
  assert (Hl1 : lenZ map1 = count) by (unfold map1; case_match; [by rewrite lenZ_setZ|done]).
  assert (Hn1 : ∀ j, nthZ map1 j = if j =? inx then Some (Z.max num sn) else nthZ map j).
  { intros j. unfold map1. destruct (Z.ltb_spec num sn).
    - rewrite nthZ_setZ by lia. by rewrite Z.max_r by lia.
    - destruct (Z.eqb_spec j inx); subst; [|done]. by rewrite Hnum, Z.max_l by lia. }
  destruct (IH (inx + 1) map1) as (map' & -> & Hl' & Hn'); [lia|done|lia|].
  exists map'. split; [|split; [done|]].
  - f_equal. f_equal. destruct (Z.ltb_spec last inx); [lia|].
    destruct (Z.ltb_spec last (inx + 1)); destruct (Z.ltb_spec last count); try done; lia.
  - intros j. rewrite Hn', Hn1. unfold marked. destruct (Z.eqb_spec j inx) as [->|Hji].
    + rewrite Hnum. simpl. destruct (Z.leb_spec (inx + 1) inx); [lia|].
      by rewrite (proj2 (Z.leb_le inx inx)), (proj2 (Z.leb_le inx last)) by lia.
    + destruct (nthZ map j); simpl; [|done]. f_equal.
      destruct (Z.leb_spec (inx + 1) j); destruct (Z.leb_spec inx j); try done; lia.
Qed.

(** ** Well-formed maps *)

Definition bounded (n : Z) (l : list Z) : Prop := ∀ j x, nthZ l j = Some x → 0 ≤ x ≤ n.

Record cbt_wf (m : cbt_map) : Prop := {
  wf_shift : SECTOR_SHIFT ≤ blk_size_shift m;
  wf_count : 0 < blk_count m;
  wf_active : 1 ≤ snap_number_active m ≤ 255;
  wf_previous : snap_number_previous m = snap_number_active m - 1 ∨
                (snap_number_active m = 1 ∧ snap_number_previous m = 255);
  wf_read : ∃ rm, read_map m = Some rm ∧ lenZ rm = blk_count m ∧ bounded 255 rm;
  wf_write : ∃ wm, write_map m = Some wm ∧ lenZ wm = blk_count m ∧
                   bounded (snap_number_active m) wm;
}.

(** The byte of a block; 0 where there is no table. *)
Definition table_at (t : option (list Z)) (b : Z) : Z :=
  default 0 (t ≫= λ l, nthZ l b).

Lemma table_at_Some l b x : nthZ l b = Some x → table_at (Some l) b = x.
Proof. unfold table_at. simpl. by intros ->. Qed.

(** The blocks a range of sectors touches. *)
Definition in_blocks (m : cbt_map) (sector count b : Z) : Prop :=
  cbt_block m sector ≤ b ≤ cbt_block m (sector + count - 1).

Lemma cbt_block_div m s :
  SECTOR_SHIFT ≤ blk_size_shift m → cbt_block m s = s / 2 ^ (blk_size_shift m - SECTOR_SHIFT).
Proof. intros. unfold cbt_block. apply Z.shiftr_div_pow2. lia. Qed.

Lemma cbt_block_mono m s s' :
  SECTOR_SHIFT ≤ blk_size_shift m → s ≤ s' → cbt_block m s ≤ cbt_block m s'.
Proof.
  intros. rewrite !cbt_block_div by done. apply Z.div_le_mono; [apply pow2_pos; lia|done].
Qed.

Lemma cbt_block_nonneg m s :
  SECTOR_SHIFT ≤ blk_size_shift m → 0 ≤ s → 0 ≤ cbt_block m s.
Proof. intros. rewrite cbt_block_div by done. apply Z.div_pos; [done|apply pow2_pos; lia]. Qed.

(** [_cbt_map_set] on a non-empty range that does not wrap. *)
Lemma cbt_map_set_aux m sector count sn map :
  SECTOR_SHIFT ≤ blk_size_shift m → 0 ≤ blk_count m → lenZ map = blk_count m →
  0 ≤ sector → 0 < count → sector + count ≤ 2 ^ 64 →
  ∃ map', _cbt_map_set m sector count sn map =
            Some (if cbt_block m (sector + count - 1) <? blk_count m then 0 else - EINVAL, map') ∧
          lenZ map' = blk_count m ∧
          ∀ j, nthZ map' j =
            marked (cbt_block m sector) (cbt_block m (sector + count - 1)) sn j <$> nthZ map j.
Proof.
  intros Hs Hc Hl H0 Hp Hov. unfold _cbt_map_set. rewrite u64_small by lia.
  destruct (cbt_set_loop_spec (Z.to_nat (blk_count m)) (blk_count m)
    (cbt_block m (sector + count - 1)) sn (cbt_block m sector) map) as (map' & -> & ?); 
    [by apply cbt_block_nonneg|done|pose proof (cbt_block_nonneg m sector Hs H0); lia|].
  exists map'. split; [|done].
  pose proof (cbt_block_mono m sector (sector + count - 1) Hs ltac:(lia)).
  by rewrite (proj2 (Z.ltb_ge _ (cbt_block m sector))) by lia.
Qed.

Lemma marked_bounded n first last sn map map' :
  bounded n map → 0 ≤ sn ≤ n →
  (∀ j, nthZ map' j = marked first last sn j <$> nthZ map j) → bounded n map'.
Proof.
  intros Hb Hsn Hm j x. rewrite Hm. destruct (nthZ map j) as [y|] eqn:E; simpl; [|done].
  intros [= <-]. specialize (Hb j y E). unfold marked. case_match; lia.
Qed.

(** ** Functional behaviour of [cbt_map_set] *)
Lemma cbt_map_set_spec m sector count :
  cbt_wf m → is_corrupted m = false →
  0 ≤ sector → 0 < count → sector + count ≤ 2 ^ 64 →
  ∃ m', cbt_map_set m sector count =
          Some (if is_corrupted m' then - EINVAL else 0, m') ∧
        cbt_wf m' ∧
        m' = {| m with write_map := write_map m'; is_corrupted := is_corrupted m' |} ∧
        (is_corrupted m' = false ↔ cbt_block m (sector + count - 1) < blk_count m) ∧
        ∀ b, 0 ≤ b < blk_count m →
             table_at (write_map m') b =
               marked (cbt_block m sector) (cbt_block m (sector + count - 1))
                 (snap_number_active m) b (table_at (write_map m) b).
Proof.
  intros Hwf Hcor H0 Hp Hov. pose proof Hwf as [Hs Hc Ha Hpv Hr (wm & Hw & Hl & Hb)].
  unfold cbt_map_set. rewrite Hcor, Hw. simpl.
  rewrite u8_small by (change (2 ^ 8) with 256; lia).
  destruct (cbt_map_set_aux m sector count (snap_number_active m) wm)
    as (wm' & -> & Hl' & Hn'); [done|lia|done..|]. simpl.
  eexists. split.
  { f_equal. f_equal. simpl. by destruct (_ <? blk_count m). }
  split_and!; simpl; [|done| |].
  - split; simpl; try done. exists wm'. split_and!; [done..|].
    eapply marked_bounded; [done| |done]. lia.
  - destruct (Z.ltb_spec (cbt_block m (sector + count - 1)) (blk_count m)); simpl;
      split; intros; try done; lia.
  - intros b Hbb. destruct (nthZ_Some wm b) as [x Hx]; [lia|].
    unfold table_at. simpl. rewrite Hn', Hx. done.
Qed.

(** ** The size of a tracking block *)

Lemma count_by_shift_spec capacity s :
  SECTOR_SHIFT ≤ s ≤ 64 → 0 ≤ capacity < 2 ^ 55 →
  count_by_shift capacity s = (capacity + (2 ^ (s - 9) - 1)) / 2 ^ (s - 9).
Proof.
  unfold SECTOR_SHIFT. intros Hs Hc. unfold count_by_shift, SECTOR_SHIFT.
  assert (0 < 2 ^ (s - 9)) by (apply pow2_pos; lia).
  assert (2 ^ (s - 9) ≤ 2 ^ 55) by (apply Z.pow_le_mono_r; lia).
  rewrite shiftl_1, u64_small by lia.
  rewrite round_up_pow2 by lia. by rewrite Z.div_mul by lia.
Qed.

Lemma count_by_shift_bounds capacity s :
  SECTOR_SHIFT ≤ s ≤ 64 → 0 < capacity < 2 ^ 55 →
  0 < count_by_shift capacity s ∧
  (count_by_shift capacity s - 1) * 2 ^ (s - 9) < capacity ≤
    count_by_shift capacity s * 2 ^ (s - 9).
Proof.
  intros Hs Hc. rewrite count_by_shift_spec by lia. unfold SECTOR_SHIFT in Hs.
  assert (0 < 2 ^ (s - 9)) by (apply pow2_pos; lia).
  pose proof (Z.div_mod (capacity + (2 ^ (s - 9) - 1)) (2 ^ (s - 9)) ltac:(lia)).
  pose proof (Z.mod_pos_bound (capacity + (2 ^ (s - 9) - 1)) (2 ^ (s - 9)) ltac:(lia)). nia.
Qed.

(** The geometry the block-size computation establishes: no more blocks than
    the limit, and the blocks cover the device with none to spare. *)
Definition cbt_geometry (limit : Z) (m : cbt_map) : Prop :=
  SECTOR_SHIFT ≤ blk_size_shift m ≤ 64 ∧ 0 < blk_count m ≤ limit ∧
  (blk_count m - 1) * 2 ^ (blk_size_shift m - 9) < device_capacity m ≤
    blk_count m * 2 ^ (blk_size_shift m - 9).

Lemma calculate_block_size_spec m :
  0 < device_capacity m < 2 ^ 55 →
  ∃ m', cbt_map_calculate_block_size (P:=default_params) m = Some m' ∧
        m' = {| m with blk_size_shift := blk_size_shift m'; blk_count := blk_count m' |} ∧
        blk_size_shift m' =
          (if device_capacity m <=? 2 ^ 28 then 16
           else if device_capacity m <=? 2 ^ 44 then 32 else 64) ∧
        cbt_geometry 2097152 m'.
Proof.
  intros Hc. unfold cbt_map_calculate_block_size.
  set (c := device_capacity m) in *. cbn [tracking_block_minimum_shift default_params].
  change (u64 16) with 16.
  assert (Hcnt : ∀ s, SECTOR_SHIFT ≤ s ≤ 64 →
    (2097152 <? count_by_shift c s) = negb (c <=? 2097152 * 2 ^ (s - 9))).
  { intros s Hs. destruct (count_by_shift_bounds c s Hs Hc) as (? & ?).
    assert (0 < 2 ^ (s - 9)) by (unfold SECTOR_SHIFT in Hs; apply pow2_pos; lia).
    destruct (Z.ltb_spec 2097152 (count_by_shift c s));
      destruct (Z.leb_spec c (2097152 * 2 ^ (s - 9))); simpl; try done; nia. }
  assert (Hdone : ∀ s, SECTOR_SHIFT ≤ s ≤ 64 → c <= 2097152 * 2 ^ (s - 9) →
    cbt_geometry 2097152 {| m with blk_size_shift := s; blk_count := count_by_shift c s |}).
  { intros s Hs Hle. destruct (count_by_shift_bounds c s Hs Hc) as (? & ?).
    specialize (Hcnt s Hs). rewrite (proj2 (Z.leb_le _ _)) in Hcnt by done. simpl in Hcnt.
    apply Z.ltb_ge in Hcnt. unfold cbt_geometry; simpl. split_and!; lia. }
  cbn [block_size_loop tracking_block_maximum_count default_params].
  change (u64 2097152) with 2097152. change (u64 (Z.shiftl 16 1)) with 32.
  change (u64 (Z.shiftl 32 1)) with 64. change (u64 (Z.shiftl 64 1)) with 128.
  rewrite (Hcnt 16), (Hcnt 32), (Hcnt 64) by (unfold SECTOR_SHIFT; lia).
  change (2097152 * 2 ^ (16 - 9)) with (2 ^ 28). change (2097152 * 2 ^ (32 - 9)) with (2 ^ 44).
  destruct (Z.leb_spec c (2 ^ 28)); [|destruct (Z.leb_spec c (2 ^ 44))]; cbn -[Z.pow].
  3: rewrite (proj2 (Z.leb_le _ _)) by (change (2097152 * 2 ^ (64 - 9)) with (2 ^ 76); lia).
  all: eexists; split_and!; [done..|].
  all: apply Hdone; [unfold SECTOR_SHIFT; lia|].
  - change (2097152 * 2 ^ (16 - 9)) with (2 ^ 28). lia.
  - change (2097152 * 2 ^ (32 - 9)) with (2 ^ 44). lia.
  - change (2097152 * 2 ^ (64 - 9)) with (2 ^ 76). lia.
Qed.

(** ** Allocation, creation and reset *)

Lemma vzalloc_spec size w (Q : option (list Z) → world → Prop) :
  (∀ vs, Q None {| w with w_oracle := vs |}) →
  (∀ vs, 0 < size → Q (Some (replicate (Z.to_nat size) 0)) {| w with w_oracle := vs |}) →
  wp (vzalloc size) w Q.
Proof.
  intros HN HS. unfold vzalloc. wp_steps. apply wp_alloc. intros ok vs. wp_steps.
  destruct ok; simpl; [|apply HN]. destruct (Z.ltb_spec 0 size); [by apply HS|apply HN].
Qed.

Lemma replicate_bounded n size : 0 ≤ n → bounded n (replicate (Z.to_nat size) 0).
Proof.
  intros Hn j x. unfold nthZ. case_match; [done|]. intros [-> _]%lookup_replicate. lia.
Qed.

(** A fresh map: interval 1, no block marked. *)
Definition cbt_fresh (m : cbt_map) : Prop :=
  cbt_wf m ∧ is_corrupted m = false ∧ snap_number_active m = 1 ∧ snap_number_previous m = 0 ∧
  (∀ b, table_at (write_map m) b = 0) ∧ (∀ b, table_at (read_map m) b = 0).

Lemma table_at_zero size b : table_at (Some (replicate (Z.to_nat size) 0)) b = 0.
Proof.
  unfold table_at. simpl. unfold nthZ. case_match; simpl; [done|].
  destruct (replicate _ _ !! _) as [x|] eqn:E; simpl; [|done].
  by apply lookup_replicate in E as [-> _].
Qed.

Lemma cbt_map_allocate_spec m w :
  SECTOR_SHIFT ≤ blk_size_shift m → read_map m = None → write_map m = None →
  wp (cbt_map_allocate m) w (λ '(ret, m') w',
    w_disk w' = w_disk w ∧
    ((ret = - ENOMEM ∧ m' = m ∧ w_mem w' = w_mem w) ∨
     (ret = 0 ∧ cbt_fresh m' ∧ blk_size_shift m' = blk_size_shift m ∧
      blk_count m' = blk_count m ∧ device_capacity m' = device_capacity m ∧ kref m' = kref m ∧
      mem_delta w w' memory_object_cbt_buffer 2))).
Proof.
  intros Hs Hr Hw. unfold cbt_map_allocate. rewrite Hr, Hw. wp_steps.
  apply vzalloc_spec; intros vs; [|intros Hp]; wp_steps; [by eauto|].
  apply vzalloc_spec; intros vs'; [|intros _]; wp_steps; [by eauto|].
  apply wp_oracle. intros. wp_steps. split; [done|]. right. split_and!; try done.
  - split_and!; try done; [|intros; apply table_at_zero..].
    split; simpl; try done; try lia.
    + eexists. split_and!; [done|apply lenZ_replicate; lia|by apply replicate_bounded].
    + eexists. split_and!; [done|apply lenZ_replicate; lia|by apply replicate_bounded].
  - unfold mem_delta. simpl. rewrite upd_eq. rewrite upd_eq. lia.
Qed.

Lemma cbt_map_deallocate_spec m w :
  wp (cbt_map_deallocate m) w (λ m' w',
    m' = {| m with is_corrupted := false; read_map := None; write_map := None |} ∧
    w_disk w' = w_disk w ∧
    ∀ t, t ≠ memory_object_cbt_buffer → mem_delta w w' t 0).
Proof.
  unfold cbt_map_deallocate, when.
  destruct (read_map m), (write_map m); wp_steps; split_and!; try done; intros t Ht;
    unfold mem_delta; simpl; rewrite ?upd_ne by done; lia.
Qed.

Lemma cbt_fresh_kref m k :
  cbt_fresh m → cbt_fresh {| m with kref := k; is_corrupted := false |}.
Proof. intros ([] & ? & ?). split; [by split|]. by split. Qed.

(** [cbt_map_create] always returns; if the pointer is not null the map is
    fresh and covers the device. *)
Lemma cbt_map_create_spec capacity w :
  0 < capacity < 2 ^ 55 →
  wp (cbt_map_create (P:=default_params) capacity) w (λ r w',
    w_disk w' = w_disk w ∧
    ∃ o, r = Some o ∧
      match o with
      | None => memory_counter (w_mem w') memory_object_cbt_map =
                memory_counter (w_mem w) memory_object_cbt_map
      | Some m => cbt_fresh m ∧ kref m = 1 ∧ device_capacity m = capacity ∧
                  cbt_geometry 2097152 m
      end).
Proof.
  intros Hc. unfold cbt_map_create. wp_steps. apply wp_alloc. intros ok vs.
  wp_if E; wp_steps; [split; [done|by exists None]|].
  destruct (calculate_block_size_spec {| cbt_map_zero with device_capacity := capacity |})
    as (m & -> & Hm & Hsh & Hg); [done|]. wp_steps.
  pose proof Hg as (Hs & _).
  wp_call cbt_map_allocate_spec; [lia|by rewrite Hm..|].
  intros [ret m'] w' (Hd & [(-> & -> & Hmem)|(-> & Hf & Es & Ec & Ecap & Ek & Hmem)]); simpl;
    unfold cbt_map_destroy; wp_steps.
  - wp_call cbt_map_deallocate_spec. intros ? w2 (-> & Hd2 & Ho). wp_steps. simpl.
    split; [by rewrite Hd2, Hd|]. eexists. split; [done|].
    unfold mem_delta in Ho. rewrite upd_eq, Ho, Hmem by done. simpl. rewrite upd_eq. lia.
  - split; [done|]. eexists. split; [done|].
    split; [by apply cbt_fresh_kref|]. split; [done|].
    unfold cbt_geometry in *. simpl. rewrite Es, Ec, Ecap. split; [by rewrite Hm|done].
Qed.

(** ** Taking a snapshot: [cbt_map_switch] *)
Lemma cbt_map_switch_spec m w :
  cbt_wf m →
  wp (cbt_map_switch m) w (λ r w',
    w_disk w' = w_disk w ∧
    ∃ m', r = Some m' ∧ cbt_wf m' ∧ snap_number_previous m' = snap_number_active m ∧
      is_corrupted m' = is_corrupted m ∧ blk_size_shift m' = blk_size_shift m ∧
      blk_count m' = blk_count m ∧ device_capacity m' = device_capacity m ∧
      if snap_number_active m =? 255 then
        snap_number_active m' = 1 ∧ read_map m' = read_map m ∧
        ∀ b, table_at (write_map m') b = 0
      else
        snap_number_active m' = snap_number_active m + 1 ∧
        generation_id m' = generation_id m ∧
        write_map m' = write_map m ∧ read_map m' = write_map m).
Proof.
  intros [Hs Hc Ha Hp (rm & Hr & Hrl & Hrb) (wm & Hw & Hwl & Hwb)].
  unfold cbt_map_switch. rewrite Hr, Hw. rewrite u64_small by lia.
  destruct (Z.eqb_spec (snap_number_active m) 255) as [E|E].
  - rewrite E. change (255 + 1 =? 256) with true. cbn match. wp_steps.
    apply wp_oracle. intros. wp_steps. split; [done|]. eexists. split; [done|].
    split_and!; simpl; try done; try (intros; apply table_at_zero).
    split; simpl; try done; try lia; [by eauto|].
    eexists. split_and!; [done|apply lenZ_replicate; lia|by apply replicate_bounded].
  - destruct (Z.eqb_spec (snap_number_active m + 1) 256); [lia|]. wp_steps.
    split; [done|]. eexists. split; [done|]. split_and!; simpl; try done.
    split; simpl; try done; try lia.
    + exists wm. split_and!; try done. intros j x Hx. specialize (Hwb j x Hx). lia.
    + exists wm. split_and!; try done. intros j x Hx. specialize (Hwb j x Hx). lia.
Qed.

(** ** Change tracking over a history

    The events of a tracked device: a write that the filter reports with
    [cbt_map_set], and the switch made when a snapshot is taken. *)
Inductive cbt_event :=
  | EvWrite (sector count : Z)
  | EvSwitch.

Definition cbt_event_step (ev : cbt_event) (m : cbt_map) : K (option cbt_map) :=
  match ev with
  | EvWrite sector count =>
      mret (match cbt_map_set m sector count with
            | Some (0, m') => Some m'
            | _ => None
            end)
  | EvSwitch => cbt_map_switch m
  end.

Fixpoint cbt_run (evs : list cbt_event) (m : cbt_map) : K (option cbt_map) :=
  match evs with
  | [] => mret (Some m)
  | ev :: evs =>
      r ← cbt_event_step ev m;
      match r with
      | Some m => cbt_run evs m
      | None => mret None
      end
  end.

Definition ev_valid (ev : cbt_event) : Prop :=
  match ev with
  | EvWrite sector count => 0 ≤ sector ∧ 0 < count ∧ sector + count ≤ 2 ^ 64
  | EvSwitch => True
  end.

Definition is_switch (ev : cbt_event) : bool :=
  match ev with EvSwitch => true | _ => false end.

Definition switches (evs : list cbt_event) : Z :=
  lenZ (List.filter is_switch evs).

(** Was block [b] written by one of the events? *)
Definition touched (m : cbt_map) (evs : list cbt_event) (b : Z) : Prop :=
  ∃ sector count, EvWrite sector count ∈ evs ∧ in_blocks m sector count b.

Lemma in_blocks_geometry m m' s c b :
  blk_size_shift m' = blk_size_shift m → in_blocks m' s c b ↔ in_blocks m s c b.
Proof. intros E. unfold in_blocks, cbt_block. by rewrite E. Qed.

Lemma switches_cons ev evs :
  switches (ev :: evs) = (if is_switch ev then 1 else 0) + switches evs.
Proof. unfold switches, lenZ. destruct ev; simpl; lia. Qed.

Lemma switches_nonneg evs : 0 ≤ switches evs.
Proof. unfold switches, lenZ. lia. Qed.

Definition ev_on_device (m : cbt_map) (ev : cbt_event) : Prop :=
  match ev with
  | EvWrite sector count => cbt_block m (sector + count - 1) < blk_count m
  | EvSwitch => True
  end.

(** The invariant a history keeps for the interval number [n]: the blocks
    above [n] are those that were above it and those written since. *)
Definition tracks (n : Z) (m : cbt_map) (evs : list cbt_event) (m' : cbt_map) : Prop :=
  cbt_wf m' ∧ is_corrupted m' = false ∧ blk_size_shift m' = blk_size_shift m ∧
  blk_count m' = blk_count m ∧ generation_id m' = generation_id m ∧
  snap_number_active m' = snap_number_active m + switches evs ∧
  ∀ b, 0 ≤ b < blk_count m →
       n < table_at (write_map m') b ↔ n < table_at (write_map m) b ∨ touched m evs b.

Lemma touched_cons m ev evs b :
  touched m (ev :: evs) b ↔
  match ev with EvWrite s c => in_blocks m s c b | EvSwitch => False end ∨ touched m evs b.
Proof.
  unfold touched. split.
  - intros (s & c & [<-|H]%elem_of_cons & Hin); [by left|right; by exists s, c].
  - intros [H|(s & c & H & Hin)].
    + destruct ev as [s c|]; [|done]. exists s, c. split; [set_solver|done].
    + exists s, c. split; [set_solver|done].
Qed.

Lemma touched_geometry m m' evs b :
  blk_size_shift m' = blk_size_shift m → touched m' evs b ↔ touched m evs b.
Proof.
  intros E. unfold touched. split; intros (s & c & ? & ?); exists s, c;
    (split; [done|]); by apply (in_blocks_geometry m m' s c b E).
Qed.

Lemma marked_above n first last sn b x :
  n < sn → n < marked first last sn b x ↔ n < x ∨ first ≤ b ≤ last.
Proof.
  intros. unfold marked. destruct (Z.leb_spec first b); destruct (Z.leb_spec b last); simpl; lia.
Qed.

Lemma cbt_run_tracks n evs m w :
  cbt_wf m → is_corrupted m = false → n < snap_number_active m →
  snap_number_active m + switches evs ≤ 255 →
  Forall ev_valid evs → Forall (ev_on_device m) evs →
  wp (cbt_run evs m) w (λ r w', ∃ m', r = Some m' ∧ tracks n m evs m').
Proof.
  revert m w. induction evs as [|ev evs IH]; intros m w Hwf Hcor Hn Hsw Hval Hdev.
  - cbn. wp_steps. exists m. split; [done|]. unfold tracks.
    split_and!; try done; [unfold switches, lenZ; simpl; lia|].
    intros b Hb. unfold touched. split; [by left|].
    intros [?|(? & ? & H & _)]; [done|]. by apply not_elem_of_nil in H.
  - apply list.Forall_cons in Hval as [Hv Hval]. apply list.Forall_cons in Hdev as [Hd Hdev].
    rewrite switches_cons in Hsw. pose proof (switches_nonneg evs). cbn [cbt_run].
    assert (Hnext : ∀ m1 w1,
      cbt_wf m1 → is_corrupted m1 = false → blk_size_shift m1 = blk_size_shift m →
      blk_count m1 = blk_count m → generation_id m1 = generation_id m →
      snap_number_active m1 = snap_number_active m + (if is_switch ev then 1 else 0) →
      (∀ b, 0 ≤ b < blk_count m → n < table_at (write_map m1) b ↔
         n < table_at (write_map m) b ∨
         match ev with EvWrite s c => in_blocks m s c b | EvSwitch => False end) →
      wp (cbt_run evs m1) w1 (λ r w', ∃ m', r = Some m' ∧ tracks n m (ev :: evs) m')).
    { intros m1 w1 ? ? Es Ec Eg Ea Ht.
      wp_call IH; [done|done|destruct (is_switch ev); lia|lia|done| |].
      { eapply list.Forall_impl; [done|]. intros [s c|]; [|done]. unfold ev_on_device, cbt_block.
        by rewrite Es, Ec. }
      intros r w' (m' & -> & ? & ? & ? & ? & ? & Ha' & Hb'). exists m'. split; [done|].
      unfold tracks. rewrite switches_cons. split_and!; [done..|congruence|congruence|congruence|lia|].
      intros b Hb. rewrite Hb', Ht, touched_cons, (touched_geometry m m1) by (rewrite ?Ec; done).
      tauto. }
    destruct ev as [s c|]; cbn [cbt_event_step].
    + destruct Hv as (? & ? & ?).
      destruct (cbt_map_set_spec m s c) as (m1 & -> & Hwf1 & Hm1 & Hc1 & Ht1); [done..|].
      wp_steps. apply Hc1 in Hd. rewrite Hd. rewrite Hm1 in *. simpl in *.
      apply Hnext; simpl; try done; [lia|]. intros b Hb. rewrite Ht1 by done.
      by rewrite marked_above by done.
    + wp_steps. wp_call cbt_map_switch_spec; [done|].
      intros r w1 (Hdk & m1 & -> & Hwf1 & ? & ? & ? & ? & ? & Hrest). simpl in Hsw.
      destruct (Z.eqb_spec (snap_number_active m) 255); [lia|].
      destruct Hrest as (Ha & Hg & Hw & Hr).
      apply Hnext; simpl; try done; [congruence|]. intros b Hb. rewrite Hw. tauto.
Qed.

Lemma cbt_run_app evs1 evs2 m w :
  cbt_run (evs1 ++ evs2) m w =
  (r ← cbt_run evs1 m; match r with Some m => cbt_run evs2 m | None => mret None end) w.
Proof.
  revert m w. induction evs1 as [|ev evs1 IH]; intros m w; [done|].
  cbn. unfold mbind, M_mbind. cbn.
  destruct (cbt_event_step ev m w) as [[m1|] w1]; cbn; [|done]. rewrite IH.
  unfold mbind, M_mbind. done.
Qed.

(** ** [cbt_map_set_both] and [cbt_map_mark_dirty_blocks] *)
Definition range_valid (r : blk_snap_block_range) : Prop :=
  0 ≤ sector_offset r ∧ 0 < sector_count r ∧ sector_offset r + sector_count r ≤ 2 ^ 64.

Definition range_on_device (m : cbt_map) (r : blk_snap_block_range) : Prop :=
  cbt_block m (sector_offset r + sector_count r - 1) < blk_count m.

Definition in_range (m : cbt_map) (b : Z) (r : blk_snap_block_range) : Prop :=
  in_blocks m (sector_offset r) (sector_count r) b.

Lemma wf_previous_range m : cbt_wf m → 0 ≤ snap_number_previous m ≤ 255.
Proof. intros [? ? ? [?|[? ?]] ? ?]; lia. Qed.

Lemma cbt_map_set_both_spec m sector count :
  cbt_wf m → is_corrupted m = false →
  0 ≤ sector → 0 < count → sector + count ≤ 2 ^ 64 →
  cbt_block m (sector + count - 1) < blk_count m →
  ∃ m', cbt_map_set_both m sector count = Some (0, m') ∧ cbt_wf m' ∧
        m' = {| m with write_map := write_map m'; read_map := read_map m' |} ∧
        ∀ b, 0 ≤ b < blk_count m →
          table_at (write_map m') b =
            marked (cbt_block m sector) (cbt_block m (sector + count - 1))
              (snap_number_active m) b (table_at (write_map m) b) ∧
          table_at (read_map m') b =
            marked (cbt_block m sector) (cbt_block m (sector + count - 1))
              (snap_number_previous m) b (table_at (read_map m) b).
Proof.
  intros Hwf Hcor H0 Hp Hov Hon. pose proof (wf_previous_range m Hwf).
  pose proof Hwf as [Hs Hc Ha Hpv (rm & Hr & Hrl & Hrb) (wm & Hw & Hl & Hb)].
  unfold cbt_map_set_both. rewrite Hcor, Hw, Hr. simpl.
  rewrite !u8_small by (change (2 ^ 8) with 256; lia).
  destruct (cbt_map_set_aux m sector count (snap_number_active m) wm)
    as (wm' & -> & Hl' & Hn'); [done|lia|done..|]. simpl.
  rewrite (proj2 (Z.ltb_lt _ _) Hon). simpl.
  match goal with |- context [_cbt_map_set ?m1 _ _ _ rm] =>
    destruct (cbt_map_set_aux m1 sector count (snap_number_previous m) rm)
      as (rm' & -> & Hrl' & Hrn'); simpl; [done|lia|done..|] end.
  change (cbt_block {| blk_size_shift := _ |}) with (cbt_block m).
  rewrite (proj2 (Z.ltb_lt _ _) Hon). eexists. split; [done|]. simpl. split_and!; [|done|].
  - split; simpl; try done.
    + exists rm'. split_and!; [done..|]. by eapply marked_bounded.
    + exists wm'. split_and!; [done..|]. eapply marked_bounded; [done| |done]. lia.
  - intros b Hbb. destruct (nthZ_Some wm b) as [x Hx]; [lia|].
    destruct (nthZ_Some rm b) as [y Hy]; [lia|].
    unfold table_at. simpl. by rewrite Hn', Hrn', Hx, Hy.
Qed.

Lemma marked_geq first last sn b x : x ≤ marked first last sn b x.
Proof. unfold marked. case_match; lia. Qed.

(** What a list of dirty ranges does to a table that is raised to [sn]. *)
Lemma mark_dirty_spec rs m :
  cbt_wf m → is_corrupted m = false →
  Forall range_valid rs → Forall (range_on_device m) rs →
  ∃ m', cbt_map_mark_dirty_blocks m rs = Some (0, m') ∧ cbt_wf m' ∧
        m' = {| m with write_map := write_map m'; read_map := read_map m' |} ∧
        ∀ b, 0 ≤ b < blk_count m →
          (Exists (in_range m b) rs →
             snap_number_active m ≤ table_at (write_map m') b ∧
             snap_number_previous m ≤ table_at (read_map m') b) ∧
          (¬ Exists (in_range m b) rs →
             table_at (write_map m') b = table_at (write_map m) b ∧
             table_at (read_map m') b = table_at (read_map m) b) ∧
          table_at (write_map m) b ≤ table_at (write_map m') b ∧
          table_at (read_map m) b ≤ table_at (read_map m') b.
Proof.
  revert m. induction rs as [|r rs IH]; intros m Hwf Hcor Hv Hd.
  - exists m. split; [done|]. split; [done|]. split; [by destruct m|].
    intros b Hb. split_and!; try done; [|lia..]. by intros ?%Exists_nil.
  - apply list.Forall_cons in Hv as [(? & ? & ?) Hv]. apply list.Forall_cons in Hd as [Hd1 Hd].
    destruct (cbt_map_set_both_spec m (sector_offset r) (sector_count r))
      as (m1 & E1 & Hwf1 & Hm1 & Ht1); [done..|].
    cbn [cbt_map_mark_dirty_blocks]. rewrite E1. simpl.
    destruct (IH m1) as (m' & -> & Hwf' & Hm' & Ht');
      [done|by rewrite Hm1|done|by rewrite Hm1|].
    exists m'. split; [done|]. split; [done|]. split; [by rewrite Hm', Hm1|].
    intros b Hb. specialize (Ht' b). rewrite Hm1 in Ht'. simpl in Ht'.
    specialize (Ht' Hb) as (Hin & Hout & Hgw & Hgr). specialize (Ht1 b Hb) as [Hw1 Hr1].
    pose proof (marked_geq (cbt_block m (sector_offset r))
      (cbt_block m (sector_offset r + sector_count r - 1)) (snap_number_active m) b
      (table_at (write_map m) b)).
    pose proof (marked_geq (cbt_block m (sector_offset r))
      (cbt_block m (sector_offset r + sector_count r - 1)) (snap_number_previous m) b
      (table_at (read_map m) b)).
    rewrite Hw1, Hr1 in *. split_and!; [| |lia..].
    + intros [Hb1|Hex]%Exists_cons; [|by apply Hin]. unfold in_range, in_blocks in Hb1.
      unfold marked in Hgw, Hgr. rewrite !(proj2 (Z.leb_le _ _)) in Hgw, Hgr by lia.
      simpl in Hgw, Hgr. lia.
    + intros Hne. rewrite Exists_cons in Hne.
      destruct Hout as [-> ->]; [by intros ?; apply Hne; right|]. unfold marked.
      destruct (Z.leb_spec (cbt_block m (sector_offset r)) b);
        destruct (Z.leb_spec b (cbt_block m (sector_offset r + sector_count r - 1))); try done.
      exfalso. apply Hne. by left.
Qed.

(** What a run of writes and snapshots between two snapshots leaves in the tables. *)
Lemma cbt_run_changes m w m1 w1 evs :
  cbt_wf m → is_corrupted m = false → snap_number_active m ≠ 255 →
  cbt_map_switch m w = (Some m1, w1) →
  snap_number_active m1 + switches evs < 255 →
  Forall ev_valid evs → Forall (ev_on_device m1) evs →
  ∃ m2 w2, cbt_run (evs ++ [EvSwitch]) m1 w1 = (Some m2, w2) ∧
    cbt_wf m2 ∧ is_corrupted m2 = false ∧ blk_count m2 = blk_count m1 ∧
    generation_id m2 = generation_id m1 ∧
    ∀ b, 0 ≤ b < blk_count m1 →
         snap_number_previous m1 < table_at (read_map m2) b ↔ touched m1 evs b.
Proof.
  intros Hwf Hcor Hne Hsw Hno Hv Hd.
  pose proof (wp_run _ _ _ _ _ (cbt_map_switch_spec m w Hwf) Hsw) as (_ & ? & [= <-] & H).
  destruct H as (Hwf1 & Hp & Hc & ? & ? & ? & H).
  destruct (Z.eqb_spec (snap_number_active m) 255); [done|]. destruct H as (Ha & Hg & Hw & Hr).
  rewrite cbt_run_app. unfold mbind, M_mbind.
  pose proof (cbt_run_tracks (snap_number_previous m1) evs m1 w1) as Ht.
  unfold wp in Ht. destruct Ht as (m2 & -> & Hwf2 & ? & Es & Ec & Eg & Ea & Hb);
    [done|congruence|lia|lia|done..|]. simpl. unfold mbind, M_mbind. cbn.
  pose proof (cbt_map_switch_spec m2 (cbt_run evs m1 w1).2 Hwf2) as Hs2. unfold wp in Hs2.
  destruct Hs2 as (_ & m3 & -> & Hwf3 & _ & Hc3 & _ & Hn3 & _ & Hrest). cbn.
  destruct (Z.eqb_spec (snap_number_active m2) 255); [lia|].
  destruct Hrest as (_ & Hg3 & _ & Hr3). eexists _, _. split; [done|].
  split; [done|]. split; [congruence|]. split; [congruence|]. split; [congruence|].
  intros b Hbb. rewrite Hr3, Hb by done.
  split; [intros [Hab|?]; [|done]|by right]. exfalso.
  rewrite Hw in Hab. destruct Hwf as [_ _ _ _ _ (wm & Ewm & Hl & Hbd)].
  rewrite Ewm in Hab. destruct (nthZ_Some wm b) as [x Hx]; [lia|].
  rewrite (table_at_Some _ _ _ Hx) in Hab. specialize (Hbd b x Hx). lia.
Qed.

(** ** Properties *)

(** C19: change tracking is exact within a generation. Take a snapshot of an
    uncorrupted map (not at the wrap-around), let any writes and further
    snapshots follow without a wrap-around, and take one more snapshot: the run
    succeeds, the generation is the same, and the blocks whose byte in the
    readable table is above the first snapshot's number are exactly those
    written in between. *)
Theorem cbt_changes_since_snapshot m w m1 w1 evs :
  cbt_wf m → is_corrupted m = false → snap_number_active m ≠ 255 →
  cbt_map_switch m w = (Some m1, w1) →
  snap_number_active m1 + switches evs < 255 →
  Forall ev_valid evs → Forall (ev_on_device m1) evs →
  ∃ m2 w2, cbt_run (evs ++ [EvSwitch]) m1 w1 = (Some m2, w2) ∧
    generation_id m2 = generation_id m1 ∧
    ∀ b, 0 ≤ b < blk_count m1 →
         snap_number_previous m1 < table_at (read_map m2) b ↔ touched m1 evs b.
Proof.
  intros Hwf Hcor Hne Hsw Hno Hv Hd.
  destruct (cbt_run_changes m w m1 w1 evs) as (m2 & w2 & E & _ & _ & _ & H); [done..|]. by exists m2, w2.
Qed.

(** The number wraps at 255 in a way the documented reading rule does not
    survive. When the 255th interval ends, the snapshot reports number 255
    under the new generation, and every later interval of that generation is
    numbered from 1: whatever is written afterwards, no byte of a later
    readable table of the same generation is above 255, so a reader who looks
    for bytes above the number the snapshot reported finds no change at all. *)
Theorem cbt_wrap_misses_changes m w m1 w1 evs :
  cbt_wf m → is_corrupted m = false → snap_number_active m = 255 →
  cbt_map_switch m w = (Some m1, w1) →
  switches evs < 254 →
  Forall ev_valid evs → Forall (ev_on_device m1) evs →
  ∃ m2 w2, cbt_run (evs ++ [EvSwitch]) m1 w1 = (Some m2, w2) ∧
    generation_id m2 = generation_id m1 ∧
    (∀ b, 0 ≤ b < blk_count m1 → 0 < table_at (read_map m2) b ↔ touched m1 evs b) ∧
    (∀ b, ¬ snap_number_previous m1 < table_at (read_map m2) b).
Proof.
  intros Hwf Hcor H255 Hsw Hno Hv Hd.
  pose proof (wp_run _ _ _ _ _ (cbt_map_switch_spec m w Hwf) Hsw) as (_ & ? & [= <-] & H).
  destruct H as (Hwf1 & Hp & Hc & ? & ? & ? & H). rewrite H255 in H. simpl in H.
  destruct H as (Ha & _ & Hz).
  rewrite cbt_run_app. unfold mbind, M_mbind.
  pose proof (cbt_run_tracks 0 evs m1 w1) as Ht. unfold wp in Ht.
  destruct Ht as (m2 & -> & Hwf2 & ? & Es & Ec & Eg & Ea & Hb);
    [done|congruence|lia|lia|done..|]. simpl. unfold mbind, M_mbind. cbn.
  pose proof (cbt_map_switch_spec m2 (cbt_run evs m1 w1).2 Hwf2) as Hs2. unfold wp in Hs2.
  destruct Hs2 as (_ & m3 & -> & Hwf3 & _ & _ & _ & _ & _ & Hrest). cbn.
  destruct (Z.eqb_spec (snap_number_active m2) 255); [lia|].
  destruct Hrest as (_ & Hg3 & _ & Hr3). eexists _, _. split; [done|]. split; [congruence|].
  split.
  - intros b Hbb. rewrite Hr3, Hb, Hz by done. split; [intros [?|?]; [lia|done]|by right].
  - intros b. rewrite Hp, H255. destruct Hwf3 as [_ _ _ _ (rm & -> & Hl & Hbd) _].
    unfold table_at. simpl. destruct (nthZ rm b) as [x|] eqn:E; simpl; [|lia].
    specialize (Hbd b x E). lia.
Qed.

(** C31: creating a map always ends: the block-size loop terminates, the call
    returns either a null pointer, with the map's own allocation given back,
    or a fresh map whose blocks number at most 2097152 and cover a device of
    any size exactly. *)
Theorem cbt_map_create_correct capacity w :
  0 < capacity < 2 ^ 55 →
  ∃ o w', cbt_map_create (P:=default_params) capacity w = (Some o, w') ∧
    match o with
    | None => memory_counter (w_mem w') memory_object_cbt_map =
              memory_counter (w_mem w) memory_object_cbt_map
    | Some m => cbt_fresh m ∧ kref m = 1 ∧ device_capacity m = capacity ∧
                cbt_geometry 2097152 m
    end.
Proof.
  intros Hc. pose proof (cbt_map_create_spec capacity w Hc) as H. unfold wp in H.
  destruct (cbt_map_create capacity w) as [r w'] eqn:E. simpl in H.
  destruct H as (_ & o & -> & H). by exists o, w'.
Qed.

(** A write that the filter reports marks exactly its blocks. On an
    uncorrupted map and a non-empty range of sectors, [cbt_map_set] raises the
    bytes of the range's blocks to the active number, leaves every other byte,
    every other field and the readable table alone, and keeps the map
    well-formed; it fails with [-EINVAL] and marks the map corrupted exactly
    when the range runs past the last block. *)
Theorem cbt_map_set_marks m sector count :
  cbt_wf m → is_corrupted m = false →
  0 ≤ sector → 0 < count → sector + count ≤ 2 ^ 64 →
  ∃ m', cbt_map_set m sector count = Some (if is_corrupted m' then - EINVAL else 0, m') ∧
    cbt_wf m' ∧
    m' = {| m with write_map := write_map m'; is_corrupted := is_corrupted m' |} ∧
    (is_corrupted m' = true ↔ blk_count m ≤ cbt_block m (sector + count - 1)) ∧
    ∀ b, 0 ≤ b < blk_count m →
      (in_blocks m sector count b →
         table_at (write_map m') b = snap_number_active m) ∧
      (¬ in_blocks m sector count b →
         table_at (write_map m') b = table_at (write_map m) b).
Proof.
  intros Hwf Hcor H0 Hp Hov.
  destruct (cbt_map_set_spec m sector count) as (m' & E & Hwf' & Hm' & Hc & Ht); [done..|].
  exists m'. split_and!; [done..| |].
  - destruct (Z.le_gt_cases (blk_count m) (cbt_block m (sector + count - 1))) as [Hle|Hgt].
    + split; [done|]. intros _. destruct (is_corrupted m'); [done|].
      pose proof (proj1 Hc eq_refl). lia.
    + rewrite (proj2 Hc Hgt). split; [done|lia].
  - intros b Hb. rewrite (Ht b Hb). unfold marked, in_blocks.
    assert (Hx : table_at (write_map m) b ≤ snap_number_active m).
    { destruct Hwf as [_ _ _ _ _ (wm & -> & Hl & Hbd)].
      destruct (nthZ_Some wm b) as [x Hx]; [lia|]. rewrite (table_at_Some _ _ _ Hx).
      by apply (Hbd b). }
    destruct (Z.leb_spec (cbt_block m sector) b);
      destruct (Z.leb_spec b (cbt_block m (sector + count - 1))); simpl; lia.
Qed.

(** Marking dirty ranges updates both tables. On ranges that lie on the
    device, [cbt_map_mark_dirty_blocks] succeeds, raises the touched blocks of
    the live table to at least the active number and those of the readable
    table to at least the previous number, never lowers a byte, and leaves
    every other byte alone. *)
Theorem cbt_mark_dirty_both_tables rs m :
  cbt_wf m → is_corrupted m = false →
  Forall range_valid rs → Forall (range_on_device m) rs →
  ∃ m', cbt_map_mark_dirty_blocks m rs = Some (0, m') ∧ cbt_wf m' ∧
    m' = {| m with write_map := write_map m'; read_map := read_map m' |} ∧
    ∀ b, 0 ≤ b < blk_count m →
      (Exists (in_range m b) rs →
         snap_number_active m ≤ table_at (write_map m') b ∧
         snap_number_previous m ≤ table_at (read_map m') b) ∧
      (¬ Exists (in_range m b) rs →
         table_at (write_map m') b = table_at (write_map m) b ∧
         table_at (read_map m') b = table_at (read_map m) b).
Proof.
  intros Hwf Hcor Hv Hd. destruct (mark_dirty_spec rs m) as (m' & ? & ? & ? & H); [done..|].
  exists m'. split_and!; [done..|]. intros b Hb. specialize (H b Hb). tauto.
Qed.

(** Reading the table in pieces does not work. For any offset inside the
    table, [cbt_map_read_to_user] copies the first [blk_count - offset] bytes
    (or fewer, as asked) of the readable table, not those at [offset]. *)
Theorem cbt_read_ignores_offset m w offset size rm n bytes w' :
  read_map m = Some rm → lenZ rm = blk_count m → blk_count m < 2 ^ 64 →
  is_corrupted m = false → 0 ≤ offset ≤ blk_count m → 0 ≤ size →
  cbt_map_read_to_user m offset size w = (Some (n, bytes), w') →
  bytes = take (Z.to_nat n) rm ∧ 0 ≤ n ≤ Z.min (blk_count m - offset) size.
Proof.
  intros Hr Hl Hlt Hc Ho Hs E. unfold cbt_map_read_to_user in E.
  rewrite Hc, Hr, u64_small in E by lia.
  destruct (Z.ltb_spec (lenZ rm) (Z.min (blk_count m - offset) size)); [lia|].
  refine (wp_run _ _ (λ r _, r = Some (n, bytes) → _) _ _ _ E eq_refl).
  wp_steps. apply wp_copy_user; [lia|]. intros k vs Hk. wp_steps.
  intros [= <- <-]. destruct (Z.eqb_spec k 0); split; try done; lia.
Qed.

(** With the default parameters every device larger than 128 GiB gets
    tracking blocks of 2^32 bytes or more, because the loop doubles the shift
    itself (16, 32, 64): [cbt_map_blk_size], which shifts an [int], then has no
    defined value to report to user space. *)
Theorem cbt_blk_size_undefined m m' :
  2 ^ 28 < device_capacity m < 2 ^ 55 →
  cbt_map_calculate_block_size (P:=default_params) m = Some m' →
  32 ≤ blk_size_shift m' ∧ cbt_map_blk_size m' = None.
Proof.
  intros Hc E. destruct (calculate_block_size_spec m) as (m2 & E2 & _ & Hs & _); [lia|].
  rewrite E in E2. injection E2 as <-. unfold cbt_map_blk_size. rewrite Hs.
  destruct (Z.leb_spec (device_capacity m) (2 ^ 28)); [lia|].
  by destruct (Z.leb_spec (device_capacity m) (2 ^ 44)).
Qed.

(** ** Witnesses on a small map of four blocks *)

Definition ex_cbt (active previous : Z) (wm : list Z) : cbt_map :=
  {| kref := 1; blk_size_shift := 16; blk_count := 4; device_capacity := 500;
     read_map := Some [0; 0; 0; 0]; write_map := Some wm; snap_number_active := active;
     snap_number_previous := previous; generation_id := 7; is_corrupted := false |}.

Definition boundedb (n : Z) (l : list Z) : bool := forallb (λ x, (0 <=? x) && (x <=? n)) l.

Lemma boundedb_spec n l : boundedb n l = true → bounded n l.
Proof.
  intros H j x Hx. unfold boundedb in H. rewrite forallb_forall in H.
  unfold nthZ in Hx. destruct (j <? 0); [done|].
  apply list_elem_of_lookup_2, list_elem_of_In, H in Hx. bool_hyps. lia.
Qed.

Lemma ex_cbt_wf active previous wm :
  1 ≤ active ≤ 255 → previous = active - 1 → lenZ wm = 4 → boundedb active wm = true →
  cbt_wf (ex_cbt active previous wm).
Proof.
  intros Ha Hp Hl Hb. split; simpl; try lia; [done| |].
  - exists [0; 0; 0; 0]. split_and!; [done..|]. by apply boundedb_spec.
  - exists wm. split_and!; [done..|]. by apply boundedb_spec.
Qed.

Lemma cbt_changes_since_snapshot_witness :
  ∃ m2 w2, cbt_run ([EvWrite 128 200; EvSwitch; EvWrite 1 1] ++ [EvSwitch])
             (default cbt_map_zero (cbt_map_switch (ex_cbt 2 1 [2; 1; 0; 1]) world0).1)
             world0 = (Some m2, w2) ∧
    read_map m2 = Some [4; 3; 3; 1].
Proof.
  destruct (cbt_changes_since_snapshot (ex_cbt 2 1 [2; 1; 0; 1]) world0
    (default cbt_map_zero (cbt_map_switch (ex_cbt 2 1 [2; 1; 0; 1]) world0).1) world0
    [EvWrite 128 200; EvSwitch; EvWrite 1 1]) as (m2 & w2 & E & _).
  - by apply ex_cbt_wf.
  - reflexivity.
  - by vm_compute.
  - reflexivity.
  - reflexivity.
  - repeat constructor; simpl; lia.
  - repeat constructor; simpl; vm_compute; reflexivity.
  - exists m2, w2. split; [exact E|]. vm_compute in E. by injection E as <- _.
Defined.

Lemma cbt_wrap_misses_changes_witness :
  ∃ m2 w2, cbt_run ([EvWrite 0 512] ++ [EvSwitch])
             (default cbt_map_zero (cbt_map_switch (ex_cbt 255 254 [9; 9; 9; 9]) world0).1)
             world0 = (Some m2, w2) ∧
    read_map m2 = Some [1; 1; 1; 1] ∧ (∀ b, ¬ 255 < table_at (read_map m2) b).
Proof.
  destruct (cbt_wrap_misses_changes (ex_cbt 255 254 [9; 9; 9; 9]) world0
    (default cbt_map_zero (cbt_map_switch (ex_cbt 255 254 [9; 9; 9; 9]) world0).1) world0
    [EvWrite 0 512]) as (m2 & w2 & E & _ & _ & Hm).
  - by apply ex_cbt_wf.
  - reflexivity.
  - reflexivity.
  - reflexivity.
  - reflexivity.
  - repeat constructor; simpl; lia.
  - repeat constructor; simpl; vm_compute; reflexivity.
  - exists m2, w2. split; [exact E|]. split; [|exact Hm].
    vm_compute in E. by injection E as <- _.
Defined.

Lemma cbt_map_create_correct_witness :
  ∃ m w', cbt_map_create (P:=default_params) 500 world0 = (Some (Some m), w') ∧
    cbt_fresh m ∧ cbt_geometry 2097152 m.
Proof.
  destruct (cbt_map_create_correct 500 world0) as (o & w' & E & H); [lia|].
  destruct o as [m|].
  - exists m, w'. split; [exact E|]. split; apply H.
  - vm_compute in E. discriminate.
Defined.

Lemma cbt_map_set_marks_witness :
  ∃ m', cbt_map_set (ex_cbt 2 1 [2; 1; 0; 1]) 128 200 =
          Some (if is_corrupted m' then - EINVAL else 0, m') ∧ cbt_wf m'.
Proof.
  destruct (cbt_map_set_marks (ex_cbt 2 1 [2; 1; 0; 1]) 128 200) as (m' & E & H & _);
    [by apply ex_cbt_wf|reflexivity|lia..|].
  exists m'. split; [exact E|exact H].
Defined.

Lemma cbt_mark_dirty_both_tables_witness :
  ∃ m', cbt_map_mark_dirty_blocks (ex_cbt 2 1 [2; 1; 0; 1]) [BlockRange 0 1; BlockRange 300 1]
          = Some (0, m') ∧ cbt_wf m'.
Proof.
  destruct (cbt_mark_dirty_both_tables [BlockRange 0 1; BlockRange 300 1]
    (ex_cbt 2 1 [2; 1; 0; 1])) as (m' & E & H & _);
    [by apply ex_cbt_wf|reflexivity|repeat constructor; simpl; lia|
     repeat constructor; vm_compute; reflexivity|].
  exists m'. split; [exact E|exact H].
Defined.

Definition ex_cbt_read : cbt_map :=
  let m := ex_cbt 2 1 [2; 1; 0; 1] in {| m with read_map := Some [5; 6; 7; 8] |}.

Lemma cbt_read_ignores_offset_witness :
  ∃ n bytes w', cbt_map_read_to_user ex_cbt_read 2 2 world0 = (Some (n, bytes), w') ∧ bytes = [5; 6].
Proof.
  eexists _, _, _. split; [reflexivity|].
  exact (proj1 (cbt_read_ignores_offset ex_cbt_read world0 2 2 [5; 6; 7; 8]
    2 [5; 6] world0 eq_refl eq_refl ltac:(done) eq_refl ltac:(simpl; lia) ltac:(lia) eq_refl)).
Defined.

Lemma cbt_blk_size_undefined_witness :
  ∃ m', cbt_map_calculate_block_size (P:=default_params)
          {| cbt_map_zero with device_capacity := 2 ^ 29 |} = Some m' ∧
        cbt_map_blk_size m' = None.
Proof.
  eexists. split; [vm_compute; reflexivity|].
  eapply (cbt_blk_size_undefined {| cbt_map_zero with device_capacity := 2 ^ 29 |});
    [simpl; lia|vm_compute; reflexivity].
Defined.
