(* ===== verification/DiffBuffer.v ===== *)
(** * Difference buffers (diff_buffer.c, diff_buffer.h)

    The memory a chunk's data is kept in while it is cached, and the pool of
    free buffers of a difference area. A page is the function from the offset
    in it to the byte there. *)
From S2P Require Import Prelude MemoryChecker Kernel.

Definition page : Type := Z → Z.
#[global] Hint Transparent page : wp.

(** [struct diff_buffer]. *)
Record diff_buffer := DiffBuffer {
  db_size : Z;
  db_page_count : Z;
  db_pages : list page;
}.

(** The part of [struct diff_area] that is the pool. *)
Record buffer_pool := BufferPool {
  free_diff_buffers : list diff_buffer;
  free_diff_buffers_count : Z;
}.

Fixpoint free_pages (pages : list page) : K unit :=
  match pages with
  | [] => skip
  | _ :: pages => memory_object_dec memory_object_page;; free_pages pages
  end.

Definition diff_buffer_free (b : diff_buffer) : K unit :=
  free_pages (db_pages b);;
  memory_object_dec memory_object_diff_buffer.

(** The allocation loop of [diff_buffer_new]: [false] when a page could not be
    had; the pages obtained so far are in the list. *)
Fixpoint alloc_pages (n : nat) (pages : list page) : K (bool * list page) :=
  match n with
  | O => mret (true, pages)
  | S n =>
      ok ← alloc;
      if negb ok then mret (false, pages)
      else
        memory_object_inc memory_object_page;;
        pg ← gets w_garbage;
        alloc_pages n (pages ++ [pg])
  end.

Definition diff_buffer_new (page_count buffer_size : Z) : K (option diff_buffer) :=
  if page_count <=? 0 then mret None
  else
    ok ← alloc;
    if negb ok then mret None
    else
      memory_object_inc memory_object_diff_buffer;;
      '(got, pages) ← alloc_pages (Z.to_nat page_count) [];
      let b := {| db_size := buffer_size; db_page_count := page_count; db_pages := pages |} in
      if (got : bool) then mret (Some b) else diff_buffer_free b;; mret None.

Definition diff_buffer_take (pool : buffer_pool) (chunk_sectors : Z) (is_nowait : bool)
    : K (result diff_buffer * buffer_pool) :=
  match free_diff_buffers pool with
  | b :: bs =>
      mret (Ok b, {| free_diff_buffers := bs;
                     free_diff_buffers_count := free_diff_buffers_count pool - 1 |})
  | [] =>
      let page_count := round_up chunk_sectors PAGE_SECTORS / PAGE_SECTORS in
      let buffer_size := u64 (Z.shiftl chunk_sectors SECTOR_SHIFT) in
      b ← diff_buffer_new page_count buffer_size;
      match b with
      | None => mret (Err (if is_nowait then - EAGAIN else - ENOMEM), pool)
      | Some b => mret (Ok b, pool)
      end
  end.

Section params.
Context {P : ModuleParams}.

Definition diff_buffer_release (pool : buffer_pool) (b : diff_buffer) : K buffer_pool :=
  if free_diff_buffer_pool_size <? free_diff_buffers_count pool then
    diff_buffer_free b;; mret pool
  else
    mret {| free_diff_buffers := free_diff_buffers pool ++ [b];
            free_diff_buffers_count := free_diff_buffers_count pool + 1 |}.
End params.

Fixpoint cleanup_loop (bs : list diff_buffer) (count : Z) : K buffer_pool :=
  match bs with
  | [] => mret {| free_diff_buffers := []; free_diff_buffers_count := count |}
  | b :: bs => diff_buffer_free b;; cleanup_loop bs (count - 1)
  end.

Definition diff_buffer_cleanup (pool : buffer_pool) : K buffer_pool :=
  cleanup_loop (free_diff_buffers pool) (free_diff_buffers_count pool).

(** [struct diff_buffer_iter]; the page is its index in the buffer. *)
Record diff_buffer_iter := DiffBufferIter {
  it_page : Z;
  it_offset : Z;
  it_bytes : Z;
}.

Definition diff_buffer_iter_get (b : diff_buffer) (buff_offset : Z) : option diff_buffer_iter :=
  if db_size b <=? buff_offset then None
  else
    let offset := Z.land buff_offset (PAGE_SIZE - 1) in
    Some {| it_page := Z.shiftr buff_offset PAGE_SHIFT;
            it_offset := offset;
            it_bytes := Z.min (PAGE_SIZE - offset) (db_size b - buff_offset) |}.

(** ** Bytes of a buffer *)

(** The byte at a linear offset. *)
Definition pages_at (pages : list page) (i : Z) : Z :=
  match nthZ pages (i / PAGE_SIZE) with
  | Some pg => pg (i mod PAGE_SIZE)
  | None => 0
  end.

Definition buf_at (b : diff_buffer) (i : Z) : Z := pages_at (db_pages b) i.

(** A buffer made for chunks of [chunk_sectors] sectors. *)
Definition buffer_wf (chunk_sectors : Z) (b : diff_buffer) : Prop :=
  db_size b = chunk_sectors * SECTOR_SIZE ∧ lenZ (db_pages b) = db_page_count b ∧
  db_size b ≤ db_page_count b * PAGE_SIZE.

Definition pool_wf (chunk_sectors : Z) (p : buffer_pool) : Prop :=
  free_diff_buffers_count p = lenZ (free_diff_buffers p) ∧
  Forall (buffer_wf chunk_sectors) (free_diff_buffers p).

Lemma alloc_pages_spec n pages w :
  wp (alloc_pages n pages) w (λ '(got, pages') w',
    quiet w w' ∧
    length pages' ≤ length pages + n ∧
    (got = true → length pages' = length pages + n)%nat ∧
    mem_delta w w' memory_object_page (lenZ pages' - lenZ pages) ∧
    ∀ t, t ≠ memory_object_page → mem_delta w w' t 0)%nat.
Proof.
  revert pages w. induction n as [|n IH]; intros pages w; cbn [alloc_pages].
  - wp_steps. unfold mem_delta, lenZ. split_and!; intros; try done; lia.
  - wp_steps. apply wp_alloc. intros ok vs. wp_if E; wp_steps.
    + unfold mem_delta, lenZ. simpl. split_and!; intros; try done; lia.
    + wp_call IH. intros [got pages'] w' (Hd & Hle & Hlen & Hm & Ho).
      unfold mem_delta, lenZ in *. rewrite length_app in *. simpl in *.
      split; [done|]. split; [lia|]. split; [intros Ha; rewrite Hlen by done; lia|]. split.
      * rewrite Hm, upd_eq. lia.
      * intros t Ht. rewrite Ho by done. by rewrite upd_ne by done.
Qed.

Lemma free_pages_spec pages w :
  wp (free_pages pages) w (λ _ w',
    quiet w w' ∧ mem_delta w w' memory_object_page (- lenZ pages) ∧
    ∀ t, t ≠ memory_object_page → mem_delta w w' t 0).
Proof.
  revert w. induction pages as [|pg pages IH]; intros w; cbn [free_pages]; wp_steps.
  - unfold mem_delta, lenZ. simpl. split_and!; intros; try done; lia.
  - wp_call IH. intros _ w' (Hd & Hm & Ho). unfold mem_delta, lenZ in *. simpl in *.
    split_and!; [done| |].
    + rewrite Hm, upd_eq. lia.
    + intros t Ht. rewrite Ho by done. by rewrite upd_ne by done.
Qed.

Lemma diff_buffer_free_spec b w :
  wp (diff_buffer_free b) w (λ _ w',
    quiet w w' ∧
    mem_delta w w' memory_object_page (- lenZ (db_pages b)) ∧
    mem_delta w w' memory_object_diff_buffer (-1) ∧
    ∀ t, t ≠ memory_object_page → t ≠ memory_object_diff_buffer → mem_delta w w' t 0).
Proof.
  unfold diff_buffer_free. wp_steps. wp_call free_pages_spec.
  intros _ w' (Hd & Hm & Ho). wp_steps. unfold mem_delta in *. simpl.
  split_and!; [done|by rewrite upd_ne by done| |].
  - rewrite upd_eq, Ho by done. lia.
  - intros t ? ?. by rewrite upd_ne, Ho by done.
Qed.

(** [diff_buffer_new] gives a buffer of the size asked for, or takes back what
    it had allocated. *)
Lemma diff_buffer_new_spec page_count size w :
  wp (diff_buffer_new page_count size) w (λ r w',
    quiet w w' ∧
    match r with
    | Some b => db_size b = size ∧ db_page_count b = page_count ∧
                lenZ (db_pages b) = page_count ∧ 0 < page_count
    | None => ∀ t, mem_delta w w' t 0
    end).
Proof.
  unfold diff_buffer_new. wp_if E0; wp_steps.
  { split; [done|]. unfold mem_delta. intros. lia. }
  apply wp_alloc. intros ok vs. wp_if E; wp_steps.
  { split; [done|]. unfold mem_delta. simpl. intros. lia. }
  wp_call alloc_pages_spec. intros [got pages] w1 (Hd & _ & Hl & Hm & Ho).
  bool_hyps. destruct got; wp_steps.
  - split; [done|]. simpl. specialize (Hl eq_refl). unfold lenZ. simpl in Hl. lia.
  - wp_call diff_buffer_free_spec. intros _ w2 (Hd2 & Hp & Hb & Ho2). wp_steps.
    split; [done|]. intros t. unfold mem_delta in *. simpl in *.
    destruct (decide (t = memory_object_page)) as [->|Hnp].
    + rewrite Hp, Hm. rewrite upd_ne by done. unfold lenZ. simpl. lia.
    + destruct (decide (t = memory_object_diff_buffer)) as [->|Hnb].
      * rewrite Hb, Ho by done. rewrite upd_eq. lia.
      * rewrite Ho2, Ho by done. rewrite upd_ne by done. lia.
Qed.

Lemma page_count_spec cs :
  0 < cs ≤ 2 ^ 54 →
  round_up cs PAGE_SECTORS / PAGE_SECTORS = (cs + 7) / 8 ∧
  u64 (Z.shiftl cs SECTOR_SHIFT) = cs * SECTOR_SIZE.
Proof.
  intros Hc. split.
  - change PAGE_SECTORS with (2 ^ 3). rewrite round_up_pow2 by lia.
    by rewrite Z.div_mul by lia.
  - unfold SECTOR_SHIFT, SECTOR_SIZE.
    rewrite Z.shiftl_mul_pow2 by lia. apply u64_small. lia.
Qed.

Lemma diff_buffer_take_spec pool cs nw w :
  pool_wf cs pool → 0 < cs ≤ 2 ^ 54 →
  wp (diff_buffer_take pool cs nw) w (λ '(r, pool') w',
    quiet w w' ∧ pool_wf cs pool' ∧
    match r with
    | Ok b => buffer_wf cs b
    | Err e => e = if nw then - EAGAIN else - ENOMEM
    end).
Proof.
  intros [Hc Hf] Hcs. unfold diff_buffer_take.
  destruct (free_diff_buffers pool) as [|b bs] eqn:E; wp_steps.
  - destruct (page_count_spec cs Hcs) as [-> ->]. wp_call diff_buffer_new_spec.
    intros r w' (Hd & Hr). destruct r as [b|]; wp_steps.
    + destruct Hr as (Hs & Hp & Hl & H0).
      split_and!; [done|by split; rewrite E|]. unfold buffer_wf. split; [done|]. split; [lia|].
      rewrite Hs, Hp. unfold SECTOR_SIZE, PAGE_SIZE.
      pose proof (Z.div_mod (cs + 7) 8 ltac:(lia)). pose proof (Z.mod_pos_bound (cs + 7) 8). lia.
    + split_and!; [done|by split; rewrite E|done].
  - apply list.Forall_cons in Hf as [Hb Hf]. split_and!; [done| |done].
    split; [|done]. unfold lenZ in *. simpl in *. lia.
Qed.

Lemma diff_buffer_release_spec {P : ModuleParams} pool b cs w :
  pool_wf cs pool → buffer_wf cs b →
  wp (diff_buffer_release pool b) w (λ pool' w',
    quiet w w' ∧ pool_wf cs pool' ∧
    free_diff_buffers_count pool' ≤
      Z.max (free_diff_buffers_count pool) (free_diff_buffer_pool_size + 1)).
Proof.
  intros [Hc Hf] Hb. unfold diff_buffer_release. wp_if E; wp_steps; bool_hyps.
  - wp_call diff_buffer_free_spec. intros _ w' (Hd & _). wp_steps. split_and!; [done|by split|lia].
  - split_and!; [done| |simpl; lia]. split; simpl.
    + unfold lenZ in *. rewrite length_app. simpl. lia.
    + by apply Forall_app; split; [|constructor].
Qed.

Lemma diff_buffer_iter_get_spec cs b off it :
  buffer_wf cs b → 0 ≤ off → diff_buffer_iter_get b off = Some it →
  off < db_size b ∧ it_page it = off / PAGE_SIZE ∧ it_offset it = off mod PAGE_SIZE ∧
  0 ≤ it_offset it ∧ 0 < it_bytes it ∧ it_offset it + it_bytes it ≤ PAGE_SIZE ∧
  off + it_bytes it ≤ db_size b ∧ is_Some (nthZ (db_pages b) (it_page it)).
Proof.
  intros (Hs & Hl & Hp) Ho. unfold diff_buffer_iter_get.
  destruct (Z.leb_spec (db_size b) off); [done|]. intros [= <-]. simpl.
  unfold PAGE_SHIFT. rewrite Z.shiftr_div_pow2 by lia. change (2 ^ 12) with PAGE_SIZE.
  replace (PAGE_SIZE - 1) with (Z.ones 12) by reflexivity. rewrite Z.land_ones by lia.
  change (2 ^ 12) with PAGE_SIZE.
  pose proof (Z.mod_pos_bound off PAGE_SIZE ltac:(done)).
  pose proof (Z.div_mod off PAGE_SIZE ltac:(done)). unfold PAGE_SIZE in *.
  split_and!; try done; try lia. apply nthZ_Some. rewrite Hl.
  split; [apply Z.div_pos; lia|]. apply Z.div_lt_upper_bound; lia.
Qed.

(** ** Properties *)

(** C35: a buffer iterator never points outside the buffer. Whatever byte
    offset is asked for, [diff_buffer_iter_get] either refuses it because it is
    past the end, or returns a piece that starts at that byte, is not empty,
    stays inside one allocated page and inside the buffer's size. *)
Theorem diff_buffer_iter_in_bounds cs b off :
  buffer_wf cs b → 0 ≤ off →
  match diff_buffer_iter_get b off with
  | None => db_size b ≤ off
  | Some it =>
      it_page it * PAGE_SIZE + it_offset it = off ∧ 0 < it_bytes it ∧
      it_offset it + it_bytes it ≤ PAGE_SIZE ∧ off + it_bytes it ≤ db_size b ∧
      0 ≤ it_page it < lenZ (db_pages b)
  end.
Proof.
  intros Hb Ho. destruct (diff_buffer_iter_get b off) as [it|] eqn:E.
  - destruct (diff_buffer_iter_get_spec cs b off it Hb Ho E)
      as (? & -> & -> & ? & ? & ? & ? & [pg Hpg]).
    pose proof (Z.div_mod off PAGE_SIZE ltac:(done)).
    apply nthZ_inv in Hpg. split_and!; lia.
  - unfold diff_buffer_iter_get in E. destruct (Z.leb_spec (db_size b) off); done.
Qed.

(** Buffers are neither lost nor leaked by the pool. Taking a buffer from
    a well-formed pool gives one with room for a whole chunk, or the error the
    caller's mode calls for and then no allocation count has changed;
    releasing it keeps the pool well-formed and within one buffer of its
    configured size. *)
Theorem diff_buffer_take_release {P : ModuleParams} pool cs nw w :
  pool_wf cs pool → 0 < cs ≤ 2 ^ 54 →
  free_diff_buffers_count pool ≤ free_diff_buffer_pool_size + 1 →
  wp (diff_buffer_take pool cs nw) w (λ '(r, pool1) w1,
    pool_wf cs pool1 ∧
    match r with
    | Err e => e = (if nw then - EAGAIN else - ENOMEM) ∧ pool1 = pool ∧
               ∀ t, mem_delta w w1 t 0
    | Ok b =>
        buffer_wf cs b ∧
        wp (diff_buffer_release pool1 b) w1 (λ pool2 w2,
          pool_wf cs pool2 ∧ free_diff_buffers_count pool2 ≤ free_diff_buffer_pool_size + 1)
    end).
Proof.
  intros Hp Hcs Hlim.
  assert (Hmem : wp (diff_buffer_take pool cs nw) w (λ '(r, pool1) w1,
    (is_err r = true → pool1 = pool ∧ ∀ t, mem_delta w w1 t 0) ∧
    free_diff_buffers_count pool1 ≤ free_diff_buffers_count pool)).
  { unfold diff_buffer_take. destruct (free_diff_buffers pool); wp_steps; [|simpl; split; [done|lia]].
    wp_call diff_buffer_new_spec. intros r w1 (_ & Hr). destruct r; wp_steps; simpl; by split. }
  pose proof (wp_and _ _ _ _ (diff_buffer_take_spec pool cs nw w Hp Hcs) Hmem) as H.
  eapply wp_mono; [exact H|]. clear H Hmem.
  intros [r pool1] w1 [(_ & Hp1 & Hr) [He Hcnt]]. split; [done|].
  destruct r as [b|e]; [|by specialize (He eq_refl) as [-> ?]].
  split; [done|]. wp_call diff_buffer_release_spec; [done..|].
  intros pool2 w2 (_ & ? & ?). split; [done|lia].
Qed.

Definition ex_buffer : diff_buffer :=
  {| db_size := 4096; db_page_count := 1; db_pages := [λ i, i] |}.

Lemma diff_buffer_iter_in_bounds_witness :
  buffer_wf 8 ex_buffer ∧ db_size ex_buffer ≤ 4096.
Proof.
  split; [vm_compute; split_and!; congruence|].
  exact (diff_buffer_iter_in_bounds 8 ex_buffer 4096 ltac:(vm_compute; split_and!; congruence)
    ltac:(lia)).
Defined.

Lemma diff_buffer_take_release_witness :
  ∃ b, diff_buffer_take {| free_diff_buffers := [ex_buffer]; free_diff_buffers_count := 1 |}
         8 true world0 =
       ((Ok b, {| free_diff_buffers := []; free_diff_buffers_count := 0 |}), world0) ∧
       buffer_wf 8 b.
Proof.
  exists ex_buffer. split; [reflexivity|].
  pose proof (diff_buffer_take_release (P:=default_params)
    {| free_diff_buffers := [ex_buffer]; free_diff_buffers_count := 1 |} 8 true world0) as H.
  unfold wp in H. cbn -[Z.mul] in H. apply H.
  - split; [reflexivity|]. constructor; [|constructor]. vm_compute; split_and!; congruence.
  - lia.
  - simpl. lia.
Defined.
