(* ===== verification/DiffIo.v ===== *)
(** * Transfers between buffers and block devices (diff_io.c, diff_io.h)

    [diff_io_do] cuts a region of a device into bios that point to the pages
    of a buffer, and submits them. A bio's pages are the indices of the pages
    in the buffer ([current_page_ptr - diff_buffer->pages]). *)
From S2P Require Import Prelude MemoryChecker Kernel DiffBuffer.

(** [struct diff_region]. *)
Record diff_region := DiffRegion { dr_bdev : Z; dr_sector : Z; dr_count : Z }.

(** [struct bio]: what the module sets of it. [bi_max_vecs] is the capacity it
    was allocated with, [bi_io_vec] the pages added, each with its length. *)
Record bio := Bio {
  bi_bdev : Z;
  bi_sector : Z;
  bi_write : bool;
  bi_max_vecs : Z;
  bi_io_vec : list (Z * Z);
}.

(** The callbacks given to [diff_io_new_async] (chunk.c). *)
Inductive notify_fn : Set := fn_chunk_notify_load | fn_chunk_notify_store.
#[global] Instance notify_fn_eq_dec : EqDecision notify_fn.
Proof. solve_decision. Defined.

(** [struct diff_io]. [notify] is the union: the callback of an asynchronous
    request, [None] for a synchronous one. [io_bios] are the bios whose
    [bi_private] is this structure and that have not ended yet; [io_plugged]
    says that they sit in [current->bio_list] of the task that made them, and
    [io_notified] that the completion or the work item has been fired. *)
Record diff_io := DiffIo {
  error : Z;
  bio_count : Z;
  is_write : bool;
  is_sync_io : bool;
  notify : option notify_fn;
  io_bios : list bio;
  io_plugged : bool;
  io_notified : bool;
}.

(** [is_nowait] selects the allocation flags only; whether the allocation
    succeeds is the environment's answer in both cases. *)
Definition diff_io_new (is_write is_nowait : bool) : K (option diff_io) :=
  ok ← alloc;
  if negb ok then mret None
  else
    memory_object_inc memory_object_diff_io;;
    mret (Some {| error := 0; bio_count := 0; is_write := is_write; is_sync_io := false;
                  notify := None; io_bios := []; io_plugged := false; io_notified := false |}).

Definition diff_io_new_sync (is_write : bool) : K (option diff_io) :=
  io ← diff_io_new is_write false;
  mret (match io with
        | None => None
        | Some io => Some {| io with is_sync_io := true |}
        end).

Definition diff_io_new_async (is_write is_nowait : bool) (cb : notify_fn) : K (option diff_io) :=
  io ← diff_io_new is_write is_nowait;
  mret (match io with
        | None => None
        | Some io => Some {| io with is_sync_io := false; notify := Some cb |}
        end).

Definition diff_io_new_sync_read : K (option diff_io) := diff_io_new_sync false.
Definition diff_io_new_sync_write : K (option diff_io) := diff_io_new_sync true.
Definition diff_io_new_async_read (cb : notify_fn) (is_nowait : bool) : K (option diff_io) :=
  diff_io_new_async false is_nowait cb.
Definition diff_io_new_async_write (cb : notify_fn) (is_nowait : bool) : K (option diff_io) :=
  diff_io_new_async true is_nowait cb.

Definition diff_io_free (io : option diff_io) : K unit :=
  match io with
  | None => skip
  | Some _ => memory_object_dec memory_object_diff_io
  end.

(** [diff_io_endio]: one bio of the request has ended with [status]. *)
Definition diff_io_endio (status : Z) (io : diff_io) : diff_io :=
  {| io with error := if negb (status =? 0) then - EIO else error io;
             bio_count := bio_count io - 1;
             io_notified := io_notified io || (bio_count io - 1 =? 0) |}.

Definition check_page_aligned (sector : Z) : bool :=
  Z.land sector (Z.shiftl 1 (PAGE_SHIFT - SECTOR_SHIFT) - 1) =? 0.

(** The result type is [unsigned short]. *)
Definition calc_page_count (sectors : Z) : Z :=
  u16 (round_up sectors PAGE_SECTORS / PAGE_SECTORS).

(** [BIO_MAX_PAGES] (later kernels: [BIO_MAX_VECS]) and [bio_max_segs]. *)
Definition BIO_MAX_PAGES : Z := 256.
Definition bio_max_segs (nr_segs : Z) : Z := Z.min nr_segs BIO_MAX_PAGES.

(** The loop that adds pages to a bio: the pages added, the sectors added and
    the next page. Every turn adds a sector at least, so [portion] turns are
    enough ([bio_fill_spec]). *)
Fixpoint bio_fill (fuel : nat) (portion offset page : Z) : list (Z * Z) * Z * Z :=
  if offset <? portion then
    match fuel with
    | O => ([], offset, page)
    | S fuel =>
        let bvec_len_sect := Z.min PAGE_SECTORS (portion - offset) in
        let bvec_len := u32 (Z.shiftl bvec_len_sect SECTOR_SHIFT) in
        let '(vecs, offset', page') :=
          bio_fill fuel portion (offset + bvec_len_sect) (page + 1) in
        ((page, bvec_len) :: vecs, offset', page')
    end
  else ([], offset, page).

(** The loop of [diff_io_do] that makes the bios; [false] when a bio could not
    be allocated ([goto fail]). Every turn processes a sector at least. *)
Fixpoint bio_loop (fuel : nat) (is_write : bool) (r : diff_region) (processed page : Z)
    (bios : list bio) : K (bool * list bio) :=
  if processed <? dr_count r then
    match fuel with
    | O => mret (true, bios)
    | S fuel =>
        let portion := dr_count r - processed in
        let nr_iovecs := calc_page_count portion in
        let '(nr_iovecs, portion) :=
          if bio_max_segs nr_iovecs <? nr_iovecs
          then (bio_max_segs nr_iovecs, bio_max_segs nr_iovecs * PAGE_SECTORS)
          else (nr_iovecs, portion) in
        ok ← alloc;
        if negb ok then mret (false, bios)
        else
          let '(vecs, offset, page) := bio_fill (Z.to_nat portion) portion 0 page in
          let b := {| bi_bdev := dr_bdev r; bi_sector := dr_sector r + processed;
                      bi_write := is_write; bi_max_vecs := nr_iovecs; bi_io_vec := vecs |} in
          bio_loop fuel is_write r (processed + offset) page (bios ++ [b])
    end
  else mret (true, bios).

(** ** What a device does with a bio *)

(** [len] bytes of page [p] are overwritten. *)
Definition page_fill (p len : Z) (data : Z → Z) (pages : list page) : list page :=
  match nthZ pages p with
  | None => pages
  | Some pg => setZ p (λ o, if (0 <=? o) && (o <? len) then data o else pg o) pages
  end.

Fixpoint vecs_read (src : Z → Z) (pos : Z) (vs : list (Z * Z)) (pages : list page) : list page :=
  match vs with
  | [] => pages
  | (p, len) :: vs =>
      vecs_read src (pos + len) vs (page_fill p len (λ o, src (pos + o)) pages)
  end.

Fixpoint vecs_write (bdev pos : Z) (vs : list (Z * Z)) (pages : list page) (d : Z → Z → Z)
    : Z → Z → Z :=
  match vs with
  | [] => d
  | (p, len) :: vs =>
      vecs_write bdev (pos + len) vs pages
        (disk_write bdev pos len (default (λ _, 0) (nthZ pages p)) d)
  end.

(** The device executes the bio. When it fails the bytes it was to write, in
    memory or on the device, are unspecified. *)
Definition bio_run (status : Z) (b : bio) (pages : list page) : K (list page) :=
  let pos := bi_sector b * SECTOR_SIZE in
  if bi_write b then
    modify (λ w, {| w with w_disk :=
      vecs_write (bi_bdev b) pos (bi_io_vec b)
        (if status =? 0 then pages else (λ _, w_garbage w) <$> pages) (w_disk w) |});;
    mret pages
  else
    gets (λ w, vecs_read (if status =? 0 then w_disk w (bi_bdev b) else w_garbage w)
                 pos (bi_io_vec b) pages).

(** Submission followed by [wait_for_completion_io]. *)
Fixpoint wait_bios (bios : list bio) (io : diff_io) (pages : list page)
    : K (diff_io * list page) :=
  match bios with
  | [] => mret (io, pages)
  | b :: bios =>
      status ← oracle;
      pages ← bio_run status b pages;
      wait_bios bios (diff_io_endio status io) pages
  end.

(** [submit_bio_noacct] for the bios of a request owned by [owner]: they go to
    the device, unless the task has a [bio_list], which then receives them. *)
Definition submit_bios (owner : Z) (bios : list bio) (io : diff_io) : K diff_io :=
  plug ← gets w_bio_list;
  match plug with
  | None => mret {| io with io_bios := bios; io_plugged := false |}
  | Some l =>
      modify (λ w, {| w with w_bio_list := Some (l ++ [owner]) |});;
      mret {| io with io_bios := bios; io_plugged := true |}
  end.

(** [diff_io_do]: the return value, the request and the buffer as the call
    leaves them. [owner] is the context the request's callback gets. A synchronous
    request, which waits for its bios, is complete when the call returns; its caller
    holds the semaphore of the chunk meanwhile, so that no other task of the area works on
    the chunk. *)
Definition diff_io_do (owner : Z) (io : diff_io) (r : diff_region) (b : diff_buffer)
    (is_nowait : bool) : K (Z * diff_io * diff_buffer) :=
  if negb (check_page_aligned (dr_sector r)) then mret (- EINVAL, io, b)
  else if db_page_count b <? calc_page_count (dr_count r) then mret (- EINVAL, io, b)
  else
    '(ok, bios) ← bio_loop (Z.to_nat (dr_count r)) (is_write io) r 0 0 [];
    let io := {| io with bio_count := bio_count io + lenZ bios |} in
    if negb (ok : bool) then mret (- EAGAIN, io, b)
    else if is_sync_io io then
      '(io, pages) ← wait_bios bios io (db_pages b);
      mret (0, io, {| b with db_pages := pages |})
    else
      io ← submit_bios owner bios io;
      mret (0, io, b).

(** ** The bios cover the region

    [vec_span lo hi vs]: the pages [vs] are the consecutive pages of the buffer
    that hold its bytes [lo] to [hi]; only the last may be partly used. *)
Fixpoint vec_span (lo hi : Z) (vs : list (Z * Z)) : Prop :=
  match vs with
  | [] => lo = hi
  | (p, len) :: vs => lo = p * PAGE_SIZE ∧ 0 < len ≤ PAGE_SIZE ∧ vec_span (lo + len) hi vs
  end.

(** The bytes of the region, from its start, that a bio transfers. *)
Definition vec_bytes (vs : list (Z * Z)) : Z := foldr (λ v n, v.2 + n) 0 vs.
Definition bio_lo (r : diff_region) (b : bio) : Z := (bi_sector b - dr_sector r) * SECTOR_SIZE.
Definition bio_hi (r : diff_region) (b : bio) : Z := bio_lo r b + vec_bytes (bi_io_vec b).
Definition bio_has (r : diff_region) (i : Z) (b : bio) : Prop := bio_lo r b ≤ i < bio_hi r b.
Definition region_bytes (r : diff_region) : Z := dr_count r * SECTOR_SIZE.
Definition region_base (r : diff_region) : Z := dr_sector r * SECTOR_SIZE.

Record bio_wf (r : diff_region) (wr : bool) (b : bio) : Prop := {
  bw_bdev : bi_bdev b = dr_bdev r;
  bw_write : bi_write b = wr;
  bw_lo : 0 ≤ bio_lo r b;
  bw_hi : bio_hi r b ≤ region_bytes r;
  bw_vecs : vec_span (bio_lo r b) (bio_hi r b) (bi_io_vec b);
}.

Lemma vec_span_bytes lo hi vs : vec_span lo hi vs → lo + vec_bytes vs = hi.
Proof.
  revert lo. induction vs as [|[p len] vs IH]; intros lo; simpl; [lia|].
  intros (_ & _ & H). apply IH in H. unfold vec_bytes in *. simpl. lia.
Qed.

Lemma vec_span_le lo hi vs : vec_span lo hi vs → lo ≤ hi.
Proof.
  revert lo. induction vs as [|[p len] vs IH]; intros lo; simpl; [lia|].
  intros (_ & ? & H). apply IH in H. lia.
Qed.

Lemma bio_fill_done fuel portion page : bio_fill fuel portion portion page = ([], portion, page).
Proof. destruct fuel; simpl; by rewrite Z.ltb_irrefl. Qed.

(** Filling a bio takes consecutive pages and stops at the portion. *)
Lemma bio_fill_spec fuel portion offset page :
  0 ≤ offset ≤ portion → portion - offset ≤ Z.of_nat fuel →
  let '(vecs, offset', page') := bio_fill fuel portion offset page in
  offset' = portion ∧ page' = page + (portion - offset + 7) / 8 ∧
  lenZ vecs = (portion - offset + 7) / 8 ∧
  vec_span (page * PAGE_SIZE) (page * PAGE_SIZE + (portion - offset) * SECTOR_SIZE) vecs.
Proof.
  revert offset page. induction fuel as [|fuel IH]; intros offset page Ho Hf.
  { replace offset with portion by lia. rewrite bio_fill_done.
    rewrite Z.sub_diag. change ((0 + 7) / 8) with 0. repeat split; unfold lenZ; simpl; lia. }
  cbn [bio_fill]. destruct (Z.ltb_spec offset portion).
  2:{ replace offset with portion by lia. rewrite Z.sub_diag.
      change ((0 + 7) / 8) with 0. repeat split; unfold lenZ; simpl; lia. }
  change PAGE_SECTORS with 8.
  assert (Hlen : u32 (Z.shiftl (Z.min 8 (portion - offset)) SECTOR_SHIFT) =
                 Z.min 8 (portion - offset) * SECTOR_SIZE).
  { unfold u32, SECTOR_SHIFT, SECTOR_SIZE. rewrite Z.shiftl_mul_pow2 by lia.
    apply Z.mod_small. lia. }
  rewrite Hlen. destruct (Z.le_gt_cases 8 (portion - offset)).
  - rewrite (Z.min_l 8) by lia.
    specialize (IH (offset + 8) (page + 1) ltac:(lia) ltac:(lia)).
    destruct (bio_fill fuel portion (offset + 8) (page + 1)) as [[vecs o'] p'].
    destruct IH as (-> & -> & Hl & Hs).
    replace (portion - offset + 7) with (portion - (offset + 8) + 7 + 1 * 8) by lia.
    rewrite Z.div_add by lia. split_and!; [done|lia|unfold lenZ in *; simpl; lia|].
    simpl. unfold SECTOR_SIZE, PAGE_SIZE in *. split_and!; [done|lia|lia|].
    replace (page * 4096 + 8 * 512) with ((page + 1) * 4096) by lia.
    replace (page * 4096 + (portion - offset) * 512)
      with ((page + 1) * 4096 + (portion - (offset + 8)) * 512) by lia. done.
  - rewrite (Z.min_r 8) by lia. replace (offset + (portion - offset)) with portion by lia.
    rewrite bio_fill_done.
    assert ((portion - offset + 7) / 8 = 1) as ->.
    { symmetry. apply (Z.div_unique _ _ _ (portion - offset - 1)); lia. }
    split_and!; [done|lia|done|]. simpl. unfold SECTOR_SIZE, PAGE_SIZE. split_and!; lia.
Qed.

Lemma calc_page_count_small n : 0 ≤ n ≤ 65535 * 8 → calc_page_count n = (n + 7) / 8.
Proof.
  intros Hn. unfold calc_page_count. change PAGE_SECTORS with (2 ^ 3).
  rewrite round_up_pow2 by lia. rewrite Z.div_mul by lia. apply u16_small.
  change (2 ^ 3) with 8. change (8 - 1) with 7.
  split; [apply Z.div_pos; lia|]. apply Z.div_lt_upper_bound; lia.
Qed.

(** The bios of [bio_loop] are in bounds, fit their allocation and between them
    transfer every byte of the region. *)
Definition bios_cover (r : diff_region) (wr : bool) (from : Z) (bios : list bio) : Prop :=
  Forall (bio_wf r wr) bios ∧
  Forall (λ b, lenZ (bi_io_vec b) ≤ bi_max_vecs b) bios ∧
  ∀ i, from ≤ i < region_bytes r → Exists (bio_has r i) bios.

Lemma bios_cover_cons r wr b bios from mid :
  bio_wf r wr b → lenZ (bi_io_vec b) ≤ bi_max_vecs b →
  bio_lo r b = from → bio_hi r b = mid →
  bios_cover r wr mid bios → bios_cover r wr from (b :: bios).
Proof.
  intros Hwf Hfit Hlo Hhi (HF & Hc & Hcov). split; [by constructor|]. split; [by constructor|].
  intros i Hi. apply Exists_cons. destruct (decide (i < mid)).
  - left. unfold bio_has. lia.
  - right. apply Hcov. lia.
Qed.

(** One bio of the loop. *)
Lemma bio_step_wf r wr k nr portion :
  0 ≤ k → 0 < portion → k * 8 + portion ≤ dr_count r →
  let '(vecs, _, _) := bio_fill (Z.to_nat portion) portion 0 k in
  let b := {| bi_bdev := dr_bdev r; bi_sector := dr_sector r + k * 8; bi_write := wr;
              bi_max_vecs := nr; bi_io_vec := vecs |} in
  bio_wf r wr b ∧ bio_lo r b = k * 8 * SECTOR_SIZE ∧
  bio_hi r b = (k * 8 + portion) * SECTOR_SIZE ∧ lenZ vecs = (portion + 7) / 8.
Proof.
  intros Hk Hp Hc. pose proof (bio_fill_spec (Z.to_nat portion) portion 0 k) as H.
  destruct (bio_fill (Z.to_nat portion) portion 0 k) as [[vecs o'] p'].
  specialize (H ltac:(lia) ltac:(lia)) as (_ & _ & Hl & Hs). rewrite Z.sub_0_r in *.
  unfold PAGE_SIZE, SECTOR_SIZE in Hs.
  replace (k * 4096) with (k * 8 * 512) in Hs by lia.
  pose proof (vec_span_bytes _ _ _ Hs) as Hb.
  assert (Hlo : bio_lo r {| bi_bdev := dr_bdev r; bi_sector := dr_sector r + k * 8; bi_write := wr;
              bi_max_vecs := nr; bi_io_vec := vecs |} = k * 8 * SECTOR_SIZE).
  { unfold bio_lo, SECTOR_SIZE. simpl. lia. }
  assert (Hhi : bio_hi r {| bi_bdev := dr_bdev r; bi_sector := dr_sector r + k * 8; bi_write := wr;
              bi_max_vecs := nr; bi_io_vec := vecs |} = (k * 8 + portion) * SECTOR_SIZE).
  { unfold bio_hi. rewrite Hlo. unfold SECTOR_SIZE. simpl. lia. }
  split_and!; [|done..].
  split; rewrite ?Hlo, ?Hhi; unfold region_bytes, SECTOR_SIZE in *; simpl; try done; try lia.
  replace ((k * 8 + portion) * 512) with (k * 8 * 512 + portion * 512) by lia. done.
Qed.

Lemma bio_loop_spec fuel wr r processed page bios w :
  0 ≤ page → processed = page * 8 ∨ dr_count r ≤ processed →
  dr_count r ≤ 65535 * 8 → dr_count r - processed ≤ Z.of_nat fuel →
  wp (bio_loop fuel wr r processed page bios) w (λ '(ok, bs) w',
    (∃ vs, w' = {| w with w_oracle := vs |}) ∧
    (ok = true → ∃ new, bs = bios ++ new ∧ bios_cover r wr (processed * SECTOR_SIZE) new ∧
                        (processed < dr_count r → new ≠ []))).
Proof.
  revert processed page bios w.
  induction fuel as [|fuel IH]; intros processed page bios w Hpg Hp Hmax Hf; cbn [bio_loop];
    (destruct (Z.ltb_spec processed (dr_count r)) as [Hlt|Hge];
     [|wp_steps; split; [exists (w_oracle w); by destruct w|intros _; exists [];
       rewrite app_nil_r; split_and!; [done| |lia]; split_and!; [constructor..|];
       unfold region_bytes, SECTOR_SIZE; intros; lia]]); [lia|].
  destruct Hp as [->|]; [|lia].
  rewrite calc_page_count_small by lia. unfold bio_max_segs, BIO_MAX_PAGES.
  set (pages := (dr_count r - page * 8 + 7) / 8).
  assert (∃ nr portion, (if Z.min pages 256 <? pages
    then (Z.min pages 256, Z.min pages 256 * PAGE_SECTORS)
    else (pages, dr_count r - page * 8)) = (nr, portion) ∧
    0 < portion ∧ page * 8 + portion ≤ dr_count r ∧ (portion + 7) / 8 ≤ nr ∧
    (page * 8 + portion = (page + (portion + 7) / 8) * 8 ∨ dr_count r = page * 8 + portion))
    as (nr & portion & -> & Hpos & Hle & Hnr & Hnext).
  { pose proof (Z.div_mod (dr_count r - page * 8 + 7) 8 ltac:(lia)) as Hdm.
    pose proof (Z.mod_pos_bound (dr_count r - page * 8 + 7) 8 ltac:(lia)).
    fold pages in Hdm. change PAGE_SECTORS with 8. destruct (Z.ltb_spec (Z.min pages 256) pages).
    - rewrite Z.min_r by lia. exists 256, 2048. split; [done|].
      change ((2048 + 7) / 8) with 256. lia.
    - exists pages, (dr_count r - page * 8). split; [done|]. fold pages.
      clearbody pages. lia. }
  wp_steps. apply wp_alloc. intros ok vs. destruct ok; simpl; wp_steps.
  2:{ split; [by eexists|done]. }
  pose proof (bio_step_wf r wr page nr portion Hpg Hpos Hle) as Hb.
  pose proof (bio_fill_spec (Z.to_nat portion) portion 0 page ltac:(lia) ltac:(lia)) as Hfill.
  destruct (bio_fill (Z.to_nat portion) portion 0 page) as [[vecs offset] page'].
  destruct Hb as (Hwf & Hlo & Hhi & Hlen), Hfill as (-> & -> & _ & _). rewrite Z.sub_0_r in *.
  pose proof (Z.div_pos (portion + 7) 8 ltac:(lia) ltac:(lia)).
  wp_call IH; [lia|lia|done|lia|]. intros [ok bs] w' [[vs' ->] Hok].
  split; [eexists; reflexivity|]. intros Ht. destruct (Hok Ht) as (new & -> & Hcov & _).
  eexists (_ :: new). rewrite <- app_assoc. split; [reflexivity|]. split; [|done].
  eapply bios_cover_cons; [exact Hwf|simpl; lia|by rewrite Hlo|exact Hhi|exact Hcov].
Qed.

(** ** Executing bios *)

Lemma pages_at_fill p len data pages i :
  0 < len ≤ PAGE_SIZE → 0 ≤ p < lenZ pages →
  pages_at (page_fill p len data pages) i =
    if (p * PAGE_SIZE <=? i) && (i <? p * PAGE_SIZE + len)
    then data (i - p * PAGE_SIZE) else pages_at pages i.
Proof.
  intros Hlen Hp. unfold page_fill. destruct (nthZ_Some pages p Hp) as [pg Hpg]. rewrite Hpg.
  unfold pages_at. rewrite nthZ_setZ by done.
  pose proof (Z.div_mod i PAGE_SIZE ltac:(done)) as Hdm.
  pose proof (Z.mod_pos_bound i PAGE_SIZE ltac:(done)) as Hmb.
  assert (HP : PAGE_SIZE = 4096) by done. destruct (Z.eqb_spec (i / PAGE_SIZE) p) as [<-|Hne].
  - rewrite Hpg. replace (i / PAGE_SIZE * PAGE_SIZE <=? i) with true by (symmetry; apply Z.leb_le; lia).
    replace (0 <=? i mod PAGE_SIZE) with true by (symmetry; apply Z.leb_le; lia). simpl.
    replace (i <? i / PAGE_SIZE * PAGE_SIZE + len) with (i mod PAGE_SIZE <? len)
      by (destruct (Z.ltb_spec (i mod PAGE_SIZE) len); symmetry;
          [apply Z.ltb_lt; lia|apply Z.ltb_ge; lia]).
    replace (i - i / PAGE_SIZE * PAGE_SIZE) with (i mod PAGE_SIZE) by lia. done.
  - destruct (Z.leb_spec (p * PAGE_SIZE) i); [|done].
    destruct (Z.ltb_spec i (p * PAGE_SIZE + len)); [|done]. exfalso. apply Hne.
    symmetry. apply (Z.div_unique _ _ _ (i - PAGE_SIZE * p)); lia.
Qed.

Lemma lenZ_page_fill p len data pages : lenZ (page_fill p len data pages) = lenZ pages.
Proof. unfold page_fill. destruct (nthZ pages p); [apply lenZ_setZ|done]. Qed.

Lemma vecs_read_spec src pos lo hi vs pages :
  vec_span lo hi vs → 0 ≤ lo → hi ≤ lenZ pages * PAGE_SIZE →
  lenZ (vecs_read src pos vs pages) = lenZ pages ∧
  ∀ i, pages_at (vecs_read src pos vs pages) i =
         if (lo <=? i) && (i <? hi) then src (pos + (i - lo)) else pages_at pages i.
Proof.
  revert pos lo pages. induction vs as [|[p len] vs IH]; intros pos lo pages; simpl.
  - intros -> _ _. split; [done|]. intros i.
    destruct (Z.leb_spec hi i), (Z.ltb_spec i hi); done || lia.
  - intros (-> & Hlen & Hs) Hlo Hhi. pose proof (vec_span_le _ _ _ Hs).
    assert (0 ≤ p < lenZ pages) by (unfold PAGE_SIZE in *; lia).
    destruct (IH (pos + len) (p * PAGE_SIZE + len)
      (page_fill p len (λ o, src (pos + o)) pages) Hs) as [Hl Hv];
      [lia|by rewrite lenZ_page_fill|].
    rewrite lenZ_page_fill in Hl. split; [done|]. intros i. rewrite Hv, pages_at_fill by done.
    destruct (Z.leb_spec (p * PAGE_SIZE + len) i), (Z.leb_spec (p * PAGE_SIZE) i),
      (Z.ltb_spec i hi), (Z.ltb_spec i (p * PAGE_SIZE + len)); simpl; try lia; try done.
    f_equal. lia.
Qed.

Lemma vecs_write_spec bdev pos lo hi vs pages d b a :
  vec_span lo hi vs → 0 ≤ lo → hi ≤ lenZ pages * PAGE_SIZE →
  vecs_write bdev pos vs pages d b a =
    if (b =? bdev) && (pos <=? a) && (a <? pos + (hi - lo))
    then pages_at pages (lo + (a - pos)) else d b a.
Proof.
  revert pos lo d. induction vs as [|[p len] vs IH]; intros pos lo d; simpl.
  - intros -> _ _. destruct (b =? bdev), (Z.leb_spec pos a), (Z.ltb_spec a (pos + (hi - hi)));
      simpl; done || lia.
  - intros (-> & Hlen & Hs) Hlo Hhi. pose proof (vec_span_le _ _ _ Hs).
    rewrite (IH _ _ _ Hs) by lia. unfold disk_write.
    assert (0 ≤ p < lenZ pages) as Hp by (unfold PAGE_SIZE in *; lia).
    destruct (b =? bdev); simpl; [|done].
    destruct (Z.leb_spec (pos + len) a), (Z.leb_spec pos a),
      (Z.ltb_spec a (pos + len + (hi - (p * PAGE_SIZE + len)))), (Z.ltb_spec a (pos + len)),
      (Z.ltb_spec a (pos + (hi - p * PAGE_SIZE))); simpl; try lia; try done.
    + f_equal. lia.
    + unfold pages_at. destruct (nthZ_Some pages p Hp) as [pg Hpg].
      assert ((p * PAGE_SIZE + (a - pos)) / PAGE_SIZE = p) as ->.
      { symmetry. apply (Z.div_unique _ _ _ (a - pos)); lia. }
      assert ((p * PAGE_SIZE + (a - pos)) mod PAGE_SIZE = a - pos) as ->.
      { symmetry. apply (Z.mod_unique _ _ p); lia. }
      by rewrite Hpg.
Qed.

#[global] Instance bio_has_dec r i b : Decision (bio_has r i b).
Proof. unfold bio_has. apply _. Defined.

(** What executing one bio of a region does to memory and to the device. *)
Lemma bio_run_read_spec r st b pages w :
  bio_wf r false b → region_bytes r ≤ lenZ pages * PAGE_SIZE →
  wp (bio_run st b pages) w (λ pages' w',
    w' = w ∧ lenZ pages' = lenZ pages ∧
    ∀ i, (st = 0 → bio_has r i b →
            pages_at pages' i = w_disk w (dr_bdev r) (region_base r + i)) ∧
         (¬ bio_has r i b → pages_at pages' i = pages_at pages i)).
Proof.
  intros [Hbd Hwr Hlo Hhi Hv] Hlen. unfold bio_run. rewrite Hwr. wp_steps.
  destruct (vecs_read_spec (if st =? 0 then w_disk w (bi_bdev b) else w_garbage w)
    (bi_sector b * SECTOR_SIZE) _ _ _ pages Hv Hlo ltac:(lia)) as [Hl Hat].
  split; [done|]. split; [done|]. intros i. rewrite Hat. unfold bio_has.
  destruct (Z.leb_spec (bio_lo r b) i), (Z.ltb_spec i (bio_hi r b)); simpl; split; intros;
    try lia; try done.
  subst st. simpl. rewrite Hbd. f_equal. unfold bio_lo, region_base, SECTOR_SIZE. lia.
Qed.

Lemma bio_run_write_spec r st b pages w :
  bio_wf r true b → region_bytes r ≤ lenZ pages * PAGE_SIZE →
  wp (bio_run st b pages) w (λ pages' w',
    pages' = pages ∧ (∃ d, w' = {| w with w_disk := d |}) ∧
    (st = 0 → ∀ i, bio_has r i b → w_disk w' (dr_bdev r) (region_base r + i) = pages_at pages i) ∧
    ∀ bd a, ¬ (bd = dr_bdev r ∧ bio_has r (a - region_base r) b) →
            w_disk w' bd a = w_disk w bd a).
Proof.
  intros [Hbd Hwr Hlo Hhi Hv] Hlen. unfold bio_run. rewrite Hwr. wp_steps.
  assert (Hb : bi_sector b * SECTOR_SIZE = region_base r + bio_lo r b).
  { unfold bio_lo, region_base, SECTOR_SIZE. lia. }
  split; [done|]. split; [eexists; reflexivity|]. split.
  - intros -> i Hi. simpl. rewrite (vecs_write_spec _ _ _ _ _ _ _ _ _ Hv) by (done || lia).
    unfold bio_has in Hi. rewrite Hbd, Z.eqb_refl, Hb.
    rewrite (proj2 (Z.leb_le _ _)), (proj2 (Z.ltb_lt _ _)) by lia. simpl. f_equal. lia.
  - intros bd a Hn. simpl. rewrite (vecs_write_spec _ _ _ _ _ _ _ _ _ Hv);
      [|done|destruct (st =? 0); unfold lenZ in *; rewrite ?length_fmap; lia].
    destruct (Z.eqb_spec bd (bi_bdev b)); simpl; [|done].
    destruct (Z.leb_spec (bi_sector b * SECTOR_SIZE) a); simpl; [|done].
    destruct (Z.ltb_spec a (bi_sector b * SECTOR_SIZE + (bio_hi r b - bio_lo r b))); [|done].
    exfalso. apply Hn. unfold bio_has. split; [congruence|lia].
Qed.

(** Waiting for the bios of a read. *)
Lemma wait_bios_read_spec r bs io pages w :
  Forall (bio_wf r false) bs → region_bytes r ≤ lenZ pages * PAGE_SIZE →
  wp (wait_bios bs io pages) w (λ '(io', pages') w',
    (∃ vs, w' = {| w with w_oracle := vs |}) ∧ lenZ pages' = lenZ pages ∧
    (error io' = 0 → ∀ i, Exists (bio_has r i) bs →
       pages_at pages' i = w_disk w (dr_bdev r) (region_base r + i)) ∧
    (error io' = 0 → error io = 0) ∧
    ∀ i, ¬ Exists (bio_has r i) bs → pages_at pages' i = pages_at pages i).
Proof.
  revert io pages w. induction bs as [|b bs IH]; intros io pages w HF Hlen; cbn [wait_bios].
  - wp_steps. split; [exists (w_oracle w); by destruct w|]. split; [done|].
    split; [intros _ i []%Exists_nil|]. done.
  - apply list.Forall_cons in HF as [Hb HF]. wp_steps. apply wp_oracle. intros st vs.
    wp_call (bio_run_read_spec r); [done..|]. intros pages1 w1 (-> & Hl1 & Hat).
    wp_call IH; [done|by rewrite Hl1|].
    intros [io' pages'] w2 ([vs2 ->] & Hl2 & Hin & Herr & Hout). simpl in *.
    split; [by eexists|]. split; [lia|]. split; [|split].
    + intros He i Hi. destruct (decide (Exists (bio_has r i) bs)); [by apply Hin|].
      apply Exists_cons in Hi as [Hi|]; [|done]. rewrite Hout by done.
      apply Hat; [|done]. specialize (Herr He). destruct (Z.eqb_spec st 0); [done|]. by simpl in Herr.
    + intros He. specialize (Herr He). destruct (st =? 0); [done|]. by simpl in Herr.
    + intros i Hn. rewrite Exists_cons in Hn. rewrite Hout by tauto. apply Hat. tauto.
Qed.

(** Waiting for the bios of a write. *)
Lemma wait_bios_write_spec r bs io pages w :
  Forall (bio_wf r true) bs → region_bytes r ≤ lenZ pages * PAGE_SIZE →
  wp (wait_bios bs io pages) w (λ '(io', pages') w',
    pages' = pages ∧ (error io' = 0 → error io = 0) ∧
    (error io' = 0 → ∀ i, Exists (bio_has r i) bs →
       w_disk w' (dr_bdev r) (region_base r + i) = pages_at pages i) ∧
    ∀ bd a, ¬ (bd = dr_bdev r ∧ Exists (bio_has r (a - region_base r)) bs) →
            w_disk w' bd a = w_disk w bd a).
Proof.
  revert io w. induction bs as [|b bs IH]; intros io w HF Hlen; cbn [wait_bios].
  - wp_steps. split; [done|]. split; [done|]. split; [intros _ i []%Exists_nil|]. done.
  - apply list.Forall_cons in HF as [Hb HF]. wp_steps. apply wp_oracle. intros st vs.
    wp_call (bio_run_write_spec r); [done..|]. intros pages1 w1 (-> & _ & Hin1 & Hout1).
    wp_call IH; [done..|]. intros [io' pages'] w2 (-> & Herr & Hin & Hout).
    assert (Hst : error io' = 0 → st = 0).
    { intros He. specialize (Herr He). simpl in Herr. destruct (Z.eqb_spec st 0); [done|].
      by simpl in Herr. }
    split; [done|]. split; [|split].
    + intros He. pose proof (Hst He) as ->. exact (Herr He).
    + intros He i Hi. destruct (decide (Exists (bio_has r i) bs)); [by apply Hin|].
      apply Exists_cons in Hi as [Hi|]; [|done]. rewrite Hout; [by apply Hin1; [apply Hst|]|].
      intros [_ Hx]. replace (region_base r + i - region_base r) with i in Hx by lia. done.
    + intros bd a Hn. rewrite Hout, Hout1; [done| |]; intros [? ?]; apply Hn;
        (split; [done|]); apply Exists_cons; auto.
Qed.

(** The request is notified when its last bio ends and not before. *)
Lemma wait_bios_count bs io pages w :
  lenZ bs ≤ bio_count io → io_notified io = false →
  wp (wait_bios bs io pages) w (λ '(io', _) _,
    bio_count io' = bio_count io - lenZ bs ∧ notify io' = notify io ∧
    io_notified io' = negb (bool_decide (bs = [])) && (bio_count io =? lenZ bs)).
Proof.
  revert io pages w. induction bs as [|b bs IH]; intros io pages w Hc Hn; cbn [wait_bios]; wp_steps.
  - rewrite Hn. unfold lenZ. simpl. split_and!; [lia|done|done].
  - apply wp_oracle. intros st vs. wp_steps. apply wp_eq. intros pages1 w1 _.
    unfold lenZ in *. cbn [length] in *. rewrite Nat2Z.inj_succ in *.
    destruct bs as [|b' bs].
    + cbn [wait_bios]. wp_steps. simpl. rewrite Hn. simpl. split_and!; [lia|done|].
      change (Z.succ (Z.of_nat 0)) with 1.
      destruct (Z.eqb_spec (bio_count io - 1) 0), (Z.eqb_spec (bio_count io) 1); done || lia.
    + wp_call IH.
      * simpl in *. lia.
      * simpl. rewrite Hn. simpl. destruct (Z.eqb_spec (bio_count io - 1) 0); [|done].
        cbn [length] in *. lia.
      * intros [io' pages'] w2 (Hc' & Hno & Hnt). simpl in *. rewrite Hnt. split_and!; [lia|done|].
        destruct (Z.eqb_spec (bio_count io - 1) (Z.of_nat (S (length bs)))),
          (Z.eqb_spec (bio_count io) (Z.succ (Z.of_nat (S (length bs))))); done || lia.
Qed.

(** A buffer with a page for every page of its size. *)
Definition buffer_pages (b : diff_buffer) : Prop := lenZ (db_pages b) = db_page_count b.

(** The region is short enough for [calc_page_count] not to overflow. *)
Definition region_fits (r : diff_region) : Prop := 0 < dr_count r ≤ 65535 * 8.

(** Asynchronous requests: the call fails and only consumed answers of the
    environment, or leaves bios that cover the region. *)
Lemma diff_io_do_async_spec owner io r b nw w :
  is_sync_io io = false → buffer_pages b → region_fits r →
  wp (diff_io_do owner io r b nw) w (λ '(ret, io', b') w',
    b' = b ∧
    ((ret < 0 ∧ ∃ vs, w' = {| w with w_oracle := vs |}) ∨
     (ret = 0 ∧ region_bytes r ≤ lenZ (db_pages b) * PAGE_SIZE ∧
      ∃ bios vs, bios_cover r (is_write io) 0 bios ∧ bios ≠ [] ∧
        io' = {| io with bio_count := bio_count io + lenZ bios; io_bios := bios;
                         io_plugged := bool_decide (is_Some (w_bio_list w)) |} ∧
        w' = {| w with w_oracle := vs;
                       w_bio_list := (λ l, l ++ [owner]) <$> w_bio_list w |}))).
Proof.
  intros Hs Hb Hr. unfold diff_io_do. wp_if Ea; wp_steps.
  { split; [done|]. left. split; [done|]. exists (w_oracle w). by destruct w. }
  wp_if Ec; wp_steps.
  { split; [done|]. left. split; [done|]. exists (w_oracle w). by destruct w. }
  bool_hyps. unfold region_fits in Hr. rewrite calc_page_count_small in Ec by lia.
  wp_call bio_loop_spec; [lia..|]. intros [ok bios] w' [[vs ->] Hok]. wp_steps.
  destruct ok; simpl; wp_steps; [|split; [done|]; left; split; [done|by eexists]].
  destruct (Hok eq_refl) as (new & -> & Hcov & Hne). rewrite Hs. unfold submit_bios. wp_steps.
  assert (region_bytes r ≤ lenZ (db_pages b) * PAGE_SIZE).
  { pose proof (Z.div_mod (dr_count r + 7) 8 ltac:(lia)).
    pose proof (Z.mod_pos_bound (dr_count r + 7) 8 ltac:(lia)).
    unfold region_bytes, buffer_pages, SECTOR_SIZE, PAGE_SIZE in *. lia. }
  simpl. destruct (w_bio_list w) as [l|] eqn:El; wp_steps; (split; [done|]); right;
    (split; [done|]); (split; [done|]); exists new, vs; simpl; rewrite ?El;
    (split_and!; [done|apply Hne; lia|done|]); reflexivity.
Qed.

(** Synchronous reads. *)
Lemma diff_io_do_sync_read_spec owner io r b nw w :
  is_sync_io io = true → is_write io = false → buffer_pages b → region_fits r →
  wp (diff_io_do owner io r b nw) w (λ '(ret, io', b') w',
    (∃ vs, w' = {| w with w_oracle := vs |}) ∧
    db_size b' = db_size b ∧ db_page_count b' = db_page_count b ∧ buffer_pages b' ∧
    (ret = 0 → error io' = 0 → ∀ i, 0 ≤ i < region_bytes r →
       buf_at b' i = w_disk w (dr_bdev r) (region_base r + i))).
Proof.
  intros Hs Hrd Hb Hr. unfold diff_io_do.
  assert (H0 : ∃ vs, w = {| w with w_oracle := vs |}) by (exists (w_oracle w); by destruct w).
  wp_if Ea; wp_steps; [split_and!; done|]. wp_if Ec; wp_steps; [split_and!; done|].
  bool_hyps. unfold region_fits in Hr. rewrite calc_page_count_small in Ec by lia.
  wp_call bio_loop_spec; [lia..|]. intros [ok bios] w' [[vs ->] Hok]. wp_steps.
  destruct ok; simpl; wp_steps; [|split_and!; try done; by eexists].
  destruct (Hok eq_refl) as (new & -> & (HF & _ & Hcov) & _). rewrite Hs. simpl.
  rewrite Hrd in HF. wp_call (wait_bios_read_spec r); [done| |].
  { pose proof (Z.div_mod (dr_count r + 7) 8 ltac:(lia)).
    pose proof (Z.mod_pos_bound (dr_count r + 7) 8 ltac:(lia)).
    unfold region_bytes, buffer_pages, SECTOR_SIZE, PAGE_SIZE in *. lia. }
  intros [io' pages'] w' ([vs' ->] & Hl & Hin & _). simpl in *. wp_steps.
  split; [by eexists|]. unfold buffer_pages in *. simpl. split_and!; [done|done|lia|].
  intros _ He i Hi. apply Hin; [done|]. apply Hcov. lia.
Qed.

(** The allocation of a request touches nothing but the counters. *)
Lemma diff_io_new_spec wr nw w :
  wp (diff_io_new wr nw) w (λ r w',
    (∃ vs m, w' = {| w with w_oracle := vs; w_mem := m |}) ∧
    match r with
    | None => True
    | Some io => error io = 0 ∧ bio_count io = 0 ∧ is_write io = wr ∧ is_sync_io io = false ∧
                 io_bios io = [] ∧ io_notified io = false
    end).
Proof.
  unfold diff_io_new. wp_steps. apply wp_alloc. intros ok vs.
  destruct ok; simpl; wp_steps; (split; [|done]); [eexists _, _; reflexivity|].
  exists vs, (w_mem w). done.
Qed.

(** With no failure in sight, no error is recorded. *)
Lemma wait_bios_no_error bs io pages w :
  w_oracle w = [] →
  wp (wait_bios bs io pages) w (λ '(io', _) w', error io' = error io ∧ w_oracle w' = []).
Proof.
  revert io pages w. induction bs as [|b bs IH]; intros io pages w Ho; cbn [wait_bios]; wp_steps; [done|].
  rewrite wp_oracle_nil by done. wp_steps. apply wp_eq. intros pages1 w1 E.
  wp_call IH; [|by intros [io' pages'] w'].
  unfold bio_run in E. destruct (bi_write b); cbn in E; inversion E; subst; done.
Qed.

Lemma bios_cover_iff r wr bios bs i :
  bios_cover r wr 0 bios → bios ≡ₚ bs → Exists (bio_has r i) bs ↔ 0 ≤ i < region_bytes r.
Proof.
  intros (HF & _ & Hcov) HP. split; intros H.
  - apply Exists_exists in H as (b & Hb & Hhas). rewrite <- HP in Hb.
    destruct (proj1 (Forall_forall _ _) HF b Hb) as [_ _ Hlo Hhi _]. unfold bio_has in Hhas. lia.
  - apply Hcov, Exists_exists in H as (b & Hb & Hhas). rewrite HP in Hb.
    apply Exists_exists. eauto.
Qed.

(** ** Properties *)

(** C14: a transfer moves exactly the region, whatever the order in which the
    device completes it. When [diff_io_do] accepts an asynchronous request of
    fewer than 65536 pages, then for every order in which the device executes
    the bios it submitted: a read fills the buffer's first bytes with the
    region's and changes no other byte, a write makes the region equal to the
    buffer and changes no other byte of any device, and the request's callback
    is fired when the last bio ends and not before. *)
Theorem diff_io_transfers_region owner io r b nw w :
  is_sync_io io = false → bio_count io = 0 → io_notified io = false → error io = 0 →
  buffer_pages b → region_fits r →
  wp (diff_io_do owner io r b nw) w (λ '(ret, io', b') w',
    b' = b ∧ w_disk w' = w_disk w ∧
    (ret = 0 →
     ∀ before after w1, io_bios io' ≡ₚ before ++ after → w_oracle w1 = [] →
       wp (wait_bios before io' (db_pages b)) w1 (λ '(io2, pages) w2,
         io_notified io2 = bool_decide (after = []) ∧ error io2 = 0 ∧
         (after = [] →
          if is_write io then
            pages = db_pages b ∧
            ∀ bd a, w_disk w2 bd a =
              if bool_decide (bd = dr_bdev r ∧ region_base r ≤ a < region_base r + region_bytes r)
              then buf_at b (a - region_base r) else w_disk w1 bd a
          else
            w_disk w2 = w_disk w1 ∧
            ∀ i, pages_at pages i =
              if bool_decide (0 ≤ i < region_bytes r)
              then w_disk w1 (dr_bdev r) (region_base r + i) else buf_at b i)))).
Proof.
  intros Hs Hc Hn He Hb Hr. wp_call diff_io_do_async_spec; [done..|].
  intros [[ret io'] b'] w' [-> H]. split; [done|].
  destruct H as [[Hneg [vs ->]]|(-> & Hlen & bios & vs & Hcov & Hne & -> & ->)]; simpl;
    (split; [done|]); [lia|]. intros _ before after w1 HP Ho.
  pose proof (proj1 Hcov) as HF. rewrite HP, Forall_app in HF. destruct HF as [HF _].
  assert (Hlens : lenZ bios = lenZ before + lenZ after).
  { unfold lenZ. rewrite HP, length_app. lia. }
  assert (Hcnt := wait_bios_count before {| io with bio_count := bio_count io + lenZ bios;
    io_bios := bios; io_plugged := bool_decide (is_Some (w_bio_list w)) |} (db_pages b) w1).
  specialize (Hcnt ltac:(simpl; unfold lenZ in *; lia) Hn).
  pose proof (wp_and _ _ _ _ Hcnt (wait_bios_no_error before _ (db_pages b) w1 Ho)) as Hall.
  assert (Hnot : negb (bool_decide (before = [])) && (lenZ bios =? lenZ before) =
                 bool_decide (after = [])).
  { destruct after as [|a l]; [|rewrite (proj2 (Z.eqb_neq _ _)) by (unfold lenZ in *; simpl in *; lia);
      by rewrite andb_false_r].
    rewrite (proj2 (Z.eqb_eq _ _)) by (unfold lenZ in *; simpl in *; lia). rewrite andb_true_r.
    destruct before; [|done]. by apply Permutation_nil_r in HP. }
  destruct (is_write io).
  - pose proof (wp_and _ _ _ _ Hall (wait_bios_write_spec r before _ (db_pages b) w1 HF Hlen)) as H.
    eapply wp_mono; [exact H|]. clear H Hall Hcnt. intros [io2 pages] w2 [[(_ & _ & ->) [Herr _]] (-> & _ & Hin & Hout)].
    simpl in *. rewrite Hc, Z.add_0_l, Hnot. clear Hnot. split; [done|]. split; [congruence|].
    intros ->. rewrite app_nil_r in HP. split; [done|]. intros bd a.
    specialize (Hin ltac:(congruence)). case_bool_decide as Hd.
    + destruct Hd as [-> Ha]. assert (Hx : Exists (bio_has r (a - region_base r)) before).
      { eapply bios_cover_iff; [done..|lia]. }
      apply Hin in Hx. unfold buf_at. rewrite <- Hx. f_equal. lia.
    + apply Hout. intros [-> Hx]. apply Hd. split; [done|].
      eapply bios_cover_iff in Hx; [|done..]. lia.
  - pose proof (wp_and _ _ _ _ Hall (wait_bios_read_spec r before _ (db_pages b) w1 HF Hlen)) as H.
    eapply wp_mono; [exact H|]. clear H Hall Hcnt.
    intros [io2 pages] w2 [[(_ & _ & ->) [Herr _]] ([vs2 ->] & _ & Hin & _ & Hout)].
    simpl in *. rewrite Hc, Z.add_0_l, Hnot. clear Hnot. split; [done|]. split; [congruence|].
    intros ->. rewrite app_nil_r in HP. split; [done|]. intros i.
    case_bool_decide as Hd; [apply Hin; [congruence|]|apply Hout];
      by rewrite (bios_cover_iff r false bios).
Qed.

(** The page count of a request is an [unsigned short], and a region of
    65536 pages (256 MiB) is taken for an empty one: the check against the
    buffer's size passes for any buffer and the single bio is allocated with
    room for no page although 65536 are added to it. *)
Theorem diff_io_page_count_truncated wr r w :
  dr_count r = 65536 * 8 → w_oracle w = [] →
  calc_page_count (dr_count r) = 0 ∧
  wp (bio_loop (Z.to_nat (dr_count r)) wr r 0 0 []) w (λ '(ok, bios) _,
    ok = true ∧ ∃ b, bios = [b] ∧ bi_max_vecs b = 0 ∧ lenZ (bi_io_vec b) = 65536).
Proof.
  intros Hr Ho. rewrite Hr. split; [by vm_compute|].
  assert (∃ fuel, Z.to_nat (65536 * 8) = S fuel) as [fuel ->].
  { exists (Z.to_nat (65536 * 8 - 1)). lia. }
  cbn [bio_loop]. rewrite Hr. change (0 <? 65536 * 8) with true. cbv iota.
  replace (calc_page_count (65536 * 8 - 0)) with 0 by (by vm_compute).
  change (bio_max_segs 0 <? 0) with false. cbv iota.
  pose proof (bio_fill_spec (Z.to_nat (65536 * 8 - 0)) (65536 * 8 - 0) 0 0 ltac:(lia) ltac:(lia)) as H.
  destruct (bio_fill _ _ 0 0) as [[vecs offset] page']. destruct H as (-> & _ & Hl & _).
  wp_steps. rewrite wp_alloc_nil by done. cbn [negb].
  assert (E : ∀ bios, bio_loop fuel wr r (0 + (65536 * 8 - 0)) page' bios = mret (true, bios)).
  { intros. destruct fuel; simpl; by rewrite Hr. }
  rewrite E. wp_steps. split; [done|]. eexists. split; [reflexivity|]. split; [done|].
  simpl. rewrite Hl. by vm_compute.
Qed.

(** A one-page request, and a region too large for the counter. *)
Definition ex_io : diff_io :=
  {| error := 0; bio_count := 0; is_write := false; is_sync_io := false;
     notify := Some fn_chunk_notify_load; io_bios := []; io_plugged := false;
     io_notified := false |}.
Definition ex_region : diff_region := {| dr_bdev := 1; dr_sector := 16; dr_count := 8 |}.
Definition ex_world : world := {| world0 with w_disk := λ _ a, a mod 251 |}.

Lemma diff_io_transfers_region_witness :
  ∃ io', diff_io_do 0 ex_io ex_region ex_buffer false ex_world = ((0, io', ex_buffer), ex_world) ∧
    wp (wait_bios (io_bios io') io' (db_pages ex_buffer)) ex_world (λ '(io2, pages) _,
      io_notified io2 = true ∧ pages_at pages 5 = (16 * 512 + 5) mod 251).
Proof.
  exists (diff_io_do 0 ex_io ex_region ex_buffer false ex_world).1.1.2.
  split; [vm_compute; reflexivity|].
  pose proof (diff_io_transfers_region 0 ex_io ex_region ex_buffer false ex_world
    eq_refl eq_refl eq_refl eq_refl eq_refl ltac:(unfold region_fits; simpl; lia)) as H.
  destruct H as (_ & _ & H). specialize (H eq_refl _ [] ex_world ltac:(by rewrite app_nil_r) eq_refl).
  eapply wp_mono; [exact H|]. intros [io2 pages] w2 (Hn & _ & Hf). split; [exact Hn|].
  destruct (Hf eq_refl) as [_ Hat]. exact (Hat 5).
Defined.

Lemma diff_io_page_count_truncated_witness :
  calc_page_count (65536 * 8) = 0.
Proof.
  exact (proj1 (diff_io_page_count_truncated true
    {| dr_bdev := 1; dr_sector := 0; dr_count := 65536 * 8 |} world0 eq_refl eq_refl)).
Defined.
