(* ===== verification/DiffStorage.v ===== *)
(** * The difference storage (diff_storage.c, diff_storage.h)

    The ranges of sectors that user space has given to a snapshot, and the
    allocation of regions from them. The functions that change the storage run
    in the state [diff_storage * world]; a spinlock section is one step. *)
From S2P Require Import Prelude MemoryChecker Kernel Uapi EventQueue DiffBuffer DiffIo.

(** [struct storage_bdev]. *)
Record storage_bdev := StorageBdev { sb_dev_id : Z; sb_bdev : Z }.

(** [struct storage_block]. *)
Record storage_block := StorageBlock {
  sk_bdev : Z;
  sk_sector : Z;
  sk_count : Z;
  sk_used : Z;
}.

(** [struct diff_storage]. *)
Record diff_storage := DiffStorage {
  ds_kref : Z;
  storage_bdevs : list storage_bdev;
  empty_blocks : list storage_block;
  filled_blocks : list storage_block;
  capacity : Z;
  filled : Z;
  requested : Z;
  low_space_flag : Z;
  overflow_flag : Z;
  ds_events : event_queue;
}.

Notation DS := (M (diff_storage * world)).

(** A kernel call, and a change of the storage. *)
Definition on_world {A} (m : K A) : DS A := zoom snd (λ w s, (s.1, w)) m.
Definition on_storage (f : diff_storage → diff_storage) : DS unit := modify (λ s, (f s.1, s.2)).

Definition with_storage {A} (d : diff_storage) (m : DS A) : K (A * diff_storage) :=
  λ w, (((m (d, w)).1, (m (d, w)).2.1), (m (d, w)).2.2).

Lemma wp_on_world {A} (m : K A) s Q :
  wp (on_world m) s Q ↔ wp m s.2 (λ a w, Q a (s.1, w)).
Proof. done. Qed.

Lemma wp_on_storage f s Q : wp (on_storage f) s Q ↔ Q tt (f s.1, s.2).
Proof. done. Qed.

Lemma wp_with_storage {A} d (m : DS A) w Q :
  wp (with_storage d m) w Q ↔ wp m (d, w) (λ a s, Q (a, s.1) s.2).
Proof. done. Qed.

Definition wp_step_on_world {A} (m : K A) s Q : WpStep (on_world m) s Q _ :=
  proj2 (wp_on_world m s Q).
Definition wp_step_on_storage f s Q : WpStep (on_storage f) s Q _ :=
  proj2 (wp_on_storage f s Q).
Definition wp_step_with_storage {A} d (m : DS A) w Q : WpStep (with_storage d m) w Q _ :=
  proj2 (wp_with_storage d m w Q).
#[global] Hint Resolve wp_step_on_world wp_step_on_storage wp_step_with_storage : wp.

(** [event_gen] on the storage's queue. *)
Definition storage_event_gen (code : Z) (data : event_data) : DS Z :=
  d ← gets fst;
  '(r, q) ← on_world (event_gen (ds_events d) code data);
  on_storage (λ d, {| d with ds_events := q |});;
  mret r.

Section params.
Context {P : ModuleParams}.

Definition diff_storage_event_low : DS unit :=
  on_storage (λ d, {| d with requested := u64 (requested d + u64 diff_storage_minimum) |});;
  _ ← storage_event_gen blk_snap_event_code_low_free_space
        (low_free_space (u64 diff_storage_minimum));
  mret tt.

Definition diff_storage_zero : diff_storage :=
  {| ds_kref := 1; storage_bdevs := []; empty_blocks := []; filled_blocks := [];
     capacity := 0; filled := 0; requested := 0; low_space_flag := 0; overflow_flag := 0;
     ds_events := event_queue_init |}.

Definition diff_storage_new : K (option diff_storage) :=
  ok ← alloc;
  if negb ok then mret None
  else
    memory_object_inc memory_object_diff_storage;;
    '(_, d) ← with_storage diff_storage_zero diff_storage_event_low;
    mret (Some d).
End params.

Definition first_empty_storage_block (d : diff_storage) : option storage_block :=
  head (empty_blocks d).
Definition first_filled_storage_block (d : diff_storage) : option storage_block :=
  head (filled_blocks d).
Definition first_storage_bdev (d : diff_storage) : option storage_bdev :=
  head (storage_bdevs d).

(** The [while] loops of [diff_storage_free] over the two lists of blocks and
    the list of devices. *)
Fixpoint free_storage_blocks (l : list storage_block) : K unit :=
  match l with
  | [] => skip
  | _ :: l => memory_object_dec memory_object_storage_block;; free_storage_blocks l
  end.
Fixpoint free_storage_bdevs (l : list storage_bdev) : K unit :=
  match l with
  | [] => skip
  | sb :: l =>
      blkdev_put (sb_bdev sb);;
      memory_object_dec memory_object_storage_bdev;; free_storage_bdevs l
  end.

Definition diff_storage_free (d : diff_storage) : K unit :=
  free_storage_blocks (empty_blocks d);;
  free_storage_blocks (filled_blocks d);;
  free_storage_bdevs (storage_bdevs d);;
  _ ← event_queue_done (ds_events d);
  memory_object_dec memory_object_diff_storage.

Definition diff_storage_get (d : diff_storage) : diff_storage :=
  {| d with ds_kref := ds_kref d + 1 |}.

(** [None]: the last reference is gone and the storage has been freed. *)
Definition diff_storage_put (d : diff_storage) : K (option diff_storage) :=
  if ds_kref d - 1 =? 0 then diff_storage_free d;; mret None
  else mret (Some {| d with ds_kref := ds_kref d - 1 |}).

Definition diff_storage_bdev_by_id (d : diff_storage) (dev_id : Z) : option Z :=
  sb_bdev <$> find (λ sb, sb_dev_id sb =? dev_id) (storage_bdevs d).

Definition diff_storage_add_storage_bdev (dev_id : Z) : DS (result Z) :=
  bdev ← on_world (blkdev_get_by_dev dev_id);
  match bdev with
  | Err e => mret (Err e)
  | Ok bdev =>
      ok ← on_world alloc;
      if negb ok then on_world (blkdev_put bdev);; mret (Err (- ENOMEM))
      else
        on_world (memory_object_inc memory_object_storage_bdev);;
        on_storage (λ d, {| d with storage_bdevs :=
          storage_bdevs d ++ [{| sb_dev_id := dev_id; sb_bdev := bdev |}] |});;
        mret (Ok bdev)
  end.

Definition diff_storage_add_range (bdev sector count : Z) : DS Z :=
  ok ← on_world alloc;
  if negb ok then mret (- ENOMEM)
  else
    on_world (memory_object_inc memory_object_storage_block);;
    on_storage (λ d, {| d with
      empty_blocks := empty_blocks d ++
        [{| sk_bdev := bdev; sk_sector := sector; sk_count := count; sk_used := 0 |}];
      capacity := u64 (capacity d + count) |});;
    mret 0.

(** The loop over the ranges: each is copied from user space and added. *)
Fixpoint append_ranges (bdev : Z) (ranges : list blk_snap_block_range) : DS Z :=
  match ranges with
  | [] => mret 0
  | range :: ranges =>
      left ← on_world (copy_user 16);
      if negb (left =? 0) then mret (- EINVAL)
      else
        ret ← diff_storage_add_range bdev (sector_offset range) (sector_count range);
        if negb (ret =? 0) then mret ret else append_ranges bdev ranges
  end.

Definition diff_storage_append_block (dev_id : Z) (ranges : list blk_snap_block_range) : DS Z :=
  d ← gets fst;
  bdev ← match diff_storage_bdev_by_id d dev_id with
         | Some bdev => mret (Ok bdev)
         | None => diff_storage_add_storage_bdev dev_id
         end;
  match bdev with
  | Err e => mret e
  | Ok bdev =>
      ret ← append_ranges bdev ranges;
      if negb (ret =? 0) then mret ret
      else
        d ← gets fst;
        when (negb (low_space_flag d =? 0) && (requested d <=? capacity d))
          (on_storage (λ d, {| d with low_space_flag := 0 |}));;
        mret 0
  end.

Definition diff_storage_free_region (r : option diff_region) : K unit :=
  match r with
  | None => skip
  | Some _ => memory_object_dec memory_object_diff_region
  end.

(** The loop of [diff_storage_new_region] over the empty blocks: the region
    found, the two lists of blocks and the number of filled sectors. *)
Fixpoint take_region (count : Z) (empty filled_l : list storage_block) (filled : Z)
    : option diff_region * list storage_block * list storage_block * Z :=
  match empty with
  | [] => (None, [], filled_l, filled)
  | b :: bs =>
      let available := u64 (sk_count b - sk_used b) in
      if count <=? available then
        (Some {| dr_bdev := sk_bdev b; dr_sector := u64 (sk_sector b + sk_used b);
                 dr_count := count |},
         {| b with sk_used := u64 (sk_used b + count) |} :: bs, filled_l, u64 (filled + count))
      else take_region count bs (filled_l ++ [b]) (u64 (filled + available))
  end.

Section params.
Context {P : ModuleParams}.

Definition is_halffull (sectors_left : Z) : bool :=
  sectors_left <=? u64 (Z.land (Z.shiftr diff_storage_minimum 1) (Z.lnot (PAGE_SECTORS - 1))).

Definition diff_storage_new_region (count : Z) : DS (result diff_region) :=
  d ← gets fst;
  if negb (overflow_flag d =? 0) then mret (Err (- ENOSPC))
  else
    ok ← on_world alloc;
    if negb ok then mret (Err (- ENOMEM))
    else
      on_world (memory_object_inc memory_object_diff_region);;
      let '(r, empty, filled_l, fill) :=
        take_region count (empty_blocks d) (filled_blocks d) (filled d) in
      on_storage (λ d, {| d with
        empty_blocks := empty; filled_blocks := filled_l; filled := fill;
        overflow_flag := overflow_flag d + match r with None => 1 | Some _ => 0 end |});;
      let sectors_left := u64 (requested d - fill) in
      match r with
      | None =>
          on_world (memory_object_dec memory_object_diff_region);;
          mret (Err (- ENOSPC))
      | Some region =>
          when (is_halffull sectors_left)
            (on_storage (λ d, {| d with low_space_flag := low_space_flag d + 1 |});;
             flag ← gets (λ s, low_space_flag s.1);
             when (flag =? 1) diff_storage_event_low);;
          mret (Ok region)
      end.
End params.

(** ** Well-formed storage *)

Definition blocks (d : diff_storage) : list storage_block := empty_blocks d ++ filled_blocks d.

(** Sector [s] of device [bd] lies in the block; in its used part. *)
Definition blk_has (bd s : Z) (b : storage_block) : Prop :=
  bd = sk_bdev b ∧ sk_sector b ≤ s < sk_sector b + sk_count b.
Definition blk_used_has (bd s : Z) (b : storage_block) : Prop :=
  bd = sk_bdev b ∧ sk_sector b ≤ s < sk_sector b + sk_used b.

#[global] Instance blk_has_dec bd s b : Decision (blk_has bd s b).
Proof. unfold blk_has. apply _. Defined.

(** The sectors user space has given; those handed out in regions. *)
Definition covered (d : diff_storage) (bd s : Z) : Prop := Exists (blk_has bd s) (blocks d).
Definition taken (d : diff_storage) (bd s : Z) : Prop := Exists (blk_used_has bd s) (blocks d).

Definition sum_count (l : list storage_block) : Z := foldr (λ b n, sk_count b + n) 0 l.
Definition sum_used (l : list storage_block) : Z := foldr (λ b n, sk_used b + n) 0 l.

Definition block_ok (b : storage_block) : Prop :=
  0 ≤ sk_sector b ∧ 0 ≤ sk_used b ≤ sk_count b ∧ sk_sector b + sk_count b < 2 ^ 64.

(** No sector is in two blocks. *)
Definition blocks_disjoint (l : list storage_block) : Prop :=
  ∀ bd s, (length (filter (blk_has bd s) l) ≤ 1)%nat.

Record storage_wf (d : diff_storage) : Prop := {
  sw_blocks : Forall block_ok (blocks d);
  sw_capacity : capacity d = sum_count (blocks d);
  sw_capacity_max : capacity d < 2 ^ 64;
  sw_filled : filled d = sum_used (empty_blocks d) + sum_count (filled_blocks d);
  sw_disjoint : blocks_disjoint (blocks d);
}.

Lemma sum_count_cons b l : sum_count (b :: l) = sk_count b + sum_count l.
Proof. done. Qed.

Lemma sum_count_app l1 l2 : sum_count (l1 ++ l2) = sum_count l1 + sum_count l2.
Proof. induction l1 as [|b l1 IH]; simpl; [done|]. unfold sum_count in *. simpl. lia. Qed.

Lemma sum_used_app l1 l2 : sum_used (l1 ++ l2) = sum_used l1 + sum_used l2.
Proof. induction l1 as [|b l1 IH]; simpl; [done|]. unfold sum_used in *. simpl. lia. Qed.

Lemma sum_bounds l : Forall block_ok l → 0 ≤ sum_used l ≤ sum_count l.
Proof.
  induction 1 as [|b l (? & ? & ?) _ IH]; unfold sum_used, sum_count in *; simpl; lia.
Qed.

Lemma blocks_disjoint_perm l1 l2 : l1 ≡ₚ l2 → blocks_disjoint l1 → blocks_disjoint l2.
Proof. intros HP H bd s. by rewrite <- HP. Qed.

(** Using more of a block changes neither its range nor the disjointness. *)
Lemma blocks_disjoint_used b u l :
  blocks_disjoint (b :: l) → blocks_disjoint ({| b with sk_used := u |} :: l).
Proof.
  intros H bd s. specialize (H bd s). rewrite !filter_cons in *.
  destruct (decide (blk_has bd s b)) as [Hb|Hb];
    destruct (decide (blk_has bd s {| b with sk_used := u |})) as [Hu|Hu]; done.
Qed.

Lemma blocks_disjoint_other b l bd s :
  blocks_disjoint (b :: l) → blk_has bd s b → ¬ Exists (blk_has bd s) l.
Proof.
  intros H Hb (b' & Hin & Hb')%Exists_exists. specialize (H bd s).
  rewrite filter_cons, decide_True in H by done. simpl in H.
  assert (b' ∈ filter (blk_has bd s) l) as Hf by (by apply list_elem_of_filter).
  destruct (filter (blk_has bd s) l); [by apply not_elem_of_nil in Hf|simpl in H; lia].
Qed.

(** The allocation loop, described: it skips the blocks that are too full and
    takes the region from the first that is not. *)
Lemma take_region_spec count empty filled_l fill :
  0 ≤ count → Forall block_ok empty → 0 ≤ fill →
  fill + (sum_count empty - sum_used empty) < 2 ^ 64 →
  let '(r, empty', filled_l', fill') := take_region count empty filled_l fill in
  match r with
  | None =>
      empty' = [] ∧ filled_l' = filled_l ++ empty ∧
      fill' = fill + (sum_count empty - sum_used empty)
  | Some r =>
      ∃ pre b post, empty = pre ++ b :: post ∧ sk_used b + count ≤ sk_count b ∧
        Forall (λ p, sk_count p - sk_used p < count) pre ∧
        r = {| dr_bdev := sk_bdev b; dr_sector := sk_sector b + sk_used b; dr_count := count |} ∧
        empty' = {| b with sk_used := sk_used b + count |} :: post ∧
        filled_l' = filled_l ++ pre ∧
        fill' = fill + (sum_count pre - sum_used pre) + count
  end.
Proof.
  intros Hc. revert filled_l fill. induction empty as [|b empty IH]; intros filled_l fill HF Hf Hs.
  { simpl. rewrite app_nil_r. split_and!; [done..|lia]. }
  apply list.Forall_cons in HF as [Hb HF]. pose proof (sum_bounds _ HF).
  destruct Hb as (? & ? & ?). unfold sum_count, sum_used in Hs. simpl in Hs.
  fold (sum_count empty) in Hs. fold (sum_used empty) in Hs.
  cbn [take_region]. rewrite (u64_small (sk_count b - sk_used b)) by lia.
  destruct (Z.leb_spec count (sk_count b - sk_used b)).
  - exists [], b, empty. rewrite !u64_small by lia. rewrite app_nil_r.
    split_and!; [done|lia|constructor|done|done|done|simpl; lia].
  - specialize (IH (filled_l ++ [b]) (u64 (fill + (sk_count b - sk_used b))) HF).
    rewrite u64_small in * by lia. specialize (IH ltac:(lia) ltac:(lia)).
    destruct (take_region _ empty _ _) as [[[r empty'] filled_l'] fill'].
    destruct r as [r|].
    + destruct IH as (pre & b' & post & -> & ? & Hpre & -> & -> & -> & ->).
      exists (b :: pre), b', post. rewrite <- app_assoc. split_and!; try done.
      * by constructor.
      * unfold sum_count, sum_used. simpl. lia.
    + destruct IH as (-> & -> & ->). rewrite <- app_assoc. split_and!; [done|done|].
      unfold sum_count, sum_used. simpl. lia.
Qed.

(** Changing the flags, the queue and the request counter. *)
Lemma storage_wf_ext d d' :
  empty_blocks d' = empty_blocks d → filled_blocks d' = filled_blocks d →
  capacity d' = capacity d → filled d' = filled d → storage_wf d → storage_wf d'.
Proof.
  intros E1 E2 E3 E4 [? ? ? ? ?]. unfold blocks in *.
  by split; unfold blocks; rewrite ?E1, ?E2, ?E3, ?E4.
Qed.

(** ** What the storage promises to the chunks that use it *)

Definition region_post (count : Z) (d : diff_storage) (w : world)
    (r : result diff_region) (s : diff_storage * world) : Prop :=
  quiet w s.2 ∧ storage_wf s.1 ∧
  (∀ bd x, covered s.1 bd x ↔ covered d bd x) ∧
  (∀ bd x, taken d bd x → taken s.1 bd x) ∧
  match r with
  | Err e => e < 0
  | Ok r =>
      dr_count r = count ∧
      ∀ x, dr_sector r ≤ x < dr_sector r + count →
           covered d (dr_bdev r) x ∧ ¬ taken d (dr_bdev r) x ∧ taken s.1 (dr_bdev r) x
  end.

(** The contract of the allocator: a region lies in what user space has given,
    overlaps no region handed out before, and stays handed out. *)
Class RegionContract (new_region : Z → DS (result diff_region)) : Prop :=
  new_region_ok count d w :
    storage_wf d → 0 < count < 2 ^ 64 → wp (new_region count) (d, w) (region_post count d w).

Section proofs.
Context {P : ModuleParams}.

Lemma storage_event_gen_spec code data d w :
  wp (storage_event_gen code data) (d, w) (λ r s,
    quiet w s.2 ∧ ∃ q, s.1 = {| d with ds_events := q |} ∧
    ((r = - ENOMEM ∧ q = ds_events d) ∨
     (r = 0 ∧ ∃ e, ev_code e = code ∧ ev_data e = data ∧
        eq_list q = eq_list (ds_events d) ++ [e]))).
Proof.
  unfold storage_event_gen. wp_call event_gen_spec. intros [r q] w' (Hq & Hr). wp_steps. simpl.
  split; [done|]. exists q. split; [done|].
  destruct Hr as [Hr|(Hr & e & ? & ? & _ & ?)]; [by left|right; eauto 6].
Qed.

Lemma diff_storage_event_low_spec d w :
  wp diff_storage_event_low (d, w) (λ _ s,
    quiet w s.2 ∧ ∃ q, s.1 = {| d with requested := u64 (requested d + u64 diff_storage_minimum);
                                       ds_events := q |} ∧
    (q = ds_events d ∨
     ∃ e, ev_code e = blk_snap_event_code_low_free_space ∧
       ev_data e = low_free_space (u64 diff_storage_minimum) ∧
       eq_list q = eq_list (ds_events d) ++ [e])).
Proof.
  unfold diff_storage_event_low. wp_call storage_event_gen_spec.
  intros r s (Hq & q & Es & Hr). wp_steps. simpl in *. split; [done|]. exists q.
  split; [done|]. destruct Hr as [[_ Hr]|[_ Hr]]; auto.
Qed.

(** The blocks after an allocation. *)
Lemma new_region_wf d pre b post count :
  storage_wf d → 0 < count → empty_blocks d = pre ++ b :: post →
  sk_used b + count ≤ sk_count b →
  let b' := {| b with sk_used := sk_used b + count |} in
  let l := (b' :: post) ++ filled_blocks d ++ pre in
  Forall block_ok l ∧ capacity d = sum_count l ∧ blocks_disjoint l ∧
  filled d + (sum_count pre - sum_used pre) + count =
    sum_used (b' :: post) + sum_count (filled_blocks d ++ pre) ∧
  (∀ bd x, Exists (blk_has bd x) l ↔ covered d bd x) ∧
  (∀ bd x, taken d bd x → Exists (blk_used_has bd x) l).
Proof.
  intros [Hbl Hcap Hmax Hfil Hdis] Hc He Hu b' l.
  assert (HP : blocks d ≡ₚ b :: post ++ filled_blocks d ++ pre).
  { unfold blocks. rewrite He. simpl. solve_Permutation. }
  assert (Hl : l = b' :: post ++ filled_blocks d ++ pre) by done.
  rewrite HP in Hbl. apply list.Forall_cons in Hbl as [(? & ? & ?) Hbl].
  split_and!.
  - rewrite Hl. constructor; [|done]. split_and!; simpl; lia.
  - rewrite Hcap. unfold l, blocks. rewrite He, !sum_count_app. unfold sum_count; simpl. lia.
  - rewrite Hl. apply blocks_disjoint_used. by eapply blocks_disjoint_perm.
  - rewrite Hfil, He, sum_used_app, sum_count_app. unfold sum_used, sum_count. simpl. lia.
  - intros bd x. unfold covered. rewrite HP, Hl, !Exists_cons. done.
  - intros bd x. unfold taken. rewrite HP, Hl, !Exists_cons. unfold blk_used_has. simpl.
    intros [[? ?]|?]; [left; lia|by right].
Qed.

Lemma region_post_ok d w pre b post count w' d' :
  storage_wf d → 0 < count → empty_blocks d = pre ++ b :: post → 0 ≤ sk_used b →
  sk_used b + count ≤ sk_count b → quiet w w' →
  empty_blocks d' = {| b with sk_used := sk_used b + count |} :: post →
  filled_blocks d' = filled_blocks d ++ pre → capacity d' = capacity d →
  filled d' = filled d + (sum_count pre - sum_used pre) + count →
  region_post count d w (Ok {| dr_bdev := sk_bdev b; dr_sector := sk_sector b + sk_used b;
    dr_count := count |}) (d', w').
Proof.
  intros Hwf Hc He H0 Hu Hq E1 E2 E3 E4.
  destruct (new_region_wf d pre b post count Hwf Hc He Hu)
    as (Hok & Hcap' & Hdis' & Hfil' & Hcov & Htak). pose proof Hwf as [Hbl _ Hmax _ Hdis].
  assert (Hb : blocks d' = ({| b with sk_used := sk_used b + count |} :: post) ++
    filled_blocks d ++ pre) by (unfold blocks; by rewrite E1, E2).
  assert (HP : blocks d ≡ₚ b :: post ++ filled_blocks d ++ pre).
  { unfold blocks. rewrite He. simpl. solve_Permutation. }
  unfold region_post, taken. simpl.
  split; [done|]. split; [split; rewrite ?Hb, ?E1, ?E2, ?E3, ?E4; done|].
  unfold covered at 1. rewrite Hb. split; [done|]. split; [done|]. split; [done|].
  intros x Hx. assert (Hbx : blk_has (sk_bdev b) x b) by (unfold blk_has; lia).
  unfold covered. rewrite !HP, !Exists_cons. split; [by left|]. split; [|left; split; simpl; lia].
  intros [[_ ?]|(b2 & Hin & Hub & Hus)%Exists_exists]; [lia|].
  apply (blocks_disjoint_other b (post ++ filled_blocks d ++ pre) (sk_bdev b) x);
    [by eapply blocks_disjoint_perm|done|].
  apply Exists_exists. exists b2. rewrite HP in Hbl. apply list.Forall_cons in Hbl as [_ Hbl].
  eapply Forall_forall in Hbl as (? & ? & ?); [|done]. unfold blk_has. split_and!; done || lia.
Qed.

(** The allocator keeps its contract. *)
#[global] Instance diff_storage_region_contract : RegionContract diff_storage_new_region.
Proof.
  intros count d w Hwf Hc. unfold diff_storage_new_region. wp_steps. simpl.
  assert (Herr : ∀ w' d' e, quiet w w' → storage_wf d' → e < 0 → blocks d' ≡ₚ blocks d →
    region_post count d w (Err e) (d', w')).
  { intros w' d' e Hq Hwf' He HP. unfold region_post, covered, taken. simpl.
    split_and!; [done|done|..|done]; intros bd x; by rewrite HP. }
  wp_if Eo; wp_steps; [by apply Herr|]. simpl. apply wp_alloc. intros ok vs. simpl.
  destruct ok; simpl; wp_steps; [|by apply Herr].
  pose proof Hwf as [Hbl Hcap Hmax Hfil Hdis].
  unfold blocks in Hbl, Hcap. rewrite Forall_app in Hbl. destruct Hbl as [Hbe Hbf].
  rewrite sum_count_app in Hcap.
  pose proof (sum_bounds _ Hbe). pose proof (sum_bounds _ Hbf).
  pose proof (take_region_spec count (empty_blocks d) (filled_blocks d) (filled d)
    ltac:(lia) Hbe ltac:(lia) ltac:(lia)) as Ht.
  destruct (take_region _ _ _ _) as [[[r empty'] filled_l'] fill'].
  destruct r as [r|]; wp_steps; simpl.
  - destruct Ht as (pre & b & post & He & Hu & Hpre & -> & -> & -> & ->).
    assert (0 ≤ sk_used b) by (rewrite He in Hbe; apply Forall_app in Hbe as [_ Hbe];
      by apply list.Forall_cons in Hbe as [(_ & [? _] & _) _]).
    assert (HQ : ∀ w' d', quiet w w' →
      empty_blocks d' = {| b with sk_used := sk_used b + count |} :: post →
      filled_blocks d' = filled_blocks d ++ pre → capacity d' = capacity d →
      filled d' = filled d + (sum_count pre - sum_used pre) + count →
      region_post count d w (Ok {| dr_bdev := sk_bdev b; dr_sector := sk_sector b + sk_used b;
        dr_count := count |}) (d', w')) by (intros; eapply region_post_ok; done || lia).
    wp_if Eh; wp_steps; [|by apply HQ]. simpl. wp_if Ef; wp_steps; [|by apply HQ].
    wp_call diff_storage_event_low_spec. intros _ s' (Hq' & q & Es & _). wp_steps. simpl in *.
    destruct s' as [d' w']. simpl in *. subst d'. apply HQ; done.
  - destruct Ht as (-> & -> & ->). apply Herr; [done| |done|].
    + split; unfold blocks; simpl.
      * by rewrite Forall_app.
      * by rewrite sum_count_app, Hcap, Z.add_comm.
      * done.
      * rewrite sum_count_app, Hfil. change (sum_used []) with 0. lia.
      * eapply blocks_disjoint_perm; [|exact Hdis]. unfold blocks. solve_Permutation.
    + unfold blocks. simpl. solve_Permutation.
Qed.
End proofs.

(** ** Appending ranges *)

Definition new_block (bdev : Z) (r : blk_snap_block_range) : storage_block :=
  {| sk_bdev := bdev; sk_sector := sector_offset r; sk_count := sector_count r; sk_used := 0 |}.

(** Only blocks have been added and the capacity raised to match. *)
Definition appended (d d' : diff_storage) (new : list storage_block) : Prop :=
  empty_blocks d' = empty_blocks d ++ new ∧ filled_blocks d' = filled_blocks d ∧
  capacity d' = capacity d + sum_count new ∧ filled d' = filled d ∧
  requested d' = requested d ∧ overflow_flag d' = overflow_flag d.

(** The ranges user space may give: inside the address space, and overlapping
    neither each other nor what was given before. *)
Definition ranges_ok (d : diff_storage) (bdev : Z) (ranges : list blk_snap_block_range) : Prop :=
  Forall block_ok (new_block bdev <$> ranges) ∧
  capacity d + sum_count (new_block bdev <$> ranges) < 2 ^ 64 ∧
  blocks_disjoint (blocks d ++ (new_block bdev <$> ranges)).

Lemma append_ranges_spec bdev ranges d w :
  0 ≤ capacity d → Forall block_ok (new_block bdev <$> ranges) →
  capacity d + sum_count (new_block bdev <$> ranges) < 2 ^ 64 →
  wp (append_ranges bdev ranges) (d, w) (λ ret s,
    quiet w s.2 ∧ ∃ pre post, ranges = pre ++ post ∧
      appended d s.1 (new_block bdev <$> pre) ∧ low_space_flag s.1 = low_space_flag d ∧
      storage_bdevs s.1 = storage_bdevs d ∧ (ret = 0 → post = [])).
Proof.
  revert d w. induction ranges as [|r ranges IH]; intros d w H0 HF Hc; cbn [append_ranges]; wp_steps.
  { simpl. split; [done|]. exists [], []. unfold appended.
    rewrite fmap_nil, !app_nil_r. change (sum_count []) with 0. split_and!; done || lia. }
  assert (Hstop : ∀ ret w', quiet w w' → ret ≠ 0 → quiet w w' ∧ ∃ pre post, r :: ranges = pre ++ post ∧
      appended d d (new_block bdev <$> pre) ∧ low_space_flag d = low_space_flag d ∧
      storage_bdevs d = storage_bdevs d ∧ (ret = 0 → post = [])).
  { intros ret w' Hq Hr. split; [done|]. exists [], (r :: ranges). unfold appended.
    rewrite fmap_nil, !app_nil_r. change (sum_count []) with 0.
    split_and!; done || lia. }
  rewrite fmap_cons in *. apply list.Forall_cons in HF as [(? & ? & ?) HF].
  rewrite sum_count_cons in Hc. cbn [new_block sk_sector sk_used sk_count] in *.
  pose proof (sum_bounds _ HF).
  apply wp_copy_user; [lia|]. intros n vs Hn. wp_steps. wp_if En; wp_steps.
  { by apply Hstop. }
  unfold diff_storage_add_range. wp_steps. apply wp_alloc. intros ok vs'. simpl.
  destruct ok; simpl; wp_steps; [|by apply Hstop].
  simpl. wp_call IH.
  - cbn [capacity fst]. rewrite u64_small by lia. lia.
  - done.
  - cbn [capacity fst]. rewrite u64_small by lia. lia.
  - intros ret s (Hq & pre & post & -> & (E1 & E2 & E3 & E4 & E5 & E6) & E7 & E8 & Hp).
    cbn [fst snd capacity empty_blocks filled_blocks filled requested overflow_flag
      low_space_flag storage_bdevs] in *.
    rewrite u64_small in E3 by lia. split; [done|]. exists (r :: pre), post. unfold appended.
    split_and!; try done.
    + rewrite E1, <- app_assoc. done.
    + rewrite E3, fmap_cons, sum_count_cons. cbn [new_block sk_count]. lia.
Qed.

Lemma blocks_disjoint_app_l l1 l2 : blocks_disjoint (l1 ++ l2) → blocks_disjoint l1.
Proof. intros H bd x. specialize (H bd x). rewrite filter_app, length_app in H. lia. Qed.

Lemma sum_used_new bdev ranges : sum_used (new_block bdev <$> ranges) = 0.
Proof.
  induction ranges as [|r ranges IH]; [done|]. rewrite fmap_cons.
  change (0 + sum_used (new_block bdev <$> ranges) = 0). lia.
Qed.

Lemma storage_wf_appended d d' bdev pre post :
  storage_wf d → appended d d' (new_block bdev <$> pre) → ranges_ok d bdev (pre ++ post) →
  storage_wf d' ∧
  (∀ bd x, covered d' bd x ↔ covered d bd x ∨ Exists (blk_has bd x) (new_block bdev <$> pre)) ∧
  (∀ bd x, taken d' bd x → taken d bd x) ∧ (∀ bd x, taken d bd x → taken d' bd x).
Proof.
  intros [Hbl Hcap Hmax Hfil Hdis] (E1 & E2 & E3 & E4 & _) (HF & Hc & Hd).
  rewrite fmap_app in *. rewrite sum_count_app in Hc. apply Forall_app in HF as [HF HF2].
  assert (HP : blocks d' ≡ₚ blocks d ++ (new_block bdev <$> pre)).
  { unfold blocks. rewrite E1, E2. solve_Permutation. }
  pose proof (sum_bounds _ HF). pose proof (sum_bounds _ HF2). split; [split|].
  - rewrite HP. by apply Forall_app.
  - rewrite E3, Hcap. unfold blocks. rewrite E1, E2, !sum_count_app. lia.
  - lia.
  - rewrite E4, E2, E1, sum_used_app, sum_used_new, Hfil. lia.
  - eapply blocks_disjoint_perm; [symmetry; exact HP|].
    rewrite app_assoc in Hd. by apply blocks_disjoint_app_l in Hd.
  - unfold covered, taken. split_and!; intros bd x; rewrite HP, Exists_app; [done| |by left].
    intros [?|(b & Hin & _ & Hx)%Exists_exists]; [done|].
    apply list_elem_of_fmap in Hin as (r & -> & _). simpl in Hx. lia.
Qed.

(** The devices of the storage are the ones its blocks name. *)
Definition bdevs_ok (d : diff_storage) : Prop :=
  Forall (λ sb, sb_bdev sb = sb_dev_id sb) (storage_bdevs d).

Lemma bdev_by_id_ok d dev bdev :
  bdevs_ok d → diff_storage_bdev_by_id d dev = Some bdev → bdev = dev.
Proof.
  unfold bdevs_ok, diff_storage_bdev_by_id. intros H.
  destruct (find _ _) as [sb|] eqn:E; [|done]. intros [= <-].
  apply find_some in E as [Hin Heq]. apply Z.eqb_eq in Heq.
  rewrite Forall_forall in H. rewrite <- Heq. apply H. by apply list_elem_of_In.
Qed.

Definition append_post (d : diff_storage) (w : world) (dev : Z)
    (ranges : list blk_snap_block_range) (ret : Z) (s : diff_storage * world) : Prop :=
  w_disk s.2 = w_disk w ∧ storage_wf s.1 ∧ bdevs_ok s.1 ∧
  (∀ bd x, covered d bd x → covered s.1 bd x) ∧
  (∀ bd x, taken s.1 bd x ↔ taken d bd x) ∧
  overflow_flag s.1 = overflow_flag d ∧
  (ret = 0 → capacity s.1 = capacity d + sum_count (new_block dev <$> ranges)) ∧
  capacity s.1 ≤ capacity d + sum_count (new_block dev <$> ranges) ∧
  (∀ bd x, covered s.1 bd x → covered d bd x ∨ Exists (blk_has bd x) (new_block dev <$> ranges)).

Lemma appended_nil d d1 :
  empty_blocks d1 = empty_blocks d → filled_blocks d1 = filled_blocks d →
  capacity d1 = capacity d → filled d1 = filled d → requested d1 = requested d →
  overflow_flag d1 = overflow_flag d → appended d d1 [].
Proof.
  intros. unfold appended. rewrite app_nil_r. change (sum_count []) with 0.
  split_and!; done || lia.
Qed.

(** What follows the choice of the device in [diff_storage_append_block]. *)
Lemma append_tail_spec dev ranges d w d1 w1 :
  storage_wf d → ranges_ok d dev ranges → w_disk w1 = w_disk w → bdevs_ok d1 →
  appended d d1 [] →
  wp (ret ← append_ranges dev ranges;
      if negb (ret =? 0) then mret ret
      else d0 ← gets fst;
           when (negb (low_space_flag d0 =? 0) && (requested d0 <=? capacity d0))
             (on_storage (λ d, {| d with low_space_flag := 0 |}));; mret 0) (d1, w1)
     (append_post d w dev ranges).
Proof.
  intros Hwf Hr Hw Hbd1 (E1 & E2 & E3 & E4 & E5 & E6). rewrite app_nil_r in E1.
  change (sum_count []) with 0 in E3. pose proof Hr as (HF & Hc & Hd).
  pose proof (sum_bounds _ (sw_blocks _ Hwf)). pose proof (sw_capacity _ Hwf).
  wp_call append_ranges_spec; [lia|done|lia|].
  intros ret [d2 w2] (Hq & pre & post & Hpp & (F1 & F2 & F3 & F4 & F5 & F6) & F7 & F8 & Hp).
  simpl in *.
  assert (Hfin : ∀ d3, empty_blocks d3 = empty_blocks d2 → filled_blocks d3 = filled_blocks d2 →
    capacity d3 = capacity d2 → filled d3 = filled d2 → requested d3 = requested d2 →
    overflow_flag d3 = overflow_flag d2 → storage_bdevs d3 = storage_bdevs d2 →
    (ret = 0 → pre = ranges) → append_post d w dev ranges ret (d3, w2)).
  { intros d3 G1 G2 G3 G4 G5 G6 G7 G8.
    assert (Happ : appended d d3 (new_block dev <$> pre)).
    { unfold appended. rewrite G1, G2, G3, G4, G5, G6, <- E1, <- E2.
      split_and!; try done; congruence || lia. }
    destruct (storage_wf_appended d d3 dev pre post) as (? & Hcov & ? & ?); [done..|by rewrite <- Hpp|].
    pose proof HF as HF'. rewrite Hpp, fmap_app in HF'. apply Forall_app in HF' as [_ HF'].
    pose proof (sum_bounds _ HF'). unfold append_post. simpl. split_and!; try done; try congruence.
    - destruct Hq as [Hq _ _ _]. congruence.
    - unfold bdevs_ok. by rewrite G7, F8.
    - intros bd x ?. apply Hcov. by left.
    - split; auto.
    - intros Hz. rewrite <- (G8 Hz). lia.
    - rewrite Hpp, fmap_app, sum_count_app. lia.
    - intros bd x [?|?]%Hcov; [by left|right]. rewrite Hpp, fmap_app, Exists_app. by left. }
  assert (Hz : ret = 0 → pre = ranges) by (intros Hz; by rewrite Hpp, (Hp Hz), app_nil_r).
  wp_if Er; wp_steps; simpl; [by apply Hfin|]. bool_hyps. subst ret.
  wp_if El; wp_steps; simpl; by apply Hfin.
Qed.

Lemma diff_storage_append_block_spec dev ranges d w :
  storage_wf d → bdevs_ok d → ranges_ok d dev ranges →
  wp (diff_storage_append_block dev ranges) (d, w) (append_post d w dev ranges).
Proof.
  intros Hwf Hbd Hr. unfold diff_storage_append_block. wp_steps. simpl.
  pose proof Hr as (HF & _). pose proof (sum_bounds _ HF).
  destruct (diff_storage_bdev_by_id d dev) as [bdev|] eqn:Eb; wp_steps.
  { apply bdev_by_id_ok in Eb as ->; [|done]. apply append_tail_spec; [done..|by apply appended_nil]. }
  unfold diff_storage_add_storage_bdev. wp_steps. apply wp_blkdev_get_by_dev.
  - intros e vs He. wp_steps. unfold append_post. simpl. split_and!; try done; try lia; auto.
  - intros vs. wp_steps. apply wp_alloc. intros ok vs'. destruct ok; simpl; wp_steps.
    + apply append_tail_spec; simpl; [done..| |by apply appended_nil]. unfold bdevs_ok in *. simpl.
      apply Forall_app. split; [done|]. by repeat constructor.
    + unfold append_post. simpl. split_and!; try done; try lia; auto.
Qed.

(** ** Histories of a storage *)

Section histories.
Context {P : ModuleParams}.

(** [storage_reach d rs]: the storage can be [d] after the regions [rs] have
    been handed out; user space appends ranges in between, references are taken
    and put, and events are read. The ranges that user space appends are new ones
    ([ranges_ok]): they overlap neither each other nor what the storage has, and the
    sums of their sectors do not overflow. [diff_storage_append_block] does not check
    that ([diff_storage_overlap_unchecked]). *)
Inductive storage_reach : diff_storage → list diff_region → Prop :=
  | reach_new w d w' :
      diff_storage_new w = (Some d, w') → storage_reach d []
  | reach_region d rs count w r d' w' :
      storage_reach d rs → 0 < count < 2 ^ 64 →
      diff_storage_new_region count (d, w) = (r, (d', w')) →
      storage_reach d' (match r with Ok r => r :: rs | Err _ => rs end)
  | reach_append d rs dev ranges w ret d' w' :
      storage_reach d rs → ranges_ok d dev ranges →
      diff_storage_append_block dev ranges (d, w) = (ret, (d', w')) →
      storage_reach d' rs
  | reach_event d rs k q :
      storage_reach d rs → storage_reach {| d with ds_kref := k; ds_events := q |} rs.

Definition region_has (r : diff_region) (bd x : Z) : Prop :=
  bd = dr_bdev r ∧ dr_sector r ≤ x < dr_sector r + dr_count r.

(** No sector is in two of the regions. *)
Fixpoint regions_disjoint (rs : list diff_region) : Prop :=
  match rs with
  | [] => True
  | r :: rs => (∀ bd x, region_has r bd x → ¬ Exists (λ r', region_has r' bd x) rs) ∧
               regions_disjoint rs
  end.

Lemma diff_storage_new_region_bdevs count d w :
  wp (diff_storage_new_region count) (d, w) (λ _ s,
    storage_bdevs s.1 = storage_bdevs d ∧ capacity s.1 = capacity d).
Proof.
  unfold diff_storage_new_region. wp_steps. simpl. wp_if Eo; wp_steps; [done|].
  apply wp_alloc. intros ok vs. destruct ok; simpl; wp_steps; [|done].
  destruct (take_region _ _ _ _) as [[[r empty'] filled_l'] fill'].
  destruct r as [r|]; wp_steps; [|done]. wp_if Eh; wp_steps; [|done]. simpl.
  wp_if Ef; wp_steps; [|done]. wp_call diff_storage_event_low_spec.
  intros _ [d' w'] (_ & q & Ed & _). wp_steps. simpl in *. by subst.
Qed.

Lemma diff_storage_new_spec w :
  wp diff_storage_new w (λ r w', quiet w w' ∧
    ∀ d, r = Some d → storage_wf d ∧ bdevs_ok d ∧ blocks d = [] ∧ overflow_flag d = 0 ∧
                      requested d = u64 diff_storage_minimum ∧ capacity d = 0).
Proof.
  unfold diff_storage_new. wp_steps. apply wp_alloc. intros ok vs. destruct ok; simpl; wp_steps.
  2:{ split; [done|]. intros. congruence. }
  wp_call diff_storage_event_low_spec. intros _ [d w'] (Hq & q & Ed & _). wp_steps. simpl in *. subst d.
  split; [done|]. intros d [= <-]. split_and!; try done.
  - split; simpl; [constructor|done|done|done|]. intros bd x. cbn. lia.
  - constructor.
  - cbn [requested diff_storage_zero]. rewrite Z.add_0_l. apply u64_small, u64_range.
Qed.

Lemma storage_reach_inv d rs :
  storage_reach d rs →
  storage_wf d ∧ bdevs_ok d ∧ regions_disjoint rs ∧
  (∀ bd x, Exists (λ r, region_has r bd x) rs → taken d bd x).
Proof.
  induction 1 as [w d w' E|d rs count w r d' w' _ (Hwf & Hbd & Hdis & Htk) Hc E
                 |d rs dev ranges w ret d' w' _ (Hwf & Hbd & Hdis & Htk) Hr E
                 |d rs k q _ (Hwf & Hbd & Hdis & Htk)].
  - destruct (wp_run _ _ _ _ _ (diff_storage_new_spec w) E) as (_ & H).
    destruct (H d eq_refl) as (? & ? & ? & _). split_and!; try done.
    intros bd x []%Exists_nil.
  - destruct (wp_run _ _ _ _ _ (new_region_ok count d w Hwf Hc) E) as (_ & Hwf' & _ & Hmono & Hreg).
    assert (Hbd' : bdevs_ok d').
    { enough (storage_bdevs d' = storage_bdevs d) as Eb by (unfold bdevs_ok; by rewrite Eb).
      exact (proj1 (wp_run _ _ _ _ _ (diff_storage_new_region_bdevs count d w) E)). }
    simpl in *. split; [done|]. split; [done|]. destruct r as [r|e]; [|split; [done|]; eauto].
    destruct Hreg as (Hcnt & Hreg). rewrite <- Hcnt in Hreg. split.
    + split; [|done]. intros bd x [-> Hx] Hex. apply Htk in Hex. by apply (Hreg x Hx).
    + intros bd x [[-> Hx]|Hex]%Exists_cons; [by apply Hreg|eauto].
  - destruct (wp_run _ _ _ _ _ (diff_storage_append_block_spec dev ranges d w Hwf Hbd Hr) E)
      as (_ & Hwf' & Hbd' & _ & Htk' & _). simpl in *. split_and!; try done.
    intros bd x Hex. by apply Htk', Htk.
  - split_and!; [by destruct Hwf; split|done..].
Qed.
End histories.

(** ** Properties *)

Section properties.
Context {P : ModuleParams}.

(** C13: no sector of the difference storage is ever handed out twice, as long as
    user space does not give a sector twice. In every history of a storage in which the
    ranges appended overlap neither each other nor those there already, and their
    sizes do not overflow (which the module does not check), however requests for
    regions and additions of ranges alternate and whatever fails: the regions handed
    out overlap neither each other nor the world outside the ranges user space gave,
    and the storage's counters are exact: the capacity is the sum of the ranges, and the
    filled sectors never exceed it. *)
Theorem diff_storage_regions_disjoint d rs :
  storage_reach d rs →
  regions_disjoint rs ∧
  (∀ bd x, Exists (λ r, region_has r bd x) rs → covered d bd x) ∧
  capacity d = sum_count (blocks d) ∧ 0 ≤ filled d ≤ capacity d.
Proof.
  intros H. destruct (storage_reach_inv d rs H) as (Hwf & _ & Hdis & Htk).
  pose proof Hwf as [Hbl Hcap _ Hfil _]. split; [done|]. split; [|split; [done|]].
  - intros bd x Hex. apply Htk, Exists_exists in Hex as (b & Hin & Hb & Hx).
    apply Exists_exists. exists b. split; [done|].
    eapply Forall_forall in Hbl as (? & ? & ?); [|done]. split; [done|]. lia.
  - unfold blocks in *. rewrite sum_count_app in Hcap. apply Forall_app in Hbl as [He Hf].
    pose proof (sum_bounds _ He). pose proof (sum_bounds _ Hf). lia.
Qed.

(** The operations a storage goes through after it is made. *)
Inductive storage_op :=
  | op_region (count : Z)
  | op_append (dev : Z) (ranges : list blk_snap_block_range).

Fixpoint storage_run (ops : list storage_op) : DS unit :=
  match ops with
  | [] => skip
  | op_region count :: ops => _ ← diff_storage_new_region count; storage_run ops
  | op_append dev ranges :: ops => _ ← diff_storage_append_block dev ranges; storage_run ops
  end.

Lemma append_ranges_overflow bdev ranges s :
  wp (append_ranges bdev ranges) s (λ _ s', overflow_flag s'.1 = overflow_flag s.1).
Proof.
  revert s. induction ranges as [|r ranges IH]; intros s; cbn [append_ranges]; wp_steps; [done|].
  apply wp_copy_user; [lia|]. intros n vs _. wp_steps. wp_if En; wp_steps; [done|].
  unfold diff_storage_add_range. wp_steps. apply wp_alloc. intros ok vs'.
  destruct ok; simpl; wp_steps; [|done]. wp_call IH. intros _ s' ->. done.
Qed.

Lemma append_block_overflow dev ranges s :
  wp (diff_storage_append_block dev ranges) s (λ _ s', overflow_flag s'.1 = overflow_flag s.1).
Proof.
  unfold diff_storage_append_block. wp_steps.
  assert (Hr : ∀ bdev s1, overflow_flag s1.1 = overflow_flag s.1 →
    wp (ret ← append_ranges bdev ranges;
        if negb (ret =? 0) then mret ret
        else d0 ← gets fst;
             when (negb (low_space_flag d0 =? 0) && (requested d0 <=? capacity d0))
               (on_storage (λ d, {| d with low_space_flag := 0 |}));; mret 0) s1
       (λ _ s', overflow_flag s'.1 = overflow_flag s.1)).
  { intros bdev s1 E. wp_call append_ranges_overflow. intros ret s2 E2.
    wp_if Er; wp_steps; [congruence|]. wp_if El; wp_steps; simpl; congruence. }
  destruct (diff_storage_bdev_by_id s.1 dev); wp_steps; [by apply Hr|].
  unfold diff_storage_add_storage_bdev. wp_steps. apply wp_blkdev_get_by_dev; intros; wp_steps; [done|].
  apply wp_alloc. intros ok vs'. destruct ok; simpl; wp_steps; [by apply Hr|done].
Qed.

Lemma new_region_overflown count s :
  overflow_flag s.1 ≠ 0 → diff_storage_new_region count s = (Err (- ENOSPC), s).
Proof.
  intros H. unfold diff_storage_new_region, mbind, M_mbind, gets. cbn [fst snd].
  by rewrite (proj2 (Z.eqb_neq _ _)) by done.
Qed.

Lemma new_region_enospc count s :
  wp (diff_storage_new_region count) s (λ r s', r = Err (- ENOSPC) → overflow_flag s'.1 ≠ 0).
Proof.
  unfold diff_storage_new_region. wp_steps. wp_if Eo; wp_steps.
  { intros _. by bool_hyps. }
  bool_hyps. apply wp_alloc. intros ok vs. destruct ok; simpl; wp_steps; [|done].
  destruct (take_region _ _ _ _) as [[[r empty'] filled_l'] fill'].
  destruct r as [r|]; wp_steps; [|simpl; lia].
  wp_if Eh; wp_steps; [|done]. wp_if Ef; wp_steps; [|done].
  apply wp_eq. intros [] s' _. by wp_steps.
Qed.

(** Running out of space is final. After a request that found no room,
    every later request fails with [-ENOSPC] and changes nothing, however many
    ranges user space appends in between. *)
Theorem diff_storage_overflow_sticky count s s1 ops count' :
  diff_storage_new_region count s = (Err (- ENOSPC), s1) →
  wp (storage_run ops) s1 (λ _ s2, diff_storage_new_region count' s2 = (Err (- ENOSPC), s2)).
Proof.
  intros E. pose proof (wp_run _ _ (λ r s', r = Err (- ENOSPC) → overflow_flag s'.1 ≠ 0) _ _
    (new_region_enospc count s) E eq_refl) as H. clear E.
  revert s1 H. induction ops as [|op ops IH]; intros s1 H; cbn [storage_run].
  - wp_steps. by apply new_region_overflown.
  - destruct op as [c|dev ranges]; wp_steps.
    + unfold wp at 1. rewrite (new_region_overflown c s1 H). by apply IH.
    + wp_call append_block_overflow. intros _ s2 E2. apply IH. by rewrite E2.
Qed.

(** How an allocation changes the warning state of the storage. *)
Definition low_space_post (d d' : diff_storage) : Prop :=
  if is_halffull (u64 (requested d - filled d')) then
    low_space_flag d' = low_space_flag d + 1 ∧
    if low_space_flag d =? 0 then
      requested d' = u64 (requested d + u64 diff_storage_minimum) ∧
      (ds_events d' = ds_events d ∨
       ∃ e, ev_code e = blk_snap_event_code_low_free_space ∧
            ev_data e = low_free_space (u64 diff_storage_minimum) ∧
            eq_list (ds_events d') = eq_list (ds_events d) ++ [e])
    else requested d' = requested d ∧ ds_events d' = ds_events d
  else d' = {| d with empty_blocks := empty_blocks d'; filled_blocks := filled_blocks d';
                      filled := filled d' |}.

(** User space is told that space is low, once per portion. When an
    allocation brings the sectors requested but not yet filled down to half of
    the minimum portion and no warning is outstanding, the storage raises its
    request by the minimum portion and queues the low-space event (unless there
    is no memory for it); while a warning is outstanding it queues nothing. *)
Theorem diff_storage_low_space_event count d w r d' w' :
  diff_storage_new_region count (d, w) = (Ok r, (d', w')) → low_space_post d d'.
Proof.
  intros E.
  refine (wp_run _ _ (λ r0 s, r0 = Ok r → low_space_post d s.1) _ _ _ E eq_refl). clear E d' w'.
  unfold diff_storage_new_region. wp_steps. simpl. wp_if Eo; wp_steps; [done|].
  apply wp_alloc. intros ok vs. destruct ok; simpl; wp_steps; [|done].
  destruct (take_region _ _ _ _) as [[[r' empty'] filled_l'] fill'].
  destruct r' as [r'|]; wp_steps; [|done]. unfold low_space_post.
  simpl. wp_if Eh; wp_steps; simpl.
  - wp_if Ef; wp_steps; simpl.
    + bool_hyps. wp_call diff_storage_event_low_spec.
      intros _ [d2 w2] (_ & q & E2 & Hq). wp_steps. simpl in *. subst d2. intros _. simpl in *.
      rewrite Eh. split; [done|]. rewrite (proj2 (Z.eqb_eq _ _)) by lia. split; [done|].
      destruct Hq; auto.
    + bool_hyps. intros _. rewrite Eh. split; [done|].
      by rewrite (proj2 (Z.eqb_neq _ _)) by lia.
  - intros _. rewrite Eh. rewrite Z.add_0_r. by destruct d.
Qed.
End properties.

Lemma free_storage_blocks_spec l w :
  wp (free_storage_blocks l) w (λ _ w',
    quiet w w' ∧ mem_delta w w' memory_object_storage_block (- lenZ l) ∧
    ∀ t, t ≠ memory_object_storage_block → mem_delta w w' t 0).
Proof.
  revert w. induction l as [|b l IH]; intros w; cbn [free_storage_blocks]; wp_steps.
  - unfold mem_delta, lenZ. simpl. split_and!; intros; done || lia.
  - wp_call IH. intros _ w' (Hq & Hm & Ho). unfold mem_delta, lenZ in *. simpl in *.
    split_and!; [done| |].
    + rewrite Hm, upd_eq. lia.
    + intros t Ht. rewrite Ho by done. by rewrite upd_ne by done.
Qed.

Lemma free_storage_bdevs_spec l w :
  wp (free_storage_bdevs l) w (λ _ w',
    w_disk w' = w_disk w ∧
    (∀ bd, w_open w' bd = w_open w bd - lenZ (filter (λ sb, sb_bdev sb = bd) l)) ∧
    mem_delta w w' memory_object_storage_bdev (- lenZ l) ∧
    ∀ t, t ≠ memory_object_storage_bdev → mem_delta w w' t 0).
Proof.
  revert w. induction l as [|b l IH]; intros w; cbn [free_storage_bdevs]; wp_steps.
  - unfold mem_delta, lenZ. simpl. split_and!; intros; done || lia.
  - wp_call IH. intros _ w' (Hd & Hop & Hm & Ho). unfold mem_delta, lenZ in *. simpl in *.
    split_and!; [done| | |].
    + intros bd. rewrite Hop, filter_cons. unfold upd. destruct (decide (bd = sb_bdev b)) as [->|Hne].
      * rewrite decide_True by done. simpl. lia.
      * by rewrite decide_False by done.
    + rewrite Hm, upd_eq. lia.
    + intros t Ht. rewrite Ho by done. by rewrite upd_ne by done.
Qed.

(** Releasing the storage releases everything it holds: every block, every
    device it opened, every event still queued and the storage itself are given
    back, and no device's contents change. *)
Theorem diff_storage_free_all d w :
  wp (diff_storage_free d) w (λ _ w',
    w_disk w' = w_disk w ∧
    (∀ bd, w_open w' bd =
       w_open w bd - lenZ (filter (λ sb, sb_bdev sb = bd) (storage_bdevs d))) ∧
    mem_delta w w' memory_object_storage_block (- lenZ (blocks d)) ∧
    mem_delta w w' memory_object_storage_bdev (- lenZ (storage_bdevs d)) ∧
    mem_delta w w' memory_object_event (- lenZ (eq_list (ds_events d))) ∧
    mem_delta w w' memory_object_diff_storage (-1)).
Proof.
  unfold diff_storage_free. wp_call free_storage_blocks_spec. intros _ w1 (Hq1 & Hm1 & Ho1).
  wp_call free_storage_blocks_spec. intros _ w2 (Hq2 & Hm2 & Ho2).
  wp_call free_storage_bdevs_spec. intros _ w3 (Hd3 & Hop3 & Hm3 & Ho3).
  unfold event_queue_done. wp_call free_events_spec. intros _ w4 (Hq4 & Hm4 & Ho4). wp_steps.
  unfold mem_delta, blocks, lenZ in *. simpl. rewrite length_app.
  destruct Hq1 as [Hd1 Hop1 _ _], Hq2 as [Hd2 Hop2 _ _], Hq4 as [Hd4 Hop4 _ _].
  split; [congruence|]. split; [intros; rewrite Hop4, Hop3; congruence|].
  repeat match goal with
  | |- _ ∧ _ => split
  | |- context [upd _ memory_object_diff_storage _ memory_object_diff_storage] => rewrite upd_eq
  | |- context [upd _ memory_object_diff_storage _ _] => rewrite upd_ne by done
  end.
  - rewrite Ho4, Ho3, Hm2, Hm1 by done. lia.
  - rewrite Ho4, Hm3, Ho2, Ho1 by done. lia.
  - rewrite Hm4, Ho3, Ho2, Ho1 by done. lia.
  - rewrite Ho4, Ho3, Ho2, Ho1 by done. lia.
Qed.

(** ** Examples: a storage that is given one range of 4096 sectors *)

Definition ex_range : blk_snap_block_range := {| sector_offset := 2048; sector_count := 4096 |}.
Definition ex_storage : diff_storage :=
  {| ds_kref := 1; storage_bdevs := [{| sb_dev_id := 8; sb_bdev := 8 |}];
     empty_blocks := [{| sk_bdev := 8; sk_sector := 2048; sk_count := 4096; sk_used := 0 |}];
     filled_blocks := []; capacity := 4096; filled := 0; requested := 2097152;
     low_space_flag := 0; overflow_flag := 0;
     ds_events := {| eq_list := [{| ev_time := 0; ev_code := 0; ev_data_size := 8;
       ev_data := low_free_space 2097152 |}] |} |}.

Lemma blocks_disjoint_singleton b : blocks_disjoint [b].
Proof. intros bd x. rewrite filter_cons. case_decide; simpl; lia. Qed.

Lemma ex_storage_reach : storage_reach (P:=default_params) ex_storage [].
Proof.
  eapply (reach_append (P:=default_params) _ _ 8 [ex_range] world0).
  - eapply (reach_new (P:=default_params) world0). vm_compute. reflexivity.
  - split_and!; [|vm_compute; done|apply blocks_disjoint_singleton].
    constructor; [vm_compute; split_and!; congruence|constructor].
  - vm_compute. reflexivity.
Qed.

Definition ex_storage_wf : storage_wf ex_storage := proj1 (storage_reach_inv _ _ ex_storage_reach).

Definition ex_storage_used (n : Z) : diff_storage :=
  {| ex_storage with
     empty_blocks := [{| sk_bdev := 8; sk_sector := 2048; sk_count := 4096; sk_used := n |}];
     filled := n |}.
Definition ex_storage_region (n : Z) : diff_region :=
  {| dr_bdev := 8; dr_sector := 2048 + n; dr_count := 512 |}.

Lemma ex_storage_reach2 :
  storage_reach (P:=default_params) (ex_storage_used 1024)
    [ex_storage_region 512; ex_storage_region 0].
Proof.
  eapply (reach_region (P:=default_params) (ex_storage_used 512) _ 512 world0
    (Ok (ex_storage_region 512))); [|done|vm_compute; reflexivity].
  eapply (reach_region (P:=default_params) ex_storage [] 512 world0
    (Ok (ex_storage_region 0))); [exact ex_storage_reach|done|vm_compute; reflexivity].
Qed.

Lemma diff_storage_regions_disjoint_witness :
  storage_reach (P:=default_params) (ex_storage_used 1024)
    [ex_storage_region 512; ex_storage_region 0] ∧
  regions_disjoint [ex_storage_region 512; ex_storage_region 0].
Proof.
  split; [exact ex_storage_reach2|].
  exact (proj1 (diff_storage_regions_disjoint (P:=default_params) _ _ ex_storage_reach2)).
Defined.

(** What the condition on the ranges is for. The same range is appended twice, which the
    storage accepts, and the same sectors are handed out twice. *)
Example diff_storage_overlap_unchecked :
  let '(ret, s1) := diff_storage_append_block 8 [ex_range] (ex_storage, world0) in
  let '(r1, s2) := diff_storage_new_region (P:=default_params) 4096 s1 in
  let '(r2, _) := diff_storage_new_region (P:=default_params) 4096 s2 in
  ret = 0 ∧ r1 = Ok {| dr_bdev := 8; dr_sector := 2048; dr_count := 4096 |} ∧ r2 = r1.
Proof. vm_compute. done. Qed.

Lemma diff_storage_overflow_sticky_witness :
  ∃ s1, diff_storage_new_region (P:=default_params) 8192 (ex_storage, world0) =
          (Err (- ENOSPC), s1) ∧
  wp (storage_run (P:=default_params) [op_append 8 [{| sector_offset := 65536; sector_count := 65536 |}]])
     s1 (λ _ s2, diff_storage_new_region (P:=default_params) 512 s2 = (Err (- ENOSPC), s2)).
Proof.
  eexists. split; [vm_compute; reflexivity|].
  eapply (diff_storage_overflow_sticky (P:=default_params) 8192 (ex_storage, world0)).
  vm_compute. reflexivity.
Defined.

Definition ex_storage_low : diff_storage := {| ex_storage with requested := 1048576 |}.

Lemma diff_storage_low_space_event_witness :
  ∃ r d' w', diff_storage_new_region (P:=default_params) 512 (ex_storage_low, world0) =
               (Ok r, (d', w')) ∧
             low_space_flag d' = 1 ∧ low_space_post (P:=default_params) ex_storage_low d'.
Proof.
  eexists _, _, _. split; [vm_compute; reflexivity|]. split; [reflexivity|].
  eapply (diff_storage_low_space_event (P:=default_params) 512 ex_storage_low world0).
  vm_compute. reflexivity.
Defined.
