(* ===== verification/Effects.v ===== *)
(** * What operations leave alone

    Computations that do not change a given view of the state, and the operations of the
    kernel, the buffers, the requests and the storage that leave every view alone but the
    allocation counters and the answers of the environment. *)
From S2P Require Import Prelude MemoryChecker Kernel Uapi EventQueue DiffBuffer DiffIo DiffStorage.

(** ** Computations that leave a part of the state alone *)

Definition same_view {S A V} (view : S → V) (m : M S A) : Prop := ∀ s, view (m s).2 = view s.

Section same_view.
Context {S V : Type} (view : S → V).

Lemma same_ret {A} (a : A) : same_view view (mret a : M S A).
Proof. by intros s. Qed.
Lemma same_gets {A} (f : S → A) : same_view view (gets f).
Proof. by intros s. Qed.
Lemma same_skip : same_view view skip.
Proof. by intros s. Qed.
Lemma same_modify f : (∀ s, view (f s) = view s) → same_view view (modify f).
Proof. intros H s. apply H. Qed.
Lemma same_bind {A B} (m : M S A) (f : A → M S B) :
  same_view view m → (∀ a, same_view view (f a)) → same_view view (m ≫= f).
Proof. intros Hm Hf s. unfold mbind, M_mbind. by rewrite Hf, Hm. Qed.
Lemma same_when b (m : M S unit) : same_view view m → same_view view (when b m).
Proof. destruct b; [done|]. intros _. apply same_skip. Qed.
End same_view.

Lemma same_zoom {S T V A} (view : T → V) (get : S → T) put (m : M T A) :
  (∀ t s, get (put t s) = t) → same_view view m → same_view (λ s, view (get s)) (zoom get put m).
Proof. intros Hp Hm s. unfold zoom. cbn. by rewrite Hp, Hm. Qed.

Create HintDb same discriminated.
Ltac same := repeat first
  [ progress intros
  | solve [auto 3 with same nocore]
  | simple apply same_bind | simple apply same_ret | simple apply same_gets
  | simple apply same_skip | simple apply same_when | simple apply same_modify; done
  | match goal with |- same_view _ (match ?x with _ => _ end) => destruct x end ].

(** *** Views of the kernel that only bios and [current->bio_list] can change *)

Definition inert {V} (view : world → V) : Prop :=
  ∀ w m o, view {| w with w_mem := m; w_oracle := o |} = view w.

Lemma inert_bio_list : inert w_bio_list.
Proof. done. Qed.
Lemma inert_disk : inert w_disk.
Proof. done. Qed.
#[export] Hint Resolve inert_bio_list inert_disk : same.

(** The view on a storage and the kernel. *)
Definition ds_view {V} (view : world → V) (p : diff_storage * world) : V := view p.2.

Section inert.
Context {V : Type} (view : world → V).

Lemma same_oracle : inert view → same_view view oracle.
Proof.
  intros H w. unfold oracle. destruct (w_oracle w) as [|v vs] eqn:E; [done|]. exact (H w (w_mem w) vs).
Qed.
Lemma same_object_inc t : inert view → same_view view (memory_object_inc t).
Proof. intros H w. exact (H w _ (w_oracle w)). Qed.
Lemma same_object_dec t : inert view → same_view view (memory_object_dec t).
Proof. intros H w. exact (H w _ (w_oracle w)). Qed.
#[local] Hint Resolve same_oracle same_object_inc same_object_dec : same.
Lemma same_alloc : inert view → same_view view alloc.
Proof. unfold alloc. same. Qed.
#[local] Hint Resolve same_alloc : same.

Lemma same_free_pages l : inert view → same_view view (free_pages l).
Proof. intros H. induction l; cbn [free_pages]; same. Qed.
#[local] Hint Resolve same_free_pages : same.
Lemma same_alloc_pages k l : inert view → same_view view (alloc_pages k l).
Proof. intros H. revert l. induction k; intros l; cbn [alloc_pages]; same. Qed.
#[local] Hint Resolve same_alloc_pages : same.
Lemma same_buffer_take p cs nw : inert view → same_view view (diff_buffer_take p cs nw).
Proof. unfold diff_buffer_take, diff_buffer_new, diff_buffer_free. same. Qed.
Lemma same_buffer_release {P : ModuleParams} p b : inert view → same_view view (diff_buffer_release p b).
Proof. unfold diff_buffer_release, diff_buffer_free. same. Qed.

Lemma same_free_region r : inert view → same_view view (diff_storage_free_region r).
Proof. unfold diff_storage_free_region. same. Qed.
Lemma same_io_new wr nw : inert view → same_view view (diff_io_new wr nw).
Proof. unfold diff_io_new. same. Qed.
Lemma same_io_free io : inert view → same_view view (diff_io_free io).
Proof. unfold diff_io_free. same. Qed.
#[local] Hint Resolve same_io_new : same.
Lemma same_io_new_sync wr : inert view → same_view view (diff_io_new_sync wr).
Proof. unfold diff_io_new_sync. same. Qed.
Lemma same_io_new_async wr nw fn : inert view → same_view view (diff_io_new_async wr nw fn).
Proof. unfold diff_io_new_async. same. Qed.
Lemma same_bio_loop k wr r pr pg l : inert view → same_view view (bio_loop k wr r pr pg l).
Proof.
  intros H. revert pr pg l. induction k as [|k IH]; intros pr pg l; cbn [bio_loop]; same.
Qed.
Lemma same_event_gen q code data : inert view → same_view view (event_gen q code data).
Proof. unfold event_gen. same. Qed.

Lemma same_on_world {A} (m : K A) : same_view view m → same_view (ds_view view) (on_world m).
Proof. intros H s. apply H. Qed.
Lemma same_on_storage f : same_view (ds_view view) (on_storage f).
Proof. by intros s. Qed.
End inert.

#[export] Hint Resolve same_oracle same_alloc same_object_inc same_object_dec same_free_pages same_alloc_pages : same.
#[export] Hint Resolve same_buffer_take same_buffer_release same_free_region same_io_new same_io_free : same.
#[export] Hint Resolve same_io_new_sync same_io_new_async same_bio_loop same_event_gen same_on_storage : same.
#[export] Hint Extern 1 (same_view _ (on_world _)) => simple apply same_on_world : same.

Lemma same_storage_event {V} (view : world → V) code data :
  inert view → same_view (ds_view view) (storage_event_gen code data).
Proof. intros H. unfold storage_event_gen. same. Qed.
#[export] Hint Resolve same_storage_event : same.
Lemma same_new_region {P : ModuleParams} {V} (view : world → V) count :
  inert view → same_view (ds_view view) (diff_storage_new_region count).
Proof. intros H. unfold diff_storage_new_region, diff_storage_event_low. same. Qed.
#[export] Hint Resolve same_new_region : same.
