(* ===== verification/Chunk.v ===== *)
(** * Chunks (chunk.c, chunk.h)

    A chunk is the unit of copy-on-write: its state bits, its semaphore, its
    buffer in memory, its region in the difference storage and its request in
    flight. The functions run in the state [sys] of one difference area: the
    area with its chunks, the storage it shares and the kernel. A C pointer to a
    chunk is the chunk's number. *)
From S2P Require Import Prelude MemoryChecker Kernel Uapi EventQueue DiffBuffer DiffIo DiffStorage.

(** [enum chunk_st]. *)
Definition CHUNK_ST_FAILED : Z := 1.
Definition CHUNK_ST_DIRTY : Z := 2.
Definition CHUNK_ST_BUFFER_READY : Z := 4.
Definition CHUNK_ST_STORE_READY : Z := 8.
Definition CHUNK_ST_LOADING : Z := 16.
Definition CHUNK_ST_STORING : Z := 32.

(** [struct chunk]; [lock] is the binary semaphore, [true] while it is held.
    The chunk is linked to a cache by the queues of the area. *)
Record chunk := Chunk {
  number : Z;
  chunk_sector_count : Z;
  lock : bool;
  state : Z;
  chunk_buffer : option diff_buffer;
  chunk_region : option diff_region;
  chunk_io : option diff_io;
}.

(** [struct diff_area]; [pool] is [free_diff_buffers] with its counter, and
    [cache_release_work] says whether the work item is queued. *)
Record diff_area := DiffArea {
  area_kref : Z;
  orig_bdev : Z;
  chunk_shift : Z;
  chunk_count : Z;
  chunk_map : gmap Z chunk;
  read_cache_queue : list Z;
  read_cache_count : Z;
  write_cache_queue : list Z;
  write_cache_count : Z;
  cache_release_work : bool;
  pool : buffer_pool;
  corrupt_flag : bool;
  pending_io_count : Z;
}.

(** [oops] records the dereference of a null pointer, [hung] a task that waits
    for a semaphore without being interruptible while it is held. *)
Record sys := Sys {
  area : diff_area;
  storage : diff_storage;
  kern : world;
  oops : bool;
  hung : bool;
}.

Notation AM := (M sys).

Definition on_kern {A} (m : K A) : AM A := zoom kern (λ w s, {| s with kern := w |}) m.
Definition on_store {A} (m : DS A) : AM A :=
  zoom (λ s, (storage s, kern s)) (λ p s, {| s with storage := p.1; kern := p.2 |}) m.
Definition on_area (f : diff_area → diff_area) : AM unit :=
  modify (λ s, {| s with area := f (area s) |}).
Definition null_dereference : AM unit := modify (λ s, {| s with oops := true |}).

Definition chunk_zero : chunk :=
  {| number := 0; chunk_sector_count := 0; lock := false; state := 0;
     chunk_buffer := None; chunk_region := None; chunk_io := None |}.

(** Read and change the chunk a pointer points to. *)
Definition chunk_at (a : diff_area) (n : Z) : chunk := default chunk_zero (chunk_map a !! n).
Definition getc (n : Z) : AM chunk := gets (λ s, chunk_at (area s) n).
Definition modc (n : Z) (f : chunk → chunk) : AM unit :=
  on_area (λ a, {| a with chunk_map := alter f n (chunk_map a) |}).

Definition chunk_state_set (st : Z) (c : chunk) : chunk :=
  {| c with state := Z.lor (state c) st |}.
Definition chunk_state_unset (st : Z) (c : chunk) : chunk :=
  {| c with state := Z.land (state c) (Z.lnot st) |}.
Definition chunk_state_check (c : chunk) (st : Z) : bool := negb (Z.land (state c) st =? 0).

(** The semaphore: [up], [down_trylock] (1 when it is held) and [down], which
    sleeps uninterruptibly. *)
Definition up (n : Z) : AM unit := modc n (λ c, {| c with lock := false |}).
Definition down_trylock (n : Z) : AM Z :=
  c ← getc n;
  if lock c then mret 1 else modc n (λ c, {| c with lock := true |});; mret 0.
Definition down (n : Z) : AM unit :=
  c ← getc n;
  if lock c then modify (λ s, {| s with hung := true |})
  else modc n (λ c, {| c with lock := true |}).

(** [down_killable]: [None] when the task goes to sleep (it will try again),
    [-EINTR] when it is killed while it would have to sleep. *)
Definition down_killable (n : Z) : AM (option Z) :=
  c ← getc n;
  if lock c then
    killed ← on_kern oracle;
    mret (if killed =? 0 then None else Some (- EINTR))
  else modc n (λ c, {| c with lock := true |});; mret (Some 0).

(** [!list_is_first(&chunk->cache_link, &chunk->cache_link)]: the chunk is
    linked to one of the caches. *)
Definition in_cache (a : diff_area) (n : Z) : bool :=
  bool_decide (n ∈ read_cache_queue a) || bool_decide (n ∈ write_cache_queue a).

(** ** Used of diff_area.h and diff_area.c *)

Definition diff_area_chunk_sectors (a : diff_area) : Z :=
  u64 (Z.shiftl 1 (chunk_shift a - SECTOR_SHIFT)).

Definition diff_area_is_corrupted (a : diff_area) : bool := corrupt_flag a.

Definition diff_area_event_corrupted (err_code : Z) : AM unit :=
  a ← gets area;
  let dev := {| mj := MAJOR (orig_bdev a); mn := MINOR (orig_bdev a) |} in
  _ ← on_store (storage_event_gen blk_snap_event_code_corrupted (corrupted dev (Z.abs err_code)));
  mret tt.

Definition diff_area_set_corrupted (err_code : Z) : AM unit :=
  a ← gets area;
  if corrupt_flag a then skip
  else
    on_area (λ a, {| a with corrupt_flag := true |});;
    diff_area_event_corrupted err_code.

Section params.
Context {P : ModuleParams}.

(** ** chunk.c *)

Definition chunk_diff_buffer_release (n : Z) : AM unit :=
  c ← getc n;
  match chunk_buffer c with
  | None => skip
  | Some b =>
      modc n (chunk_state_unset CHUNK_ST_BUFFER_READY);;
      a ← gets area;
      p ← on_kern (diff_buffer_release (pool a) b);
      on_area (λ a, {| a with pool := p |});;
      modc n (λ c, {| c with chunk_buffer := None |})
  end.

Definition chunk_store_failed (n error : Z) : AM unit :=
  modc n (chunk_state_set CHUNK_ST_FAILED);;
  chunk_diff_buffer_release n;;
  c ← getc n;
  on_kern (diff_storage_free_region (chunk_region c));;
  modc n (λ c, {| c with chunk_region := None |});;
  up n;;
  when (negb (error =? 0)) (diff_area_set_corrupted error).

Definition chunk_async_store_diff (n : Z) (is_nowait : bool) : AM Z :=
  a ← gets area;
  if in_cache a n then mret (- EINVAL)
  else
    io ← on_kern (diff_io_new_async_write fn_chunk_notify_store is_nowait);
    match io with
    | None => mret (if is_nowait then - EAGAIN else - ENOMEM)
    | Some io =>
        modc n (λ c, chunk_state_set CHUNK_ST_STORING {| c with chunk_io := Some io |});;
        on_area (λ a, {| a with pending_io_count := pending_io_count a + 1 |});;
        c ← getc n;
        match chunk_region c, chunk_buffer c with
        | Some region, Some b =>
            '(ret, io, b) ← on_kern (diff_io_do n io region b is_nowait);
            if negb (ret =? 0) then
              on_area (λ a, {| a with pending_io_count := pending_io_count a - 1 |});;
              on_kern (diff_io_free (Some io));;
              modc n (λ c, {| c with chunk_io := None |});;
              mret ret
            else
              modc n (λ c, {| c with chunk_io := Some io; chunk_buffer := Some b |});;
              mret ret
        | _, _ => null_dereference;; mret 0
        end
    end.

Definition chunk_schedule_storing (n : Z) (is_nowait : bool) : AM Z :=
  a ← gets area;
  if in_cache a n then mret (- EINVAL)
  else
    c ← getc n;
    match chunk_region c with
    | Some _ => chunk_async_store_diff n is_nowait
    | None =>
        r ← on_store (diff_storage_new_region (diff_area_chunk_sectors a));
        match r with
        | Err e => mret e
        | Ok region =>
            modc n (λ c, {| c with chunk_region := Some region |});;
            chunk_async_store_diff n is_nowait
        end
    end.

Definition chunk_schedule_caching (n : Z) : AM unit :=
  a ← gets area;
  if in_cache a n then chunk_store_failed n 0
  else
    c ← getc n;
    in_cache_count ←
      (if chunk_state_check c CHUNK_ST_DIRTY then
         on_area (λ a, {| a with write_cache_queue := write_cache_queue a ++ [n];
                                 write_cache_count := write_cache_count a + 1 |});;
         gets (λ s, write_cache_count (area s))
       else
         on_area (λ a, {| a with read_cache_queue := read_cache_queue a ++ [n];
                                 read_cache_count := read_cache_count a + 1 |});;
         gets (λ s, read_cache_count (area s)));
    up n;;
    when (chunk_maximum_in_cache <? in_cache_count)
      (on_area (λ a, {| a with cache_release_work := true |})).

(** Both callbacks end with [atomic_dec(&pending_io_count)]. *)
Definition pending_io_dec : AM unit :=
  on_area (λ a, {| a with pending_io_count := pending_io_count a - 1 |}).

(** Both callbacks start by taking the error and freeing the request. *)
Definition take_io_error (n : Z) : AM Z :=
  c ← getc n;
  match chunk_io c with
  | None => null_dereference;; mret 0
  | Some io =>
      on_kern (diff_io_free (Some io));;
      modc n (λ c, {| c with chunk_io := None |});;
      mret (error io)
  end.

Definition chunk_notify_load (n : Z) : AM unit :=
  error ← take_io_error n;
  (if negb (error =? 0) then chunk_store_failed n error
   else
     c ← getc n;
     if chunk_state_check c CHUNK_ST_FAILED then up n
     else if chunk_state_check c CHUNK_ST_LOADING then
       modc n (chunk_state_unset CHUNK_ST_LOADING);;
       modc n (chunk_state_set CHUNK_ST_BUFFER_READY);;
       ret ← chunk_schedule_storing n false;
       when (negb (ret =? 0)) (chunk_store_failed n ret)
     else up n);;
  pending_io_dec.

Definition chunk_notify_store (n : Z) : AM unit :=
  error ← take_io_error n;
  (if negb (error =? 0) then chunk_store_failed n error
   else
     c ← getc n;
     if chunk_state_check c CHUNK_ST_FAILED then chunk_store_failed n 0
     else if chunk_state_check c CHUNK_ST_STORING then
       modc n (chunk_state_unset CHUNK_ST_STORING);;
       modc n (chunk_state_set CHUNK_ST_STORE_READY);;
       c ← getc n;
       if chunk_state_check c CHUNK_ST_DIRTY then
         modc n (chunk_state_unset CHUNK_ST_DIRTY);;
         chunk_diff_buffer_release n;;
         up n
       else chunk_schedule_caching n
     else up n);;
  pending_io_dec.

(** [chunk_alloc]: the caller inserts the chunk into the map. *)
Definition chunk_alloc (n : Z) : K (option chunk) :=
  ok ← alloc;
  if negb ok then mret None
  else
    memory_object_inc memory_object_chunk;;
    mret (Some {| number := n; chunk_sector_count := 0; lock := false; state := 0;
                  chunk_buffer := None; chunk_region := None; chunk_io := None |}).

(** The chunk is gone from the map afterwards. *)
Definition chunk_free (n : Z) : AM unit :=
  down n;;
  chunk_diff_buffer_release n;;
  c ← getc n;
  on_kern (diff_storage_free_region (chunk_region c));;
  modc n (chunk_state_set CHUNK_ST_FAILED);;
  up n;;
  on_area (λ a, {| a with chunk_map := delete n (chunk_map a) |});;
  on_kern (memory_object_dec memory_object_chunk).

(** The region of the original device that a chunk covers. *)
Definition orig_region (a : diff_area) (c : chunk) : diff_region :=
  {| dr_bdev := orig_bdev a; dr_sector := u64 (number c * diff_area_chunk_sectors a);
     dr_count := chunk_sector_count c |}.

Definition chunk_async_load_orig (n : Z) (is_nowait : bool) : AM Z :=
  a ← gets area;
  c ← getc n;
  let region := orig_region a c in
  io ← on_kern (diff_io_new_async_read fn_chunk_notify_load is_nowait);
  match io with
  | None => mret (if is_nowait then - EAGAIN else - ENOMEM)
  | Some io =>
      modc n (λ c, chunk_state_set CHUNK_ST_LOADING {| c with chunk_io := Some io |});;
      on_area (λ a, {| a with pending_io_count := pending_io_count a + 1 |});;
      match chunk_buffer c with
      | Some b =>
          '(ret, io, b) ← on_kern (diff_io_do n io region b is_nowait);
          if negb (ret =? 0) then
            on_area (λ a, {| a with pending_io_count := pending_io_count a - 1 |});;
            on_kern (diff_io_free (Some io));;
            modc n (λ c, {| c with chunk_io := None |});;
            mret ret
          else
            modc n (λ c, {| c with chunk_io := Some io; chunk_buffer := Some b |});;
            mret ret
      | None => null_dereference;; mret 0
      end
  end.

(** The two synchronous loads, on the region given. *)
Definition chunk_load_sync (n : Z) (region : diff_region) : AM Z :=
  io ← on_kern diff_io_new_sync_read;
  match io with
  | None => mret (- ENOMEM)
  | Some io =>
      c ← getc n;
      match chunk_buffer c with
      | None => null_dereference;; mret 0
      | Some b =>
          '(ret, io, b) ← on_kern (diff_io_do n io region b false);
          modc n (λ c, {| c with chunk_buffer := Some b |});;
          on_kern (diff_io_free (Some io));;
          mret (if ret =? 0 then error io else ret)
      end
  end.

Definition chunk_load_orig (n : Z) : AM Z :=
  a ← gets area;
  c ← getc n;
  chunk_load_sync n (orig_region a c).

Definition chunk_load_diff (n : Z) : AM Z :=
  c ← getc n;
  match chunk_region c with
  | None => null_dereference;; mret 0
  | Some region => chunk_load_sync n region
  end.
End params.
