(* ===== verification/DiffArea.v ===== *)
(** * The difference area (diff_area.c, diff_area.h)

    One area per device of a snapshot: it divides the device into chunks, copies
    a chunk away before the device's data changes, caches chunk data and serves
    the reads and writes of the snapshot image. *)
From S2P Require Import Prelude MemoryChecker Kernel Uapi EventQueue DiffBuffer DiffIo DiffStorage.
From S2P Require Import Chunk.

Definition chunk_number (a : diff_area) (sector : Z) : Z :=
  Z.shiftr sector (chunk_shift a - SECTOR_SHIFT).

Definition chunk_sector (a : diff_area) (c : chunk) : Z :=
  u64 (Z.shiftl (number c) (chunk_shift a - SECTOR_SHIFT)).

(** [capacity] is [bdev_nr_sectors(orig_bdev)]. *)
Definition recalculate_last_chunk_size (capacity : Z) (c : chunk) : chunk :=
  if round_down capacity (chunk_sector_count c) <? capacity then
    {| c with chunk_sector_count := capacity - round_down capacity (chunk_sector_count c) |}
  else c.

Definition count_by_shift (capacity shift : Z) : Z :=
  let shift_sector := u64 (shift - SECTOR_SHIFT) in
  Z.shiftr (round_up capacity (Z.shiftl 1 shift_sector)) shift_sector.

Section params.
Context {P : ModuleParams}.

(** The [while] loop; [None] when the fuel is too small. *)
Fixpoint chunk_size_loop (fuel : nat) (capacity min_io_sect shift count : Z) : option (Z * Z) :=
  if (u64 chunk_maximum_count <? count) || (Z.shiftl 1 (shift - SECTOR_SHIFT) <? min_io_sect) then
    match fuel with
    | O => None
    | S fuel =>
        let shift := shift + 1 in
        chunk_size_loop fuel capacity min_io_sect shift (count_by_shift capacity shift)
    end
  else Some (shift, count).

(** [io_min] is [bdev_io_min(orig_bdev)]; a shift stays below 64. *)
Definition diff_area_calculate_chunk_size (capacity io_min : Z) : option (Z * Z) :=
  let shift := u64 chunk_minimum_shift in
  let min_io_sect := Z.shiftr io_min SECTOR_SHIFT in
  chunk_size_loop 64 capacity min_io_sect shift (count_by_shift capacity shift).

(** [xa_for_each(...) chunk_free(chunk)], over the numbers in order. *)
Fixpoint free_chunks (ns : list Z) : AM unit :=
  match ns with
  | [] => skip
  | n :: ns => chunk_free n;; free_chunks ns
  end.

Definition chunk_numbers (a : diff_area) : list Z := (map_to_list (chunk_map a)).*1.

(** [diff_area_free]: the wait for pending I/O ends by itself (it gives up
    after six seconds) and changes nothing. *)
Definition diff_area_free : AM unit :=
  a ← gets area;
  free_chunks (chunk_numbers a);;
  on_kern (blkdev_put (orig_bdev a));;
  a ← gets area;
  p ← on_kern (diff_buffer_cleanup (pool a));
  on_area (λ a, {| a with pool := p |});;
  on_kern (memory_object_dec memory_object_diff_area).

Definition diff_area_get : AM unit :=
  on_area (λ a, {| a with area_kref := area_kref a + 1 |}).
Definition diff_area_put : AM unit :=
  on_area (λ a, {| a with area_kref := area_kref a - 1 |});;
  a ← gets area;
  when (area_kref a =? 0) diff_area_free.

(** [list_for_each_entry] over a cache queue with [down_trylock]: the first
    chunk whose semaphore is free, which is then held. *)
Fixpoint trylock_first (queue : list Z) : AM (option Z) :=
  match queue with
  | [] => mret None
  | n :: queue =>
      held ← down_trylock n;
      if held =? 0 then mret (Some n) else trylock_first queue
  end.

(** [list_del_init(&chunk->cache_link)], from whichever queue it is in. *)
Definition remove_link (n : Z) (queue : list Z) : list Z := filter (λ m, m ≠ n) queue.
Definition list_del_cache (n : Z) (a : diff_area) : diff_area :=
  {| a with read_cache_queue := remove_link n (read_cache_queue a);
            write_cache_queue := remove_link n (write_cache_queue a) |}.

(** [get_chunk_from_cache_and_write_lock] on the read or on the write queue. *)
Definition get_chunk_from_cache_and_write_lock (write : bool) : AM (option Z) :=
  a ← gets area;
  n ← trylock_first (if write then write_cache_queue a else read_cache_queue a);
  match n with
  | None => mret None
  | Some n =>
      on_area (λ a, if write then {| a with write_cache_count := write_cache_count a - 1 |}
                    else {| a with read_cache_count := read_cache_count a - 1 |});;
      on_area (list_del_cache n);;
      mret (Some n)
  end.

Definition diff_area_get_chunk_from_cache_and_write_lock : AM (option Z) :=
  a ← gets area;
  r ← (if chunk_maximum_in_cache <? read_cache_count a
       then get_chunk_from_cache_and_write_lock false else mret None);
  match r with
  | Some n => mret (Some n)
  | None =>
      a ← gets area;
      if chunk_maximum_in_cache <? write_cache_count a
      then get_chunk_from_cache_and_write_lock true else mret None
  end.

(** One turn of the [while] loop of [diff_area_cache_release]; [false] when the
    loop ends. *)
Definition cache_release_turn : AM bool :=
  a ← gets area;
  if diff_area_is_corrupted a then mret false
  else
    n ← diff_area_get_chunk_from_cache_and_write_lock;
    match n with
    | None => mret false
    | Some n =>
        c ← getc n;
        (if negb (chunk_state_check c CHUNK_ST_BUFFER_READY) then up n
         else if chunk_state_check c CHUNK_ST_DIRTY then
           ret ← chunk_schedule_storing n false;
           when (negb (ret =? 0)) (chunk_store_failed n ret)
         else chunk_diff_buffer_release n;; up n);;
        mret true
    end.

(** Every turn takes a chunk out of a queue, so as many turns as chunks are
    linked are enough. *)
Fixpoint cache_release_loop (fuel : nat) : AM unit :=
  match fuel with
  | O => skip
  | S fuel => again ← cache_release_turn; if (again : bool) then cache_release_loop fuel else skip
  end.

Definition diff_area_cache_release : AM unit :=
  a ← gets area;
  cache_release_loop (S (length (read_cache_queue a) + length (write_cache_queue a))).

Definition diff_area_cache_release_work : AM unit :=
  on_area (λ a, {| a with cache_release_work := false |});;
  diff_area_cache_release.

(** The loop of [diff_area_new] that allocates the chunks: the return code and
    the last chunk. [xa_insert] succeeds or fails with its error. *)
Fixpoint alloc_chunks (count : nat) (n : Z) : AM Z :=
  match count with
  | O => mret 0
  | S count =>
      c ← on_kern (chunk_alloc n);
      match c with
      | None => mret (- ENOMEM)
      | Some c =>
          a ← gets area;
          let c := {| c with chunk_sector_count := diff_area_chunk_sectors a |} in
          ret ← on_kern oracle;
          if negb (ret =? 0) then
            on_kern (memory_object_dec memory_object_chunk);;
            mret (- Z.abs ret)
          else
            on_area (λ a, {| a with chunk_map := <[n := c]> (chunk_map a) |});;
            alloc_chunks count (n + 1)
      end
  end.

(** A fresh area, [kzalloc] and the initialisations of [diff_area_new]. *)
Definition diff_area_zero (bdev shift count : Z) : diff_area :=
  {| area_kref := 1; orig_bdev := bdev; chunk_shift := shift; chunk_count := count;
     chunk_map := ∅; read_cache_queue := []; read_cache_count := 0;
     write_cache_queue := []; write_cache_count := 0; cache_release_work := false;
     pool := {| free_diff_buffers := []; free_diff_buffers_count := 0 |};
     corrupt_flag := false; pending_io_count := 0 |}.

(** [diff_area_new] for a device with [nr_sectors] sectors and the minimal I/O
    size [io_min]: the result is the error or the area. The outer [None] stands
    for a chunk size that cannot be computed. *)
Definition diff_area_new (dev_id nr_sectors io_min : Z)
    : DS (option (result diff_area)) :=
  bdev ← on_world (blkdev_get_by_dev dev_id);
  match bdev with
  | Err e => mret (Some (Err e))
  | Ok bdev =>
      ok ← on_world alloc;
      if negb ok then on_world (blkdev_put bdev);; mret (Some (Err (- ENOMEM)))
      else
        on_world (memory_object_inc memory_object_diff_area);;
        match diff_area_calculate_chunk_size nr_sectors io_min with
        | None => mret None
        | Some (shift, count) =>
            d ← gets fst;
            if capacity d =? 0 then mret (Some (Err (- EFAULT)))
            else
              let build : AM (result diff_area) :=
                ret ← alloc_chunks (Z.to_nat count) 0;
                if negb (ret =? 0) then diff_area_put;; mret (Err ret)
                else
                  modc (count - 1) (recalculate_last_chunk_size nr_sectors);;
                  a ← gets area;
                  mret (Ok a) in
              s ← gets (λ p, build {| area := diff_area_zero bdev shift count;
                                      storage := p.1; kern := p.2;
                                      oops := false; hung := false |});
              modify (λ _, (storage s.2, kern s.2));;
              mret (Some s.1)
        end
  end.
End params.

Definition diff_area_take_chunk_from_cache (n : Z) : AM unit :=
  a ← gets area;
  when (in_cache a n)
    (on_area (list_del_cache n);;
     c ← getc n;
     on_area (λ a, if chunk_state_check c CHUNK_ST_DIRTY
                   then {| a with write_cache_count := write_cache_count a - 1 |}
                   else {| a with read_cache_count := read_cache_count a - 1 |})).

(** How a turn of the loops over chunks ends: the loop goes on, the function
    returns, or the task sleeps on the semaphore and will redo the turn. *)
Inductive turn : Type :=
  | Continue
  | Return (ret : Z)
  | Sleep.

Section params.
Context {P : ModuleParams}.

(** [fail_unlock_chunk]. *)
Definition copy_fail (n ret : Z) : AM turn := chunk_store_failed n ret;; mret (Return ret).

(** The body of the loop of [diff_area_copy] once the semaphore is held. *)
Definition copy_locked (n : Z) (is_nowait : bool) : AM turn :=
  c ← getc n;
  if chunk_state_check c
       (Z.lor (Z.lor CHUNK_ST_FAILED CHUNK_ST_DIRTY) CHUNK_ST_STORE_READY)
  then up n;; mret Continue
  else if chunk_state_check c (Z.lor CHUNK_ST_LOADING CHUNK_ST_STORING)
  then copy_fail n (- EFAULT)
  else if chunk_state_check c CHUNK_ST_BUFFER_READY then
    diff_area_take_chunk_from_cache n;;
    ret ← chunk_schedule_storing n is_nowait;
    if negb (ret =? 0) then copy_fail n ret else mret Continue
  else
    a ← gets area;
    '(b, p) ← on_kern (diff_buffer_take (pool a) (diff_area_chunk_sectors a) is_nowait);
    on_area (λ a, {| a with pool := p |});;
    match b with
    | Err e => copy_fail n e
    | Ok b =>
        modc n (λ c, {| c with chunk_buffer := Some b |});;
        ret ← chunk_async_load_orig n is_nowait;
        if negb (ret =? 0) then copy_fail n ret else mret Continue
    end.

(** Taking the semaphore in the loops of [diff_area_copy] and
    [diff_area_wait], then the rest of the turn. *)
Definition lock_turn (n : Z) (is_nowait : bool) (body : AM turn) : AM turn :=
  if is_nowait then
    held ← down_trylock n;
    if negb (held =? 0) then mret (Return (- EAGAIN)) else body
  else
    ret ← down_killable n;
    match ret with
    | None => mret Sleep
    | Some ret => if negb (ret =? 0) then mret (Return ret) else body
    end.

(** One turn of the loop of [diff_area_copy], at the sector [offset]. *)
Definition copy_turn (offset : Z) (is_nowait : bool) : AM turn :=
  a ← gets area;
  let n := chunk_number a offset in
  match chunk_map a !! n with
  | None => diff_area_set_corrupted (- EINVAL);; mret (Return (- EINVAL))
  | Some _ => lock_turn n is_nowait (copy_locked n is_nowait)
  end.

(** The body of the loop of [diff_area_wait] once the semaphore is held. *)
Definition wait_locked (n : Z) : AM turn :=
  c ← getc n;
  if chunk_state_check c CHUNK_ST_FAILED then up n;; mret (Return (- EFAULT))
  else if chunk_state_check c
            (Z.lor (Z.lor CHUNK_ST_BUFFER_READY CHUNK_ST_DIRTY) CHUNK_ST_STORE_READY)
  then up n;; mret Continue
  else mret Continue.

Definition wait_turn (offset : Z) (is_nowait : bool) : AM turn :=
  a ← gets area;
  let n := chunk_number a offset in
  match chunk_map a !! n with
  | None => diff_area_set_corrupted (- EINVAL);; mret (Return (- EINVAL))
  | Some _ => lock_turn n is_nowait (wait_locked n)
  end.

(** The [for] loops: from [offset], in steps of a chunk, while it is below
    [last]. The result [inl offset] is a task asleep at that offset. *)
Fixpoint for_chunks (fuel : nat) (body : Z → AM turn) (step offset last : Z) : AM (Z + Z) :=
  if offset <? last then
    match fuel with
    | O => mret (inl offset)
    | S fuel =>
        t ← body offset;
        match t with
        | Continue => for_chunks fuel body step (offset + step) last
        | Return ret => mret (inr ret)
        | Sleep => mret (inl offset)
        end
    end
  else mret (inr 0).

(** Both loops make one turn per chunk of the range. *)
Definition diff_area_copy (sector count : Z) (is_nowait : bool) : AM (Z + Z) :=
  a ← gets area;
  let chunk_sectors := diff_area_chunk_sectors a in
  let first := round_down sector chunk_sectors in
  for_chunks (Z.to_nat ((sector + count - first) / chunk_sectors + 1))
    (λ offset, copy_turn offset is_nowait) chunk_sectors first (sector + count).

Definition diff_area_wait (sector count : Z) (is_nowait : bool) : AM (Z + Z) :=
  a ← gets area;
  let chunk_sectors := diff_area_chunk_sectors a in
  let first := round_down sector chunk_sectors in
  for_chunks (Z.to_nat ((sector + count - first) / chunk_sectors + 1))
    (λ offset, wait_turn offset is_nowait) chunk_sectors first (sector + count).

(** ** The snapshot image *)

(** [struct diff_area_image_ctx]. *)
Record diff_area_image_ctx := ImageCtx { ctx_is_write : bool; ctx_chunk : option Z }.

Definition diff_area_image_ctx_init (is_write : bool) : diff_area_image_ctx :=
  {| ctx_is_write := is_write; ctx_chunk := None |}.

Definition diff_area_image_put_chunk (n : Z) (is_write : bool) : AM unit :=
  when is_write (modc n (chunk_state_set CHUNK_ST_DIRTY));;
  chunk_schedule_caching n.

Definition diff_area_image_ctx_done (ctx : diff_area_image_ctx) : AM unit :=
  match ctx_chunk ctx with
  | None => skip
  | Some n => diff_area_image_put_chunk n (ctx_is_write ctx)
  end.

Definition diff_area_load_chunk_from_storage (n : Z) : AM Z :=
  a ← gets area;
  '(b, p) ← on_kern (diff_buffer_take (pool a) (diff_area_chunk_sectors a) false);
  on_area (λ a, {| a with pool := p |});;
  match b with
  | Err e => mret e
  | Ok b =>
      modc n (λ c, {| c with chunk_buffer := Some b |});;
      c ← getc n;
      if chunk_state_check c CHUNK_ST_STORE_READY then chunk_load_diff n else chunk_load_orig n
  end.

(** The chunk, an error, or a task asleep on the chunk's semaphore. *)
Inductive chunk_result : Type :=
  | GotChunk (n : Z)
  | GotError (e : Z)
  | GotSleep.

Definition get_chunk_locked (n : Z) : AM (result Z) :=
  c ← getc n;
  if chunk_state_check c CHUNK_ST_FAILED then up n;; mret (Err (- EIO))
  else if negb (chunk_state_check c CHUNK_ST_BUFFER_READY) then
    ret ← diff_area_load_chunk_from_storage n;
    if negb (ret =? 0) then up n;; mret (Err ret)
    else modc n (chunk_state_set CHUNK_ST_BUFFER_READY);; mret (Ok n)
  else diff_area_take_chunk_from_cache n;; mret (Ok n).

Definition diff_area_image_context_get_chunk (ctx : diff_area_image_ctx) (sector : Z)
    : AM (chunk_result * diff_area_image_ctx) :=
  a ← gets area;
  let new_chunk_number := chunk_number a sector in
  let take : AM (chunk_result * diff_area_image_ctx) :=
    let ctx := {| ctx with ctx_chunk := None |} in
    a ← gets area;
    match chunk_map a !! new_chunk_number with
    | None => mret (GotError (- EINVAL), ctx)
    | Some _ =>
        ret ← down_killable new_chunk_number;
        match ret with
        | None => mret (GotSleep, ctx)
        | Some ret =>
            if negb (ret =? 0) then mret (GotError ret, ctx)
            else
              r ← get_chunk_locked new_chunk_number;
              mret (match r with
                    | Err e => (GotError e, ctx)
                    | Ok n => (GotChunk n, {| ctx with ctx_chunk := Some n |})
                    end)
        end
    end in
  match ctx_chunk ctx with
  | Some n =>
      if n =? new_chunk_number then mret (GotChunk n, ctx)
      else diff_area_image_put_chunk n (ctx_is_write ctx);; take
  | None => take
  end.

(** As in the source, which shifts by [chunk_shift] and is not called. *)
Definition diff_area_chunk_start (a : diff_area) (c : chunk) : Z :=
  u64 (Z.shiftl (number c) (chunk_shift a)).

(** The bytes of a bio segment, and how far the iterator has got. *)
Record bvec := Bvec { bv_data : Z → Z; bv_pos : Z; bv_left : Z }.

(** [copy_page_from_iter]: [len] bytes of page [p] from offset [off]. *)
Definition page_write (p off len : Z) (data : Z → Z) (pages : list page) : list page :=
  match nthZ pages p with
  | None => pages
  | Some pg => setZ p (λ o, if (off <=? o) && (o <? off + len) then data (o - off) else pg o) pages
  end.

(** The inner loop of [diff_area_image_io]. [copy_page_to_iter] and
    [copy_page_from_iter], on a segment in kernel memory, copy as many bytes as
    the page's piece and the segment both have left. A turn copies at least a
    byte. *)
Fixpoint image_copy (fuel : nat) (is_write : bool) (buff_offset : Z) (b : diff_buffer)
    (v : bvec) (pos : Z) : diff_buffer * bvec * Z :=
  if bv_left v =? 0 then (b, v, pos)
  else
    match diff_buffer_iter_get b buff_offset, fuel with
    | None, _ | _, O => (b, v, pos)
    | Some it, S fuel =>
        let sz := Z.min (it_bytes it) (bv_left v) in
        let b' :=
          if is_write then
            {| b with db_pages := page_write (it_page it) (it_offset it) sz
                 (λ o, bv_data v (bv_pos v + o)) (db_pages b) |}
          else b in
        let data :=
          if is_write then bv_data v
          else λ i, if (bv_pos v <=? i) && (i <? bv_pos v + sz)
                    then pages_at (db_pages b)
                           (it_page it * PAGE_SIZE + it_offset it + (i - bv_pos v))
                    else bv_data v i in
        image_copy fuel is_write (buff_offset + sz) b'
          {| bv_data := data; bv_pos := bv_pos v + sz; bv_left := bv_left v - sz |}
          (pos + Z.shiftr sz SECTOR_SHIFT)
    end.

(** [blk_status_t] as [diff_area_image_io] returns it, and a task asleep on a
    chunk's semaphore. *)
Inductive blk_status : Set := BLK_STS_OK | BLK_STS_IOERR | BLK_STS_SLEEP.

(** One turn of the outer loop: [None] when the loop goes on; the context, the
    segment and the position as the turn leaves them. *)
Definition image_turn (ctx : diff_area_image_ctx) (v : bvec) (pos : Z)
    : AM (option blk_status * diff_area_image_ctx * bvec * Z) :=
  '(r, ctx) ← diff_area_image_context_get_chunk ctx pos;
  match r with
  | GotError _ => mret (Some BLK_STS_IOERR, ctx, v, pos)
  | GotSleep => mret (Some BLK_STS_SLEEP, ctx, v, pos)
  | GotChunk n =>
      a ← gets area;
      c ← getc n;
      match chunk_buffer c with
      | None => null_dereference;; mret (Some BLK_STS_IOERR, ctx, v, pos)
      | Some b =>
          let buff_offset := u64 (Z.shiftl (u64 (pos - chunk_sector a c)) SECTOR_SHIFT) in
          let '(b, v, pos) :=
            image_copy (Z.to_nat (bv_left v)) (ctx_is_write ctx) buff_offset b v pos in
          modc n (λ c, {| c with chunk_buffer := Some b |});;
          mret (None, ctx, v, pos)
      end
  end.

(** [diff_area_image_io]. A turn copies a byte at least, so [bv_left] turns are
    enough. *)
Fixpoint image_io_loop (fuel : nat) (ctx : diff_area_image_ctx) (v : bvec) (pos : Z)
    : AM (blk_status * diff_area_image_ctx * bvec * Z) :=
  if bv_left v =? 0 then mret (BLK_STS_OK, ctx, v, pos)
  else
    match fuel with
    | O => mret (BLK_STS_SLEEP, ctx, v, pos)
    | S fuel =>
        '(st, ctx, v, pos) ← image_turn ctx v pos;
        match st with
        | Some st => mret (st, ctx, v, pos)
        | None => image_io_loop fuel ctx v pos
        end
    end.

Definition diff_area_image_io (ctx : diff_area_image_ctx) (v : bvec) (pos : Z)
    : AM (blk_status * diff_area_image_ctx * bvec * Z) :=
  image_io_loop (Z.to_nat (bv_left v)) ctx v pos.
End params.

(** ** Debugging (BLK_SNAP_DEBUG_SECTOR_STATE) *)

Definition diff_area_get_sector_state (sector : Z) : AM (result Z) :=
  a ← gets area;
  let offset := round_down sector (diff_area_chunk_sectors a) in
  let n := chunk_number a offset in
  match chunk_map a !! n with
  | None => mret (Err (- EINVAL))
  | Some _ =>
      down n;;
      c ← getc n;
      up n;;
      mret (Ok (state c))
  end.

(** [diff_area_get_sector_image]: the sector's bytes are read from offset
    [pos - chunk_sector(chunk)] of the buffer. *)
Definition diff_area_get_sector_image {P : ModuleParams} (pos : Z) : AM (chunk_result * (Z → Z)) :=
  '(r, ctx) ← diff_area_image_context_get_chunk (diff_area_image_ctx_init false) pos;
  match r with
  | GotError _ | GotSleep => mret (r, λ _, 0)
  | GotChunk n =>
      a ← gets area;
      c ← getc n;
      match chunk_buffer c with
      | None => null_dereference;; mret (r, λ _, 0)
      | Some b =>
          diff_area_image_ctx_done ctx;;
          mret (r, match diff_buffer_iter_get b (pos - chunk_sector a c) with
                   | None => λ _, 0
                   | Some it => λ o, pages_at (db_pages b)
                                  (it_page it * PAGE_SIZE + it_offset it + o)
                   end)
      end
  end.
