(* ===== verification/ChunkSpecs.v ===== *)
(** * Specifications of the chunk operations

    What each operation of chunk.c does to the chunk it is called on, and that
    it does nothing else ([frame]). The operations that can fail on the way
    either leave the chunk as described or mark the area as corrupted. *)
From S2P Require Import Prelude MemoryChecker Kernel Uapi EventQueue DiffBuffer DiffIo DiffStorage.
From S2P Require Import Chunk DiffArea.

(** ** State bits *)

Definition failed (c : chunk) : bool := Z.testbit (state c) 0.
Definition dirty (c : chunk) : bool := Z.testbit (state c) 1.
Definition ready (c : chunk) : bool := Z.testbit (state c) 2.
Definition stored (c : chunk) : bool := Z.testbit (state c) 3.
Definition loading (c : chunk) : bool := Z.testbit (state c) 4.
Definition storing (c : chunk) : bool := Z.testbit (state c) 5.

Lemma check_bit c k : 0 ≤ k → chunk_state_check c (2 ^ k) = Z.testbit (state c) k.
Proof.
  intros Hk. unfold chunk_state_check.
  destruct (Z.testbit (state c) k) eqn:E.
  - apply negb_true_iff, Z.eqb_neq. intros H0.
    assert (Z.testbit (Z.land (state c) (2 ^ k)) k = true) as H1.
    { by rewrite Z.land_spec, E, Z.pow2_bits_true by lia. }
    by rewrite H0, Z.bits_0 in H1.
  - apply negb_false_iff, Z.eqb_eq, Z.bits_inj'. intros n Hn.
    rewrite Z.land_spec, Z.bits_0. destruct (decide (n = k)) as [->|Hne]; [by rewrite E|].
    by rewrite Z.pow2_bits_false, andb_false_r by lia.
Qed.

Lemma check_lor c s t :
  chunk_state_check c (Z.lor s t) = chunk_state_check c s || chunk_state_check c t.
Proof.
  unfold chunk_state_check. rewrite Z.land_lor_distr_r.
  destruct (Z.eqb_spec (Z.land (state c) s) 0) as [E1|E1];
    destruct (Z.eqb_spec (Z.land (state c) t) 0) as [E2|E2]; simpl.
  - by rewrite E1, E2.
  - apply negb_true_iff, Z.eqb_neq. rewrite Z.lor_eq_0_iff. tauto.
  - apply negb_true_iff, Z.eqb_neq. rewrite Z.lor_eq_0_iff. tauto.
  - apply negb_true_iff, Z.eqb_neq. rewrite Z.lor_eq_0_iff. tauto.
Qed.

Lemma check_failed c : chunk_state_check c CHUNK_ST_FAILED = failed c.
Proof. exact (check_bit c 0 ltac:(lia)). Qed.
Lemma check_dirty c : chunk_state_check c CHUNK_ST_DIRTY = dirty c.
Proof. exact (check_bit c 1 ltac:(lia)). Qed.
Lemma check_ready c : chunk_state_check c CHUNK_ST_BUFFER_READY = ready c.
Proof. exact (check_bit c 2 ltac:(lia)). Qed.
Lemma check_stored c : chunk_state_check c CHUNK_ST_STORE_READY = stored c.
Proof. exact (check_bit c 3 ltac:(lia)). Qed.
Lemma check_loading c : chunk_state_check c CHUNK_ST_LOADING = loading c.
Proof. exact (check_bit c 4 ltac:(lia)). Qed.
Lemma check_storing c : chunk_state_check c CHUNK_ST_STORING = storing c.
Proof. exact (check_bit c 5 ltac:(lia)). Qed.

#[export] Hint Rewrite check_lor check_failed check_dirty check_ready check_stored check_loading
  check_storing : bits.

(** Evaluate every bit of an updated chunk: [bits] works on the goal, [bits in H]
    on a hypothesis. Updates of chunks are unfolded through the database
    [chunk_upd]. *)
Create HintDb chunk_upd.
#[export] Hint Unfold failed dirty ready stored loading storing chunk_state_set chunk_state_unset
  CHUNK_ST_FAILED CHUNK_ST_DIRTY CHUNK_ST_BUFFER_READY CHUNK_ST_STORE_READY CHUNK_ST_LOADING
  CHUNK_ST_STORING : chunk_upd.

Ltac bits :=
  autorewrite with bits; autounfold with chunk_upd;
  cbn [state lock chunk_io chunk_buffer chunk_region number chunk_sector_count];
  repeat first [ rewrite Z.lor_spec | rewrite Z.land_spec | rewrite Z.lnot_spec by lia ];
  repeat match goal with
  | |- context [Z.testbit (Zpos ?p) ?k] =>
      let v := eval vm_compute in (Z.testbit (Zpos p) k) in change (Z.testbit (Zpos p) k) with v
  end;
  cbn [negb]; rewrite ?orb_false_r, ?orb_true_r, ?andb_true_r, ?andb_false_r.
Tactic Notation "bits" "in" hyp(H) := revert H; bits; intros H.

(** ** Frames *)

Definition at_chunk (n : Z) (c : chunk) (s : sys) : Prop := chunk_map (area s) !! n = Some c.
Notation sectors s := (diff_area_chunk_sectors (area s)).

(** From [s] to [s'] nothing but chunk [n] has changed that other chunks or
    other tasks could see, and a region it has got is a fresh one. *)
Record frame (n : Z) (s s' : sys) : Prop := {
  fr_bdev : orig_bdev (area s') = orig_bdev (area s);
  fr_shift : chunk_shift (area s') = chunk_shift (area s);
  fr_chunks m : m ≠ n → chunk_map (area s') !! m = chunk_map (area s) !! m;
  fr_read m : m ≠ n → m ∈ read_cache_queue (area s') ↔ m ∈ read_cache_queue (area s);
  fr_write m : m ≠ n → m ∈ write_cache_queue (area s') ↔ m ∈ write_cache_queue (area s);
  fr_disk : w_disk (kern s') = w_disk (kern s);
  fr_covered bd x : covered (storage s') bd x ↔ covered (storage s) bd x;
  fr_taken bd x : taken (storage s) bd x → taken (storage s') bd x;
  fr_storage : storage_wf (storage s) → storage_wf (storage s');
  fr_pool : pool_wf (sectors s) (pool (area s)) → pool_wf (sectors s) (pool (area s'));
  fr_region c' r :
    at_chunk n c' s' → chunk_region c' = Some r →
    (∃ c, at_chunk n c s ∧ chunk_region c = Some r) ∨
    ∀ x, dr_sector r ≤ x < dr_sector r + dr_count r → ¬ taken (storage s) (dr_bdev r) x;
  fr_corrupted : corrupt_flag (area s) = true → corrupt_flag (area s') = true;
  fr_oops : oops s' = oops s;
}.

Lemma frame_sectors n s s' : frame n s s' → sectors s' = sectors s.
Proof. intros F. unfold diff_area_chunk_sectors. by rewrite (fr_shift _ _ _ F). Qed.

#[global] Instance frame_preorder n : PreOrder (frame n).
Proof.
  split.
  - intros s. split; try done. intros c' r ? ?. left. eauto.
  - intros s1 s2 s3 F G. pose proof (frame_sectors _ _ _ F) as Es. destruct F, G. split; try congruence.
    + intros m Hm. rewrite fr_chunks1, fr_chunks0; done.
    + intros m Hm. rewrite fr_read1, fr_read0; done.
    + intros m Hm. rewrite fr_write1, fr_write0; done.
    + intros bd x. rewrite fr_covered1, fr_covered0. done.
    + eauto.
    + eauto.
    + intros Hp. rewrite Es in *. auto.
    + intros c' r Hc Hr. destruct (fr_region1 c' r Hc Hr) as [(c & Hc1 & Hr1)|Hf]; [eauto|].
      right. intros x Hx Ht. eapply Hf; eauto.
    + auto.
Qed.

(** What the operations need of the system: a usable storage and pool, and
    chunks of at most 128 MiB, whose page count fits the 16-bit counter. *)
Record sys_ok (s : sys) : Prop := {
  so_storage : storage_wf (storage s);
  so_pool : pool_wf (sectors s) (pool (area s));
  so_shift : 9 ≤ chunk_shift (area s) ≤ 27;
}.

Lemma frame_sys_ok n s s' : frame n s s' → sys_ok s → sys_ok s'.
Proof.
  intros F [H1 H2 H3]. split.
  - by apply (fr_storage _ _ _ F).
  - rewrite (frame_sectors _ _ _ F). by apply (fr_pool _ _ _ F).
  - by rewrite (fr_shift _ _ _ F).
Qed.

Lemma chunk_sectors_pow2 a :
  9 ≤ chunk_shift a ≤ 27 →
  diff_area_chunk_sectors a = 2 ^ (chunk_shift a - 9) ∧ 1 ≤ diff_area_chunk_sectors a ≤ 2 ^ 18.
Proof.
  intros H. unfold diff_area_chunk_sectors, SECTOR_SHIFT. rewrite shiftl_1 by lia.
  assert (1 ≤ 2 ^ (chunk_shift a - 9) ≤ 2 ^ 18).
  { split; [|apply Z.pow_le_mono_r; lia]. pose proof (pow2_pos (chunk_shift a - 9)). lia. }
  rewrite u64_small by lia. done.
Qed.
Lemma sectors_pow2 s :
  sys_ok s → sectors s = 2 ^ (chunk_shift (area s) - 9) ∧ 1 ≤ sectors s ≤ 2 ^ 18.
Proof. intros [_ _ H]. by apply chunk_sectors_pow2. Qed.

(** A frame in which the chunk also stays where it is in the caches and the
    area's corruption flag does not change. *)
Record local (n : Z) (s s' : sys) : Prop := {
  lo_frame : frame n s s';
  lo_cache : in_cache (area s') n = in_cache (area s) n;
  lo_corrupt : corrupt_flag (area s') = corrupt_flag (area s);
}.

#[global] Instance local_preorder n : PreOrder (local n).
Proof.
  split.
  - intros s. by split.
  - intros s1 s2 s3 [? ? ?] [? ? ?]. split; [by etrans|congruence..].
Qed.

(** Symbolic execution of the primitives on chunk [n], one abstract state per
    step. *)
Section rules.
Context {P : ModuleParams}.
Context (n : Z).

Lemma wp_getc c s Q : at_chunk n c s → Q c s → wp (getc n) s Q.
Proof.
  intros Hc HQ. unfold getc. wp_steps. unfold chunk_at. unfold at_chunk in Hc. by rewrite Hc.
Qed.

Lemma wp_area s Q : Q (area s) s → wp (gets area) s Q.
Proof. intros. by wp_steps. Qed.

Lemma wp_modc f c s Q :
  at_chunk n c s →
  (∀ r, chunk_region (f c) = Some r → chunk_region c = Some r) →
  (∀ s', local n s s' → at_chunk n (f c) s' → storage s' = storage s → kern s' = kern s → Q tt s') →
  wp (modc n f) s Q.
Proof.
  intros Hc Hr HQ. unfold modc, on_area. wp_steps. apply HQ; [|unfold at_chunk in *; simpl..]; try done.
  - split; [|done|done]. split; simpl; try done.
    + intros m Hm. by rewrite lookup_alter_ne.
    + unfold at_chunk. simpl. intros c' r Hc' Hreg. left. exists c. split; [done|].
      unfold at_chunk in Hc. rewrite lookup_alter_eq, Hc in Hc'. simpl in Hc'. simplify_eq. auto.
  - by rewrite lookup_alter_eq, Hc.
Qed.

Lemma wp_kern {A} (m : K A) c s (R : A → Prop) Q :
  at_chunk n c s →
  wp m (kern s) (λ r w', w_disk w' = w_disk (kern s) ∧ R r) →
  (∀ r s', local n s s' → at_chunk n c s' → storage s' = storage s →
           w_disk (kern s') = w_disk (kern s) → area s' = area s → R r → Q r s') →
  wp (on_kern m) s Q.
Proof.
  intros Hc Hm HQ. unfold on_kern. rewrite wp_zoom. eapply wp_mono; [exact Hm|].
  intros r w' [Hd HR]. apply HQ; simpl; try done. split; [|done|done]. split; simpl; try done.
  intros c' r' ? ?. left. eauto.
Qed.

(** A change of the area's counters and of its pool. *)
Definition area_quiet (s : sys) (a a' : diff_area) : Prop :=
  orig_bdev a' = orig_bdev a ∧ chunk_shift a' = chunk_shift a ∧ chunk_map a' = chunk_map a ∧
  read_cache_queue a' = read_cache_queue a ∧ write_cache_queue a' = write_cache_queue a ∧
  corrupt_flag a' = corrupt_flag a ∧
  (pool_wf (sectors s) (pool a) → pool_wf (sectors s) (pool a')).

Lemma wp_on_area f c s Q :
  at_chunk n c s → area_quiet s (area s) (f (area s)) →
  (∀ s', local n s s' → at_chunk n c s' → storage s' = storage s → kern s' = kern s → Q tt s') →
  wp (on_area f) s Q.
Proof.
  intros Hc (E1 & E2 & E3 & E4 & E5 & E6 & Hp) HQ. unfold on_area. wp_steps.
  unfold at_chunk in *. apply HQ; simpl; try done; [|by rewrite E3].
  split; simpl; [|unfold in_cache; by rewrite E4, E5|done].
  split; simpl; rewrite ?E1, ?E2, ?E3, ?E4, ?E5, ?E6; try done.
  unfold at_chunk. simpl. rewrite E3. intros c' r ? ?. left. eauto.
Qed.

Lemma wp_up c s Q :
  at_chunk n c s →
  (∀ s', local n s s' → at_chunk n {| c with lock := false |} s' → storage s' = storage s →
         kern s' = kern s → Q tt s') →
  wp (up n) s Q.
Proof. intros Hc HQ. unfold up. eapply wp_modc; [done|done|exact HQ]. Qed.

(** *** Failing a chunk *)

Lemma set_corrupted_spec e c s :
  at_chunk n c s →
  wp (diff_area_set_corrupted e) s (λ _ s', frame n s s' ∧ corrupt_flag (area s') = true).
Proof.
  intros Hc. unfold diff_area_set_corrupted. wp_steps. wp_if E; wp_steps; [done|].
  unfold on_area, diff_area_event_corrupted. wp_steps. unfold on_store. wp_steps.
  cbn [area storage kern].
  wp_call storage_event_gen_spec. intros r [d w] (Hq & q & -> & _). wp_steps. simpl in *.
  destruct Hq as [Hd _ _ _]. split; [|done]. split; simpl; try done.
  - intros Hwf. by eapply (storage_wf_ext (storage s)).
  - intros c' r' ? ?. left. eauto.
Qed.

(** The chunk without its buffer. *)
Definition no_buffer (c : chunk) : chunk :=
  match chunk_buffer c with
  | None => c
  | Some _ =>
      let c' := chunk_state_unset CHUNK_ST_BUFFER_READY c in {| c' with chunk_buffer := None |}
  end.

Lemma buffer_release_spec c s :
  at_chunk n c s → sys_ok s → (∀ b, chunk_buffer c = Some b → buffer_wf (sectors s) b) →
  wp (chunk_diff_buffer_release n) s (λ _ s',
    local n s s' ∧ storage s' = storage s ∧ at_chunk n (no_buffer c) s').
Proof.
  intros Hc Hs Hb. unfold chunk_diff_buffer_release, no_buffer. wp_step.
  apply (wp_getc c); [done|]. destruct (chunk_buffer c) as [b|] eqn:Eb; [|by wp_steps].
  specialize (Hb b eq_refl). wp_step. apply (wp_modc _ c); [done|done|].
  intros s1 L1 H1 St1 _. wp_step. apply wp_area. wp_step.
  pose proof (frame_sectors _ _ _ (lo_frame _ _ _ L1)) as E1.
  eapply (wp_kern _ _ _ (pool_wf (sectors s))); [exact H1| |].
  { wp_call diff_buffer_release_spec; [|exact Hb|].
    - apply (fr_pool _ _ _ (lo_frame _ _ _ L1)), Hs.
    - intros p w' (Hq & Hp & _). split; [by destruct Hq|done]. }
  intros p s2 L2 H2 St2 _ _ Hp. wp_step. eapply wp_on_area; [exact H2| |].
  { unfold area_quiet. simpl. split_and!; try done. intros _.
    rewrite (frame_sectors _ _ _ (lo_frame _ _ _ L2)), E1. done. }
  intros s3 L3 H3 St3 _. apply (wp_modc _ _ _ _ H3); [done|]. intros s4 L4 H4 St4 _.
  split; [by rewrite L1, L2, L3, L4|]. split; [congruence|exact H4].
Qed.

Lemma store_failed_spec e c s :
  at_chunk n c s → sys_ok s → (∀ b, chunk_buffer c = Some b → buffer_wf (sectors s) b) → e ≠ 0 →
  wp (chunk_store_failed n e) s (λ _ s', frame n s s' ∧ corrupt_flag (area s') = true).
Proof.
  intros Hc Hs Hb He. unfold chunk_store_failed. wp_step. apply (wp_modc _ c); [done|done|].
  intros s1 L1 H1 _ _. wp_step.
  pose proof (frame_sectors _ _ _ (lo_frame _ _ _ L1)) as E1.
  wp_call buffer_release_spec; [exact H1|by eapply frame_sys_ok; [apply L1|]| |].
  { rewrite E1. exact Hb. }
  intros _ s2 (L2 & _ & H2). wp_step. apply (wp_getc _ _ _ H2). wp_step.
  eapply (wp_kern _ _ _ (λ _, True)); [exact H2| |].
  { destruct (chunk_region _); simpl; by wp_steps. }
  intros [] s3 L3 H3 _ _ _ _. wp_step. apply (wp_modc _ _ _ _ H3); [done|].
  intros s4 L4 H4 _ _. wp_step. apply (wp_up _ _ _ H4). intros s5 L5 H5 _ _.
  unfold when. rewrite (proj2 (Z.eqb_neq _ _)) by done. simpl.
  wp_call (set_corrupted_spec _ _ _ H5). intros _ s6 [F6 Hx]. split; [|done].
  rewrite (lo_frame _ _ _ L1), (lo_frame _ _ _ L2), (lo_frame _ _ _ L3), (lo_frame _ _ _ L4).
  rewrite (lo_frame _ _ _ L5). done.
Qed.

(** *** Starting requests *)

(** A request that has been submitted and of which no bio has ended. *)
Record io_started (fn : notify_fn) (wr : bool) (r : diff_region) (io : diff_io) : Prop := {
  is_error : error io = 0;
  is_dir : is_write io = wr;
  is_fn : notify io = Some fn;
  is_cover : bios_cover r wr 0 (io_bios io);
  is_nonempty : io_bios io ≠ [];
  is_count : bio_count io = lenZ (io_bios io);
  is_quiet : io_notified io = false;
}.

Lemma buffer_wf_pages cs b : buffer_wf cs b → buffer_pages b.
Proof. by intros (_ & ? & _). Qed.

(** [diff_io_new_async] and [diff_io_do] together. *)
Lemma diff_io_new_async_spec wr nw fn w :
  wp (diff_io_new_async wr nw fn) w (λ r w',
    w_disk w' = w_disk w ∧
    match r with
    | None => True
    | Some io => error io = 0 ∧ bio_count io = 0 ∧ is_write io = wr ∧ is_sync_io io = false ∧
                 notify io = Some fn ∧ io_notified io = false
    end).
Proof.
  unfold diff_io_new_async. wp_call diff_io_new_spec. intros r w' [(vs & m & ->) Hr]. wp_steps.
  split; [done|]. destruct r as [io|]; [|done]. simpl.
  destruct Hr as (? & ? & ? & ? & ? & ?). done.
Qed.

Lemma diff_io_start_spec owner io fn wr r b nw w :
  error io = 0 ∧ bio_count io = 0 ∧ is_write io = wr ∧ is_sync_io io = false ∧
    notify io = Some fn ∧ io_notified io = false →
  buffer_pages b → region_fits r →
  wp (diff_io_do owner io r b nw) w (λ '(ret, io', b') w',
    w_disk w' = w_disk w ∧ b' = b ∧ (ret < 0 ∨ (ret = 0 ∧ io_started fn wr r io'))).
Proof.
  intros (He & Hc & Hw & Hs & Hn & Hq) Hb Hr. wp_call diff_io_do_async_spec; [done..|].
  intros [[ret io'] b'] w' [-> [[Hneg [vs ->]]|(-> & _ & bios & vs & Hcov & Hne & -> & ->)]];
    (split; [done|]); (split; [done|]); [by left|]. right. split; [done|].
  rewrite Hw in Hcov. split; simpl; try done. lia.
Qed.

Lemma region_fits_sectors s r :
  sys_ok s → 0 < dr_count r ≤ sectors s → region_fits r.
Proof. intros Hs Hr. destruct (sectors_pow2 s Hs) as [_ ?]. unfold region_fits. lia. Qed.

Definition set_io (st : Z) (io : diff_io) (c : chunk) : chunk :=
  let c' := chunk_state_set st c in {| c' with chunk_io := Some io |}.

(** The end of both functions that start a request. *)
Definition start_tail (io : diff_io) (region : diff_region) (b : diff_buffer) (nw : bool) : AM Z :=
  '(ret, io, b) ← on_kern (diff_io_do n io region b nw);
  if negb (ret =? 0) then
    on_area (λ a, {| a with pending_io_count := pending_io_count a - 1 |});;
    on_kern (diff_io_free (Some io));;
    modc n (λ c, {| c with chunk_io := None |});;
    mret ret
  else
    modc n (λ c, {| c with chunk_io := Some io; chunk_buffer := Some b |});;
    mret ret.

Lemma start_tail_spec st io0 io fn wr r b nw c s :
  at_chunk n (set_io st io0 c) s → chunk_buffer c = Some b → buffer_pages b → region_fits r →
  error io = 0 ∧ bio_count io = 0 ∧ is_write io = wr ∧ is_sync_io io = false ∧
    notify io = Some fn ∧ io_notified io = false →
  wp (start_tail io r b nw) s (λ ret s',
    local n s s' ∧ storage s' = storage s ∧
    ((ret < 0 ∧ ∃ c', at_chunk n c' s' ∧ chunk_buffer c' = Some b) ∨
     (ret = 0 ∧ ∃ io', io_started fn wr r io' ∧ at_chunk n (set_io st io' c) s'))).
Proof.
  intros Hc Hb Hp Hr Hio. unfold start_tail. wp_step.
  eapply (wp_kern _ _ _ (λ '(ret, io', b'), b' = b ∧ (ret < 0 ∨ ret = 0 ∧ io_started fn wr r io')));
    [exact Hc| |].
  { wp_call (diff_io_start_spec _ _ fn wr); [done..|]. by intros [[ret io'] b'] w' (? & ? & ?). }
  intros [[ret io'] b'] s1 L1 H1 St1 _ _ [-> Hret]. cbv beta iota. wp_if Er; bool_hyps; wp_step.
  - eapply wp_on_area; [exact H1|by unfold area_quiet|]. intros s2 L2 H2 St2 _. wp_step.
    eapply (wp_kern _ _ _ (λ _, True)); [exact H2|by wp_steps|]. intros [] s3 L3 H3 St3 _ _ _.
    wp_step. apply (wp_modc _ _ _ _ H3); [done|]. intros s4 L4 H4 St4 _. wp_steps.
    split; [by rewrite L1, L2, L3, L4|]. split; [congruence|]. left.
    destruct Hret as [?|[? _]]; [|done]. split; [done|]. eexists. by split.
  - apply (wp_modc _ _ _ _ H1); [done|]. intros s2 L2 H2 St2 _. wp_steps.
    split; [by rewrite L1, L2|]. split; [congruence|]. right. split; [done|].
    destruct Hret as [?|[_ Hst]]; [lia|]. exists io'. split; [done|].
    unfold set_io in *. destruct c; simpl in *. by subst.
Qed.

Lemma async_store_spec nw c s r b :
  at_chunk n c s → sys_ok s → in_cache (area s) n = false →
  chunk_region c = Some r → dr_count r = sectors s →
  chunk_buffer c = Some b → buffer_wf (sectors s) b →
  wp (chunk_async_store_diff n nw) s (λ ret s',
    local n s s' ∧ storage s' = storage s ∧
    ((ret < 0 ∧ ∃ c', at_chunk n c' s' ∧ chunk_buffer c' = Some b) ∨
     (ret = 0 ∧ ∃ io, io_started fn_chunk_notify_store true r io ∧
                      at_chunk n (set_io CHUNK_ST_STORING io c) s'))).
Proof.
  intros Hc Hs Hq Hr Hcnt Hb Hbw. unfold chunk_async_store_diff. wp_step. apply wp_area.
  rewrite Hq. unfold diff_io_new_async_write. wp_step.
  eapply (wp_kern _ _ _ _ _ Hc (diff_io_new_async_spec _ _ _ _)).
  intros io s1 L1 H1 St1 _ _ Hio. destruct io as [io|]; wp_steps.
  2:{ split; [done|]. split; [done|]. left. split; [by destruct nw|]. eauto. }
  apply (wp_modc _ _ _ _ H1); [done|]. intros s2 L2 H2 St2 _. wp_step.
  eapply wp_on_area; [exact H2|by unfold area_quiet|]. intros s3 L3 H3 St3 _. wp_step.
  apply (wp_getc _ _ _ H3). cbn [chunk_region chunk_buffer chunk_state_set]. rewrite Hr, Hb.
  pose proof (sectors_pow2 s Hs) as [_ Hcs].
  eapply wp_mono; [apply (start_tail_spec CHUNK_ST_STORING io io fn_chunk_notify_store true r b nw
    c s3 H3); [done|by eapply buffer_wf_pages|eapply region_fits_sectors; [exact Hs|lia]|done]|].
  intros ret s4 (L4 & St4 & Hret). split; [by rewrite L1, L2, L3, L4|]. split; [congruence|exact Hret].
Qed.

Lemma async_load_spec nw c s b :
  at_chunk n c s → sys_ok s → 0 < chunk_sector_count c ≤ sectors s →
  chunk_buffer c = Some b → buffer_wf (sectors s) b →
  wp (chunk_async_load_orig n nw) s (λ ret s',
    local n s s' ∧ storage s' = storage s ∧
    ((ret < 0 ∧ ∃ c', at_chunk n c' s' ∧ chunk_buffer c' = Some b) ∨
     (ret = 0 ∧ ∃ io, io_started fn_chunk_notify_load false (orig_region (area s) c) io ∧
                      at_chunk n (set_io CHUNK_ST_LOADING io c) s'))).
Proof.
  intros Hc Hs Hcnt Hb Hbw. unfold chunk_async_load_orig. wp_step. apply wp_area.
  wp_step. apply (wp_getc _ _ _ Hc). unfold diff_io_new_async_read. wp_step.
  eapply (wp_kern _ _ _ _ _ Hc (diff_io_new_async_spec _ _ _ _)).
  intros io s1 L1 H1 St1 _ _ Hio. destruct io as [io|]; wp_steps.
  2:{ split; [done|]. split; [done|]. left. split; [by destruct nw|]. eauto. }
  apply (wp_modc _ _ _ _ H1); [done|]. intros s2 L2 H2 St2 _. wp_step.
  eapply wp_on_area; [exact H2|by unfold area_quiet|]. intros s3 L3 H3 St3 _. rewrite Hb.
  eapply wp_mono; [apply (start_tail_spec CHUNK_ST_LOADING io io fn_chunk_notify_load false
    (orig_region (area s) c) b nw c s3 H3);
    [done|by eapply buffer_wf_pages|eapply region_fits_sectors; [exact Hs|simpl; lia]|done]|].
  intros ret s4 (L4 & St4 & Hret). split; [by rewrite L1, L2, L3, L4|]. split; [congruence|exact Hret].
Qed.

(** *** Storing a chunk

    The region comes from the storage, of which only the contract is used. *)
Context {RC : RegionContract diff_storage_new_region}.

Definition set_region (r : diff_region) (c : chunk) : chunk := {| c with chunk_region := Some r |}.

(** A region a chunk may keep its data in. *)
Definition region_ok (s : sys) (r : diff_region) : Prop :=
  dr_count r = sectors s ∧
  ∀ x, dr_sector r ≤ x < dr_sector r + dr_count r →
       taken (storage s) (dr_bdev r) x ∧ covered (storage s) (dr_bdev r) x.

Lemma wp_new_region c s (Q : result diff_region → sys → Prop) :
  at_chunk n c s → sys_ok s →
  (∀ r s', local n s s' → at_chunk n c s' →
     match r with
     | Err e => e < 0
     | Ok r => region_ok s' r ∧
         ∀ x, dr_sector r ≤ x < dr_sector r + dr_count r → ¬ taken (storage s) (dr_bdev r) x
     end → Q r s') →
  wp (on_store (diff_storage_new_region (sectors s))) s Q.
Proof.
  intros Hc Hs HQ. unfold on_store. rewrite wp_zoom. pose proof (sectors_pow2 s Hs) as [_ Hcs].
  eapply wp_mono; [apply new_region_ok; [apply Hs|lia]|].
  intros r [d w] (Hq & Hwf & Hcov & Htk & Hr). simpl in *. destruct Hq as [Hd _ _ _].
  apply HQ; simpl.
  - split; [|done|done]. split; simpl; try done. intros c' r' ? ?. left. eauto.
  - done.
  - destruct r as [r|e]; [|done]. destruct Hr as [Hcnt Hr]. split; [split; [done|]|].
    + simpl. intros x Hx. rewrite Hcnt in Hx. destruct (Hr x Hx) as (Hx1 & _ & Hx2).
      split; [done|]. by apply Hcov.
    + intros x Hx. rewrite Hcnt in Hx. by apply Hr.
Qed.

(** Giving the chunk its region, fresh with respect to an earlier state. *)
Lemma wp_set_region r c s0 s Q :
  frame n s0 s → at_chunk n c s →
  (∀ x, dr_sector r ≤ x < dr_sector r + dr_count r → ¬ taken (storage s0) (dr_bdev r) x) →
  (∀ s', frame n s0 s' → in_cache (area s') n = in_cache (area s) n →
         corrupt_flag (area s') = corrupt_flag (area s) → sectors s' = sectors s →
         at_chunk n (set_region r c) s' → storage s' = storage s → Q tt s') →
  wp (modc n (λ c, {| c with chunk_region := Some r |})) s Q.
Proof.
  intros F Hc Hf HQ. unfold modc, on_area. wp_steps.
  apply HQ; unfold at_chunk in *; simpl; try done; [|by rewrite lookup_alter_eq, Hc].
  destruct F. split; simpl; try done.
  - intros m Hm. rewrite lookup_alter_ne by done. auto.
  - unfold at_chunk. simpl. rewrite lookup_alter_eq, Hc. intros c' r' [= <-] [= <-]. by right.
Qed.

Lemma schedule_storing_spec nw c s b :
  at_chunk n c s → sys_ok s → in_cache (area s) n = false →
  chunk_buffer c = Some b → buffer_wf (sectors s) b →
  (∀ r, chunk_region c = Some r → region_ok s r) →
  wp (chunk_schedule_storing n nw) s (λ ret s',
    local n s s' ∧
    ((ret < 0 ∧ ∃ c', at_chunk n c' s' ∧ chunk_buffer c' = Some b) ∨
     (ret = 0 ∧ ∃ io r, region_ok s' r ∧ io_started fn_chunk_notify_store true r io ∧
        at_chunk n (set_io CHUNK_ST_STORING io (set_region r c)) s' ∧
        (chunk_region c = Some r ∨ chunk_region c = None)))).
Proof.
  intros Hc Hs Hq Hb Hbw Hr. unfold chunk_schedule_storing. wp_step. apply wp_area. rewrite Hq.
  wp_step. apply (wp_getc _ _ _ Hc). destruct (chunk_region c) as [r|] eqn:Er.
  - destruct (Hr r eq_refl) as [Hcnt Htk]. wp_call async_store_spec; [done..|].
    intros ret s' (L & St & [?|(-> & io & Hio & Hat)]); (split; [done|]); [by left|]. right.
    split; [done|]. exists io, r. split_and!; try done.
    + split; [by rewrite (frame_sectors _ _ _ (lo_frame _ _ _ L))|]. by rewrite St.
    + unfold set_region, set_io in *. destruct c; simpl in *. by subst.
    + by left.
  - wp_step. apply (wp_new_region _ _ _ Hc Hs). intros r s1 L1 H1 Hr1.
    destruct r as [r|e]; wp_steps; [|split; [done|]; left; eauto].
    destruct Hr1 as [[Hcnt Htk] Hfresh].
    eapply wp_set_region; [apply L1|exact H1|exact Hfresh|].
    intros s2 F2 Hi2 Hco2 Es2 H2 St2. pose proof (frame_sectors _ _ _ F2) as Es.
    assert (L2 : local n s s2) by (destruct L1; split; [done|congruence..]).
    wp_call async_store_spec; [exact H2|by eapply frame_sys_ok|by rewrite (lo_cache _ _ _ L2)
      |done|congruence|exact Hb|by rewrite Es|].
    intros ret s3 (L3 & St3 & [?|(-> & io & Hio & Hat)]);
      (split; [by rewrite L2|]); [by left|]. right. split; [done|]. exists io, r.
    split_and!; try done.
    + split; [rewrite (frame_sectors _ _ _ (lo_frame _ _ _ L3)); congruence|].
      by rewrite St3, St2.
    + by right.
Qed.

(** *** Synchronous loads *)

Definition set_buffer (b : diff_buffer) (c : chunk) : chunk := {| c with chunk_buffer := Some b |}.

Lemma load_sync_spec r c s b :
  at_chunk n c s → sys_ok s → chunk_buffer c = Some b → buffer_wf (sectors s) b →
  0 < dr_count r ≤ sectors s →
  wp (chunk_load_sync n r) s (λ ret s',
    local n s s' ∧ storage s' = storage s ∧
    ∃ b', at_chunk n (set_buffer b' c) s' ∧ buffer_wf (sectors s) b' ∧
      (ret = 0 → ∀ i, 0 ≤ i < region_bytes r →
         buf_at b' i = w_disk (kern s) (dr_bdev r) (region_base r + i))).
Proof.
  intros Hc Hs Hb Hbw Hr. unfold chunk_load_sync, diff_io_new_sync_read, diff_io_new_sync. wp_step.
  eapply (wp_kern _ _ _ (λ r : option diff_io, match r with None => True
    | Some io => is_sync_io io = true ∧ is_write io = false end)); [exact Hc| |].
  { wp_call diff_io_new_spec. intros io w' [(vs & m & ->) Hio]. wp_steps. split; [done|].
    destruct io; [|done]. by destruct Hio as (_ & _ & ? & _). }
  intros io s1 L1 H1 St1 D1 _ Hio. destruct io as [io|]; wp_steps.
  2:{ split; [done|]. split; [done|]. exists b. split_and!; [|done|done].
      unfold set_buffer. destruct c; simpl in *. by subst. }
  apply (wp_getc _ _ _ H1). rewrite Hb. destruct Hio as [Hsy Hrd]. wp_step.
  eapply (wp_kern _ _ _ (λ '(ret, io', b'), buffer_wf (sectors s) b' ∧
    (ret = 0 → error io' = 0 → ∀ i, 0 ≤ i < region_bytes r →
       buf_at b' i = w_disk (kern s) (dr_bdev r) (region_base r + i)))); [exact H1| |].
  { wp_call diff_io_do_sync_read_spec; [done|done|by eapply buffer_wf_pages
      |by eapply region_fits_sectors|].
    intros [[ret io'] b'] w' ([vs ->] & E1 & E2 & Hp & Hd). split; [done|]. split.
    - destruct Hbw as (? & ? & ?). unfold buffer_wf. rewrite E1. split_and!; [done|done|congruence].
    - rewrite <- D1. exact Hd. }
  intros [[ret io'] b'] s2 L2 H2 St2 _ _ [Hbw' Hd]. cbv beta iota. wp_step.
  apply (wp_modc _ _ _ _ H2); [done|]. intros s3 L3 H3 St3 _. wp_step.
  eapply (wp_kern _ _ _ (λ _, True)); [exact H3|by wp_steps|]. intros [] s4 L4 H4 St4 _ _ _. wp_steps.
  split; [by rewrite L1, L2, L3, L4|]. split; [congruence|]. exists b'. split_and!; [exact H4|done|].
  destruct (Z.eqb_spec ret 0); [auto|]. done.
Qed.

(** *** Caches and semaphores *)

Definition set_lock (l : bool) (c : chunk) : chunk := {| c with lock := l |}.

Lemma in_cache_false a : in_cache a n = false ↔ n ∉ read_cache_queue a ∧ n ∉ write_cache_queue a.
Proof.
  unfold in_cache. rewrite orb_false_iff, !bool_decide_eq_false. done.
Qed.

Lemma schedule_caching_spec c s :
  at_chunk n c s → in_cache (area s) n = false →
  wp (chunk_schedule_caching n) s (λ _ s',
    frame n s s' ∧ corrupt_flag (area s') = corrupt_flag (area s) ∧ storage s' = storage s ∧
    at_chunk n (set_lock false c) s' ∧
    (n ∈ read_cache_queue (area s') ↔ dirty c = false) ∧
    (n ∈ write_cache_queue (area s') ↔ dirty c = true)).
Proof.
  intros Hc Hq. unfold chunk_schedule_caching. wp_step. apply wp_area. rewrite Hq.
  wp_step. apply (wp_getc _ _ _ Hc). rewrite check_dirty. apply in_cache_false in Hq as [Hr Hw].
  assert (Hend : ∀ k s1, frame n s s1 → corrupt_flag (area s1) = corrupt_flag (area s) →
    storage s1 = storage s → at_chunk n c s1 →
    (n ∈ read_cache_queue (area s1) ↔ dirty c = false) →
    (n ∈ write_cache_queue (area s1) ↔ dirty c = true) →
    wp (up n;; when (chunk_maximum_in_cache <? k)
         (on_area (λ a, {| a with cache_release_work := true |}))) s1 (λ _ s',
      frame n s s' ∧ corrupt_flag (area s') = corrupt_flag (area s) ∧ storage s' = storage s ∧
      at_chunk n (set_lock false c) s' ∧
      (n ∈ read_cache_queue (area s') ↔ dirty c = false) ∧
      (n ∈ write_cache_queue (area s') ↔ dirty c = true))).
  { intros k s1 F1 C1 St1 H1 R1 W1. unfold up, modc, on_area. wp_steps. unfold at_chunk in *. simpl.
    wp_if Ek; wp_steps; simpl;
      (split_and!; [|congruence|congruence|by rewrite lookup_alter_eq, H1|done..]);
      (etrans; [exact F1|]); (split; simpl; try done; [by intros; rewrite lookup_alter_ne|]);
      unfold at_chunk; simpl; intros c' r; rewrite lookup_alter_eq, H1; intros [= <-] ?; left;
      exists c; done. }
  wp_step. destruct (dirty c) eqn:Ed; unfold on_area; wp_steps; apply Hend; simpl; try done;
    try (rewrite elem_of_app, list_elem_of_singleton; tauto).
  all: split; simpl; try done; try (intros c' r' ? ?; left; eauto);
    intros m Hm; rewrite elem_of_app, list_elem_of_singleton; tauto.
Qed.

(** The chunk's link is removed from the queues, and counters may change. *)
Lemma frame_unlink s a' :
  orig_bdev a' = orig_bdev (area s) → chunk_shift a' = chunk_shift (area s) →
  chunk_map a' = chunk_map (area s) → pool a' = pool (area s) →
  corrupt_flag a' = corrupt_flag (area s) →
  read_cache_queue a' = remove_link n (read_cache_queue (area s)) →
  write_cache_queue a' = remove_link n (write_cache_queue (area s)) →
  frame n s {| s with area := a' |} ∧ in_cache a' n = false.
Proof.
  intros E1 E2 E3 E4 E5 E6 E7. split.
  - split; simpl; rewrite ?E1, ?E2, ?E3, ?E4, ?E5, ?E6, ?E7; try done.
    + intros m Hm. unfold remove_link. rewrite list_elem_of_filter. tauto.
    + intros m Hm. unfold remove_link. rewrite list_elem_of_filter. tauto.
    + unfold at_chunk. simpl. rewrite E3. intros c' r ? ?. left. eauto.
  - apply in_cache_false. rewrite E6, E7. unfold remove_link.
    rewrite !list_elem_of_filter. tauto.
Qed.

(** What taking a chunk out of the caches leaves. *)
Definition unlinked (c : chunk) (s s' : sys) : Prop :=
  frame n s s' ∧ corrupt_flag (area s') = corrupt_flag (area s) ∧ storage s' = storage s ∧
  at_chunk n c s' ∧ in_cache (area s') n = false.

Lemma take_from_cache_spec c s :
  at_chunk n c s → wp (diff_area_take_chunk_from_cache n) s (λ _ s', unlinked c s s').
Proof.
  intros Hc. unfold diff_area_take_chunk_from_cache. wp_step. apply wp_area. wp_if Ein; wp_steps.
  2:{ unfold unlinked. by rewrite Ein. }
  unfold on_area. wp_steps. unfold getc. wp_steps. unfold unlinked, at_chunk in *. simpl.
  destruct (chunk_state_check _ _); simpl;
    (edestruct (frame_unlink s) as [Fr Hi]; [..|split_and!; [exact Fr|done|done|exact Hc|exact Hi]]);
    done.
Qed.

Lemma down_trylock_spec c s :
  at_chunk n c s →
  wp (down_trylock n) s (λ r s',
    if lock c then r = 1 ∧ s' = s
    else r = 0 ∧ local n s s' ∧ storage s' = storage s ∧ at_chunk n (set_lock true c) s').
Proof.
  intros Hc. unfold down_trylock. wp_step. apply (wp_getc _ _ _ Hc).
  destruct (lock c); wp_steps; [done|]. apply (wp_modc _ _ _ _ Hc); [done|].
  intros s1 L1 H1 St1 _. by wp_steps.
Qed.

Lemma down_killable_spec c s :
  at_chunk n c s →
  wp (down_killable n) s (λ r s',
    local n s s' ∧ storage s' = storage s ∧
    if lock c then (r = None ∨ r = Some (- EINTR)) ∧ area s' = area s
    else r = Some 0 ∧ at_chunk n (set_lock true c) s').
Proof.
  intros Hc. unfold down_killable. wp_step. apply (wp_getc _ _ _ Hc). destruct (lock c).
  - wp_step. eapply (wp_kern _ _ _ (λ _, True)); [exact Hc|by apply wp_oracle|].
    intros v s1 L1 H1 St1 _ Ea _. wp_steps. split_and!; try done. destruct (_ =? _); auto.
  - wp_step. apply (wp_modc _ _ _ _ Hc); [done|]. intros s1 L1 H1 St1 _. by wp_steps.
Qed.

(** The first chunk of a queue whose chunks are unlocked is taken. *)
Lemma trylock_head_spec c s queue :
  at_chunk n c s → lock c = false →
  wp (trylock_first (n :: queue)) s (λ r s',
    r = Some n ∧ local n s s' ∧ storage s' = storage s ∧ at_chunk n (set_lock true c) s').
Proof.
  intros Hc Hl. cbn [trylock_first]. wp_step.
  eapply wp_mono; [apply (down_trylock_spec _ _ Hc)|]. rewrite Hl. intros r s' (-> & L & St & H').
  by wp_steps.
Qed.

Lemma get_from_cache_spec (wr : bool) c s queue :
  at_chunk n c s → lock c = false →
  (if wr then write_cache_queue (area s) else read_cache_queue (area s)) = n :: queue →
  wp (get_chunk_from_cache_and_write_lock wr) s (λ r s',
    r = Some n ∧ unlinked (set_lock true c) s s').
Proof.
  intros Hc Hl Hq. unfold get_chunk_from_cache_and_write_lock. wp_step. apply wp_area. wp_step.
  rewrite Hq. eapply wp_mono; [by apply trylock_head_spec|]. intros r s1 (-> & L1 & St1 & H1).
  unfold on_area. wp_steps. split; [done|].
  assert (Hend : ∀ a' : diff_area, frame n s1 {| s1 with area := a' |} ∧ in_cache a' n = false →
    corrupt_flag a' = corrupt_flag (area s1) → chunk_map a' = chunk_map (area s1) →
    unlinked (set_lock true c) s {| s1 with area := a' |}).
  { intros a' [F Hi] Ec Em. unfold unlinked, at_chunk in *. simpl. rewrite Em.
    split_and!; try done; [by rewrite (lo_frame _ _ _ L1)|by rewrite Ec, (lo_corrupt _ _ _ L1)]. }
  destruct wr; (apply Hend; [apply (frame_unlink s1)|..]); done.
Qed.
End rules.

#[export] Hint Unfold no_buffer set_io set_region set_buffer set_lock : chunk_upd.
