(* ===== verification/CowInv.v ===== *)
(** * The copy-on-write invariant

    What holds of every chunk between two steps of any task, relative to the
    frozen image [img] of the device. It is stated for the bytes of the device
    that do not belong to the difference storage (user space may put storage on
    the device itself; those sectors have no image). *)
From S2P Require Import Prelude MemoryChecker Kernel Uapi EventQueue DiffBuffer DiffIo DiffStorage.
From S2P Require Import Chunk DiffArea ChunkSpecs.

(** The byte of the device at which chunk [n] starts, and the chunk's length. *)
Definition chunk_base (s : sys) (n : Z) : Z := n * sectors s * SECTOR_SIZE.
Definition chunk_len (c : chunk) : Z := chunk_sector_count c * SECTOR_SIZE.

(** The byte is on a sector of the difference storage. *)
Definition excluded (s : sys) (addr : Z) : Prop :=
  covered (storage s) (orig_bdev (area s)) (addr / SECTOR_SIZE).

(** [f] gives the image's bytes of chunk [n]. *)
Definition agree (s : sys) (img : Z → Z) (n : Z) (c : chunk) (f : Z → Z) : Prop :=
  ∀ i, 0 ≤ i < chunk_len c → ¬ excluded s (chunk_base s n + i) → f i = img (chunk_base s n + i).

Definition on_orig (s : sys) (n i : Z) : Z :=
  w_disk (kern s) (orig_bdev (area s)) (chunk_base s n + i).
Definition on_region (s : sys) (r : diff_region) (i : Z) : Z :=
  w_disk (kern s) (dr_bdev r) (region_base r + i).

Record base_ok (s : sys) (n : Z) (c : chunk) : Prop := {
  bo_number : number c = n;
  bo_range : 0 ≤ n ∧ (n + 1) * sectors s ≤ 2 ^ 54;
  bo_count : 0 < chunk_sector_count c ≤ sectors s;
  bo_buffer b : chunk_buffer c = Some b → buffer_wf (sectors s) b;
  bo_region r : chunk_region c = Some r → region_ok s r;
  bo_failed : failed c = false;
}.

(** Where the image's data of the chunk is. [wr]: the image is being written
    and the chunk's buffer is ahead of its state bits. *)
Record data_ok (s : sys) (img : Z → Z) (wr : bool) (n : Z) (c : chunk) : Prop := {
  do_ready : ready c = true → ∃ b, chunk_buffer c = Some b ∧ agree s img n c (buf_at b);
  do_dirty : dirty c = true → ready c = true;
  do_stored : stored c = true → ∃ r, chunk_region c = Some r ∧
      (dirty c = false → wr = false → agree s img n c (on_region s r));
  do_orig : dirty c = false → stored c = false → wr = false → agree s img n c (on_orig s n);
}.

Record io_ok (fn : notify_fn) (wr : bool) (r : diff_region) (io : diff_io) : Prop := {
  ik_fn : notify io = Some fn;
  ik_count : bio_count io = lenZ (io_bios io);
  ik_notified : io_notified io = bool_decide (io_bios io = []);
  ik_bios : Forall (bio_wf r wr) (io_bios io);
}.

Definition pending (r : diff_region) (io : diff_io) (i : Z) : Prop :=
  Exists (bio_has r i) (io_bios io).

(** Who holds the semaphore and what is known meanwhile; the index is the role
    of the image's context: none, reading or writing. *)
Inductive busy (s : sys) (img : Z → Z) (n : Z) (c : chunk) : option bool → Prop :=
  | busy_idle :
      lock c = false → chunk_io c = None → loading c = false → storing c = false →
      busy s img n c None
  | busy_image wr :
      lock c = true → chunk_io c = None → loading c = false → storing c = false →
      ready c = true → busy s img n c (Some wr)
  | busy_load io b :
      lock c = true → chunk_io c = Some io → loading c = true → storing c = false →
      ready c = false → dirty c = false → stored c = false →
      io_ok fn_chunk_notify_load false (orig_region (area s) c) io → chunk_buffer c = Some b →
      (error io = 0 → ∀ i, 0 ≤ i < chunk_len c → ¬ excluded s (chunk_base s n + i) →
         ¬ pending (orig_region (area s) c) io i → buf_at b i = img (chunk_base s n + i)) →
      busy s img n c None
  | busy_store io b r :
      lock c = true → chunk_io c = Some io → loading c = false → storing c = true →
      ready c = true → (stored c = true → dirty c = true) → chunk_region c = Some r → chunk_buffer c = Some b →
      io_ok fn_chunk_notify_store true r io →
      (error io = 0 → ∀ i, 0 ≤ i < region_bytes r → ¬ pending r io i →
         on_region s r i = buf_at b i) →
      busy s img n c None.

Record chunk_ok (s : sys) (img : Z → Z) (rl : option bool) (n : Z) (c : chunk) : Prop := {
  co_base : base_ok s n c;
  co_data : data_ok s img (bool_decide (rl = Some true)) n c;
  co_busy : busy s img n c rl;
}.

(** The chunk's data no longer depends on the original device; or will not,
    once its request in flight has ended. *)
Definition safe (c : chunk) : bool := dirty c || stored c.
Definition psafe (c : chunk) : bool := safe c || bool_decide (is_Some (chunk_io c)).

(** ** The chunk in another state of the system *)

Record env_le (s s' : sys) (n : Z) (c : chunk) : Prop := {
  el_sectors : sectors s' = sectors s;
  el_bdev : orig_bdev (area s') = orig_bdev (area s);
  el_covered bd x : covered (storage s) bd x → covered (storage s') bd x;
  el_taken bd x : taken (storage s) bd x → taken (storage s') bd x;
  el_orig i : safe c = false → 0 ≤ i < chunk_len c → ¬ excluded s' (chunk_base s n + i) →
              on_orig s' n i = on_orig s n i;
  el_region r i : chunk_region c = Some r → 0 ≤ i < region_bytes r →
                  on_region s' r i = on_region s r i;
}.

Lemma env_base s s' n c m : env_le s s' n c → chunk_base s' m = chunk_base s m.
Proof. intros E. unfold chunk_base. by rewrite (el_sectors _ _ _ _ E). Qed.

Lemma env_excluded s s' n c addr : env_le s s' n c → excluded s addr → excluded s' addr.
Proof. intros E. unfold excluded. rewrite (el_bdev _ _ _ _ E). apply E. Qed.

Lemma env_agree s s' img n c f :
  env_le s s' n c → agree s img n c f → agree s' img n c f.
Proof.
  intros E H i Hi Hx. rewrite (env_base _ _ _ _ _ E) in *. apply H; [done|].
  intros ?. by apply Hx, (env_excluded _ _ _ _ _ E).
Qed.

Lemma env_agree_ext s s' img n c f g :
  env_le s s' n c → (∀ i, 0 ≤ i < chunk_len c → ¬ excluded s' (chunk_base s n + i) → g i = f i) →
  agree s img n c f → agree s' img n c g.
Proof.
  intros E Hfg H i Hi Hx. rewrite (env_base _ _ _ _ _ E) in *. rewrite Hfg by done.
  apply H; [done|]. intros ?. by apply Hx, (env_excluded _ _ _ _ _ E).
Qed.

Lemma region_ok_env s s' n c r : env_le s s' n c → region_ok s r → region_ok s' r.
Proof.
  intros E [Hc Ht]. split; [by rewrite (el_sectors _ _ _ _ E)|].
  intros x Hx. destruct (Ht x Hx). split; [by apply E|by apply E].
Qed.

Lemma region_bytes_ok s n c r : base_ok s n c → chunk_region c = Some r → chunk_len c ≤ region_bytes r.
Proof.
  intros Hb Hr. destruct (bo_region _ _ _ Hb r Hr) as [Hc _]. pose proof (bo_count _ _ _ Hb).
  unfold chunk_len, region_bytes, SECTOR_SIZE. lia.
Qed.

Lemma orig_region_env s s' n c : env_le s s' n c → orig_region (area s') c = orig_region (area s) c.
Proof.
  intros E. unfold orig_region. by rewrite (el_bdev _ _ _ _ E), (el_sectors _ _ _ _ E).
Qed.

Lemma chunk_ok_env s s' img rl n c : env_le s s' n c → chunk_ok s img rl n c → chunk_ok s' img rl n c.
Proof.
  intros E [B D U]. pose proof (el_sectors _ _ _ _ E) as Es.
  pose proof (env_base _ _ _ _ n E) as Eb. split.
  - destruct B. split; rewrite ?Es; try done. intros r Hr. eapply region_ok_env; eauto.
  - destruct D as [D1 D2 D3 D4]. split; [|done| |].
    + intros Hr. destruct (D1 Hr) as (b & Hb & Ha). exists b. split; [done|]. by eapply env_agree.
    + intros Hst. destruct (D3 Hst) as (r & Hr & Ha). exists r. split; [done|]. intros Hd Hw.
      eapply env_agree_ext; [exact E| |by apply Ha]. intros i Hi Hx. apply E; [done|].
      pose proof (region_bytes_ok _ _ _ _ B Hr). lia.
    + intros Hd Hst Hw. eapply env_agree_ext; [exact E| |by apply D4].
      intros i Hi Hx. apply E; [unfold safe; by rewrite Hd, Hst|done|done].
  - destruct U as [|wr|io b ? ? ? ? ? ? ? Hio ? Hl|io b r ? ? ? ? ? ? ? ? Hio Hl].
    + by apply busy_idle.
    + by apply busy_image.
    + eapply busy_load; eauto; rewrite ?(orig_region_env _ _ _ _ E); [done|].
      intros He i Hi Hx Hp. rewrite Eb in *. apply Hl; try done.
      intros ?. by apply Hx, (env_excluded _ _ _ _ _ E).
    + eapply busy_store; eauto. intros He i Hi Hp. rewrite <- (Hl He i Hi Hp). by apply E.
Qed.

Lemma frame_env n m s s' c : frame n s s' → env_le s s' m c.
Proof.
  intros F. split.
  - by eapply frame_sectors.
  - apply F.
  - intros. by apply F.
  - apply F.
  - intros i _ _ _. unfold on_orig, chunk_base.
    by rewrite (fr_disk _ _ _ F), (fr_bdev _ _ _ F), (frame_sectors _ _ _ F).
  - intros r i _ _. unfold on_region. by rewrite (fr_disk _ _ _ F).
Qed.

(** ** Operations on a chunk whose semaphore is held *)

(** [kept img rl n Q s s']: the operation changed chunk [n] only, and either
    the area is corrupted now or the chunk is in order, with its role [rl], and
    satisfies [Q]. *)
Definition kept (img : Z → Z) (rl : option bool) (n : Z) (Q : chunk → Prop) (s s' : sys) : Prop :=
  frame n s s' ∧
  (corrupt_flag (area s') = true ∨
   ∃ c', at_chunk n c' s' ∧ chunk_ok s' img rl n c' ∧
     (in_cache (area s') n = true → lock c' = false ∧ ready c' = true) ∧ Q c').

(** The chunk is as independent of the original device as before. *)
Definition keeps (c c' : chunk) : Prop :=
  (safe c = true → safe c' = true) ∧ (psafe c = true → psafe c' = true).

Lemma kept_corrupted img rl n Q s s' :
  frame n s s' → corrupt_flag (area s') = true → kept img rl n Q s s'.
Proof. intros. split; [done|by left]. Qed.

Lemma kept_mono img rl n (Q Q' : chunk → Prop) s s1 s' :
  frame n s s1 → kept img rl n Q s1 s' → (∀ c, Q c → Q' c) → kept img rl n Q' s s'.
Proof.
  intros F [G H] HQ. split; [by rewrite F|].
  destruct H as [H|(c' & ? & ? & ? & ?)]; [by left|]. right. exists c'. auto.
Qed.

Section ops.
Context {P : ModuleParams}.
Context (img : Z → Z) (n : Z).

(** The chunk as the holder of its semaphore sees it, with no request. *)
Record held (s : sys) (c : chunk) : Prop := {
  he_at : at_chunk n c s;
  he_sys : sys_ok s;
  he_cache : in_cache (area s) n = false;
  he_base : base_ok s n c;
  he_lock : lock c = true;
  he_io : chunk_io c = None;
  he_loading : loading c = false;
  he_storing : storing c = false;
}.

Lemma held_frame s s' c :
  held s c → frame n s s' → at_chunk n c s' → in_cache (area s') n = false → held s' c.
Proof.
  intros [? ? ? B ? ? ? ?] F Hc Hq. pose proof (frame_env n n s s' c F) as E.
  split; try done; [by eapply frame_sys_ok|].
  destruct B. split; rewrite ?(el_sectors _ _ _ _ E); try done.
  intros r Hr. eapply region_ok_env; eauto.
Qed.

Lemma base_ok_ext s c c' :
  number c' = number c → chunk_sector_count c' = chunk_sector_count c →
  chunk_buffer c' = chunk_buffer c → failed c' = failed c →
  (∀ r, chunk_region c' = Some r → region_ok s r) → base_ok s n c → base_ok s n c'.
Proof. intros E1 E2 E3 E4 Hr [? ? ? ? ? ?]. split; rewrite ?E1, ?E2, ?E3, ?E4; done. Qed.

Lemma data_ok_env s s' wr c : env_le s s' n c → base_ok s n c → data_ok s img wr n c → data_ok s' img wr n c.
Proof.
  intros E B [D1 D2 D3 D4]. split; [|done| |].
  - intros Hr. destruct (D1 Hr) as (b & Hb & Ha). exists b. split; [done|]. by eapply env_agree.
  - intros Hst. destruct (D3 Hst) as (r & Hr & Ha). exists r. split; [done|]. intros Hd Hw.
    eapply env_agree_ext; [exact E| |by apply Ha]. intros i Hi Hx. apply E; [done|].
    pose proof (region_bytes_ok _ _ _ _ B Hr). lia.
  - intros Hd Hst Hw. eapply env_agree_ext; [exact E| |by apply D4].
    intros i Hi Hx. apply E; [unfold safe; by rewrite Hd, Hst|done|done].
Qed.

(** The data invariant looks at four bits and two pointers. *)
Lemma data_ok_ext s wr c c' :
  chunk_sector_count c' = chunk_sector_count c → chunk_buffer c' = chunk_buffer c →
  ready c' = ready c → dirty c' = dirty c → stored c' = stored c →
  (stored c = true → chunk_region c' = chunk_region c) →
  data_ok s img wr n c → data_ok s img wr n c'.
Proof.
  intros E1 E2 E3 E4 E5 E6 [D1 D2 D3 D4].
  assert (Ha : ∀ f, agree s img n c f → agree s img n c' f).
  { intros f H i Hi. unfold chunk_len in Hi. rewrite E1 in Hi. by apply H. }
  split; rewrite ?E2, ?E3, ?E4, ?E5; [| done| |].
  - intros Hr. destruct (D1 Hr) as (b & ? & ?). eauto.
  - intros Hs. rewrite E6 by done. destruct (D3 Hs) as (r & ? & ?). eauto 6.
  - auto.
Qed.

Context {RC : RegionContract diff_storage_new_region}.

(** Starting to store a chunk whose buffer holds its data. *)
Lemma store_chunk_spec nw c s :
  held s c → data_ok s img false n c → ready c = true → (stored c = true → dirty c = true) →
  wp (chunk_schedule_storing n nw) s (λ ret s',
    local n s s' ∧
    ((ret < 0 ∧ ∃ c' b, at_chunk n c' s' ∧ chunk_buffer c' = Some b ∧ buffer_wf (sectors s) b) ∨
     (ret = 0 ∧ ∃ c', at_chunk n c' s' ∧ chunk_ok s' img None n c' ∧ lock c' = true ∧
        safe c' = safe c ∧ psafe c' = true))).
Proof.
  intros [Hc Hs Hq B Hl Hio Hld Hst] D Hr Hsdt. destruct (do_ready _ _ _ _ _ D Hr) as (b & Hb & Ha).
  pose proof (bo_buffer _ _ _ B b Hb) as Hbw.
  wp_call schedule_storing_spec; [exact _|exact Hc|done|done|exact Hb|done|apply B|].
  intros ret s' (L & [(Hneg & c' & Hc' & Hb')|(-> & io & r & Hrg & Hio' & Hc' & Hr')]);
    (split; [done|]); [left; eauto 7|]. right. split; [done|].
  pose proof (frame_env n n s s' c (lo_frame _ _ _ L)) as E.
  eexists. split; [exact Hc'|]. destruct Hio' as [I1 I2 I3 I4 I5 I6 I7].
  assert (Hdr : ∀ r0, chunk_region c = Some r0 → r0 = r) by (destruct Hr'; congruence).
  assert (B' : base_ok s' n c).
  { destruct B. split; rewrite ?(el_sectors _ _ _ _ E); try done.
    intros r0 Hr0. eapply region_ok_env; eauto. }
  split_and!.
  - split.
    + apply (base_ok_ext s' c); try done; [by bits|]. by intros r0 [= <-].
    + apply (data_ok_ext s' _ c); try done; try (by bits).
      * intros Hsd. destruct (do_stored _ _ _ _ _ D Hsd) as (r0 & Hr0 & _).
        cbn. rewrite Hr0. by rewrite (Hdr r0 Hr0).
      * by eapply data_ok_env.
    + eapply (busy_store _ _ _ _ io b r); try done; try (by bits).
      * split; try done; [|by apply I4]. rewrite I7. symmetry. by apply bool_decide_eq_false.
      * intros _ i Hi Hp. exfalso. apply Hp. by apply I4.
  - done.
  - unfold safe. by bits.
  - unfold psafe. simpl. by rewrite orb_true_r.
Qed.

(** ... and the callers' reaction to a failure. *)
Lemma store_or_fail_spec nw c s :
  held s c → data_ok s img false n c → ready c = true → (stored c = true → dirty c = true) →
  wp (ret ← chunk_schedule_storing n nw;
      when (negb (ret =? 0)) (chunk_store_failed n ret)) s
     (λ _ s', kept img None n (λ c', safe c' = safe c ∧ psafe c' = true) s s').
Proof.
  intros H D Hr Hsdt. wp_step. eapply wp_mono; [by apply store_chunk_spec|].
  intros ret s1 (L1 & [(Hneg & c1 & b & H1 & Hb & Hbw)|(-> & c1 & H1 & K & Hl & Hsf & Hps)]).
  - unfold when. rewrite (proj2 (Z.eqb_neq _ _)) by lia. simpl.
    pose proof (frame_sectors _ _ _ (lo_frame _ _ _ L1)) as Es.
    wp_call (store_failed_spec n ret c1); [exact H1|eapply frame_sys_ok; [apply L1|apply H]| |lia|].
    + rewrite Hb, Es. by intros ? [= <-].
    + intros _ s2 [F Hx]. apply kept_corrupted; [|done]. by rewrite (lo_frame _ _ _ L1).
  - change (when (negb (0 =? 0)) (chunk_store_failed n 0)) with (@skip sys). wp_steps.
    split; [apply L1|]. right. exists c1. split; [done|]. split; [done|].
    rewrite (lo_cache _ _ _ L1), (he_cache _ _ H). done.
Qed.

(** *** The callbacks of requests *)

Lemma take_io_error_spec c s io :
  at_chunk n c s → chunk_io c = Some io →
  wp (take_io_error n) s (λ e s',
    e = error io ∧ local n s s' ∧ storage s' = storage s ∧
    at_chunk n {| c with chunk_io := None |} s').
Proof.
  intros Hc Hio. unfold take_io_error. wp_step. apply (wp_getc _ _ _ _ Hc). rewrite Hio. wp_step.
  eapply (wp_kern n _ _ _ (λ _, True)); [exact Hc|by wp_steps|]. intros [] s1 L1 H1 St1 _ _ _.
  wp_step. apply (wp_modc _ _ _ _ _ H1); [done|]. intros s2 L2 H2 St2 _. wp_steps.
  split; [done|]. split; [by rewrite L1|]. split; [congruence|done].
Qed.

Lemma kept_pending rl Q s s' :
  kept img rl n Q s s' → wp pending_io_dec s' (λ _ s'', kept img rl n Q s s'').
Proof.
  intros [F H]. unfold pending_io_dec, on_area. wp_steps.
  assert (G : frame n s' {| s' with area :=
    let a := area s' in {| a with pending_io_count := pending_io_count a - 1 |} |}).
  { split; simpl; try done. intros c' r ? ?. left. eauto. }
  split; [by rewrite F|]. simpl. destruct H as [H|(c' & Hc' & K & Hq & Hs)]; [by left|].
  right. exists c'. split; [done|]. split; [|done]. eapply chunk_ok_env; [|exact K].
  exact (frame_env n n _ _ c' G).
Qed.

(** Failing the chunk with an error. *)
Lemma fail_spec rl Q e c s0 s :
  frame n s0 s → at_chunk n c s → sys_ok s →
  (∀ b, chunk_buffer c = Some b → buffer_wf (sectors s) b) → e ≠ 0 →
  wp (chunk_store_failed n e) s (λ _ s', kept img rl n Q s0 s').
Proof.
  intros F Hc Hs Hb He. wp_call (store_failed_spec n e c); [done..|].
  intros _ s' [F' Hx]. apply kept_corrupted; [by rewrite F|done].
Qed.

Lemma sys_ok_local s s' : local n s s' → sys_ok s → sys_ok s'.
Proof. intros L. eapply frame_sys_ok, L. Qed.

Lemma base_ok_env s s' c : env_le s s' n c → base_ok s n c → base_ok s' n c.
Proof.
  intros E []. split; rewrite ?(el_sectors _ _ _ _ E); try done.
  intros r Hr. eapply region_ok_env; eauto.
Qed.

(** Both callbacks end with [pending_io_dec]. *)
Lemma wp_callback_end {A} (m : AM A) rl Q s0 s :
  wp m s (λ _ s', kept img rl n Q s0 s') →
  wp (m;; pending_io_dec) s (λ _ s', kept img rl n Q s0 s').
Proof. intros H. wp_step. eapply wp_mono; [exact H|]. intros a s2 H2. by apply kept_pending. Qed.

Lemma notify_load_spec c s io :
  at_chunk n c s → sys_ok s → in_cache (area s) n = false → chunk_ok s img None n c →
  chunk_io c = Some io → notify io = Some fn_chunk_notify_load → io_notified io = true →
  wp (chunk_notify_load n) s (λ _ s', kept img None n (keeps c) s s').
Proof.
  intros Hc Hs Hq [B D U] Hio Hfn Hnt.
  inversion U as [| |io' b Hl Hi Hld Hst Hrd Hdt Hsd Hok Hb Hbuf Eio|io' b r Hl Hi Hld Hst Hrd Hsd Hrg Hb Hok];
    [congruence| |destruct Hok; congruence].
  rewrite Hio in Hi. injection Hi as <-.
  unfold chunk_notify_load. wp_step.
  eapply wp_mono; [by eapply take_io_error_spec|]. intros e s1 (-> & L1 & St1 & H1).
  apply wp_callback_end. pose proof (frame_sectors _ _ _ (lo_frame _ _ _ L1)) as Es.
  wp_if Ee; bool_hyps.
  { eapply fail_spec; [apply L1|exact H1|by eapply sys_ok_local| |done]. rewrite Es. apply B. }
  wp_step. apply (wp_getc _ _ _ _ H1). rewrite check_failed, check_loading.
  replace (failed _) with (failed c) by done. rewrite (bo_failed _ _ _ B).
  replace (loading _) with (loading c) by done. rewrite Hld. wp_step.
  apply (wp_modc _ _ _ _ _ H1); [done|]. intros s2 L2 H2 St2 _. wp_step.
  apply (wp_modc _ _ _ _ _ H2); [done|]. intros s3 L3 H3 St3 _.
  assert (L : local n s s3) by (by rewrite L1, L2, L3). clear L1 L2 L3 H1 H2 Es.
  pose proof (frame_env n n s s3 c (lo_frame _ _ _ L)) as E.
  pose proof (bo_failed _ _ _ B) as Hfl.
  set (c3 := chunk_state_set _ _) in H3.
  assert (ready c3 = true ∧ dirty c3 = false ∧ stored c3 = false ∧ loading c3 = false ∧
    storing c3 = false ∧ failed c3 = false) as (R3 & T3 & S3 & LD3 & SG3 & F3).
  { unfold c3. split_and!; bits; done. }
  eapply wp_mono; [apply (store_or_fail_spec false c3 s3)|].
  - split; try done; [by eapply sys_ok_local|by rewrite (lo_cache _ _ _ L)|].
    apply (base_ok_ext s3 c); try done; [by rewrite F3| |by eapply base_ok_env].
    intros r Hr. eapply region_ok_env; [exact E|]. by apply B.
  - split; rewrite ?R3, ?T3, ?S3; try done.
    + intros _. exists b. split; [done|]. apply (env_agree s s3 img n c); [done|].
      intros i Hi Hx. apply Hbuf; try done. unfold pending. destruct Hok as [_ _ Hx' _].
      rewrite Hnt in Hx'. symmetry in Hx'. apply bool_decide_eq_true in Hx'. rewrite Hx'.
      by intros ?%Exists_nil.
    + intros _ _ _. exact (do_orig _ _ _ _ _ (data_ok_env s s3 false c E B D) Hdt Hsd eq_refl).
  - done.
  - by rewrite S3.
  - intros [] s4 K. eapply kept_mono; [apply L|exact K|]. intros c' [Hsf Hps]. split; [|done].
    unfold safe at 1. by rewrite Hdt, Hsd.
Qed.

(** A chunk that nobody uses, whose data is in its region. *)
Lemma stored_ok s c r :
  base_ok s n c → lock c = false → chunk_io c = None → loading c = false → storing c = false →
  ready c = false → dirty c = false → stored c = true → chunk_region c = Some r →
  agree s img n c (on_region s r) → chunk_ok s img None n c.
Proof.
  intros B Hl Hio Hld Hsg Hr Hd Hst Hrg Ha. split; [done| |by apply busy_idle].
  split; rewrite ?Hr, ?Hd, ?Hst; try done. eauto.
Qed.

(** The chunk [c3] has just been stored in [r]: its buffer is released ... *)
Lemma stored_release_spec c3 s0 s3 b r :
  local n s0 s3 → at_chunk n c3 s3 → sys_ok s3 → base_ok s3 n c3 → in_cache (area s0) n = false →
  chunk_io c3 = None → chunk_buffer c3 = Some b → chunk_region c3 = Some r →
  stored c3 = true → loading c3 = false → storing c3 = false →
  agree s3 img n c3 (on_region s3 r) →
  wp (modc n (chunk_state_unset CHUNK_ST_DIRTY);; chunk_diff_buffer_release n;; up n) s3
     (λ _ s', kept img None n (λ c', stored c' = true) s0 s').
Proof.
  intros L H3 Hs B Hq Hio Hb Hrg S3 LD3 SG3 Ha. pose proof (bo_failed _ _ _ B) as F3.
  wp_step. apply (wp_modc _ _ _ _ _ H3); [done|]. intros s4 L4 H4 St4 _. wp_step.
  set (c4 := chunk_state_unset _ _) in H4.
  eapply wp_mono; [apply (buffer_release_spec n c4 s4 H4); [by eapply sys_ok_local|]|].
  { rewrite (frame_sectors _ _ _ (lo_frame _ _ _ L4)). apply B. }
  intros [] s5 (L5 & St5 & H5). apply (wp_up _ _ _ _ H5). intros s6 L6 H6 St6 _.
  assert (L36 : local n s3 s6) by (by rewrite L4, L5, L6).
  assert (L06 : local n s0 s6) by (by rewrite L). clear L4 L5 L6.
  pose proof (frame_env n n s3 s6 c3 (lo_frame _ _ _ L36)) as E.
  split; [apply L06|]. right. eexists. split; [exact H6|].
  replace (no_buffer c4) with (let c' := chunk_state_unset CHUNK_ST_BUFFER_READY c4 in
    {| c' with chunk_buffer := None |})
    by (unfold no_buffer; change (chunk_buffer c4) with (chunk_buffer c3); by rewrite Hb).
  set (c6 := Chunk _ _ _ _ _ _ _).
  assert (stored c6 = true ∧ ready c6 = false ∧ dirty c6 = false ∧ loading c6 = false ∧
    storing c6 = false ∧ failed c6 = false) as (S6 & R6 & D6 & LD6 & SG6 & F6).
  { unfold c6, c4. split_and!; bits; done. }
  split; [|split; [by rewrite (lo_cache _ _ _ L06), Hq|done]].
  apply (stored_ok _ _ r); try done.
  - pose proof (base_ok_env _ _ _ E B) as []. by split.
  - eapply (env_agree_ext s3 s6 img n c3); [done| |exact Ha]. intros i Hi Hx. apply E; [done|].
    pose proof (region_bytes_ok _ _ _ _ B Hrg). lia.
Qed.

(** ... or kept in the cache. *)
Lemma stored_cache_spec c3 s0 s3 b r :
  frame n s0 s3 → at_chunk n c3 s3 → in_cache (area s3) n = false → base_ok s3 n c3 →
  chunk_io c3 = None → chunk_buffer c3 = Some b → chunk_region c3 = Some r →
  ready c3 = true → dirty c3 = false → stored c3 = true → loading c3 = false → storing c3 = false →
  agree s3 img n c3 (buf_at b) → agree s3 img n c3 (on_region s3 r) →
  wp (chunk_schedule_caching n) s3 (λ _ s', kept img None n (λ c', stored c' = true) s0 s').
Proof.
  intros F0 H3 Hq B Hio Hb Hrg R3 T3 S3 LD3 SG3 Ha Hreg.
  eapply wp_mono; [apply (schedule_caching_spec n c3 s3 H3 Hq)|].
  intros [] s4 (F4 & _ & St4 & H4 & _). assert (F : frame n s0 s4) by (by rewrite F0).
  pose proof (frame_env n n s3 s4 c3 F4) as E. split; [done|]. right. eexists. split; [exact H4|].
  split; [|done]. split; [| |by apply busy_idle].
  - pose proof (base_ok_env _ _ _ E B) as []. by split.
  - split.
    + intros _. exists b. split; [done|]. by apply (env_agree s3 s4 img n c3).
    + by change (dirty (set_lock false c3)) with (dirty c3); rewrite T3.
    + intros _. exists r. split; [done|]. intros _ _.
      eapply (env_agree_ext s3 s4 img n c3); [done| |exact Hreg]. intros i Hi Hx.
      apply E; [done|]. pose proof (region_bytes_ok _ _ _ _ B Hrg). lia.
    + intros _. by change (stored (set_lock false c3)) with (stored c3); rewrite S3.
Qed.

Lemma notify_store_spec c s io :
  at_chunk n c s → sys_ok s → in_cache (area s) n = false → chunk_ok s img None n c →
  chunk_io c = Some io → notify io = Some fn_chunk_notify_store → io_notified io = true →
  wp (chunk_notify_store n) s (λ _ s', kept img None n (keeps c) s s').
Proof.
  intros Hc Hs Hq [B D U] Hio Hfn Hnt.
  inversion U as [| |io' b Hl Hi Hld Hst Hrd Hdt Hsd Hok Hb Hbuf Eio
                 |io' b r Hl Hi Hld Hst Hrd Hsd Hrg Hb Hok Hbuf Eio];
    [congruence|destruct Hok; congruence|].
  rewrite Hio in Hi. injection Hi as <-.
  unfold chunk_notify_store. wp_step.
  eapply wp_mono; [by eapply take_io_error_spec|]. intros e s1 (-> & L1 & St1 & H1).
  apply wp_callback_end. pose proof (frame_sectors _ _ _ (lo_frame _ _ _ L1)) as Es.
  wp_if Ee; bool_hyps.
  { eapply fail_spec; [apply L1|exact H1|by eapply sys_ok_local| |done]. rewrite Es. apply B. }
  wp_step. apply (wp_getc _ _ _ _ H1). rewrite check_failed, check_storing.
  replace (failed _) with (failed c) by done. rewrite (bo_failed _ _ _ B).
  replace (storing _) with (storing c) by done. rewrite Hst. wp_step.
  apply (wp_modc _ _ _ _ _ H1); [done|]. intros s2 L2 H2 St2 _. wp_step.
  apply (wp_modc _ _ _ _ _ H2); [done|]. intros s3 L3 H3 St3 _.
  assert (L : local n s s3) by (by rewrite L1, L2, L3). clear L1 L2 L3 H1 H2 Es.
  pose proof (bo_failed _ _ _ B) as Hfl. pose proof (frame_env n n s s3 c (lo_frame _ _ _ L)) as E.
  set (c3 := chunk_state_set _ _) in H3.
  assert (ready c3 = true ∧ dirty c3 = dirty c ∧ stored c3 = true ∧ loading c3 = false ∧
    storing c3 = false ∧ failed c3 = false) as (R3 & T3 & S3 & LD3 & SG3 & F3).
  { unfold c3. split_and!; bits; done. }
  destruct (do_ready _ _ _ _ _ D Hrd) as (b' & Hb' & Ha). rewrite Hb in Hb'. injection Hb' as <-.
  assert (Hreg : agree s img n c (on_region s r)).
  { intros i Hi Hx. rewrite <- (Ha i Hi Hx). pose proof (region_bytes_ok _ _ _ _ B Hrg).
    apply Hbuf; [done|lia|]. unfold pending. destruct Hok as [_ _ Hx' _]. rewrite Hnt in Hx'.
    symmetry in Hx'. apply bool_decide_eq_true in Hx'. rewrite Hx'. by intros ?%Exists_nil. }
  assert (Hreg3 : agree s3 img n c3 (on_region s3 r)).
  { eapply (env_agree_ext s s3 img n c); [done| |exact Hreg]. intros i Hi Hx. apply E; [done|].
    pose proof (region_bytes_ok _ _ _ _ B Hrg). lia. }
  assert (B3 : base_ok s3 n c3) by (pose proof (base_ok_env _ _ _ E B) as []; by split).
  assert (Hkeep : ∀ s', kept img None n (λ c', stored c' = true) s s' →
                        kept img None n (keeps c) s s').
  { intros s' K. eapply kept_mono; [reflexivity|exact K|]. intros c' Hx.
    unfold keeps, psafe, safe. rewrite Hx, orb_true_r. done. }
  wp_step. apply (wp_getc _ _ _ _ H3). rewrite check_dirty, T3. destruct (dirty c) eqn:Hd.
  - eapply wp_mono; [eapply (stored_release_spec c3 s s3 b r); try done; by eapply sys_ok_local|].
    intros []. exact Hkeep.
  - eapply wp_mono; [eapply (stored_cache_spec c3 s s3 b r); try done|].
    + apply L.
    + by rewrite (lo_cache _ _ _ L).
    + by apply (env_agree s s3 img n c).
    + intros []. exact Hkeep.
Qed.

(** *** Taking the semaphore *)

(** Before a step: the chunk is in order, and cached chunks are idle. *)
Record chunk_pre (rl : option bool) (s : sys) (c : chunk) : Prop := {
  cp_at : at_chunk n c s;
  cp_sys : sys_ok s;
  cp_ok : chunk_ok s img rl n c;
  cp_cache : in_cache (area s) n = true → lock c = false ∧ ready c = true;
}.

Lemma chunk_unlocked rl s c :
  chunk_ok s img rl n c → lock c = false →
  rl = None ∧ chunk_io c = None ∧ loading c = false ∧ storing c = false.
Proof. intros [_ _ U] Hl. inversion U; congruence || done. Qed.

(** Nothing happened to the chunk. *)
Lemma kept_same rl s s' c Q :
  chunk_pre rl s c → local n s s' → at_chunk n c s' → Q c → kept img rl n Q s s'.
Proof.
  intros [Hc Hs K Hq] L H' HQ. split; [apply L|]. right. exists c. split; [done|].
  split; [eapply chunk_ok_env; [apply (frame_env n n), L|done]|].
  split; [by rewrite (lo_cache _ _ _ L)|done].
Qed.

Lemma relock c : lock c = false → set_lock false (set_lock true c) = c.
Proof. by destruct c; simpl; intros ->. Qed.

(** The chunk after its semaphore was taken. *)
Lemma held_locked s s' c :
  chunk_pre None s c → lock c = false → frame n s s' → at_chunk n (set_lock true c) s' →
  in_cache (area s') n = false → held s' (set_lock true c) ∧ data_ok s' img false n (set_lock true c).
Proof.
  intros [Hc Hs K Hq] Hl F H' Hi. destruct (chunk_unlocked _ _ _ K Hl) as (_ & Hio & Hld & Hsg).
  destruct K as [B D U]. pose proof (frame_env n n s s' c F) as E.
  pose proof (base_ok_env _ _ _ E B) as B'. split.
  - split; try done; [by eapply frame_sys_ok|]. destruct B'. by split.
  - apply (data_ok_ext s' false c); try done. by eapply data_ok_env.
Qed.

Definition would_block (t : turn) : Prop :=
  t = Sleep ∨ t = Return (- EAGAIN) ∨ t = Return (- EINTR).

Lemma lock_turn_spec nw body c s (Q : turn → sys → Prop) :
  at_chunk n c s →
  (lock c = true → ∀ t s', local n s s' → at_chunk n c s' → would_block t → Q t s') →
  (lock c = false → ∀ s', local n s s' → at_chunk n (set_lock true c) s' → wp body s' Q) →
  wp (lock_turn n nw body) s Q.
Proof.
  intros Hc Hlk Hfr. unfold lock_turn, would_block in *. destruct nw; wp_step.
  - eapply wp_mono; [apply (down_trylock_spec _ _ _ Hc)|]. intros r s1.
    destruct (lock c) eqn:El.
    + intros [-> ->]. simpl. wp_steps. apply Hlk; [done|reflexivity|done|auto].
    + intros (-> & L1 & _ & H1). simpl. by apply Hfr.
  - eapply wp_mono; [apply (down_killable_spec _ _ _ Hc)|]. intros r s1 (L1 & _ & Hr).
    destruct (lock c) eqn:El.
    + destruct Hr as [Hr Ea]. assert (at_chunk n c s1) by (unfold at_chunk; by rewrite Ea).
      destruct Hr as [->| ->]; simpl; wp_steps; apply Hlk; auto.
    + destruct Hr as [-> H1]. simpl. by apply Hfr.
Qed.

(** *** Copy-on-write of one chunk *)

(** How a turn of [diff_area_copy] may end: the chunk is or will be safe, or
    the task could not get it, or the area is corrupted. *)
Definition turn_post (rl : option bool) (c : chunk) (goal : chunk → bool) (s : sys) (t : turn)
    (s' : sys) : Prop :=
  kept img rl n (λ c', keeps c c' ∧ (t = Continue → goal c' = true)) s s' ∧
  (would_block t ∨ t = Continue ∨ corrupt_flag (area s') = true).

Lemma copy_fail_spec rl goal c0 e c s0 s :
  frame n s0 s → at_chunk n c s → sys_ok s →
  (∀ b, chunk_buffer c = Some b → buffer_wf (sectors s) b) → e ≠ 0 →
  wp (copy_fail n e) s (turn_post rl c0 goal s0).
Proof.
  intros F Hc Hs Hb He. unfold copy_fail. wp_step. wp_call (store_failed_spec n e c); [done..|].
  intros [] s' [F' Hx]. wp_steps. split; [|by right; right].
  apply kept_corrupted; [by rewrite F|done].
Qed.

Lemma copy_stored_spec nw c s0 s :
  frame n s0 s → held s c → data_ok s img false n c → ready c = true → stored c = false → ∀ c0,
  keeps c0 c →
  wp (ret ← chunk_schedule_storing n nw; if negb (ret =? 0) then copy_fail n ret else mret Continue)
     s (turn_post None c0 psafe s0).
Proof.
  intros F H D Hr Hsd c0 Hk. wp_step.
  eapply wp_mono; [apply store_chunk_spec; try done; by rewrite Hsd|].
  intros ret s1 (L1 & [(Hneg & c1 & b & H1 & Hb & Hbw)|(-> & c1 & H1 & K & Hl & Hsf & Hps)]).
  - rewrite (proj2 (Z.eqb_neq _ _)) by lia. simpl.
    pose proof (frame_sectors _ _ _ (lo_frame _ _ _ L1)) as Es.
    eapply copy_fail_spec; [by rewrite F; apply L1|exact H1|eapply sys_ok_local; [done|apply H]| |lia].
    rewrite Hb, Es. by intros ? [= <-].
  - simpl. wp_steps. split; [|by right; left]. split; [by rewrite F; apply L1|]. right. exists c1.
    rewrite (lo_cache _ _ _ L1), (he_cache _ _ H). split_and!; try done.
    destruct Hk as [Hk1 Hk2]. split; [by rewrite Hsf|done].
Qed.

(** Starting to load a chunk into a fresh buffer. *)
Lemma copy_load_spec nw c b s0 s :
  frame n s0 s → held s c → data_ok s img false n c → ready c = false → dirty c = false →
  stored c = false → buffer_wf (sectors s) b →
  wp (modc n (λ c, {| c with chunk_buffer := Some b |});;
      ret ← chunk_async_load_orig n nw;
      if negb (ret =? 0) then copy_fail n ret else mret Continue) s
     (turn_post None c psafe s0).
Proof.
  intros F [Hc Hs Hq B Hl Hio Hld Hst] D Hr Hd Hsd Hbw. wp_step.
  apply (wp_modc _ _ _ _ _ Hc); [done|]. intros s1 L1 H1 St1 _. wp_step.
  pose proof (frame_sectors _ _ _ (lo_frame _ _ _ L1)) as E1. pose proof (sys_ok_local _ _ L1 Hs) as Hs1.
  eapply wp_mono; [apply (async_load_spec n nw _ _ b H1 Hs1); [|done|by rewrite E1]|].
  { rewrite E1. apply B. }
  intros ret s2 (L2 & St2 & [(Hneg & c2 & H2 & Hb2)|(-> & io & Hio2 & H2)]).
  - rewrite (proj2 (Z.eqb_neq _ _)) by lia. simpl. pose proof (frame_sectors _ _ _ (lo_frame _ _ _ L2)) as E2.
    eapply copy_fail_spec; [by rewrite F, (lo_frame _ _ _ L1); apply L2|exact H2
      |by eapply sys_ok_local| |lia]. rewrite Hb2, E2, E1. by intros ? [= <-].
  - simpl. wp_steps. split; [|by right; left].
    assert (L : local n s s2) by (by rewrite L1).
    split; [by rewrite F; apply L|]. right. eexists. split; [exact H2|].
    pose proof (frame_env n n s s2 c (lo_frame _ _ _ L)) as E.
    pose proof (base_ok_env _ _ _ E B) as B2. pose proof (bo_failed _ _ _ B) as Hfl.
    rewrite (lo_cache _ _ _ L), Hq. split_and!; try done.
    + set (c2 := set_io _ _ _).
      assert (ready c2 = false ∧ dirty c2 = false ∧ stored c2 = false ∧ loading c2 = true ∧
        storing c2 = false ∧ failed c2 = false) as (R2 & T2 & S2 & LD2 & SG2 & F2).
      { unfold c2. split_and!; bits; done. }
      destruct Hio2 as [I1 I2 I3 I4 I5 I6 I7].
      assert (Eor : orig_region (area s2) c2 = orig_region (area s1) {| c with chunk_buffer := Some b |}).
      { unfold orig_region. rewrite (fr_bdev _ _ _ (lo_frame _ _ _ L2)).
        by rewrite (frame_sectors _ _ _ (lo_frame _ _ _ L2)). }
      split.
      * destruct B2. split; try done. rewrite (el_sectors _ _ _ _ E).
        cbn. by intros ? [= <-].
      * split; rewrite ?R2, ?T2, ?S2; try done. intros _ _ _.
        exact (do_orig _ _ _ _ _ (data_ok_env s s2 false c E B D) Hd Hsd eq_refl).
      * eapply (busy_load _ _ _ c2 io b); try done; rewrite ?Eor.
        -- split; try done; [|by apply I4]. rewrite I7. symmetry. by apply bool_decide_eq_false.
        -- intros _ i Hi Hx Hp. exfalso. apply Hp. apply I4. done.
    + split; [unfold safe; by rewrite Hd, Hsd|]. intros _. unfold psafe. by rewrite orb_true_r.
    + intros _. unfold psafe. by rewrite orb_true_r.
Qed.

Lemma keeps_refl c : keeps c c.
Proof. done. Qed.

Lemma keeps_bits c c' :
  dirty c' = dirty c → stored c' = stored c → chunk_io c = None → keeps c c'.
Proof.
  intros E1 E2 Hio. unfold keeps, psafe, safe. rewrite E1, E2, Hio. split; [done|].
  rewrite bool_decide_eq_false_2, orb_false_r by (by intros []). by intros ->.
Qed.

Lemma keeps_lock l c c' : keeps (set_lock l c) c' → keeps c c'.
Proof. done. Qed.

Lemma turn_post_lock l rl c goal s t s' :
  turn_post rl (set_lock l c) goal s t s' → turn_post rl c goal s t s'.
Proof. done. Qed.

(** A task gives the semaphore back without having done anything. *)
Lemma unlock_spec {A} (r : A) c s0 s (Q : A → sys → Prop) :
  chunk_pre None s0 c → lock c = false → local n s0 s → at_chunk n (set_lock true c) s →
  (∀ s', local n s0 s' → at_chunk n c s' → Q r s') →
  wp (up n;; mret r) s Q.
Proof.
  intros Hp Hl L Hc HQ. wp_step. apply (wp_up _ _ _ _ Hc). intros s1 L1 H1 St1 _. wp_steps.
  apply HQ; [by rewrite L|].
  change (at_chunk n (set_lock false (set_lock true c)) s1) in H1. by rewrite (relock c Hl) in H1.
Qed.

Lemma copy_locked_spec nw c s0 s :
  chunk_pre None s0 c → lock c = false → local n s0 s → at_chunk n (set_lock true c) s →
  wp (copy_locked n nw) s (turn_post None c psafe s0).
Proof.
  intros Hp Hl L Hc. pose proof Hp as [_ Hs0 K Hq0].
  pose proof (bo_failed _ _ _ (co_base _ _ _ _ _ K)) as Hfl.
  destruct (chunk_unlocked _ _ _ K Hl) as (_ & Hio & Hld & Hsg).
  unfold copy_locked. wp_step. apply (wp_getc _ _ _ _ Hc). autorewrite with bits.
  change (failed (set_lock true c)) with (failed c). change (dirty (set_lock true c)) with (dirty c).
  change (stored (set_lock true c)) with (stored c). change (ready (set_lock true c)) with (ready c).
  change (loading (set_lock true c)) with (loading c). change (storing (set_lock true c)) with (storing c).
  rewrite Hfl, Hld, Hsg. simpl (false || _). destruct (dirty c || stored c) eqn:Esf.
  { eapply unlock_spec; [exact Hp|done|exact L|done|]. intros s1 L1 H1. split; [|by right; left].
    eapply kept_same; [done..|]. split; [apply keeps_refl|]. intros _. unfold psafe, safe. by rewrite Esf. }
  apply orb_false_iff in Esf as [Hd Hsd]. destruct (ready c) eqn:Hr.
  - wp_step. eapply wp_mono; [apply (take_from_cache_spec n _ _ Hc)|].
    intros [] s1 (F1 & C1 & St1 & H1 & Q1).
    assert (F01 : frame n s0 s1) by (by rewrite (lo_frame _ _ _ L)).
    destruct (held_locked s0 s1 c) as [H D]; [done..|].
    eapply wp_mono; [by eapply (copy_stored_spec nw _ s0 s1 F01 H D Hr Hsd (set_lock true c)), keeps_refl|].
    intros t s2. apply turn_post_lock.
  - assert (Hq : in_cache (area s) n = false).
    { rewrite (lo_cache _ _ _ L). destruct (in_cache (area s0) n); [|done].
      destruct (Hq0 eq_refl). congruence. }
    destruct (held_locked s0 s c) as [H D]; [done|done|apply L|done|done|].
    pose proof (sys_ok_local _ _ L Hs0) as Hs. pose proof (sectors_pow2 s Hs) as [_ Hcs].
    wp_step. apply wp_area. wp_step.
    eapply (wp_kern n _ _ _ (λ '(b, p), pool_wf (sectors s) p ∧
      match b with Ok b => buffer_wf (sectors s) b | Err e => e < 0 end)); [exact Hc| |].
    { wp_call diff_buffer_take_spec; [apply Hs|lia|]. intros [b p] w' (Hqt & Hpl & Hb).
      split; [by destruct Hqt|]. split; [done|]. destruct b; [done|]. subst. by destruct nw. }
    intros [b p] s1 L1 H1 St1 _ Ea1 [Hpl Hb]. cbv beta iota. wp_step.
    eapply (wp_on_area n); [exact H1| |].
    { unfold area_quiet. simpl. rewrite Ea1. by split_and!. }
    intros s2 L2 H2 St2 _. assert (L02 : local n s0 s2) by (by rewrite L, L1, L2).
    destruct b as [b|e].
    + destruct (held_locked s0 s2 c) as [H' D']; [done|done|apply L02|done| |].
      { rewrite (lo_cache _ _ _ L2), (lo_cache _ _ _ L1). done. }
      eapply wp_mono; [eapply (copy_load_spec nw _ b s0 s2 (lo_frame _ _ _ L02) H' D'); try done|].
      * by rewrite (frame_sectors _ _ _ (lo_frame _ _ _ L2)), (frame_sectors _ _ _ (lo_frame _ _ _ L1)).
      * intros t s3. apply turn_post_lock.
    + eapply copy_fail_spec; [apply L02|exact H2|by eapply sys_ok_local| |lia].
      rewrite (frame_sectors _ _ _ (lo_frame _ _ _ L02)). apply K.
Qed.

(** C-like shape of a turn: look the chunk up, take its semaphore, go on. *)
Lemma turn_spec rl nw offset c s body goal (f : Z → bool → AM turn) :
  (∀ o, f o nw = a ← gets area;
        let n := chunk_number a o in
        match chunk_map a !! n with
        | None => diff_area_set_corrupted (- EINVAL);; mret (Return (- EINVAL))
        | Some _ => lock_turn n nw (body n)
        end) →
  chunk_number (area s) offset = n → chunk_pre rl s c →
  (lock c = false → rl = None → ∀ s', local n s s' → at_chunk n (set_lock true c) s' →
     wp (body n) s' (turn_post None c goal s)) →
  wp (f offset nw) s (turn_post rl c goal s).
Proof.
  intros Hf Hn Hp Hbody. rewrite Hf. wp_step. apply wp_area. cbv zeta. rewrite Hn.
  pose proof (cp_at _ _ _ Hp) as Hc. pose proof Hc as Hc'. unfold at_chunk in Hc'. rewrite Hc'.
  eapply lock_turn_spec; [exact Hc|intros Hl t s' L H' Hw|intros Hl s' L H'].
  - split; [|by left]. eapply kept_same; [done..|]. split; [apply keeps_refl|].
    destruct Hw as [->|[->| ->]]; done.
  - destruct (chunk_unlocked _ _ _ (cp_ok _ _ _ Hp) Hl) as (-> & _). by apply Hbody.
Qed.

Lemma copy_turn_spec rl nw offset c s :
  chunk_number (area s) offset = n → chunk_pre rl s c →
  wp (copy_turn offset nw) s (turn_post rl c psafe s).
Proof.
  intros Hn Hp. eapply (turn_spec rl nw offset c s (λ n, copy_locked n nw)); [done..|].
  intros Hl -> s' L H'. by apply copy_locked_spec.
Qed.

(** Waiting for a chunk that is or will be safe: when the turn goes on, it is. *)
Lemma wait_turn_spec rl nw offset c s :
  chunk_number (area s) offset = n → chunk_pre rl s c → psafe c = true →
  wp (wait_turn offset nw) s (turn_post rl c safe s).
Proof.
  intros Hn Hp Hps. eapply (turn_spec rl nw offset c s wait_locked); [done..|].
  intros Hl -> s' L H'. pose proof (cp_ok _ _ _ Hp) as K.
  pose proof (bo_failed _ _ _ (co_base _ _ _ _ _ K)) as Hfl.
  destruct (chunk_unlocked _ _ _ K Hl) as (_ & Hio & _ & _).
  unfold psafe in Hps. rewrite Hio, bool_decide_eq_false_2, orb_false_r in Hps by (by intros []).
  unfold wait_locked. wp_step. apply (wp_getc _ _ _ _ H'). autorewrite with bits.
  change (failed (set_lock true c)) with (failed c). change (dirty (set_lock true c)) with (dirty c).
  change (stored (set_lock true c)) with (stored c). change (ready (set_lock true c)) with (ready c).
  rewrite Hfl, <- orb_assoc. fold (safe c). rewrite Hps, orb_true_r.
  eapply unlock_spec; [exact Hp|done|exact L|done|]. intros s1 L1 H1. split; [|by right; left].
  eapply kept_same; [done..|]. split; [apply keeps_refl|done].
Qed.

(** *** The image's accesses *)

Lemma data_ok_weaken s wr c : data_ok s img false n c → data_ok s img wr n c.
Proof. intros [? ? D3 D4]. split; auto. intros Hs. destruct (D3 Hs) as (r & ? & ?). eauto. Qed.

(** The image's task gives a chunk back. *)
Lemma put_chunk_spec wr c s :
  at_chunk n c s → in_cache (area s) n = false → chunk_ok s img (Some wr) n c →
  wp (diff_area_image_put_chunk n wr) s (λ _ s', kept img None n (keeps c) s s' ∧
    corrupt_flag (area s') = corrupt_flag (area s)).
Proof.
  intros Hc Hq [B D U].
  inversion U as [|wr' Hl Hio Hld Hsg Hrd| |]; subst.
  destruct (do_ready _ _ _ _ _ D Hrd) as (b & Hb & Ha).
  assert (Hend : ∀ c1 s1, local n s s1 → at_chunk n c1 s1 → base_ok s1 n c1 → data_ok s1 img false n c1 →
    ready c1 = true → chunk_io c1 = None → loading c1 = false → storing c1 = false → keeps c c1 →
    wp (chunk_schedule_caching n) s1 (λ _ s', kept img None n (keeps c) s s' ∧
      corrupt_flag (area s') = corrupt_flag (area s))).
  { intros c1 s1 L1 H1 B1 D1 R1 I1 LD1 SG1 Hk.
    eapply wp_mono; [apply (schedule_caching_spec n c1 s1 H1); by rewrite (lo_cache _ _ _ L1)|].
    intros [] s2 (F2 & C2 & _ & H2 & _). split; [|by rewrite C2, (lo_corrupt _ _ _ L1)].
    split; [by rewrite (lo_frame _ _ _ L1)|]. right.
    eexists. split; [exact H2|]. split; [|split; [done|by destruct Hk; split]].
    pose proof (frame_env n n s1 s2 c1 F2) as E. split; [| |by apply busy_idle].
    - pose proof (base_ok_env _ _ _ E B1) as []. by split.
    - apply (data_ok_ext s2 false c1); try done. by eapply data_ok_env. }
  unfold diff_area_image_put_chunk. wp_step. destruct wr; cbn [when].
  - apply (wp_modc _ _ _ _ _ Hc); [done|]. intros s1 L1 H1 St1 _.
    pose proof (frame_env n n s s1 c (lo_frame _ _ _ L1)) as E.
    set (c1 := chunk_state_set _ _) in H1. pose proof (bo_failed _ _ _ B) as Hfl.
    assert (ready c1 = true ∧ dirty c1 = true ∧ stored c1 = stored c ∧ loading c1 = false ∧
      storing c1 = false ∧ failed c1 = false) as (R1 & T1 & S1 & LD1 & SG1 & F1).
    { unfold c1. split_and!; bits; done. }
    apply (Hend c1 s1); try done.
    + pose proof (base_ok_env _ _ _ E B) as []. by split.
    + split; rewrite ?R1, ?T1, ?S1; try done.
      * intros _. exists b. split; [done|]. by apply (env_agree s s1 img n c).
      * intros Hsd. destruct (do_stored _ _ _ _ _ D Hsd) as (r & Hr & _). by exists r.
    + unfold keeps, psafe, safe. by rewrite T1.
  - wp_steps. apply (Hend c s); try done.
Qed.

(** The bytes a chunk covers on the original device. *)
Lemma orig_region_base s c :
  base_ok s n c → region_base (orig_region (area s) c) = chunk_base s n ∧
  region_bytes (orig_region (area s) c) = chunk_len c.
Proof.
  intros [Hn [H0 H1] Hc _ _ _]. unfold region_base, region_bytes, chunk_base, chunk_len, orig_region.
  simpl. rewrite Hn, u64_small; [done|]. nia.
Qed.

(** A chunk after its buffer has been loaded, or could not be. *)
Definition loaded_from (s : sys) (c : chunk) (ret : Z) (s' : sys) : Prop :=
  local n s s' ∧
  ∃ c', at_chunk n c' s' ∧ base_ok s' n c' ∧ number c' = number c ∧
    (c' = c ∨ ∃ b, c' = set_buffer b c) ∧
    (ret = 0 → ∃ b, chunk_buffer c' = Some b ∧ agree s' img n c' (buf_at b)).

(** Loading a new buffer from a region that has the contents of the chunk. *)
Lemma load_region_spec s s3 c b r :
  local n s s3 → sys_ok s3 → at_chunk n (set_buffer b c) s3 → base_ok s n c → buffer_wf (sectors s) b →
  0 < dr_count r ≤ sectors s3 → chunk_len c ≤ region_bytes r →
  agree s img n c (λ i, w_disk (kern s) (dr_bdev r) (region_base r + i)) →
  wp (chunk_load_sync n r) s3 (loaded_from s c).
Proof.
  intros L Hs3 H3 B Hb Hcnt Hlen Ha. pose proof (frame_sectors _ _ _ (lo_frame _ _ _ L)) as Es.
  eapply wp_mono; [apply (load_sync_spec n r _ s3 b H3 Hs3); [done| |done]|]; [by rewrite Es|].
  intros ret s4 (L4 & St4 & b' & H4 & Hbw & Hrd'). split; [by rewrite L|]. eexists. split; [exact H4|].
  pose proof (frame_env n n s s4 c) as E4. specialize (E4 ltac:(rewrite (lo_frame _ _ _ L); apply L4)).
  split; [|split; [done|split; [right; exists b'; done|]]].
  - pose proof (base_ok_env _ _ _ E4 B) as []. split; try done.
    intros b0 [= <-]. rewrite (frame_sectors _ _ _ (lo_frame _ _ _ L4)). done.
  - intros Hz. exists b'. split; [done|]. eapply (env_agree_ext s s4 img n c); [exact E4| |exact Ha].
    intros i Hi Hx. rewrite Hrd' by (done || lia). by rewrite (fr_disk _ _ _ (lo_frame _ _ _ L)).
Qed.

(** Loading the buffer of an idle chunk, from its region or from the device. *)
Lemma load_chunk_spec c s :
  held s c → data_ok s img false n c → ready c = false →
  wp (diff_area_load_chunk_from_storage n) s (loaded_from s c).
Proof.
  intros [Hc Hs Hq B Hl Hio Hld Hst] D Hr. unfold diff_area_load_chunk_from_storage.
  wp_step. apply wp_area. wp_step. pose proof (sectors_pow2 s Hs) as [_ Hcs].
  eapply (wp_kern n _ _ _ (λ '(b, p), pool_wf (sectors s) p ∧
    match b with Ok b => buffer_wf (sectors s) b | Err e => e < 0 end)); [exact Hc| |].
  { wp_call diff_buffer_take_spec; [apply Hs|lia|]. intros [b p] w' (Hqt & Hpl & Hb).
    split; [by destruct Hqt|]. split; [done|]. destruct b; [done|]. by subst. }
  intros [b p] s1 L1 H1 St1 _ Ea1 [Hpl Hb]. cbv beta iota. wp_step.
  eapply (wp_on_area n); [exact H1| |].
  { unfold area_quiet. simpl. rewrite Ea1. by split_and!. }
  intros s2 L2 H2 St2 _. assert (L02 : local n s s2) by (by rewrite L1, L2). clear L1 L2 H1.
  destruct b as [b|e]; wp_steps.
  2:{ split; [done|]. exists c. pose proof (frame_env n n s s2 c (lo_frame _ _ _ L02)) as E.
      split_and!; try done; [by eapply base_ok_env|by left|]. intros ->. lia. }
  apply (wp_modc _ _ _ _ _ H2); [done|]. intros s3 L3 H3 St3 _. wp_step.
  apply (wp_getc _ _ _ _ H3). rewrite check_stored. change (stored _) with (stored c) at 1.
  assert (L : local n s s3) by (by rewrite L02). clear L02 L3 H2.
  pose proof (frame_sectors _ _ _ (lo_frame _ _ _ L)) as Es. pose proof (sys_ok_local _ _ L Hs) as Hs3.
  pose proof (frame_env n n s s3 c (lo_frame _ _ _ L)) as E.
  assert (Hload : ∀ r, 0 < dr_count r ≤ sectors s3 → chunk_len c ≤ region_bytes r →
    agree s img n c (λ i, w_disk (kern s) (dr_bdev r) (region_base r + i)) → wp (chunk_load_sync n r) s3 (loaded_from s c)).
  { intros r. by apply (load_region_spec s s3 c b). }
  assert (Hd : dirty c = false).
  { destruct (dirty c) eqn:Hd; [|done]. pose proof (do_dirty _ _ _ _ _ D Hd). congruence. }
  destruct (stored c) eqn:Hsd.
  - destruct (do_stored _ _ _ _ _ D Hsd) as (r & Hrg & Ha). destruct (bo_region _ _ _ B r Hrg) as [Hcnt _].
    unfold chunk_load_diff. wp_step. apply (wp_getc _ _ _ _ H3). cbn [chunk_region set_buffer].
    rewrite Hrg. apply Hload; [lia|by eapply region_bytes_ok|by apply Ha].
  - unfold chunk_load_orig. wp_step. apply wp_area. wp_step. apply (wp_getc _ _ _ _ H3).
    destruct (orig_region_base s c B) as [Eb El]. pose proof (bo_count _ _ _ B).
    assert (Er : orig_region (area s3) {| c with chunk_buffer := Some b |} = orig_region (area s) c).
    { unfold orig_region. by rewrite (fr_bdev _ _ _ (lo_frame _ _ _ L)), Es. }
    rewrite Er. apply Hload; [cbn; lia|lia|]. rewrite Eb.
    exact (do_orig _ _ _ _ _ D Hd Hsd eq_refl).
Qed.

(** A buffer that is not marked as ready changes nothing that is known of the chunk. *)
Lemma loaded_data s s1 c c1 :
  base_ok s n c → data_ok s img false n c → ready c = false → local n s s1 → (c1 = c ∨ ∃ b, c1 = set_buffer b c) →
  data_ok s1 img false n c1.
Proof.
  intros B D Hr L Hc1. pose proof (frame_env n n s s1 c (lo_frame _ _ _ L)) as E.
  assert (D1 : data_ok s1 img false n c) by by eapply data_ok_env.
  destruct Hc1 as [->|[b ->]]; [done|]. destruct D1 as [Q1 Q2 Q3 Q4]. split; try done.
  change (ready (set_buffer b c)) with (ready c). by rewrite Hr.
Qed.

(** The buffer is marked as ready, and the image's task holds the chunk. *)
Lemma mark_loaded_spec wr s c b :
  at_chunk n c s → base_ok s n c → data_ok s img false n c → lock c = true → chunk_io c = None →
  loading c = false → storing c = false → chunk_buffer c = Some b → agree s img n c (buf_at b) →
  wp (modc n (chunk_state_set CHUNK_ST_BUFFER_READY)) s (λ _ s', local n s s' ∧ ∃ c',
    at_chunk n c' s' ∧ chunk_ok s' img (Some wr) n c' ∧ dirty c' = dirty c ∧ stored c' = stored c).
Proof.
  intros Hc B D Hl Hio Hld Hsg Hb Ha. apply (wp_modc _ _ _ _ _ Hc); [done|]. intros s2 L2 H2 St2 _.
  split; [done|]. eexists. split; [exact H2|]. pose proof (frame_env n n s s2 c (lo_frame _ _ _ L2)) as E2.
  set (c2 := chunk_state_set _ _). pose proof (bo_failed _ _ _ B) as Hfl.
  assert (ready c2 = true ∧ dirty c2 = dirty c ∧ stored c2 = stored c ∧ loading c2 = false ∧
    storing c2 = false ∧ failed c2 = false) as (R2 & T2 & S2 & LD2 & SG2 & F2).
  { unfold c2. split_and!; bits; done. }
  split; [|by split]. pose proof (data_ok_env s s2 false c E2 B D) as [Q1 Q2 Q3 Q4].
  split; [| |by apply busy_image].
  - pose proof (base_ok_env _ _ _ E2 B) as []. by split.
  - apply data_ok_weaken. split; rewrite ?T2, ?S2, ?R2; try done.
    intros _. exists b. split; [done|]. by apply (env_agree s s2 img n c).
Qed.

(** The image's task takes a chunk: it fails and the chunk is as idle as it
    was, or the chunk's buffer is there and it holds the semaphore. *)
Lemma get_chunk_locked_spec wr c s0 s :
  chunk_pre None s0 c → lock c = false → local n s0 s → at_chunk n (set_lock true c) s →
  wp (get_chunk_locked n) s (λ r s',
    match r with
    | Err _ => kept img None n (keeps c) s0 s'
    | Ok m => m = n ∧ kept img (Some wr) n (keeps c) s0 s' ∧ in_cache (area s') n = false
    end).
Proof.
  intros Hp Hl L Hc. pose proof Hp as [_ Hs0 K Hq0].
  pose proof (bo_failed _ _ _ (co_base _ _ _ _ _ K)) as Hfl.
  destruct (chunk_unlocked _ _ _ K Hl) as (_ & Hio & Hld & Hsg).
  unfold get_chunk_locked. wp_step. apply (wp_getc _ _ _ _ Hc). autorewrite with bits.
  change (failed (set_lock true c)) with (failed c). change (ready (set_lock true c)) with (ready c).
  rewrite Hfl. destruct (ready c) eqn:Hr; simpl.
  - wp_step. eapply wp_mono; [apply (take_from_cache_spec n _ _ Hc)|].
    intros [] s1 (F1 & C1 & St1 & H1 & Q1). wp_steps.
    assert (F01 : frame n s0 s1) by (by rewrite (lo_frame _ _ _ L)).
    destruct (held_locked s0 s1 c) as [H D]; [done..|]. split; [done|]. split; [|done].
    split; [done|]. right. exists (set_lock true c). split; [done|].
    split; [|split; [by rewrite Q1|exact (keeps_refl c)]].
    split; [apply H|by apply data_ok_weaken|by apply busy_image].
  - assert (Hq : in_cache (area s) n = false).
    { rewrite (lo_cache _ _ _ L). destruct (in_cache (area s0) n); [|done].
      destruct (Hq0 eq_refl). congruence. }
    destruct (held_locked s0 s c) as [H D]; [done|done|apply L|done|done|]. wp_step.
    eapply wp_mono; [by apply load_chunk_spec|].
    intros ret s1 (L1 & c1 & H1 & B1 & Hnum & Hc1 & Hbuf).
    assert (L01 : local n s0 s1) by (by rewrite L).
    assert (D1 : data_ok s1 img false n c1) by (eapply loaded_data; [apply H|done..]).
    assert (Hbits : ready c1 = ready c ∧ dirty c1 = dirty c ∧ stored c1 = stored c ∧
      loading c1 = loading c ∧ storing c1 = storing c ∧ chunk_io c1 = chunk_io c ∧ lock c1 = true ∧
      failed c1 = failed c) by (by destruct Hc1 as [->|[b ->]]).
    destruct Hbits as (R1 & T1 & S1 & LD1 & SG1 & I1 & LK1 & FL1).
    assert (Hk : ∀ c', dirty c' = dirty c1 → stored c' = stored c1 → keeps c c').
    { intros c' E1 E2. apply keeps_bits; [congruence..|done]. }
    wp_if Er; bool_hyps.
    + wp_step. apply (wp_up _ _ _ _ H1). intros s2 L2 H2 St2 _. wp_steps.
      assert (L02 : local n s0 s2) by (by rewrite L01). split; [apply L02|]. right.
      eexists. split; [exact H2|]. pose proof (frame_env n n s1 s2 c1 (lo_frame _ _ _ L2)) as E2.
      split; [|split; [|by apply Hk]].
      * split; [|apply (data_ok_ext s2 false c1); try done; by eapply data_ok_env
               |apply busy_idle; try done; [by rewrite <- Hio|by rewrite <- Hld|by rewrite <- Hsg]].
        pose proof (base_ok_env _ _ _ E2 B1) as []. by split.
      * rewrite (lo_cache _ _ _ L2), (lo_cache _ _ _ L1), Hq. done.
    + destruct (Hbuf Er) as (b & Hb & Ha). wp_step.
      eapply wp_mono; [apply (mark_loaded_spec wr s1 c1 b); try done; congruence|].
      intros [] s2 (L2 & c2 & H2 & K2 & T2 & S2). wp_steps. assert (L02 : local n s0 s2) by (by rewrite L01).
      assert (Hq2 : in_cache (area s2) n = false) by (by rewrite (lo_cache _ _ _ L2), (lo_cache _ _ _ L1)).
      split; [done|]. split; [|done]. split; [apply L02|]. right. exists c2.
      split_and!; [done|done|by rewrite Hq2|by apply Hk].
Qed.
End ops.
