(* ===== verification/Cow.v ===== *)
(** * Copy-on-write as a concurrent protocol

    The tasks that work on one difference area, interleaved: the writers whose
    bios pass the filter (tracker.c, [tracker_submit_bio]), the device that
    completes requests in any order, the work items that run the callbacks and
    the cache release, the worker that serves the snapshot image, and the rest
    of the system. A step is what one task does under a chunk's semaphore. *)
From S2P Require Import Prelude MemoryChecker Kernel Uapi EventQueue DiffBuffer DiffIo DiffStorage.
From S2P Require Import Chunk DiffArea ChunkSpecs CowInv.

(** ** The tasks *)

(** Where a bio that the filter holds is in [tracker_submit_bio]: in the loop of
    [diff_area_copy], in that of [diff_area_wait], or let through. *)
Inductive phase : Type :=
  | PCopy (offset : Z)
  | PWait (offset : Z)
  | PWrite.

(** The bio and the task's [bio_list_on_stack]. *)
Record writer := Writer {
  wr_sector : Z;
  wr_count : Z;
  wr_nowait : bool;
  wr_data : Z → Z;
  wr_phase : phase;
  wr_plug : list Z;
}.

Section params.
Context {P : ModuleParams}.

Definition set_bio_list (l : option (list Z)) : AM unit :=
  on_kern (modify (λ w, {| w with w_bio_list := l |})).

(** [submit_bio_noacct_notrace] on every bio popped from the list. *)
Fixpoint submit_plugged (owners : list Z) : AM unit :=
  match owners with
  | [] => skip
  | n :: owners =>
      modc n (λ c, {| c with chunk_io := (λ io : diff_io, {| io with io_plugged := false |}) <$> chunk_io c |});;
      submit_plugged owners
  end.

(** After an error the bio is refused with [-EAGAIN], and let through with any
    other error. *)
Definition writer_error (w : writer) (ret : Z) : option writer * Z :=
  if ret =? - EAGAIN then (None, ret) else (Some {| w with wr_phase := PWrite |}, ret).

(** One step of the task: what becomes of it ([None] when it has ended) and the
    error it met. *)
Definition writer_turn (w : writer) : AM (option writer * Z) :=
  a ← gets area;
  let step := diff_area_chunk_sectors a in
  let last := wr_sector w + wr_count w in
  match wr_phase w with
  | PCopy offset =>
      if offset <? last then
        set_bio_list (Some (wr_plug w));;
        t ← copy_turn offset (wr_nowait w);
        plug ← gets (λ s, w_bio_list (kern s));
        set_bio_list None;;
        let w := {| w with wr_plug := default [] plug |} in
        mret (match t with
              | Continue => (Some {| w with wr_phase := PCopy (offset + step) |}, 0)
              | Sleep => (Some w, 0)
              | Return ret => writer_error w ret
              end)
      else
        submit_plugged (wr_plug w);;
        mret (Some {| w with wr_phase := PWait (round_down (wr_sector w) step); wr_plug := [] |}, 0)
  | PWait offset =>
      if offset <? last then
        t ← wait_turn offset (wr_nowait w);
        mret (match t with
              | Continue => (Some {| w with wr_phase := PWait (offset + step) |}, 0)
              | Sleep => (Some w, 0)
              | Return ret => writer_error w ret
              end)
      else mret (Some {| w with wr_phase := PWrite |}, 0)
  | PWrite =>
      on_kern (modify (λ k, {| k with w_disk :=
        disk_write (orig_bdev a) (wr_sector w * SECTOR_SIZE) (wr_count w * SECTOR_SIZE)
          (wr_data w) (w_disk k) |}));;
      mret (None, 0)
  end.

(** The device ends the [k]-th outstanding bio of chunk [n] with [status]. *)
Definition bio_end (n : Z) (k : nat) (status : Z) : AM unit :=
  c ← getc n;
  match chunk_io c, chunk_buffer c with
  | Some io, Some b =>
      match io_bios io !! k with
      | Some bi =>
          pages ← on_kern (bio_run status bi (db_pages b));
          let io := diff_io_endio status io in
          modc n (λ c, {| c with
            chunk_io := Some {| io with io_bios := delete k (io_bios io) |};
            chunk_buffer := Some {| b with db_pages := pages |} |})
      | None => skip
      end
  | _, _ => skip
  end.

(** [diff_io_notify_cb]: the work item of a request runs its callback. *)
Definition diff_io_notify_cb (n : Z) : AM unit :=
  c ← getc n;
  match chunk_io c with
  | Some io =>
      match notify io with
      | Some fn_chunk_notify_load => chunk_notify_load n
      | Some fn_chunk_notify_store => chunk_notify_store n
      | None => skip
      end
  | None => skip
  end.
End params.

(** ** The system *)

(** [cw_img] is what the snapshot image should contain: the device as it was
    when the snapshot was taken, changed by the writes to the image. *)
Record cow := Cow {
  cw_sys : sys;
  cw_writers : list writer;
  cw_ctx : diff_area_image_ctx;
  cw_img : Z → Z;
}.

Definition role_of (ctx : diff_area_image_ctx) (n : Z) : option bool :=
  match ctx_chunk ctx with
  | Some m => if m =? n then Some (ctx_is_write ctx) else None
  | None => None
  end.

(** The image after [len] bytes from [from] have been replaced. *)
Definition img_write (from len : Z) (data : Z → Z) (img : Z → Z) : Z → Z :=
  λ a, if (from <=? a) && (a <? from + len) then data (a - from) else img a.

(** What the rest of the system may do meanwhile: anything, except to take
    ranges or regions out of the storage, to write to the device behind the
    filter, or to write into the regions of this area. *)
Record env_ok (s s' : sys) : Prop := {
  ev_area : area s' = area s;
  ev_oops : oops s' = oops s;
  ev_storage : storage_wf (storage s');
  ev_covered bd x : covered (storage s) bd x → covered (storage s') bd x;
  ev_taken bd x : taken (storage s) bd x → taken (storage s') bd x;
  ev_orig addr : ¬ excluded s' addr →
    w_disk (kern s') (orig_bdev (area s)) addr = w_disk (kern s) (orig_bdev (area s)) addr;
  ev_regions n c r i : at_chunk n c s → chunk_region c = Some r → 0 ≤ i < region_bytes r →
    on_region s' r i = on_region s r i;
}.

Section params.
Context {P : ModuleParams}.
Context (signals : bool).

(** The steps, up to the first one that finds the area corrupted. [signals]
    says whether a writer that sleeps on a chunk may be killed. *)
Inductive cow_step : cow → cow → Prop :=
  | step_submit σ w :
      0 ≤ wr_sector w → 0 < wr_count w →
      wr_phase w = PCopy (round_down (wr_sector w) (sectors (cw_sys σ))) → wr_plug w = [] →
      cow_step σ {| σ with cw_writers := cw_writers σ ++ [w] |}
  | step_writer σ i w r ret s' :
      corrupt_flag (area (cw_sys σ)) = false →
      cw_writers σ !! i = Some w →
      (wr_phase w = PWrite → ∀ addr,
         wr_sector w * SECTOR_SIZE ≤ addr < (wr_sector w + wr_count w) * SECTOR_SIZE →
         ¬ excluded (cw_sys σ) addr) →
      writer_turn w (cw_sys σ) = ((r, ret), s') →
      (signals = false → ret ≠ - EINTR) →
      cow_step σ {| σ with cw_sys := s';
        cw_writers := match r with
                      | Some w' => <[i := w']> (cw_writers σ)
                      | None => delete i (cw_writers σ)
                      end |}
  | step_bio_end σ n k status c io s' :
      corrupt_flag (area (cw_sys σ)) = false →
      at_chunk n c (cw_sys σ) → chunk_io c = Some io → io_plugged io = false →
      bio_end n k status (cw_sys σ) = (tt, s') →
      cow_step σ {| σ with cw_sys := s' |}
  | step_notify σ n c io s' :
      corrupt_flag (area (cw_sys σ)) = false →
      at_chunk n c (cw_sys σ) → chunk_io c = Some io → io_notified io = true →
      diff_io_notify_cb n (cw_sys σ) = (tt, s') →
      cow_step σ {| σ with cw_sys := s' |}
  | step_cache_release σ again s' :
      corrupt_flag (area (cw_sys σ)) = false →
      cache_release_turn (cw_sys σ) = (again, s') →
      cow_step σ {| σ with cw_sys := s' |}
  | step_image_start σ wr :
      ctx_chunk (cw_ctx σ) = None →
      cow_step σ {| σ with cw_ctx := diff_area_image_ctx_init wr |}
  | step_image_turn σ v pos st ctx' v' pos' s' :
      corrupt_flag (area (cw_sys σ)) = false → 0 ≤ pos → 0 < bv_left v →
      image_turn (cw_ctx σ) v pos (cw_sys σ) = ((st, ctx', v', pos'), s') →
      cow_step σ {| σ with cw_sys := s'; cw_ctx := ctx';
        cw_img := if ctx_is_write (cw_ctx σ)
                  then img_write (pos * SECTOR_SIZE) (bv_left v - bv_left v')
                         (λ o, bv_data v (bv_pos v + o)) (cw_img σ)
                  else cw_img σ |}
  | step_image_done σ s' :
      corrupt_flag (area (cw_sys σ)) = false →
      diff_area_image_ctx_done (cw_ctx σ) (cw_sys σ) = (tt, s') →
      cow_step σ {| σ with cw_sys := s';
        cw_ctx := {| ctx_is_write := ctx_is_write (cw_ctx σ); ctx_chunk := None |} |}
  | step_env σ s' :
      env_ok (cw_sys σ) s' → cow_step σ {| σ with cw_sys := s' |}.
End params.

(** ** The invariant of the system *)

Definition regions_apart (s : sys) : Prop :=
  ∀ n1 n2 c1 c2 r1 r2 bd x, n1 ≠ n2 → at_chunk n1 c1 s → at_chunk n2 c2 s →
    chunk_region c1 = Some r1 → chunk_region c2 = Some r2 →
    region_has r1 bd x → region_has r2 bd x → False.

Record cow_ok (s : sys) (img : Z → Z) (ctx : diff_area_image_ctx) : Prop := {
  ck_sys : sys_ok s;
  ck_oops : oops s = false;
  ck_chunks n c : at_chunk n c s → chunk_ok s img (role_of ctx n) n c;
  ck_cache n : in_cache (area s) n = true → ∃ c, at_chunk n c s ∧ lock c = false ∧ ready c = true;
  ck_regions : regions_apart s;
  ck_ctx n : ctx_chunk ctx = Some n → ∃ c, at_chunk n c s;
}.

(** No chunk has become less independent of the original device. *)
Record evolves (s s' : sys) : Prop := {
  ev_shift : chunk_shift (area s') = chunk_shift (area s);
  ev_keeps n c' : at_chunk n c' s' → ∃ c, at_chunk n c s ∧ keeps c c';
}.

#[global] Instance evolves_preorder : PreOrder evolves.
Proof.
  split.
  - intros s. split; [done|]. intros n c ?. exists c. split; [done|apply keeps_refl].
  - intros s1 s2 s3 [E1 K1] [E2 K2]. split; [congruence|]. intros n c3 H3.
    destruct (K2 n c3 H3) as (c2 & H2 & [? ?]). destruct (K1 n c2 H2) as (c1 & H1 & [? ?]).
    exists c1. split; [done|]. split; auto.
Qed.

Lemma evolves_sectors s s' : evolves s s' → sectors s' = sectors s.
Proof. intros [E _]. unfold diff_area_chunk_sectors. by rewrite E. Qed.

(** What a step on chunk [n] establishes for the whole area. *)
Lemma cow_kept s s' img ctx ctx' n c rl Q :
  cow_ok s img ctx → at_chunk n c s → kept img rl n Q s s' → (∀ c', Q c' → keeps c c') →
  role_of ctx' n = rl → (∀ m, m ≠ n → role_of ctx' m = role_of ctx m) →
  (∀ m, ctx_chunk ctx' = Some m → m = n ∨ ctx_chunk ctx = Some m) →
  corrupt_flag (area s') = true ∨
  (cow_ok s' img ctx' ∧ evolves s s' ∧ ∃ c', at_chunk n c' s' ∧ Q c').
Proof.
  intros [Hs Ho Hch Hca Hrg Hcx] Hc [F [Hx|(c' & Hc' & K & Hq & HQ)]] Hk Hrl Hrl' Hcx';
    [by left|right].
  assert (Hother : ∀ m cm, m ≠ n → at_chunk m cm s' ↔ at_chunk m cm s).
  { intros m cm Hm. unfold at_chunk. by rewrite (fr_chunks _ _ _ F m Hm). }
  split; [|split; [|eauto]].
  - split.
    + by eapply frame_sys_ok.
    + by rewrite (fr_oops _ _ _ F).
    + intros m cm Hm. destruct (decide (m = n)) as [->|Hne].
      * unfold at_chunk in *. rewrite Hc' in Hm. injection Hm as <-. by rewrite Hrl.
      * rewrite Hrl' by done. eapply chunk_ok_env; [by apply (frame_env n m)|].
        apply Hch. by apply Hother.
    + intros m Hm. destruct (decide (m = n)) as [->|Hne].
      * exists c'. by destruct (Hq Hm).
      * assert (in_cache (area s) m = true) as Hm'.
        { unfold in_cache in *. rewrite orb_true_iff, !bool_decide_eq_true in *.
          by rewrite <- (fr_read _ _ _ F m Hne), <- (fr_write _ _ _ F m Hne). }
        destruct (Hca m Hm') as (cm & ? & ? & ?). exists cm. split; [by apply Hother|done].
    + assert (Hfresh : ∀ m cm rm r bd x, m ≠ n → at_chunk m cm s → chunk_region cm = Some rm →
        chunk_region c' = Some r → region_has rm bd x → region_has r bd x → False).
      { intros m cm rm r bd x Hne Hm Hrm Hr [-> Hx1] [Eb Hx2].
        destruct (fr_region _ _ _ F c' r Hc' Hr) as [(c0 & Hc0 & Hr0)|Hnt].
        - eapply (Hrg m n cm c0 rm r); try done.
        - apply (Hnt x); [done|]. rewrite <- Eb.
          by apply (bo_region _ _ _ (co_base _ _ _ _ _ (Hch m cm Hm)) rm Hrm). }
      intros n1 n2 c1 c2 r1 r2 bd x Hne H1 H2 R1 R2 X1 X2.
      destruct (decide (n1 = n)) as [->|Hn1]; [|destruct (decide (n2 = n)) as [->|Hn2]].
      * unfold at_chunk in H1, Hc'. rewrite Hc' in H1. injection H1 as <-.
        apply Hother in H2; [|done]. by eapply (Hfresh n2 c2 r2 r1).
      * unfold at_chunk in H2, Hc'. rewrite Hc' in H2. injection H2 as <-.
        apply Hother in H1; [|done]. by eapply (Hfresh n1 c1 r1 r2).
      * apply Hother in H1; [|done]. apply Hother in H2; [|done].
        by eapply (Hrg n1 n2 c1 c2 r1 r2).
    + intros m Hm. destruct (Hcx' m Hm) as [->|Hm']; [eauto|].
      destruct (decide (m = n)) as [->|Hne]; [eauto|].
      destruct (Hcx m Hm') as [cm ?]. exists cm. by apply Hother.
  - split; [apply F|]. intros m cm Hm. destruct (decide (m = n)) as [->|Hne].
    + unfold at_chunk in *. rewrite Hc' in Hm. injection Hm as <-. exists c. auto.
    + apply Hother in Hm; [|done]. exists cm. split; [done|apply keeps_refl].
Qed.

(** Changes of the kernel's state that leave the devices alone. *)
Lemma cow_ok_kern s w img ctx :
  w_disk w = w_disk (kern s) → cow_ok s img ctx →
  cow_ok {| s with kern := w |} img ctx ∧ evolves s {| s with kern := w |}.
Proof.
  intros Hd [Hs Ho Hch Hca Hrg Hcx]. split.
  - split; try done.
    + destruct Hs. by split.
    + intros n c Hc. eapply chunk_ok_env; [|by apply Hch]. split; try done;
        intros; unfold on_orig, on_region; simpl; by rewrite Hd.
  - split; [done|]. intros n c Hc. exists c. split; [done|apply keeps_refl].
Qed.

(** ** Writers *)

(** The chunks a writer has dealt with so far. Its range starts in chunk
    [sector / step] and takes in every chunk that starts below its end. *)
Definition writer_ok (s : sys) (w : writer) : Prop :=
  let step := sectors s in
  let first := wr_sector w / step in
  let last := wr_sector w + wr_count w in
  0 ≤ wr_sector w ∧ 0 < wr_count w ∧
  match wr_phase w with
  | PCopy offset => ∃ k, 0 ≤ k ∧ offset = (first + k) * step ∧
      ∀ n c, at_chunk n c s → first ≤ n < first + k → psafe c = true
  | PWait offset => ∃ k, 0 ≤ k ∧ offset = (first + k) * step ∧
      ∀ n c, at_chunk n c s → first ≤ n → n * step < last →
             psafe c = true ∧ (n < first + k → safe c = true)
  | PWrite => ∀ n c, at_chunk n c s → first ≤ n → n * step < last → safe c = true
  end.

Lemma writer_ok_evolves s s' w : evolves s s' → writer_ok s w → writer_ok s' w.
Proof.
  intros E. unfold writer_ok. rewrite (evolves_sectors _ _ E). intros (H1 & H2 & H).
  split; [done|]. split; [done|]. destruct (wr_phase w) as [off|off|].
  - destruct H as (k & Hk & Ho & H). exists k. split; [done|]. split; [done|]. intros n c Hc Hn.
    destruct (ev_keeps _ _ E n c Hc) as (c0 & Hc0 & [_ Hp]). eauto.
  - destruct H as (k & Hk & Ho & H). exists k. split; [done|]. split; [done|]. intros n c Hc Hn1 Hn2.
    destruct (ev_keeps _ _ E n c Hc) as (c0 & Hc0 & [Hsf Hp]). destruct (H n c0 Hc0 Hn1 Hn2). eauto.
  - intros n c Hc Hn1 Hn2. destruct (ev_keeps _ _ E n c Hc) as (c0 & Hc0 & [Hsf _]). eauto.
Qed.

(** The invariant: while the area is not corrupted, every chunk is in order and
    every writer has secured the chunks it claims to have secured. *)
Definition cow_inv (σ : cow) : Prop :=
  corrupt_flag (area (cw_sys σ)) = true ∨
  (cow_ok (cw_sys σ) (cw_img σ) (cw_ctx σ) ∧ Forall (writer_ok (cw_sys σ)) (cw_writers σ)).

Section proofs.
Context {P : ModuleParams}.

Lemma set_corrupted_flag e s :
  wp (diff_area_set_corrupted e) s (λ _ s', corrupt_flag (area s') = true).
Proof.
  unfold diff_area_set_corrupted. wp_steps. wp_if E; wp_steps; [done|].
  unfold on_area, diff_area_event_corrupted. wp_steps. unfold on_store. wp_steps.
  apply wp_eq. intros r p _. by wp_steps.
Qed.

Lemma cow_pre s img ctx n c : cow_ok s img ctx → at_chunk n c s → chunk_pre img n (role_of ctx n) s c.
Proof.
  intros [Hs _ Hch Hca _ _] Hc. split; try done; [by apply Hch|]. intros Hq.
  destruct (Hca n Hq) as (c' & Hc' & ?). unfold at_chunk in *. rewrite Hc in Hc'. by injection Hc' as <-.
Qed.

(** A turn of [diff_area_copy] or [diff_area_wait]. *)
Definition turn_ok (img : Z → Z) (ctx : diff_area_image_ctx) (n : Z) (goal : chunk → bool)
    (s : sys) (t : turn) (s' : sys) : Prop :=
  corrupt_flag (area s') = true ∨
  (cow_ok s' img ctx ∧ evolves s s' ∧
   (t = Continue → ∀ c, at_chunk n c s' → goal c = true) ∧ (would_block t ∨ t = Continue)).

Lemma turn_post_ok s img ctx n c goal t s' :
  cow_ok s img ctx → at_chunk n c s → turn_post img n (role_of ctx n) c goal s t s' →
  turn_ok img ctx n goal s t s'.
Proof.
  intros C Hc [K Ht].
  destruct (cow_kept s s' img ctx ctx n c (role_of ctx n) _ C Hc K) as [Hx|(C' & E & c' & Hc' & _ & Hg)];
    try done; [by intros ? [? _]|by right|by left|].
  destruct Ht as [Ht|[Ht|Ht]]; [| |by left]; right; (split; [done|]); (split; [done|]); (split; [|auto]);
    intros Hcn c1 Hc1; unfold at_chunk in *; rewrite Hc' in Hc1; injection Hc1 as <-; auto.
Qed.

Lemma cow_copy_turn s img ctx nw offset :
  cow_ok s img ctx →
  wp (copy_turn offset nw) s (turn_ok img ctx (chunk_number (area s) offset) psafe s).
Proof.
  intros C. destruct (chunk_map (area s) !! chunk_number (area s) offset) as [c|] eqn:Ec.
  - eapply wp_mono; [eapply (copy_turn_spec img (chunk_number (area s) offset)); [reflexivity|by eapply cow_pre]|].
    intros t s' H. by eapply turn_post_ok.
  - unfold copy_turn. wp_steps. cbv zeta. rewrite Ec. wp_step.
    eapply wp_mono; [apply set_corrupted_flag|]. intros [] s' Hx. wp_steps. by left.
Qed.

Lemma cow_wait_turn s img ctx nw offset :
  cow_ok s img ctx → (∀ c, at_chunk (chunk_number (area s) offset) c s → psafe c = true) →
  wp (wait_turn offset nw) s (turn_ok img ctx (chunk_number (area s) offset) safe s).
Proof.
  intros C Hp. destruct (chunk_map (area s) !! chunk_number (area s) offset) as [c|] eqn:Ec.
  - eapply wp_mono; [eapply (wait_turn_spec img (chunk_number (area s) offset)); [reflexivity|by eapply cow_pre|by apply Hp]|].
    intros t s' H. by eapply turn_post_ok.
  - unfold wait_turn. wp_steps. cbv zeta. rewrite Ec. wp_step.
    eapply wp_mono; [apply set_corrupted_flag|]. intros [] s' Hx. wp_steps. by left.
Qed.

(** Submitting the requests held back changes nothing the invariant sees. *)
Lemma unplug_ok s img rl n c (f : diff_io → diff_io) :
  (∀ io, f io = {| io with io_plugged := false |}) →
  chunk_ok s img rl n c → chunk_ok s img rl n {| c with chunk_io := f <$> chunk_io c |}.
Proof.
  intros Hf [B D U]. split.
  - destruct B. by split.
  - apply (data_ok_ext img n s _ c); try done.
  - destruct U as [Hl Hi|wr Hl Hi|io b Hl Hi ? ? ? ? ? Hok|io b r Hl Hi ? ? ? ? ? ? Hok].
    + apply busy_idle; try done. cbn. by rewrite Hi.
    + apply busy_image; try done. cbn. by rewrite Hi.
    + eapply (busy_load _ _ _ _ (f io) b); try done; cbn; [by rewrite Hi|rewrite Hf..]; [|done].
      destruct Hok. by split.
    + eapply (busy_store _ _ _ _ (f io) b r); try done; cbn; [by rewrite Hi|rewrite Hf..]; [|done].
      destruct Hok. by split.
Qed.

Lemma wp_modc_none n f s Q : chunk_map (area s) !! n = None → Q tt s → wp (modc n f) s Q.
Proof.
  intros Hn HQ. unfold modc, on_area. wp_steps.
  assert (Ea : alter f n (chunk_map (area s)) = chunk_map (area s)).
  { apply map_eq. intros m. destruct (decide (m = n)) as [->|Hm];
      [by rewrite lookup_alter_eq, Hn|by rewrite lookup_alter_ne]. }
  rewrite Ea. by destruct s as [[] ? ? ? ?].
Qed.

Lemma submit_plugged_spec owners s img ctx :
  cow_ok s img ctx → corrupt_flag (area s) = false →
  wp (submit_plugged owners) s (λ _ s', cow_ok s' img ctx ∧ evolves s s').
Proof.
  revert s. induction owners as [|n owners IH]; intros s C Hx; cbn [submit_plugged]; wp_step.
  { done. }
  destruct (chunk_map (area s) !! n) as [c|] eqn:Ec; [|apply wp_modc_none; [done|by apply IH]].
  apply (wp_modc n _ c); [done|done|]. intros s1 L1 H1 _ _.
  pose proof (cow_pre _ _ _ _ _ C Ec) as [_ Hs K Hq].
  assert (K1 : kept img (role_of ctx n) n (keeps c) s s1).
  { split; [apply L1|]. right. eexists. split; [exact H1|].
    split; [|split; [by rewrite (lo_cache _ _ _ L1)|]].
    - apply (unplug_ok s1 img _ n c); [done|]. eapply chunk_ok_env; [apply (frame_env n n), L1|done].
    - split; [done|]. unfold psafe. cbn. by destruct (chunk_io c). }
  destruct (cow_kept s s1 img ctx ctx n c _ _ C Ec K1) as [Hx1|(C1 & E1 & _)]; try done; [by right|..].
  - rewrite (lo_corrupt _ _ _ L1) in Hx1. congruence.
  - eapply wp_mono; [apply IH; [done|by rewrite (lo_corrupt _ _ _ L1)]|].
    intros [] s2 [C2 E2]. split; [done|]. by rewrite E1.
Qed.

Lemma chunk_number_div s x : sys_ok s → chunk_number (area s) x = x / sectors s.
Proof.
  intros Hs. unfold chunk_number, SECTOR_SHIFT. destruct (sectors_pow2 s Hs) as [-> _].
  apply Z.shiftr_div_pow2. destruct Hs. lia.
Qed.

Lemma round_down_sectors s x : sys_ok s → round_down x (sectors s) = x / sectors s * sectors s.
Proof.
  intros Hs. destruct (sectors_pow2 s Hs) as [-> _]. apply round_down_pow2. destruct Hs. lia.
Qed.

(** What a step of a writer achieves. *)
Definition writer_post (s : sys) (img : Z → Z) (ctx : diff_area_image_ctx) (r : option writer * Z)
    (s' : sys) : Prop :=
  r.2 = - EINTR ∨ corrupt_flag (area s') = true ∨
  (cow_ok s' img ctx ∧ evolves s s' ∧ ∀ w, r.1 = Some w → writer_ok s' w).

Lemma turn_writer_post s s0 img ctx n goal w wnext t s1 s' :
  evolves s s0 → turn_ok img ctx n goal s0 t s1 → s' = {| s1 with kern := kern s' |} →
  w_disk (kern s') = w_disk (kern s1) → writer_ok s w →
  (t = Continue → cow_ok s' img ctx → evolves s s' →
     (∀ c, at_chunk n c s' → goal c = true) → writer_ok s' wnext) →
  writer_post s img ctx
    (match t with Continue => (Some wnext, 0) | Sleep => (Some w, 0) | Return ret => writer_error w ret end) s'.
Proof.
  intros E0 Ht Es Hd Hw Hnext. destruct Ht as [Hx|(C1 & E1 & Hg & Ht)].
  { right. left. by rewrite Es. }
  destruct (cow_ok_kern s1 (kern s') img ctx Hd C1) as [C' E']. rewrite <- Es in C', E'.
  assert (E : evolves s s') by (by rewrite E0, E1).
  destruct Ht as [[->|[->| ->]]| ->].
  - right. right. split_and!; try done. intros ? [= <-]. by eapply writer_ok_evolves.
  - right. right. by split_and!.
  - by left.
  - right. right. split_and!; try done. intros ? [= <-]. apply Hnext; try done.
    rewrite Es. intros c Hc. by apply Hg.
Qed.

(** A step that only changes the contents of devices. *)
Lemma cow_ok_disk s s' img ctx :
  cow_ok s img ctx → area s' = area s → storage s' = storage s → oops s' = oops s →
  (∀ n c, at_chunk n c s → env_le s s' n c) → cow_ok s' img ctx ∧ evolves s s'.
Proof.
  intros [Hs Ho Hch Hca Hrg Hcx] Ea Est Eo He. split.
  - split; unfold regions_apart, at_chunk in *; rewrite ?Ea; try done.
    + destruct Hs. by split; rewrite ?Ea, ?Est.
    + congruence.
    + intros n c Hc. eapply chunk_ok_env; [by apply He|by apply Hch].
  - split; [by rewrite Ea|]. unfold at_chunk. rewrite Ea. intros n c Hc. exists c.
    split; [done|apply keeps_refl].
Qed.

(** The sector of a byte of a region. *)
Lemma region_byte r i :
  0 ≤ i < region_bytes r →
  dr_sector r ≤ (region_base r + i) / SECTOR_SIZE < dr_sector r + dr_count r.
Proof.
  unfold region_bytes, region_base, SECTOR_SIZE. intros Hi. split.
  - apply Z.div_le_lower_bound; lia.
  - apply Z.div_lt_upper_bound; lia.
Qed.

Lemma cow_write s img ctx w :
  cow_ok s img ctx → writer_ok s w → wr_phase w = PWrite →
  (∀ addr, wr_sector w * SECTOR_SIZE ≤ addr < (wr_sector w + wr_count w) * SECTOR_SIZE →
           ¬ excluded s addr) →
  let k := kern s in
  let s' := {| s with kern := {| k with w_disk :=
    disk_write (orig_bdev (area s)) (wr_sector w * SECTOR_SIZE) (wr_count w * SECTOR_SIZE)
      (wr_data w) (w_disk k) |} |} in
  cow_ok s' img ctx ∧ evolves s s'.
Proof.
  intros C (Hse & Hco & Hw) Hph Hex k s'. rewrite Hph in Hw.
  pose proof (sectors_pow2 s (ck_sys _ _ _ C)) as [_ Hcs].
  apply (cow_ok_disk s); try done. intros n c Hc.
  pose proof (ck_chunks _ _ _ C n c Hc) as [B _ _]. split; try done.
  - intros i Hsf Hi Hx. unfold on_orig. simpl. apply disk_write_out.
    destruct (Z.lt_ge_cases (chunk_base s n + i) (wr_sector w * SECTOR_SIZE)); [auto|].
    destruct (Z.lt_ge_cases (chunk_base s n + i)
      (wr_sector w * SECTOR_SIZE + wr_count w * SECTOR_SIZE)); [|auto].
    exfalso. destruct B as [_ [Hn _] Hcn _ _ _].
    unfold chunk_base, chunk_len, SECTOR_SIZE in *.
    assert (safe c = true); [|congruence]. apply (Hw n c Hc).
    + assert (wr_sector w < (n + 1) * sectors s) as Hlt by nia.
      assert (wr_sector w / sectors s < n + 1) by (apply Z.div_lt_upper_bound; nia). lia.
    + nia.
  - intros r i Hr Hi. unfold on_region. simpl. apply disk_write_out.
    destruct (decide (dr_bdev r = orig_bdev (area s))) as [Eb|]; [|auto]. right.
    destruct (Z.lt_ge_cases (region_base r + i) (wr_sector w * SECTOR_SIZE)); [auto|].
    destruct (Z.lt_ge_cases (region_base r + i)
      (wr_sector w * SECTOR_SIZE + wr_count w * SECTOR_SIZE)); [|auto].
    exfalso. apply (Hex (region_base r + i)); [unfold SECTOR_SIZE in *; lia|].
    unfold excluded. rewrite <- Eb. by apply (bo_region _ _ _ B r Hr), region_byte.
Qed.

Lemma div_offset s k n : sys_ok s → (n + k) * sectors s / sectors s = n + k.
Proof. intros Hs. destruct (sectors_pow2 s Hs) as [_ ?]. apply Z.div_mul. lia. Qed.

Lemma writer_turn_spec s img ctx w :
  cow_ok s img ctx → corrupt_flag (area s) = false → writer_ok s w →
  (wr_phase w = PWrite → ∀ addr,
     wr_sector w * SECTOR_SIZE ≤ addr < (wr_sector w + wr_count w) * SECTOR_SIZE →
     ¬ excluded s addr) →
  wp (writer_turn w) s (writer_post s img ctx).
Proof.
  intros C Hcf Hw Hex. pose proof (ck_sys _ _ _ C) as Hs. pose proof Hw as (Hse & Hco & Hph).
  pose proof (sectors_pow2 s Hs) as [_ Hcs]. unfold writer_turn. wp_step. apply wp_area.
  destruct (wr_phase w) as [off|off|] eqn:Ep.
  - destruct Hph as (k & Hk & -> & Hps). wp_if El; bool_hyps; wp_steps.
    + unfold set_bio_list, on_kern. wp_steps. cbn [kern].
      set (s1 := Sys _ _ _ _ _).
      assert (cow_ok s1 img ctx ∧ evolves s s1) as [C1 E1] by (by apply (cow_ok_kern s)).
      eapply wp_mono; [apply (cow_copy_turn s1 img ctx (wr_nowait w) _ C1)|].
      intros t s2 Ht. wp_steps. cbn [kern w_bio_list]. 
      change (area s1) with (area s) in Ht. rewrite chunk_number_div, div_offset in Ht by done.
      set (w1 := Writer (wr_sector w) (wr_count w) (wr_nowait w) (wr_data w) _ _).
      eapply (turn_writer_post s s1 img ctx (wr_sector w / sectors s + k) psafe w1 _ t s2);
        [done..| |]. 
      * split; [done|]. split; [done|]. exists k. by split_and!.
      * intros _ C2 E2 Hg. unfold writer_ok. cbn [wr_sector wr_count wr_phase]. change (wr_sector w1) with (wr_sector w).
        split; [done|]. split; [done|].
        rewrite (evolves_sectors _ _ E2).
        exists (k + 1). split; [lia|]. split; [lia|]. intros n c Hc Hn.
        destruct (decide (n = wr_sector w / sectors s + k)) as [->|]; [by apply Hg|].
        destruct (ev_keeps _ _ E2 n c Hc) as (c0 & Hc0 & [_ Hp]). apply Hp.
        apply (Hps n c0); [done|lia].
    + eapply wp_mono; [by apply (submit_plugged_spec _ s img ctx)|]. intros [] s1 [C1 E1]. wp_steps.
      right. right. split_and!; try done. intros ? [= <-]. unfold writer_ok.
      cbn [wr_sector wr_count wr_phase]. split; [done|]. split; [done|].
      rewrite (evolves_sectors _ _ E1), round_down_sectors by done. exists 0.
      split; [lia|]. split; [lia|]. intros n c Hc Hn1 Hn2.
      destruct (ev_keeps _ _ E1 n c Hc) as (c0 & Hc0 & [_ Hp]). split; [|lia].
      apply Hp, (Hps n c0 Hc0). nia.
  - destruct Hph as (k & Hk & -> & Hps). wp_if El; bool_hyps; wp_steps.
    + eapply wp_mono; [apply (cow_wait_turn s img ctx (wr_nowait w) _ C)|].
      { rewrite chunk_number_div, div_offset by done. intros c Hc.
        apply (Hps _ c Hc); lia. }
      intros t s2 Ht. wp_steps. rewrite chunk_number_div, div_offset in Ht by done.
      eapply (turn_writer_post s s img ctx (wr_sector w / sectors s + k) safe w _ t s2); try done.
      * by destruct s2.
      * intros _ C2 E2 Hg. unfold writer_ok. cbn [wr_sector wr_count wr_phase].
        split; [done|]. split; [done|]. rewrite (evolves_sectors _ _ E2). exists (k + 1).
        split; [lia|]. split; [lia|]. intros n c Hc Hn1 Hn2.
        destruct (ev_keeps _ _ E2 n c Hc) as (c0 & Hc0 & [Hsf Hp]).
        destruct (Hps n c0 Hc0 Hn1 Hn2) as [Hps0 Hsf0]. split; [auto|]. intros Hlt.
        destruct (decide (n = wr_sector w / sectors s + k)) as [->|]; [by apply Hg|].
        apply Hsf, Hsf0. lia.
    + right. right. split_and!; try done. intros ? [= <-]. unfold writer_ok.
      cbn [wr_sector wr_count wr_phase]. split; [done|]. split; [done|].
      intros n c Hc Hn1 Hn2. apply (Hps n c Hc Hn1 Hn2). nia.
  - unfold on_kern. wp_steps. cbn. right. right.
    destruct (cow_write s img ctx w C Hw Ep (Hex eq_refl)) as [C' E']. by split_and!.
Qed.
End proofs.
