(* ===== verification/CowSteps.v ===== *)
(** * Every step keeps the copy-on-write invariant

    The steps of the device, of the work items, of the cache and of the snapshot
    image, and what follows for the whole system: the image never changes. *)
From S2P Require Import Prelude MemoryChecker Kernel Uapi EventQueue DiffBuffer DiffIo DiffStorage.
From S2P Require Import Chunk DiffArea ChunkSpecs CowInv Cow.

(** ** A step that changes one chunk and the contents of devices *)

(** The chunk's invariant depends on the image's bytes of the chunk only. *)
Lemma chunk_ok_img s img img' rl n c :
  (∀ i, 0 ≤ i < chunk_len c → img' (chunk_base s n + i) = img (chunk_base s n + i)) →
  chunk_ok s img rl n c → chunk_ok s img' rl n c.
Proof.
  intros Hi [B [D1 D2 D3 D4] U].
  assert (Ha : ∀ f, agree s img n c f → agree s img' n c f).
  { intros f H i Hr Hx. rewrite Hi by done. by apply H. }
  split; [done| |].
  - split; [|done| |].
    + intros H. destruct (D1 H) as (b & ? & ?). eauto.
    + intros H. destruct (D3 H) as (r & ? & ?). eauto 6.
    + eauto.
  - destruct U as [| |io b ? ? ? ? ? ? ? ? ? Hb|]; [by apply busy_idle|by apply busy_image| |].
    + eapply busy_load; try done. intros He i Hr Hx Hp. rewrite Hi by done. by apply Hb.
    + by eapply busy_store.
Qed.

Lemma cow_ok_io s s' img img' ctx n c f :
  cow_ok s img ctx → at_chunk n c s →
  area s' = (let a := area s in {| a with chunk_map := alter f n (chunk_map a) |}) →
  storage s' = storage s → oops s' = oops s →
  (∀ m cm, m ≠ n → at_chunk m cm s → env_le s s' m cm) →
  (∀ m cm, m ≠ n → at_chunk m cm s → ∀ i, 0 ≤ i < chunk_len cm →
     img' (chunk_base s m + i) = img (chunk_base s m + i)) →
  chunk_ok s' img' (role_of ctx n) n (f c) →
  lock (f c) = lock c → ready (f c) = ready c → chunk_region (f c) = chunk_region c →
  keeps c (f c) → cow_ok s' img' ctx ∧ evolves s s'.
Proof.
  intros [Hs Ho Hch Hca Hrg Hcx] Hc Ea Est Eo He Hi Hk El Er Eg Hke.
  assert (Hn : at_chunk n (f c) s').
  { unfold at_chunk in *. by rewrite Ea; cbn; rewrite lookup_alter_eq, Hc. }
  assert (Hot : ∀ m cm, m ≠ n → at_chunk m cm s' ↔ at_chunk m cm s).
  { intros m cm Hm. unfold at_chunk. by rewrite Ea; cbn; rewrite lookup_alter_ne. }
  assert (Hbk : ∀ m cm, at_chunk m cm s' → ∃ c0, at_chunk m c0 s ∧ keeps c0 cm ∧
    chunk_region cm = chunk_region c0 ∧ lock cm = lock c0 ∧ ready cm = ready c0).
  { intros m cm Hm. destruct (decide (m = n)) as [->|Hne].
    - unfold at_chunk in Hm, Hn. rewrite Hn in Hm. injection Hm as <-. exists c. done.
    - apply Hot in Hm; [|done]. exists cm. done. }
  split.
  - split.
    + destruct Hs. by split; rewrite ?Ea, ?Est.
    + congruence.
    + intros m cm Hm. destruct (decide (m = n)) as [->|Hne].
      * unfold at_chunk in Hm, Hn. rewrite Hn in Hm. by injection Hm as <-.
      * apply Hot in Hm; [|done]. pose proof (He m cm Hne Hm) as E.
        eapply chunk_ok_img; [|eapply chunk_ok_env; [exact E|by apply Hch]].
        rewrite (env_base _ _ _ _ _ E). by apply Hi.
    + intros m Hm. assert (Hm' : in_cache (area s) m = true) by (by rewrite Ea in Hm).
      destruct (Hca m Hm') as (cm & Hcm & Hl & Hr).
      destruct (decide (m = n)) as [->|Hne]; [|exists cm; split; [by apply Hot|done]].
      exists (f c). unfold at_chunk in Hcm, Hc. rewrite Hc in Hcm. injection Hcm as <-.
      split; [done|]. by rewrite El, Er.
    + intros n1 n2 c1 c2 r1 r2 bd x Hne H1 H2 R1 R2.
      destruct (Hbk _ _ H1) as (c1' & H1' & _ & E1 & _). destruct (Hbk _ _ H2) as (c2' & H2' & _ & E2 & _).
      rewrite E1 in R1. rewrite E2 in R2. by apply (Hrg n1 n2 c1' c2').
    + intros m Hm. destruct (decide (m = n)) as [->|Hne]; [eauto|].
      destruct (Hcx m Hm) as [cm ?]. exists cm. by apply Hot.
  - split; [by rewrite Ea|]. intros m cm Hm. destruct (Hbk m cm Hm) as (c0 & ? & ? & _). eauto.
Qed.

(** ** The device ends a bio *)

Lemma delete_lookup_Permutation {A} (l : list A) k x :
  l !! k = Some x → l ≡ₚ x :: delete k l.
Proof. intros H. by rewrite <- (delete_Permutation l k x H). Qed.

(** The request after one of its bios has ended. *)
Definition bio_ended (k : nat) (status : Z) (io : diff_io) : diff_io :=
  let io := diff_io_endio status io in {| io with io_bios := delete k (io_bios io) |}.

Lemma io_ok_ended fn wr r io k bi status :
  io_ok fn wr r io → io_bios io !! k = Some bi → io_ok fn wr r (bio_ended k status io).
Proof.
  intros [Hf Hc Hn Hb] Hk. pose proof (delete_lookup_Permutation _ _ _ Hk) as HP.
  assert (Hlen : lenZ (io_bios io) = lenZ (delete k (io_bios io)) + 1).
  { unfold lenZ. rewrite (Permutation_length HP) at 1. simpl. lia. }
  split; cbn; try done.
  - lia.
  - rewrite Hn, Hc, Hlen. rewrite bool_decide_eq_false_2 by (intros E; by rewrite E in Hk). simpl.
    replace (_ + 1 - 1) with (lenZ (delete k (io_bios io))) by lia. unfold lenZ.
    by destruct (delete k (io_bios io)).
  - by rewrite HP, list.Forall_cons in Hb; destruct Hb.
Qed.

Lemma pending_ended r io k bi status i :
  io_bios io !! k = Some bi →
  pending r io i ↔ bio_has r i bi ∨ pending r (bio_ended k status io) i.
Proof.
  intros Hk. unfold pending. rewrite (delete_lookup_Permutation _ _ _ Hk) at 1.
  by rewrite Exists_cons.
Qed.

Lemma ended_error k status io :
  error (bio_ended k status io) = 0 → status = 0 ∧ error io = 0.
Proof. cbn. destruct (Z.eqb_spec status 0); simpl; [done|]. unfold EIO. lia. Qed.

Definition end_chunk (k : nat) (status : Z) (io : diff_io) (b : diff_buffer) (pages : list page)
    (c : chunk) : chunk :=
  {| c with chunk_io := Some (bio_ended k status io);
            chunk_buffer := Some {| b with db_pages := pages |} |}.

Lemma role_none s img n c rl io : busy s img n c rl → chunk_io c = Some io → rl = None.
Proof. intros U Hio. inversion U; congruence || done. Qed.

Lemma buffer_wf_set cs b pages :
  buffer_wf cs b → lenZ pages = lenZ (db_pages b) → buffer_wf cs {| b with db_pages := pages |}.
Proof. intros (? & ? & ?) E. split_and!; cbn; congruence || done. Qed.

Lemma buffer_wf_bytes s n c b :
  base_ok s n c → chunk_buffer c = Some b → sectors s * SECTOR_SIZE ≤ lenZ (db_pages b) * PAGE_SIZE.
Proof. intros B Hb. destruct (bo_buffer _ _ _ B b Hb) as (? & -> & ?). lia. Qed.

(** A bio of a load has put its bytes into the buffer. *)
Lemma load_ended s img n c io b k bi status pages :
  chunk_ok s img None n c → chunk_io c = Some io → chunk_buffer c = Some b → loading c = true →
  io_bios io !! k = Some bi → lenZ pages = lenZ (db_pages b) →
  (∀ i, (status = 0 → bio_has (orig_region (area s) c) i bi → pages_at pages i = on_orig s n i) ∧
        (¬ bio_has (orig_region (area s) c) i bi → pages_at pages i = pages_at (db_pages b) i)) →
  chunk_ok s img None n (end_chunk k status io b pages c).
Proof.
  intros [B D U] Hio Hb Hld Hk Hlen Hp.
  inversion U as [| |io' b' Hl Hi _ Hst Hrd Hdt Hsd Hok Hb' Hbuf|]; [congruence| |congruence].
  assert (io' = io) as -> by congruence. assert (b' = b) as -> by congruence.
  pose proof (do_orig _ _ _ _ _ D Hdt Hsd eq_refl) as Ho. split.
  - destruct B. split; try done. intros b1 [= <-]. apply buffer_wf_set; auto.
  - split.
    + change (ready c = true → ∃ b1, Some {| b with db_pages := pages |} = Some b1 ∧ agree s img n c (buf_at b1)).
      congruence.
    + change (dirty c = true → ready c = true). congruence.
    + change (stored c = true → ∃ r, chunk_region c = Some r ∧
        (dirty c = false → false = false → agree s img n c (on_region s r))). congruence.
    + intros _ _ _. exact Ho.
  - eapply (busy_load _ _ _ _ (bio_ended k status io) {| b with db_pages := pages |}); try done.
    + by eapply io_ok_ended.
    + intros He i Hi' Hx Hpd. destruct (ended_error _ _ _ He) as [-> He0].
      change (pages_at pages i = img (chunk_base s n + i)). destruct (Hp i) as [H1 H2].
      destruct (decide (bio_lo (orig_region (area s) c) bi ≤ i < bio_hi (orig_region (area s) c) bi))
        as [Hin|Hout].
      * rewrite (H1 eq_refl Hin). by apply Ho.
      * rewrite (H2 Hout). apply Hbuf; try done. rewrite (pending_ended _ _ _ _ 0 _ Hk). by intros [?|?].
Qed.

(** A bio of a store has put its bytes into the region; [s'] differs from [s] in
    the contents of the device. *)
Lemma store_ended s s' img n c io b r k bi status :
  chunk_ok s img None n c → chunk_io c = Some io → chunk_buffer c = Some b → storing c = true →
  chunk_region c = Some r → io_bios io !! k = Some bi → sectors s' = sectors s →
  orig_bdev (area s') = orig_bdev (area s) → storage s' = storage s →
  (status = 0 → ∀ i, bio_has r i bi → on_region s' r i = buf_at b i) →
  (∀ bd a, ¬ (bd = dr_bdev r ∧ bio_has r (a - region_base r) bi) →
           w_disk (kern s') bd a = w_disk (kern s) bd a) →
  (∀ i, ¬ excluded s (chunk_base s n + i) → on_orig s' n i = on_orig s n i) →
  chunk_ok s' img None n (end_chunk k status io b (db_pages b) c).
Proof.
  intros [B D U] Hio Hb Hsg Hrg Hk Es Eb Est Hin Hout Hor.
  inversion U as [| | |io' b' r' Hl Hi Hld _ Hrd Hsdt Hr' Hb' Hok Hbuf]; [congruence..|].
  assert (io' = io) as -> by congruence. assert (b' = b) as -> by congruence.
  assert (r' = r) as -> by congruence.
  assert (Hag : ∀ f g, agree s img n c f →
    (∀ i, ¬ excluded s (chunk_base s n + i) → g i = f i) → agree s' img n c g).
  { intros f g H Hfg i Hi' Hx. unfold agree, excluded, chunk_base in *. rewrite Es, Eb, Est in *.
    rewrite Hfg by done. by apply H. }
  destruct D as [D1 D2 D3 D4]. split.
  - destruct B as [? ? ? HB HR ?]. split; rewrite ?Es; try done.
    + intros b1 [= <-]. destruct (HB b Hb) as (? & ? & ?). by split_and!.
    + intros r1 Hr1. destruct (HR r1 Hr1) as [? Hx]. split; [by rewrite Es|by rewrite Est].
  - split; try done.
    + intros Hr1. destruct (D1 Hr1) as (b1 & Hb1 & Ha). exists b. rewrite Hb in Hb1. injection Hb1 as <-.
      split; [by destruct b|]. by apply (Hag (buf_at b)).
    + intros Hs1. destruct (D3 Hs1) as (r1 & Hr1 & _). exists r1. split; [done|].
      change (dirty c = false → false = false → agree s' img n c (on_region s' r1)).
      rewrite Hsdt by done. done.
    + intros Hd1 Hs1 _. apply (Hag (on_orig s n)); [by apply D4|done].
  - eapply (busy_store _ _ _ _ (bio_ended k status io) b r); try done; [by destruct b|by eapply io_ok_ended|].
    intros He i Hi' Hpd. destruct (ended_error _ _ _ He) as [-> He0].
    destruct (decide (bio_lo r bi ≤ i < bio_hi r bi)) as [Hx|Hx]; [by apply Hin|].
    unfold on_region. rewrite Hout.
    + apply Hbuf; try done. rewrite (pending_ended _ _ _ _ 0 _ Hk). by intros [?|?].
    + intros [_ H]. apply Hx. by replace (region_base r + i - region_base r) with i in H by lia.
Qed.

Lemma keeps_ended c k status io b pages :
  chunk_io c = Some io → keeps c (end_chunk k status io b pages c).
Proof. intros Hio. split; [done|]. unfold psafe. cbn. by rewrite orb_true_r. Qed.

(** The bytes a bio transfers belong to its region. *)
Lemma bio_has_sector r wr bi a :
  bio_wf r wr bi → bio_has r (a - region_base r) bi → region_has r (dr_bdev r) (a / SECTOR_SIZE).
Proof.
  intros [_ _ Hlo Hhi _] [H1 H2]. split; [done|].
  replace a with (region_base r + (a - region_base r)) by lia. apply region_byte. lia.
Qed.

Section steps.
Context {P : ModuleParams}.

Lemma bio_end_spec s img ctx n k status c io :
  cow_ok s img ctx → at_chunk n c s → chunk_io c = Some io →
  wp (bio_end n k status) s (λ _ s', cow_ok s' img ctx ∧ evolves s s').
Proof.
  intros C Hc Hio. pose proof (ck_chunks _ _ _ C n c Hc) as K. pose proof K as [B D U].
  pose proof (role_none _ _ _ _ _ _ U Hio) as Hrl. rewrite Hrl in K, U.
  unfold bio_end. wp_step. apply (wp_getc _ _ _ _ Hc). rewrite Hio.
  destruct (chunk_buffer c) as [b|] eqn:Hb; [|by wp_steps].
  destruct (io_bios io !! k) as [bi|] eqn:Hk; [|by wp_steps].
  pose proof (buffer_wf_bytes _ _ _ _ B Hb) as Hbytes. wp_step. unfold on_kern. rewrite wp_zoom.
  inversion U as [| |io' b' Hl Hi Hld Hst Hrd Hdt Hsd Hok Hb' Hbuf|io' b' r Hl Hi Hld Hst Hrd Hsdt Hrg Hb' Hok Hbuf];
    [congruence|..]; assert (io' = io) as -> by congruence; assert (b' = b) as -> by congruence.
  - pose proof (proj1 (Forall_forall _ _) (ik_bios _ _ _ _ Hok) bi (list_elem_of_lookup_2 _ _ _ Hk)) as Hwf.
    destruct (orig_region_base n s c B) as [Eb El].
    pose proof (bo_count _ _ _ B). unfold chunk_len, SECTOR_SIZE in *.
    wp_call (bio_run_read_spec (orig_region (area s) c)); [done|lia|].
    intros pages w (-> & Hlen & Hp). unfold modc, on_area. wp_steps.
    apply (cow_ok_io s _ img img ctx n c (end_chunk k status io b pages)); try done;
      [|by apply keeps_ended].
    rewrite Hrl. eapply (chunk_ok_env s); [by split|]. eapply load_ended; try done.
    intros i. unfold on_orig. rewrite <- Eb. apply Hp.
  - pose proof (proj1 (Forall_forall _ _) (ik_bios _ _ _ _ Hok) bi (list_elem_of_lookup_2 _ _ _ Hk)) as Hwf.
    destruct (bo_region _ _ _ B r Hrg) as [Hcnt Hcov].
    wp_call (bio_run_write_spec r); [done|unfold region_bytes; by rewrite Hcnt|].
    intros pages w (-> & [d ->] & Hin & Hout). unfold modc, on_area. wp_steps.
    set (s' := Sys _ _ _ _ _).
    assert (Hor : ∀ a, ¬ excluded s a → w_disk (kern s') (orig_bdev (area s)) a =
                                         w_disk (kern s) (orig_bdev (area s)) a).
    { intros a Hx. apply Hout. intros [Ebd Hh]. apply Hx. unfold excluded. rewrite Ebd.
      eapply Hcov, bio_has_sector; done. }
    apply (cow_ok_io s s' img img ctx n c (end_chunk k status io b (db_pages b))); try done.
    + intros m cm Hne Hm. split; try done; [intros i _ _ Hx; by apply Hor|].
      intros r2 i Hr2 Hi2. apply Hout. intros [Ebd Hh].
      apply (ck_regions _ _ _ C m n cm c r2 r (dr_bdev r2) ((region_base r2 + i) / SECTOR_SIZE));
        try done; [split; [done|by apply region_byte]|].
      rewrite Ebd. by eapply bio_has_sector.
    + rewrite Hrl. eapply (store_ended s); try done. intros i Hx. by apply Hor.
    + by apply keeps_ended.
Qed.

(** What a step that leaves the image and its context alone achieves. *)
Definition step_post (img : Z → Z) (ctx : diff_area_image_ctx) (s s' : sys) : Prop :=
  corrupt_flag (area s') = true ∨ (cow_ok s' img ctx ∧ evolves s s').

Lemma kept_post s s' img ctx n c :
  cow_ok s img ctx → at_chunk n c s → kept img (role_of ctx n) n (keeps c) s s' →
  step_post img ctx s s'.
Proof.
  intros C Hc K.
  destruct (cow_kept s s' img ctx ctx n c _ _ C Hc K) as [Hx|(C' & E & _)]; try done;
    [by right|by left|by right].
Qed.

Lemma locked_not_cached s img ctx n c :
  cow_ok s img ctx → at_chunk n c s → lock c = true → in_cache (area s) n = false.
Proof.
  intros C Hc Hl. destruct (in_cache (area s) n) eqn:Hq; [|done].
  destruct (ck_cache _ _ _ C n Hq) as (c' & Hc' & Hl' & _). unfold at_chunk in *. congruence.
Qed.

Lemma notify_cb_spec s img ctx n c io :
  cow_ok s img ctx → at_chunk n c s → chunk_io c = Some io → io_notified io = true →
  wp (diff_io_notify_cb n) s (λ _ s', step_post img ctx s s').
Proof.
  intros C Hc Hio Hn. pose proof (ck_chunks _ _ _ C n c Hc) as K.
  pose proof (role_none _ _ _ _ _ _ (co_busy _ _ _ _ _ K) Hio) as Hrl.
  assert (Hl : lock c = true) by (destruct K as [_ _ U]; inversion U; congruence).
  pose proof (locked_not_cached _ _ _ _ _ C Hc Hl) as Hq. pose proof (ck_sys _ _ _ C) as Hs.
  rewrite Hrl in K. unfold diff_io_notify_cb. wp_step. apply (wp_getc _ _ _ _ Hc). rewrite Hio.
  destruct (notify io) as [[]|] eqn:Hfn.
  - eapply wp_mono; [by eapply (notify_load_spec img n c s io)|].
    intros [] s' H. eapply kept_post; try done. by rewrite Hrl.
  - eapply wp_mono; [by eapply (notify_store_spec img n c s io)|].
    intros [] s' H. eapply kept_post; try done. by rewrite Hrl.
  - wp_steps. by right.
Qed.

(** ** The cache releases a chunk *)

Lemma cached_post s img ctx n c s1 (m : AM unit) :
  cow_ok s img ctx → at_chunk n c s → lock c = false →
  wp m s1 (λ _ s', kept img None n (keeps c) s s') →
  wp (m;; mret true) s1 (λ _ s', step_post img ctx s s').
Proof.
  intros C Hc Hl Hm. pose proof (ck_chunks _ _ _ C n c Hc) as K.
  destruct (chunk_unlocked img n _ _ _ K Hl) as (Hrl & _). wp_step. eapply wp_mono; [exact Hm|].
  intros [] s2 H. wp_steps. eapply kept_post; try done. by rewrite Hrl.
Qed.

(** A clean chunk gives its buffer back. *)
Lemma release_clean_spec img n c s0 s :
  frame n s0 s → held n s c → data_ok s img false n c → ready c = true → dirty c = false →
  wp (chunk_diff_buffer_release n;; up n) s (λ _ s', kept img None n (keeps c) s0 s').
Proof.
  intros F [Hc Hs Hq B Hl Hio Hld Hst] D Hr Hd. pose proof (bo_failed _ _ _ B) as Hfl.
  destruct (do_ready _ _ _ _ _ D Hr) as (b & Hb & _). wp_step.
  eapply wp_mono; [apply (buffer_release_spec n c s Hc Hs), B|].
  intros [] s1 (L1 & St1 & H1). apply (wp_up _ _ _ _ H1). intros s2 L2 H2 St2 _.
  assert (L : local n s s2) by (by rewrite L1). split; [by rewrite F; apply L|]. right.
  eexists. split; [exact H2|]. pose proof (frame_env n n s s2 c (lo_frame _ _ _ L)) as E.
  unfold no_buffer. rewrite Hb. set (c' := Chunk _ _ _ _ _ _ _).
  assert (ready c' = false ∧ dirty c' = false ∧ stored c' = stored c ∧ loading c' = false ∧
    storing c' = false ∧ failed c' = false) as (R' & T' & S' & LD' & SG' & F').
  { unfold c'. split_and!; bits; done. }
  split; [|split; [by rewrite (lo_cache _ _ _ L), Hq|apply keeps_bits; congruence]].
  pose proof (data_ok_env img n s s2 false c E B D) as [_ _ D3 D4]. split.
  - pose proof (base_ok_env n _ _ _ E B) as []. by split.
  - split; rewrite ?R', ?T', ?S'; try done; rewrite Hd in D3, D4; done.
  - by apply busy_idle.
Qed.

Lemma cache_unlocked s img ctx n :
  cow_ok s img ctx → n ∈ read_cache_queue (area s) ∨ n ∈ write_cache_queue (area s) →
  ∃ c, at_chunk n c s ∧ lock c = false ∧ ready c = true.
Proof.
  intros C Hn. apply (ck_cache _ _ _ C). unfold in_cache.
  by rewrite orb_true_iff, !bool_decide_eq_true.
Qed.

Lemma get_from_caches_spec s img ctx :
  cow_ok s img ctx →
  wp diff_area_get_chunk_from_cache_and_write_lock s (λ r s',
    match r with
    | None => s' = s
    | Some n => ∃ c, at_chunk n c s ∧ lock c = false ∧ ready c = true ∧
                     unlinked n (set_lock true c) s s'
    end).
Proof.
  intros C.
  assert (Hget : ∀ wr : bool, wp (get_chunk_from_cache_and_write_lock wr) s (λ r s',
    match r with
    | None => s' = s
    | Some n => ∃ c, at_chunk n c s ∧ lock c = false ∧ ready c = true ∧
                     unlinked n (set_lock true c) s s'
    end)).
  { intros wr. destruct (if wr then write_cache_queue (area s) else read_cache_queue (area s))
      as [|n queue] eqn:Hq.
    - unfold get_chunk_from_cache_and_write_lock. wp_step. apply wp_area. rewrite Hq.
      cbn [trylock_first]. by wp_steps.
    - destruct (cache_unlocked s img ctx n C) as (c & Hc & Hl & Hr).
      { destruct wr; rewrite Hq; [right|left]; apply elem_of_cons; auto. }
      eapply wp_mono; [by eapply (get_from_cache_spec n wr c)|].
      intros r s' [-> U]. eauto. }
  unfold diff_area_get_chunk_from_cache_and_write_lock. wp_step. apply wp_area. wp_step.
  assert (Hw : wp (a ← gets area; if chunk_maximum_in_cache <? write_cache_count a
      then get_chunk_from_cache_and_write_lock true else mret None) s (λ r s',
    match r with
    | None => s' = s
    | Some n => ∃ c, at_chunk n c s ∧ lock c = false ∧ ready c = true ∧
                     unlinked n (set_lock true c) s s'
    end)).
  { wp_step. apply wp_area. wp_if E; [apply Hget|by wp_steps]. }
  wp_if E; [|by wp_steps]. eapply wp_mono; [apply Hget|]. intros [n|] s' H; [by wp_steps|].
  by subst s'.
Qed.

Lemma cache_release_turn_spec s img ctx :
  cow_ok s img ctx → wp cache_release_turn s (λ _ s', step_post img ctx s s').
Proof.
  intros C. unfold cache_release_turn. wp_step. apply wp_area. wp_if Ex; [wp_steps; by right|].
  wp_step. eapply wp_mono; [by eapply get_from_caches_spec|].
  intros [n|] s1; [|intros ->; wp_steps; by right].
  intros (c & Hc & Hl & Hr & F1 & _ & St1 & H1 & Hq1). pose proof (cow_pre _ _ _ _ _ C Hc) as Hp.
  destruct (chunk_unlocked img n _ _ _ (cp_ok _ _ _ _ _ Hp) Hl) as (Hrl & _). rewrite Hrl in Hp.
  destruct (held_locked img n s s1 c Hp Hl F1 H1 Hq1) as [H D]. wp_step. apply (wp_getc _ _ _ _ H1).
  eapply cached_post; [done..|]. autorewrite with bits. change (ready (set_lock true c)) with (ready c).
  change (dirty (set_lock true c)) with (dirty c). rewrite Hr. cbn [negb]. destruct (dirty c) eqn:Hd.
  - eapply wp_mono; [apply (store_or_fail_spec img n false _ s1 H D); [done|by intros _]|].
    intros [] s2 K. eapply kept_mono; [exact F1|exact K|]. intros c' [Hsf Hps]. split; [|done].
    change (safe (set_lock true c)) with (safe c) in Hsf. by rewrite Hsf.
  - eapply wp_mono; [by eapply (release_clean_spec img n _ s s1 F1 H D)|]. intros [] s2 K.
    eapply kept_mono; [reflexivity|exact K|]. intros c'. apply keeps_lock.
Qed.
End steps.
