(* ===== verification/CowImage.v ===== *)
(** * The snapshot image shows the frozen device

    The steps of the worker that serves the snapshot image, and the theorems
    about the whole copy-on-write system. *)
From S2P Require Import Prelude MemoryChecker Kernel Uapi EventQueue DiffBuffer DiffIo DiffStorage.
From S2P Require Import Chunk DiffArea ChunkSpecs CowInv Cow CowSteps.

(** ** Copying between a segment and a buffer *)

(** [copied wr off k b v b' v']: [k] bytes have been copied between the buffer
    from offset [off] and the segment from its position. *)
Record copied (wr : bool) (off k : Z) (b : diff_buffer) (v : bvec) (b' : diff_buffer) (v' : bvec)
    : Prop := {
  cd_size : db_size b' = db_size b;
  cd_count : db_page_count b' = db_page_count b;
  cd_pages : lenZ (db_pages b') = lenZ (db_pages b);
  cd_left : bv_left v' = bv_left v - k;
  cd_pos : bv_pos v' = bv_pos v + k;
  cd_buf i : buf_at b' i = if wr && (off <=? i) && (i <? off + k)
                           then bv_data v (bv_pos v + (i - off)) else buf_at b i;
  cd_data i : bv_data v' i = if negb wr && (bv_pos v <=? i) && (i <? bv_pos v + k)
                             then buf_at b (off + (i - bv_pos v)) else bv_data v i;
}.

Ltac split_leb :=
  repeat match goal with
  | |- context [?a <=? ?b] => destruct (Z.leb_spec a b)
  | |- context [?a <? ?b] => destruct (Z.ltb_spec a b)
  end.

Lemma copied_nil wr off b v : copied wr off 0 b v b v.
Proof.
  split; try done; try lia.
  - intros i. destruct wr; simpl; [|done]. split_leb; simpl; done || lia.
  - intros i. destruct wr; simpl; [done|]. split_leb; simpl; done || lia.
Qed.

Lemma copied_trans wr off k1 k2 b v b1 v1 b2 v2 :
  0 ≤ k1 → 0 ≤ k2 → copied wr off k1 b v b1 v1 → copied wr (off + k1) k2 b1 v1 b2 v2 →
  copied wr off (k1 + k2) b v b2 v2.
Proof.
  intros H1 H2 [S1 C1 P1 L1 Q1 B1 D1] [S2 C2 P2 L2 Q2 B2 D2]. split; try congruence; try lia.
  - intros i. rewrite B2, B1. destruct wr; simpl in *; [|done].
    split_leb; simpl; try done; try lia; rewrite D1; f_equal; lia.
  - intros i. rewrite D2, D1. destruct wr; simpl in *; [done|]. rewrite Q1.
    split_leb; simpl; try done; try lia; rewrite B1; f_equal; lia.
Qed.

Lemma pages_at_write p off len data pages i :
  0 ≤ off → 0 ≤ len → off + len ≤ PAGE_SIZE → 0 ≤ p < lenZ pages →
  pages_at (page_write p off len data pages) i =
    if (p * PAGE_SIZE + off <=? i) && (i <? p * PAGE_SIZE + off + len)
    then data (i - (p * PAGE_SIZE + off)) else pages_at pages i.
Proof.
  intros Ho Hlen Hpg Hp. unfold page_write. destruct (nthZ_Some pages p Hp) as [pg Epg]. rewrite Epg.
  unfold pages_at. rewrite nthZ_setZ by done.
  pose proof (Z.div_mod i PAGE_SIZE ltac:(done)) as Hdm.
  pose proof (Z.mod_pos_bound i PAGE_SIZE ltac:(done)) as Hmb.
  assert (HP : PAGE_SIZE = 4096) by done. destruct (Z.eqb_spec (i / PAGE_SIZE) p) as [<-|Hne].
  - rewrite Epg. split_leb; simpl; try lia; try done. f_equal. lia.
  - split_leb; simpl; try done. exfalso. apply Hne. rewrite HP in *. nia.
Qed.

Lemma lenZ_page_write p off len data pages : lenZ (page_write p off len data pages) = lenZ pages.
Proof. unfold page_write. destruct (nthZ pages p); [apply lenZ_setZ|done]. Qed.

(** One turn of the inner loop. *)
Lemma copy_piece_spec cs (wr : bool) off b v it sz :
  buffer_wf cs b → 0 ≤ off → diff_buffer_iter_get b off = Some it → 0 ≤ sz ≤ it_bytes it →
  copied wr off sz b v
    (if wr then {| b with db_pages := page_write (it_page it) (it_offset it) sz
                     (λ o, bv_data v (bv_pos v + o)) (db_pages b) |} else b)
    {| bv_data := if wr then bv_data v
                  else λ i, if (bv_pos v <=? i) && (i <? bv_pos v + sz)
                            then pages_at (db_pages b) (it_page it * PAGE_SIZE + it_offset it + (i - bv_pos v))
                            else bv_data v i;
       bv_pos := bv_pos v + sz; bv_left := bv_left v - sz |}.
Proof.
  intros Hb Ho Hit Hsz.
  destruct (diff_buffer_iter_get_spec cs b off it Hb Ho Hit) as (_ & Ep & Eo & ? & ? & ? & _ & [pg Hpg]).
  pose proof (Z.div_mod off PAGE_SIZE ltac:(done)) as Hdm. apply nthZ_inv in Hpg.
  assert (E : it_page it * PAGE_SIZE + it_offset it = off) by lia. split; try done.
  - by destruct wr.
  - by destruct wr.
  - destruct wr; [apply lenZ_page_write|done].
  - intros i. destruct wr; simpl; [|done]. unfold buf_at at 1. simpl.
    rewrite pages_at_write by lia. by rewrite E.
  - intros i. destruct wr; simpl; [done|]. by rewrite E.
Qed.

Lemma copied_wf wr off k b v b' v' cs : copied wr off k b v b' v' → buffer_wf cs b → buffer_wf cs b'.
Proof. intros [S C L _ _ _ _] (? & ? & ?). split_and!; congruence. Qed.

(** Pieces of sector-aligned copies are whole sectors. *)
Lemma iter_bytes_sectors cs b off it :
  buffer_wf cs b → off mod SECTOR_SIZE = 0 → diff_buffer_iter_get b off = Some it →
  it_bytes it mod SECTOR_SIZE = 0.
Proof.
  intros (Hs & _) Ho. unfold diff_buffer_iter_get. destruct (_ <=? _); [done|]. intros [= <-].
  cbn [it_bytes]. replace (PAGE_SIZE - 1) with (Z.ones 12) by done. rewrite Z.land_ones by lia.
  pose proof (Z.div_mod off (2 ^ 12) ltac:(lia)). apply Z.mod_divide in Ho as [a ->]; [|done].
  apply Z.mod_divide; [done|]. rewrite Hs. unfold SECTOR_SIZE, PAGE_SIZE in *.
  destruct (Z.min_spec (4096 - (a * 512) mod 2 ^ 12) (cs * 512 - a * 512)) as [[_ ->]|[_ ->]].
  - exists (8 - a + 8 * (a * 512 / 2 ^ 12)). lia.
  - exists (cs - a). lia.
Qed.

(** The loop copies until the segment or the buffer ends; a position in whole
    sectors moves by as many sectors. *)
Lemma image_copy_spec fuel cs wr off b v pos :
  buffer_wf cs b → 0 ≤ off → 0 ≤ bv_left v ≤ Z.of_nat fuel →
  let '(b', v', pos') := image_copy fuel wr off b v pos in
  let k := Z.min (bv_left v) (Z.max 0 (db_size b - off)) in
  copied wr off k b v b' v' ∧
  (off mod SECTOR_SIZE = 0 → bv_left v mod SECTOR_SIZE = 0 → pos' = pos + k / SECTOR_SIZE).
Proof.
  revert off b v pos. induction fuel as [|fuel IH]; intros off b v pos Hb Ho Hf; cbn [image_copy].
  { assert (bv_left v = 0) as E by lia. rewrite E. simpl.
    rewrite Z.min_l by lia. split; [apply copied_nil|]. intros _ _. change (0 / SECTOR_SIZE) with 0. lia. }
  destruct (Z.eqb_spec (bv_left v) 0) as [E|Hne].
  { rewrite E, Z.min_l by lia. split; [apply copied_nil|]. intros _ _.
    change (0 / SECTOR_SIZE) with 0. lia. }
  destruct (diff_buffer_iter_get b off) as [it|] eqn:Hit.
  2:{ unfold diff_buffer_iter_get in Hit. destruct (Z.leb_spec (db_size b) off); [|done].
      rewrite Z.max_l, Z.min_r by lia. split; [apply copied_nil|]. intros _ _.
      change (0 / SECTOR_SIZE) with 0. lia. }
  destruct (diff_buffer_iter_get_spec cs b off it Hb Ho Hit) as (Hlt & _ & Eo & Hi0 & Hi1 & Hi2 & Hin & _).
  set (sz := Z.min (it_bytes it) (bv_left v)).
  pose proof (copy_piece_spec cs wr off b v it sz Hb Ho Hit ltac:(lia)) as H1.
  match type of H1 with copied _ _ _ _ _ ?x ?y => set (b1 := x) in *; set (v1 := y) in * end.
  pose proof (copied_wf _ _ _ _ _ _ _ _ H1 Hb) as Hb1.
  specialize (IH (off + sz) b1 v1 (pos + Z.shiftr sz SECTOR_SHIFT) Hb1 ltac:(lia)
    ltac:(rewrite (cd_left _ _ _ _ _ _ _ H1); lia)).
  destruct (image_copy fuel wr (off + sz) b1 v1 (pos + Z.shiftr sz SECTOR_SHIFT)) as [[b2 v2] pos2].
  destruct IH as [H2 Hpos]. rewrite (cd_left _ _ _ _ _ _ _ H1), (cd_size _ _ _ _ _ _ _ H1) in *.
  set (k2 := Z.min (bv_left v - sz) _) in *.
  replace (Z.min (bv_left v) (Z.max 0 (db_size b - off))) with (sz + k2) by lia.
  split; [by eapply copied_trans; [lia..| |]|]. intros Ha Hl.
  assert (Hit' : sz mod SECTOR_SIZE = 0).
  { pose proof (iter_bytes_sectors cs b off it Hb Ha Hit). unfold sz.
    by destruct (Z.min_spec (it_bytes it) (bv_left v)) as [[_ ->]|[_ ->]]. }
  apply Z.mod_divide in Hit' as [q Hq]; [|done].
  apply Z.mod_divide in Ha as [a Ha]; [|done]. apply Z.mod_divide in Hl as [l Hl]; [|done].
  rewrite Hpos.
  - unfold SECTOR_SHIFT. rewrite Z.shiftr_div_pow2 by lia. change (2 ^ 9) with SECTOR_SIZE.
    rewrite (Z.add_comm sz k2), Hq, Z.div_add, Z.div_mul by done. lia.
  - rewrite Ha, Hq, <- Z.mul_add_distr_r. by apply Z.mod_mul.
  - rewrite Hl, Hq, <- Z.mul_sub_distr_r. by apply Z.mod_mul.
Qed.

(** ** The image's task takes and gives back chunks *)

Section image.
Context {P : ModuleParams}.

Definition no_chunk (ctx : diff_area_image_ctx) : diff_area_image_ctx :=
  {| ctx_is_write := ctx_is_write ctx; ctx_chunk := None |}.

Lemma role_of_eq ctx n : ctx_chunk ctx = Some n → role_of ctx n = Some (ctx_is_write ctx).
Proof. intros E. unfold role_of. by rewrite E, Z.eqb_refl. Qed.

Lemma role_of_ne ctx n m : ctx_chunk ctx = Some n → m ≠ n → role_of ctx m = None.
Proof. intros E Hne. unfold role_of. rewrite E. by rewrite (proj2 (Z.eqb_neq _ _)). Qed.

Lemma role_no_chunk ctx n : ctx_chunk ctx = None → role_of ctx n = None.
Proof. intros E. unfold role_of. by rewrite E. Qed.

(** The chunk the context holds. *)
Lemma ctx_holds s img ctx n :
  cow_ok s img ctx → ctx_chunk ctx = Some n →
  ∃ c b, at_chunk n c s ∧ in_cache (area s) n = false ∧ lock c = true ∧
    chunk_ok s img (Some (ctx_is_write ctx)) n c ∧ chunk_buffer c = Some b ∧
    agree s img n c (buf_at b).
Proof.
  intros C Hn. destruct (ck_ctx _ _ _ C n Hn) as [c Hc]. pose proof (ck_chunks _ _ _ C n c Hc) as K.
  rewrite (role_of_eq _ _ Hn) in K. pose proof K as [B D U].
  inversion U as [|wr Hl Hio Hld Hsg Hrd| |]; subst.
  destruct (do_ready _ _ _ _ _ D Hrd) as (b & Hb & Ha). exists c, b. split_and!; try done.
  by eapply locked_not_cached.
Qed.

Lemma put_ctx_spec s img ctx n :
  cow_ok s img ctx → corrupt_flag (area s) = false → ctx_chunk ctx = Some n →
  wp (diff_area_image_put_chunk n (ctx_is_write ctx)) s (λ _ s',
    cow_ok s' img (no_chunk ctx) ∧ evolves s s' ∧ corrupt_flag (area s') = false).
Proof.
  intros C Hx Hn. destruct (ctx_holds _ _ _ _ C Hn) as (c & b & Hc & Hq & _ & K & _).
  eapply wp_mono; [by apply (put_chunk_spec img n (ctx_is_write ctx) c s Hc Hq)|].
  intros [] s' [H Hx']. rewrite Hx in Hx'.
  destruct (cow_kept s s' img ctx (no_chunk ctx) n c None _ C Hc H) as [?|(C' & E & _)];
    try done; [|congruence]. intros m Hm. by rewrite (role_of_ne ctx n m).
Qed.

(** What the context holds after [diff_area_image_context_get_chunk]. *)
Definition got_post (img : Z → Z) (ctx : diff_area_image_ctx) (sector : Z) (s : sys)
    (r : chunk_result * diff_area_image_ctx) (s' : sys) : Prop :=
  ctx_is_write r.2 = ctx_is_write ctx ∧
  (corrupt_flag (area s') = true ∨
   (cow_ok s' img r.2 ∧ evolves s s' ∧
    match r.1 with
    | GotChunk n => n = chunk_number (area s) sector ∧ ctx_chunk r.2 = Some n
    | _ => ctx_chunk r.2 = None
    end)).

(** Taking the chunk with an empty context. *)
Definition take_chunk (ctx : diff_area_image_ctx) (n : Z) : AM (chunk_result * diff_area_image_ctx) :=
  a ← gets area;
  match chunk_map a !! n with
  | None => mret (GotError (- EINVAL), ctx)
  | Some _ =>
      ret ← down_killable n;
      match ret with
      | None => mret (GotSleep, ctx)
      | Some ret =>
          if negb (ret =? 0) then mret (GotError ret, ctx)
          else
            r ← get_chunk_locked n;
            mret (match r with
                  | Err e => (GotError e, ctx)
                  | Ok n => (GotChunk n, {| ctx with ctx_chunk := Some n |})
                  end)
      end
  end.

Lemma take_chunk_spec s img ctx sector :
  cow_ok s img ctx → ctx_chunk ctx = None →
  wp (take_chunk ctx (chunk_number (area s) sector)) s (got_post img ctx sector s).
Proof.
  intros C Hn. unfold take_chunk. set (n := chunk_number (area s) sector). wp_step. apply wp_area.
  destruct (chunk_map (area s) !! n) as [c|] eqn:Hc; [|wp_steps; split; [done|by right]].
  pose proof (cow_pre _ _ _ _ _ C Hc) as Hp. rewrite (role_no_chunk _ _ Hn) in Hp.
  assert (Hsame : ∀ r, (∀ m, r ≠ GotChunk m) → ∀ s1, local n s s1 → at_chunk n c s1 →
    got_post img ctx sector s (r, ctx) s1).
  { intros r Hr s1 L1 H1. split; [done|].
    assert (K : kept img (role_of ctx n) n (keeps c) s s1).
    { rewrite (role_no_chunk _ _ Hn). eapply kept_same; [exact Hp|done..]. }
    destruct (cow_kept s s1 img ctx ctx n c _ _ C Hc K) as [Hx|(C' & E & _)]; try done;
      [by right|by left|right].
    split_and!; try done. cbn. destruct r; [by destruct (Hr n0)|done..]. }
  wp_step. eapply wp_mono; [apply (down_killable_spec _ _ _ Hc)|]. intros r s1 (L1 & _ & Hr).
  destruct (lock c) eqn:Hl.
  { destruct Hr as [Hr Ea]. assert (at_chunk n c s1) by (unfold at_chunk; by rewrite Ea).
    destruct Hr as [->| ->]; cbn; wp_steps; by apply Hsame. }
  destruct Hr as [-> H1]. cbn. wp_step.
  eapply wp_mono; [by eapply (get_chunk_locked_spec img n (ctx_is_write ctx) c s s1 Hp Hl)|].
  intros [m|e] s2 H2; wp_steps; (split; [done|]).
  - destruct H2 as (-> & K & _).
    destruct (cow_kept s s2 img ctx {| ctx_is_write := ctx_is_write ctx; ctx_chunk := Some n |} n c
      _ _ C Hc K) as [Hx|(C' & E & _)]; try done;
      [by apply (role_of_eq {| ctx_is_write := ctx_is_write ctx; ctx_chunk := Some n |})| | |by left|by right].
    + intros m Hm. rewrite (role_no_chunk ctx m Hn). by apply (role_of_ne _ n).
    + intros m [= ->]. by left.
  - destruct (cow_kept s s2 img ctx ctx n c _ _ C Hc H2) as [Hx|(C' & E & _)]; try done;
      [by apply role_no_chunk|by right|by left|by right].
Qed.

Lemma get_chunk_spec s img ctx sector :
  cow_ok s img ctx → corrupt_flag (area s) = false →
  wp (diff_area_image_context_get_chunk ctx sector) s (got_post img ctx sector s).
Proof.
  intros C Hx. unfold diff_area_image_context_get_chunk. wp_step. apply wp_area.
  destruct (ctx_chunk ctx) as [n|] eqn:Hn.
  - wp_if E; bool_hyps.
    + wp_steps. split; [done|]. right. by split_and!.
    + wp_step. eapply wp_mono; [by apply put_ctx_spec|]. intros [] s1 (C1 & E1 & Hx1).
      assert (En : chunk_number (area s1) sector = chunk_number (area s) sector).
      { unfold chunk_number. by rewrite (ev_shift _ _ E1). }
      rewrite <- En. eapply wp_mono; [by apply (take_chunk_spec s1 img (no_chunk ctx) sector C1)|].
      intros [r ctx'] s2 [Hw H2]. split; [done|]. destruct H2 as [?|(C2 & E2 & H2)]; [by left|right].
      rewrite En in H2. split_and!; try done. by rewrite E1.
  - apply (take_chunk_spec s img (no_chunk ctx) sector); [|done].
    replace (no_chunk ctx) with ctx; [done|]. destruct ctx. cbn in *. by subst.
Qed.

(** ** A turn of the image's loop *)

(** The byte belongs to a chunk of the area, that is, to the device. *)
Definition in_area (s : sys) (addr : Z) : Prop :=
  ∃ n c, at_chunk n c s ∧ chunk_base s n ≤ addr < chunk_base s n + chunk_len c.

Definition img_after (ctx : diff_area_image_ctx) (v v' : bvec) (pos : Z) (img : Z → Z) : Z → Z :=
  if ctx_is_write ctx
  then img_write (pos * SECTOR_SIZE) (bv_left v - bv_left v') (λ o, bv_data v (bv_pos v + o)) img
  else img.

(** The offset of a sector in the buffer of its chunk. *)
Lemma buffer_offset s n c pos :
  sys_ok s → base_ok s n c → n = chunk_number (area s) pos → 0 ≤ pos →
  let off := u64 (Z.shiftl (u64 (pos - chunk_sector (area s) c)) SECTOR_SHIFT) in
  pos * SECTOR_SIZE = chunk_base s n + off ∧ 0 ≤ off < sectors s * SECTOR_SIZE.
Proof.
  intros Hs [Hnum [Hn0 Hn1] _ _ _ _] Hn Hpos off. destruct (sectors_pow2 s Hs) as [Ecs Hcs].
  assert (Ec : chunk_sector (area s) c = n * sectors s).
  { unfold chunk_sector, SECTOR_SHIFT. rewrite Hnum, Z.shiftl_mul_pow2 by (destruct Hs; lia).
    rewrite <- Ecs. apply u64_small. nia. }
  rewrite chunk_number_div in Hn by done.
  pose proof (Z.div_mod pos (sectors s) ltac:(lia)).
  pose proof (Z.mod_pos_bound pos (sectors s) ltac:(lia)).
  assert (Hd : pos - n * sectors s = pos mod sectors s) by (rewrite Hn; lia).
  assert (off = (pos - n * sectors s) * SECTOR_SIZE) as ->.
  { unfold off. rewrite Ec, Hd, (u64_small (pos mod _)) by lia. unfold SECTOR_SHIFT.
    rewrite Z.shiftl_mul_pow2 by lia. apply u64_small. unfold SECTOR_SIZE. lia. }
  unfold chunk_base, SECTOR_SIZE. lia.
Qed.

(** A copy between the segment and the buffer of the chunk in the context. *)
Lemma image_copied_ok s img ctx n c b v b' v' off k pos :
  cow_ok s img ctx → ctx_chunk ctx = Some n → at_chunk n c s → chunk_buffer c = Some b →
  copied (ctx_is_write ctx) off k b v b' v' → 0 ≤ off → 0 ≤ k → off + k ≤ sectors s * SECTOR_SIZE →
  pos * SECTOR_SIZE = chunk_base s n + off →
  wp (modc n (λ c, {| c with chunk_buffer := Some b' |})) s (λ _ s',
    cow_ok s' (img_after ctx v v' pos img) ctx ∧ evolves s s' ∧
    at_chunk n {| c with chunk_buffer := Some b' |} s' ∧ ∀ a, excluded s' a ↔ excluded s a).
Proof.
  intros C Hn Hc Hb Hcp Ho Hk0 Hle Hpos. pose proof (sectors_pow2 s (ck_sys _ _ _ C)) as [_ Hcs].
  pose proof (ck_chunks _ _ _ C n c Hc) as K. rewrite (role_of_eq _ _ Hn) in K.
  destruct K as [B D U]. inversion U as [|wr Hl Hio Hld Hsg Hrd| |]; subst.
  destruct (do_ready _ _ _ _ _ D Hrd) as (b0 & Hb0 & Ha). rewrite Hb in Hb0. injection Hb0 as <-.
  assert (Hkk : bv_left v - bv_left v' = k) by (rewrite (cd_left _ _ _ _ _ _ _ Hcp); lia).
  unfold modc, on_area. wp_steps. rewrite assoc by (exact _). split.
  2:{ split; [|done]. unfold at_chunk in *. cbn. by rewrite lookup_alter_eq, Hc. }
  apply (cow_ok_io s _ img _ ctx n c (λ c, {| c with chunk_buffer := Some b' |}));
    try done.
  - intros m cm Hne Hm i Hi. unfold img_after. destruct (ctx_is_write ctx); [|done].
    unfold img_write. rewrite Hkk. pose proof (bo_count _ _ _ (co_base _ _ _ _ _ (ck_chunks _ _ _ C m cm Hm))).
    unfold chunk_base, chunk_len, SECTOR_SIZE in *.
    assert (m < n ∨ n < m) as [?|?] by lia; split_leb; simpl; try done; nia.
  - rewrite (role_of_eq _ _ Hn). eapply (chunk_ok_env s); [by split|]. split.
    + destruct B as [? ? ? HB ? ?]. split; try done. intros b1 [= <-].
      eapply copied_wf; [exact Hcp|by apply HB].
    + destruct D as [D1 D2 D3 D4]. split; try done.
      * intros _. exists b'. split; [done|]. intros i Hi Hx. rewrite (cd_buf _ _ _ _ _ _ _ Hcp).
        unfold img_after. destruct (ctx_is_write ctx); [|by apply Ha]. unfold img_write.
        rewrite Hkk, Hpos. split_leb; simpl; try lia; try (by apply Ha). f_equal. lia.
      * intros Hsd. destruct (D3 Hsd) as (r & Hr & Hag). exists r. split; [done|].
        unfold img_after. destruct (ctx_is_write ctx); [done|exact Hag].
      * unfold img_after. destruct (ctx_is_write ctx); [done|exact D4].
    + by apply busy_image.
Qed.

(** What a turn delivers when it reads. *)
Definition delivered (s' : sys) (img : Z → Z) (v v' : bvec) (pos pos' : Z) : Prop :=
  let k := bv_left v - bv_left v' in
  (0 < k ≤ bv_left v) ∧ bv_pos v' = bv_pos v + k ∧
  (bv_left v mod SECTOR_SIZE = 0 → k mod SECTOR_SIZE = 0 ∧ pos' = pos + k / SECTOR_SIZE) ∧
  (∀ i, ¬ (bv_pos v ≤ i < bv_pos v + k) → bv_data v' i = bv_data v i) ∧
  ∀ i, 0 ≤ i < k → in_area s' (pos * SECTOR_SIZE + i) → ¬ excluded s' (pos * SECTOR_SIZE + i) →
    bv_data v' (bv_pos v + i) = img (pos * SECTOR_SIZE + i).

Definition turn_result_ok (ctx : diff_area_image_ctx) (img : Z → Z) (v : bvec) (pos : Z) (s : sys)
    (r : option blk_status * diff_area_image_ctx * bvec * Z) (s' : sys) : Prop :=
  let '(st, ctx', v', pos') := r in
  ctx_is_write ctx' = ctx_is_write ctx ∧
  (corrupt_flag (area s') = true ∨
   (cow_ok s' (img_after ctx v v' pos img) ctx' ∧ evolves s s' ∧
    match st with
    | None => ctx_is_write ctx = false → delivered s' img v v' pos pos'
    | Some _ => v' = v ∧ pos' = pos
    end)).

Lemma evolves_base s s' n : evolves s s' → chunk_base s' n = chunk_base s n.
Proof. intros E. unfold chunk_base. by rewrite (evolves_sectors _ _ E). Qed.

(** A byte of the device in the range of chunk [n] is a byte of chunk [n]. *)
Lemma in_area_chunk s img n c ctx addr :
  cow_ok s img ctx → at_chunk n c s →
  chunk_base s n ≤ addr < chunk_base s n + sectors s * SECTOR_SIZE →
  in_area s addr → addr < chunk_base s n + chunk_len c.
Proof.
  intros C Hc Ha (m & cm & Hm & Hr).
  pose proof (bo_count _ _ _ (co_base _ _ _ _ _ (ck_chunks _ _ _ C m cm Hm))).
  assert (m = n) as ->.
  { unfold chunk_base, chunk_len, SECTOR_SIZE in *. nia. }
  unfold at_chunk in *. rewrite Hc in Hm. injection Hm as <-. lia.
Qed.

Lemma cow_ok_img s img img' ctx : (∀ a, img' a = img a) → cow_ok s img ctx → cow_ok s img' ctx.
Proof. intros Hi [? ? Hch ? ? ?]. split; try done. intros n c Hc. apply (chunk_ok_img s img); [intros; apply Hi|by apply Hch]. Qed.

Lemma img_after_same ctx v pos img : ∀ a, img_after ctx v v pos img a = img a.
Proof.
  intros a. unfold img_after. destruct (ctx_is_write ctx); [|done]. unfold img_write.
  rewrite Z.sub_diag. split_leb; simpl; done || lia.
Qed.

Lemma image_turn_spec s img ctx v pos :
  cow_ok s img ctx → corrupt_flag (area s) = false → 0 ≤ pos → 0 < bv_left v →
  wp (image_turn ctx v pos) s (turn_result_ok ctx img v pos s).
Proof.
  intros C Hx Hpos Hv. unfold image_turn. wp_step. eapply wp_mono; [by apply get_chunk_spec|].
  intros [r ctx1] s1 [Hw H1]. cbn [fst snd] in *.
  assert (Hstop : ∀ st, (∀ n, r ≠ GotChunk n) →
    turn_result_ok ctx img v pos s (Some st, ctx1, v, pos) s1).
  { intros st Hr. split; [done|]. destruct H1 as [?|(C1 & E1 & _)]; [by left|right].
    split_and!; try done. eapply cow_ok_img; [|exact C1]. apply img_after_same. }
  destruct r as [n|e|]; [|wp_steps; by apply Hstop..]. clear Hstop. wp_step. apply wp_area. wp_step.
  destruct H1 as [Hx1|(C1 & E1 & -> & Hn)].
  { unfold getc. wp_steps. destruct (chunk_buffer _) as [b|].
    - destruct (image_copy _ _ _ b v pos) as [[b' v'] pos']. unfold modc, on_area. wp_steps.
      split; [done|by left].
    - unfold null_dereference. wp_steps. split; [done|by left]. }
  set (n := chunk_number (area s) pos) in *.
  destruct (ctx_holds _ _ _ _ C1 Hn) as (c & b & Hc & _ & _ & K & Hb & Ha).
  pose proof (ck_sys _ _ _ C1) as Hs1. pose proof (bo_buffer _ _ _ (co_base _ _ _ _ _ K) b Hb) as Hbw.
  assert (En : n = chunk_number (area s1) pos).
  { unfold n, chunk_number. by rewrite (ev_shift _ _ E1). }
  destruct (buffer_offset s1 n c pos Hs1 (co_base _ _ _ _ _ K) En Hpos) as [Eoff Hoff].
  apply (wp_getc _ _ _ _ Hc). rewrite Hb. set (off := u64 _) in *.
  pose proof (image_copy_spec (Z.to_nat (bv_left v)) (sectors s1) (ctx_is_write ctx1) off b v pos
    Hbw ltac:(lia) ltac:(lia)) as Hcp.
  destruct (image_copy _ _ _ b v pos) as [[b' v'] pos']. destruct Hcp as [Hcp Hps].
  pose proof Hbw as (Hsz & _). rewrite Hsz in *. set (k := Z.min _ _) in *.
  wp_step. eapply wp_mono; [eapply (image_copied_ok s1 img ctx1 n c b v b' v' off k pos); try done; lia|].
  intros [] s2 (C2 & E2 & Hc2 & Hex). wp_steps. split; [done|]. right.
  assert (Eia : img_after ctx v v' pos img = img_after ctx1 v v' pos img).
  { unfold img_after. by rewrite Hw. }
  rewrite Eia. split_and!; [done|by rewrite E1|]. intros Hrd. rewrite <- Hw in Hrd.
  pose proof (cd_left _ _ _ _ _ _ _ Hcp) as Hl.
  assert (Hk : bv_left v - bv_left v' = k) by lia. unfold delivered. rewrite Hk.
  split; [lia|]. split_and!; [apply Hcp| | |].
  - intros Hal.
    assert (Hmod : off mod SECTOR_SIZE = 0).
    { replace off with ((pos - n * sectors s1) * SECTOR_SIZE) by (unfold chunk_base in Eoff; lia).
      by apply Z.mod_mul. }
    split; [|by apply Hps]. unfold k. rewrite Z.max_r by lia.
    destruct (Z.min_spec (bv_left v) (sectors s1 * SECTOR_SIZE - off)) as [[_ ->]|[_ ->]]; [done|].
    rewrite Zminus_mod, Z.mod_mul, Hmod by done. done.
  - intros i Hi. rewrite (cd_data _ _ _ _ _ _ _ Hcp), Hrd. simpl. split_leb; simpl; done || lia.
  - intros i Hi Hin Hex'. rewrite (cd_data _ _ _ _ _ _ _ Hcp), Hrd. simpl.
    rewrite (proj2 (Z.leb_le _ _)), (proj2 (Z.ltb_lt _ _)) by lia. simpl.
    replace (bv_pos v + i - bv_pos v) with i by lia. rewrite Eoff, <- Z.add_assoc in *.
    apply Ha; [|by rewrite <- Hex]. eapply (in_area_chunk s2 _ n) in Hin; [|done|exact Hc2|..].
    + rewrite (evolves_base _ _ _ E2) in Hin. cbn in Hin. unfold chunk_len in *. cbn in Hin. lia.
    + rewrite (evolves_base _ _ _ E2), (evolves_sectors _ _ E2). lia.
Qed.
End image.
