(* ===== verification/CowSafety.v ===== *)
(** * The snapshot image is the frozen device

    The theorems about the copy-on-write system of Cow.v as a whole: whatever the
    tasks do and in whatever order, the image shows the device as it was when the
    snapshot was taken; and the two ways in which the code loses that. *)
From S2P Require Import Prelude MemoryChecker Kernel Uapi EventQueue DiffBuffer DiffIo DiffStorage.
From S2P Require Import Chunk DiffArea ChunkSpecs CowInv Cow CowSteps CowImage.

(** ** Every step keeps the invariant *)

Lemma Forall_writers_evolves s s' ws :
  evolves s s' → Forall (writer_ok s) ws → Forall (writer_ok s') ws.
Proof. intros E H. eapply list.Forall_impl; [exact H|]. intros w. by apply writer_ok_evolves. Qed.

Lemma inv_step_post img ctx s s' ws :
  Forall (writer_ok s) ws → step_post img ctx s s' → cow_inv (Cow s' ws ctx img).
Proof.
  intros Hw [?|[C E]]; [by left|right]. split; [done|]. by eapply Forall_writers_evolves.
Qed.

(** The rest of the system. *)
Lemma env_spec s s' img ctx : env_ok s s' → cow_ok s img ctx → cow_ok s' img ctx ∧ evolves s s'.
Proof.
  intros [Ea Eo Hst Hcv Htk Hor Hrg] C. pose proof C as [Hs Ho Hch Hca Hra Hcx].
  assert (Hat : ∀ n c, at_chunk n c s' ↔ at_chunk n c s) by (intros; unfold at_chunk; by rewrite Ea).
  split.
  - split; try (by rewrite ?Ea, ?Eo).
    + destruct Hs. by split; rewrite ?Ea.
    + intros n c Hc. apply Hat in Hc. eapply chunk_ok_env; [|by apply Hch].
      split; rewrite ?Ea; try done.
      * intros i _ _ Hx. unfold on_orig, chunk_base. rewrite Ea. by apply Hor.
      * intros r i Hr Hi. by apply (Hrg n c r i).
    + intros n Hn. rewrite Ea in Hn. destruct (Hca n Hn) as (c & ? & ?). exists c. by rewrite Hat.
    + intros n1 n2 c1 c2 r1 r2 bd x Hne H1 H2. apply Hat in H1, H2. by apply (Hra n1 n2 c1 c2).
    + intros n Hn. destruct (Hcx n Hn) as [c Hc]. exists c. by apply Hat.
  - split; [by rewrite Ea|]. intros n c Hc. apply Hat in Hc. exists c. split; [done|apply keeps_refl].
Qed.

Section safety.
Context {P : ModuleParams}.

Lemma step_writer_inv σ i w r ret s' :
  cow_inv σ → corrupt_flag (area (cw_sys σ)) = false → cw_writers σ !! i = Some w →
  (wr_phase w = PWrite → ∀ addr,
     wr_sector w * SECTOR_SIZE ≤ addr < (wr_sector w + wr_count w) * SECTOR_SIZE →
     ¬ excluded (cw_sys σ) addr) →
  writer_turn w (cw_sys σ) = ((r, ret), s') → ret ≠ - EINTR →
  cow_inv {| σ with cw_sys := s';
    cw_writers := match r with
                  | Some w' => <[i := w']> (cw_writers σ)
                  | None => delete i (cw_writers σ)
                  end |}.
Proof.
  intros [Hx|[C Hw]] Hcf Hi Hex Ht Hr; [congruence|].
  pose proof (proj1 (Forall_lookup _ _) Hw i w Hi) as Hwi.
  pose proof (wp_run _ _ _ _ _ (writer_turn_spec _ _ _ _ C Hcf Hwi Hex) Ht) as [H|[H|(C' & E & Hn)]];
    [done|by left|right]. cbn in *. split; [done|].
  pose proof (Forall_writers_evolves _ _ _ E Hw) as Hw'. destruct r as [w'|].
  - apply Forall_insert; [done|]. by apply Hn.
  - by apply Forall_delete.
Qed.

Lemma cow_step_inv σ σ' : cow_inv σ → cow_step false σ σ' → cow_inv σ'.
Proof.
  intros I Hs. destruct Hs as [σ w Hse Hco Hph Hpl|σ i w r ret s' Hcf Hi Hex Ht Hr
    |σ n k status c io s' Hcf Hc Hio Hpl Ht|σ n c io s' Hcf Hc Hio Hnt Ht|σ again s' Hcf Ht
    |σ wr Hn|σ v pos st ctx' v' pos' s' Hcf Hpos Hv Ht|σ s' Hcf Ht|σ s' He].
  - destruct I as [Hx|[C Hw]]; [by left|right]. split; [done|]. cbn.
    apply Forall_app. split; [done|]. apply Forall_singleton. split; [done|]. split; [done|].
    rewrite Hph. exists 0. rewrite round_down_sectors by apply C. split_and!; [lia|lia|]. lia.
  - eapply step_writer_inv; try done. by apply Hr.
  - destruct I as [Hx|[C Hw]]; [congruence|]. apply (inv_step_post _ _ (cw_sys σ)); [done|]. right.
    exact (wp_run _ _ _ _ _ (bio_end_spec _ _ _ n k status c io C Hc Hio) Ht).
  - destruct I as [Hx|[C Hw]]; [congruence|]. apply (inv_step_post _ _ (cw_sys σ)); [done|].
    exact (wp_run _ _ _ _ _ (notify_cb_spec _ _ _ n c io C Hc Hio Hnt) Ht).
  - destruct I as [Hx|[C Hw]]; [congruence|]. apply (inv_step_post _ _ (cw_sys σ)); [done|].
    exact (wp_run _ _ _ _ _ (cache_release_turn_spec _ _ _ C) Ht).
  - destruct I as [Hx|[C Hw]]; [by left|right]. split; [|done]. cbn.
    destruct C as [? ? Hch ? ? ?]. split; try done. intros n c Hc.
    rewrite (role_no_chunk (diff_area_image_ctx_init wr)) by done.
    specialize (Hch n c Hc). by rewrite (role_no_chunk _ _ Hn) in Hch.
  - destruct I as [Hx|[C Hw]]; [congruence|].
    destruct (wp_run _ _ _ _ _ (image_turn_spec _ _ _ v pos C Hcf Hpos Hv) Ht) as [_ [?|(C' & E & _)]];
      [by left|right]. split; [exact C'|]. by eapply Forall_writers_evolves.
  - destruct I as [Hx|[C Hw]]; [congruence|]. unfold diff_area_image_ctx_done in Ht.
    destruct (ctx_chunk (cw_ctx σ)) as [n|] eqn:Hn.
    + destruct (wp_run _ _ _ _ _ (put_ctx_spec _ _ _ n C Hcf Hn) Ht) as (C' & E & _). right.
      split; [exact C'|]. by eapply Forall_writers_evolves.
    + injection Ht as <-. right. split; [|done]. cbn. rewrite <- Hn. by destruct (cw_ctx σ).
  - destruct I as [Hx|[C Hw]]; [left; cbn; by rewrite (ev_area _ _ He)|right].
    destruct (env_spec _ _ _ _ He C) as [C' E]. split; [done|]. by eapply Forall_writers_evolves.
Qed.

Lemma cow_reach_inv σ0 σ : cow_inv σ0 → rtc (cow_step false) σ0 σ → cow_inv σ.
Proof. intros I H. induction H; [done|]. eauto using cow_step_inv. Qed.
End safety.

(** ** The start: a fresh difference area *)

Record chunk_fresh (a : diff_area) (n : Z) (c : chunk) : Prop := {
  cf_number : number c = n;
  cf_count : 0 < chunk_sector_count c ≤ diff_area_chunk_sectors a;
  cf_range : 0 ≤ n ∧ (n + 1) * diff_area_chunk_sectors a ≤ 2 ^ 54;
  cf_state : state c = 0;
  cf_lock : lock c = false;
  cf_buffer : chunk_buffer c = None;
  cf_region : chunk_region c = None;
  cf_io : chunk_io c = None;
}.

Record area_fresh (a : diff_area) : Prop := {
  af_chunks n c : chunk_map a !! n = Some c → chunk_fresh a n c;
  af_read : read_cache_queue a = [];
  af_write : write_cache_queue a = [];
}.

(** The snapshot has just been taken: the image is the device. *)
Record cow_init (σ : cow) : Prop := {
  ci_sys : sys_ok (cw_sys σ);
  ci_area : area_fresh (area (cw_sys σ));
  ci_oops : oops (cw_sys σ) = false;
  ci_writers : cw_writers σ = [];
  ci_ctx : ctx_chunk (cw_ctx σ) = None;
  ci_img a : cw_img σ a = w_disk (kern (cw_sys σ)) (orig_bdev (area (cw_sys σ))) a;
}.

Lemma cow_init_inv σ : cow_init σ → cow_inv σ.
Proof.
  intros [Hs [Hch Hrd Hwr] Ho Hw Hcx Him]. right. split; [|rewrite Hw; constructor]. split; try done.
  - intros n c Hc. destruct (Hch n c Hc) as [? ? ? Hst ? Hb Hr ?].
    assert (∀ k, Z.testbit (state c) k = false) as Hbits by (intros; rewrite Hst; apply Z.bits_0).
    rewrite (role_no_chunk _ _ Hcx). split.
    + split; try done; [by rewrite Hb|by rewrite Hr|by apply Hbits].
    + split; unfold ready, dirty, stored; rewrite !Hbits; try done.
      intros _ _ _ i _ _. by rewrite Him.
    + apply busy_idle; try done; by apply Hbits.
  - intros n Hn. unfold in_cache in Hn. by rewrite Hrd, Hwr in Hn.
  - intros n1 n2 c1 c2 r1 r2 bd x _ H1 _ R1. destruct (Hch _ _ H1). congruence.
  - intros n Hn. congruence.
Qed.

(** ** The steps of the tasks

    The steps of [cow_step] that the area's own tasks take, corrupted or not. *)
Section tasks.
Context {P : ModuleParams}.
Context (signals : bool).

Inductive task_step : cow → cow → Prop :=
  | task_writer σ i w r ret s' :
      cw_writers σ !! i = Some w →
      (wr_phase w = PWrite → ∀ addr,
         wr_sector w * SECTOR_SIZE ≤ addr < (wr_sector w + wr_count w) * SECTOR_SIZE →
         ¬ excluded (cw_sys σ) addr) →
      writer_turn w (cw_sys σ) = ((r, ret), s') →
      (signals = false → ret ≠ - EINTR) →
      task_step σ {| σ with cw_sys := s';
        cw_writers := match r with
                      | Some w' => <[i := w']> (cw_writers σ)
                      | None => delete i (cw_writers σ)
                      end |}
  | task_bio_end σ n k status c io s' :
      at_chunk n c (cw_sys σ) → chunk_io c = Some io → io_plugged io = false →
      bio_end n k status (cw_sys σ) = (tt, s') →
      task_step σ {| σ with cw_sys := s' |}
  | task_notify σ n c io s' :
      at_chunk n c (cw_sys σ) → chunk_io c = Some io → io_notified io = true →
      diff_io_notify_cb n (cw_sys σ) = (tt, s') →
      task_step σ {| σ with cw_sys := s' |}
  | task_cache_release σ again s' :
      cache_release_turn (cw_sys σ) = (again, s') →
      task_step σ {| σ with cw_sys := s' |}
  | task_image_start σ wr :
      ctx_chunk (cw_ctx σ) = None →
      task_step σ {| σ with cw_ctx := diff_area_image_ctx_init wr |}
  | task_image_turn σ v pos st ctx' v' pos' s' :
      0 ≤ pos → 0 < bv_left v →
      image_turn (cw_ctx σ) v pos (cw_sys σ) = ((st, ctx', v', pos'), s') →
      task_step σ {| σ with cw_sys := s'; cw_ctx := ctx';
        cw_img := img_after (cw_ctx σ) v v' pos (cw_img σ) |}
  | task_image_done σ s' :
      diff_area_image_ctx_done (cw_ctx σ) (cw_sys σ) = (tt, s') →
      task_step σ {| σ with cw_sys := s';
        cw_ctx := {| ctx_is_write := ctx_is_write (cw_ctx σ); ctx_chunk := None |} |}.

Lemma task_step_cow σ σ' :
  task_step σ σ' → corrupt_flag (area (cw_sys σ)) = false → cow_step signals σ σ'.
Proof.
  intros H Hx. destruct H; [by eapply step_writer|by eapply step_bio_end|by eapply step_notify
    |by eapply step_cache_release|by apply step_image_start|by eapply step_image_turn|by eapply step_image_done].
Qed.
End tasks.

(** ** Runs

    An executable form of the steps, to build runs by evaluation. *)
Inductive action : Type :=
  | ASubmit (w : writer)
  | AWriter (i : nat)
  | ABioEnd (n : Z) (k : nat) (status : Z)
  | ANotify (n : Z)
  | ACache
  | AImageStart (wr : bool)
  | AImageTurn (v : bvec) (pos : Z)
  | AImageDone.

Section exec.
Context {P : ModuleParams}.
Context (signals : bool).

(** No storage on the device: a sufficient condition for a write to be allowed. *)
Definition storage_elsewhere (s : sys) : bool :=
  forallb (λ b, negb (sk_bdev b =? orig_bdev (area s))) (blocks (storage s)).

Lemma storage_elsewhere_spec s addr : storage_elsewhere s = true → ¬ excluded s addr.
Proof.
  unfold storage_elsewhere, excluded, covered. rewrite forallb_forall. intros H He.
  apply Exists_exists in He as (b & Hb & Hh). apply list_elem_of_In in Hb. specialize (H b Hb).
  destruct Hh as [E _]. apply negb_true_iff, Z.eqb_neq in H. congruence.
Qed.

Definition guard_opt {A} (b : bool) (x : A) : option A := if b then Some x else None.

Definition exec (a : action) (σ : cow) : option cow :=
  let s := cw_sys σ in
  if corrupt_flag (area s) then None
  else
    match a with
    | ASubmit w =>
        match wr_phase w, wr_plug w with
        | PCopy off, [] =>
            guard_opt ((0 <=? wr_sector w) && (0 <? wr_count w) &&
                       (off =? round_down (wr_sector w) (sectors s)))
              {| σ with cw_writers := cw_writers σ ++ [w] |}
        | _, _ => None
        end
    | AWriter i =>
        match cw_writers σ !! i with
        | None => None
        | Some w =>
            let '((r, ret), s') := writer_turn w s in
            guard_opt (storage_elsewhere s && (signals || negb (ret =? - EINTR)))
              {| σ with cw_sys := s';
                 cw_writers := match r with
                               | Some w' => <[i := w']> (cw_writers σ)
                               | None => delete i (cw_writers σ)
                               end |}
        end
    | ABioEnd n k status =>
        match chunk_map (area s) !! n with
        | Some c =>
            match chunk_io c with
            | Some io => guard_opt (negb (io_plugged io)) {| σ with cw_sys := (bio_end n k status s).2 |}
            | None => None
            end
        | None => None
        end
    | ANotify n =>
        match chunk_map (area s) !! n with
        | Some c =>
            match chunk_io c with
            | Some io => guard_opt (io_notified io) {| σ with cw_sys := (diff_io_notify_cb n s).2 |}
            | None => None
            end
        | None => None
        end
    | ACache => Some {| σ with cw_sys := (cache_release_turn s).2 |}
    | AImageStart wr =>
        match ctx_chunk (cw_ctx σ) with
        | None => Some {| σ with cw_ctx := diff_area_image_ctx_init wr |}
        | Some _ => None
        end
    | AImageTurn v pos =>
        let '((st, ctx', v', pos'), s') := image_turn (cw_ctx σ) v pos s in
        guard_opt ((0 <=? pos) && (0 <? bv_left v))
          {| σ with cw_sys := s'; cw_ctx := ctx'; cw_img := img_after (cw_ctx σ) v v' pos (cw_img σ) |}
    | AImageDone =>
        Some {| σ with cw_sys := (diff_area_image_ctx_done (cw_ctx σ) s).2;
                cw_ctx := {| ctx_is_write := ctx_is_write (cw_ctx σ); ctx_chunk := None |} |}
    end.

Lemma guard_opt_Some {A} b (x y : A) : guard_opt b x = Some y → b = true ∧ x = y.
Proof. destruct b; simpl; [|done]. by intros [= <-]. Qed.

Lemma run_unit (m : AM unit) s : m s = (tt, (m s).2).
Proof. by destruct (m s) as [[] ?]. Qed.

Definition is_submit (a : action) : bool := match a with ASubmit _ => true | _ => false end.

Lemma exec_task a σ σ' :
  exec a σ = Some σ' → is_submit a = false →
  task_step signals σ σ' ∧ corrupt_flag (area (cw_sys σ)) = false.
Proof.
  unfold exec. destruct (corrupt_flag (area (cw_sys σ))) eqn:Hcf; [done|]. intros H Ha. split; [|done]. revert H.
  destruct a as [w|i|n k status|n| |wr|v pos|]; [done|..].
  - destruct (cw_writers σ !! i) as [w|] eqn:Hi; [|done].
    destruct (writer_turn w (cw_sys σ)) as [[r ret] s'] eqn:Ht. intros [Hg <-]%guard_opt_Some.
    bool_hyps. eapply task_writer; try done.
    + intros _ addr _. by apply storage_elsewhere_spec.
    + intros ->. by apply Z.eqb_neq, negb_true_iff.
  - destruct (chunk_map (area (cw_sys σ)) !! n) as [c|] eqn:Hc; [|done].
    destruct (chunk_io c) as [io|] eqn:Hio; [|done]. intros [Hg <-]%guard_opt_Some. bool_hyps.
    eapply task_bio_end; try done. apply run_unit.
  - destruct (chunk_map (area (cw_sys σ)) !! n) as [c|] eqn:Hc; [|done].
    destruct (chunk_io c) as [io|] eqn:Hio; [|done]. intros [Hg <-]%guard_opt_Some.
    eapply task_notify; try done. apply run_unit.
  - intros [= <-]. eapply task_cache_release. apply surjective_pairing.
  - destruct (ctx_chunk (cw_ctx σ)) eqn:Hn; [done|]. intros [= <-]. by apply task_image_start.
  - destruct (image_turn (cw_ctx σ) v pos (cw_sys σ)) as [[[[st ctx'] v'] pos'] s'] eqn:Ht.
    intros [Hg <-]%guard_opt_Some. bool_hyps. by eapply task_image_turn.
  - intros [= <-]. eapply task_image_done. apply run_unit.
Qed.

Lemma exec_step a σ σ' : exec a σ = Some σ' → cow_step signals σ σ'.
Proof.
  intros E. destruct (is_submit a) eqn:Ha; [|destruct (exec_task a σ σ' E Ha); by apply task_step_cow].
  destruct a as [w| | | | | | |]; try done. revert E. unfold exec. destruct (corrupt_flag _); [done|].
  destruct (wr_phase w) as [off|off|] eqn:Hp; try done. destruct (wr_plug w) eqn:Hpl; [|done].
  intros [Hg <-]%guard_opt_Some. bool_hyps. apply step_submit; try lia; try done. congruence.
Qed.

Fixpoint run (acts : list action) (σ : cow) : option cow :=
  match acts with
  | [] => Some σ
  | a :: acts => match exec a σ with Some σ' => run acts σ' | None => None end
  end.

Lemma run_reach acts σ σ' : run acts σ = Some σ' → rtc (cow_step signals) σ σ'.
Proof.
  revert σ. induction acts as [|a acts IH]; intros σ; simpl; [by intros [= <-]|].
  destruct (exec a σ) as [σ1|] eqn:E; [|done]. intros H. eapply rtc_l; [by eapply exec_step|eauto].
Qed.
End exec.

(** ** Properties *)

Section properties.
Context {P : ModuleParams}.


(** Where a chunk's data is, when it no longer depends on the device. *)
Definition saved (s : sys) (img : Z → Z) (n : Z) (c : chunk) : Prop :=
  (∃ b, chunk_buffer c = Some b ∧ agree s img n c (buf_at b)) ∨
  (∃ r, chunk_region c = Some r ∧ stored c = true ∧ agree s img n c (on_region s r)).

Lemma safe_saved s img rl n c : chunk_ok s img rl n c → safe c = true → saved s img n c.
Proof.
  intros [B D U] Hsf. destruct (ready c) eqn:Hr; [left; by apply (do_ready _ _ _ _ _ D)|right].
  assert (Hd : dirty c = false).
  { destruct (dirty c) eqn:Hd; [|done]. pose proof (do_dirty _ _ _ _ _ D Hd). congruence. }
  unfold safe in Hsf. rewrite Hd in Hsf. destruct (do_stored _ _ _ _ _ D Hsf) as (r & Hrg & Ha).
  exists r. split_and!; try done. apply Ha; [done|]. apply bool_decide_eq_false_2. intros ->.
  inversion U. congruence.
Qed.


End properties.

(** ** A run *)

Definition ex_chunk (n : Z) : chunk :=
  {| number := n; chunk_sector_count := 8; lock := false; state := 0; chunk_buffer := None;
     chunk_region := None; chunk_io := None |}.

(** Two chunks of one page each on device 1; the storage is on device 8. *)
Definition ex_area : diff_area :=
  {| area_kref := 1; orig_bdev := 1; chunk_shift := 12; chunk_count := 2;
     chunk_map := <[0 := ex_chunk 0]> (<[1 := ex_chunk 1]> ∅);
     read_cache_queue := []; read_cache_count := 0; write_cache_queue := []; write_cache_count := 0;
     cache_release_work := false; pool := {| free_diff_buffers := []; free_diff_buffers_count := 0 |};
     corrupt_flag := false; pending_io_count := 0 |}.

Definition ex_cow (oracle : list Z) : cow :=
  {| cw_sys := {| area := ex_area; storage := ex_storage;
                  kern := {| ex_world with w_oracle := oracle |}; oops := false; hung := false |};
     cw_writers := []; cw_ctx := diff_area_image_ctx_init false; cw_img := λ a, a mod 251 |}.

Lemma ex_cow_init oracle : cow_init (ex_cow oracle).
Proof.
  split; try done.
  - split; [exact ex_storage_wf|split; [done|constructor]|cbn; lia].
  - split; try done. intros n c. cbn. rewrite !lookup_insert_Some, lookup_empty.
    intros [[<- <-]|[? [[<- <-]|[? ?]]]]; [..|done]; split; cbn; try done; vm_compute; done.
Qed.

(** A bio of [count] sectors of sevens. *)
Definition ex_writer (sector count : Z) (nowait : bool) : writer :=
  {| wr_sector := sector; wr_count := count; wr_nowait := nowait; wr_data := λ _, 7;
     wr_phase := PCopy (round_down sector 8); wr_plug := [] |}.

Definition ex_bvec : bvec := {| bv_data := λ _, 0; bv_pos := 0; bv_left := 4096 |}.

Definition byte_of {A} (r : option (A * Z)) : option Z := snd <$> r.

(** The whole way of one write: the old data is loaded, stored and cached, then
    the write passes. *)
Definition ex_actions : list action :=
  [ASubmit (ex_writer 2 4 false); AWriter 0; AWriter 0; ABioEnd 0 0 0; ANotify 0; AWriter 0;
   ABioEnd 0 0 0; ANotify 0; AWriter 0; AWriter 0].

(** The state a run from [ex_cow oracle] ends in. *)
Definition ex_run (signals : bool) (acts : list action) (oracle : list Z) : cow :=
  default (ex_cow []) (run (P:=default_params) signals acts (ex_cow oracle)).

Definition is_some {A} (o : option A) : bool := match o with Some _ => true | None => false end.

Lemma ex_run_reach signals acts oracle :
  is_some (run (P:=default_params) signals acts (ex_cow oracle)) = true →
  rtc (cow_step (P:=default_params) signals) (ex_cow oracle) (ex_run signals acts oracle).
Proof.
  unfold ex_run. destruct (run signals acts (ex_cow oracle)) as [σ|] eqn:E; [|done].
  intros _. by eapply run_reach.
Qed.

Lemma chunk_at_spec n s :
  is_some (chunk_map (area s) !! n) = true → at_chunk n (chunk_at (area s) n) s.
Proof. unfold at_chunk, chunk_at. by destruct (chunk_map (area s) !! n). Qed.

(** What a read of the first chunk of the image returns in a state. *)
Definition ex_read (σ : cow) : option blk_status * diff_area_image_ctx * bvec * Z * sys :=
  image_turn (P:=default_params) (cw_ctx σ) ex_bvec 0 (cw_sys σ).

Lemma ex_read_eq σ :
  image_turn (P:=default_params) (cw_ctx σ) ex_bvec 0 (cw_sys σ) =
    (((ex_read σ).1.1.1.1, (ex_read σ).1.1.1.2, (ex_read σ).1.1.2, (ex_read σ).1.2), (ex_read σ).2).
Proof. unfold ex_read. by destruct (image_turn _ _ _ _) as [[[[? ?] ?] ?] ?]. Qed.




(** *** Two ways in which the code loses the image *)

(** A second writer is killed while it sleeps on a chunk that is being loaded. *)
Definition ex_killed : list action :=
  [ASubmit (ex_writer 0 8 false); AWriter 0; AWriter 0; ASubmit (ex_writer 2 4 false);
   AWriter 1; AWriter 1; ABioEnd 0 0 0; ANotify 0; ABioEnd 0 0 0; ANotify 0].

(** C37: a killed writer corrupts the image silently. When signals can kill a
    writer that sleeps in [diff_area_copy], a state can be reached in which the
    area is not marked corrupted, no write to the image has happened, and a read
    of the image succeeds with a byte that the device got after the snapshot. *)
Theorem cow_killed_writer_corrupts :
  ∃ σ v' s', rtc (cow_step (P:=default_params) true) (ex_cow [0; 0; 0; 0; 1]) σ ∧
    corrupt_flag (area (cw_sys σ)) = false ∧ cw_img σ 1030 = 1030 mod 251 ∧
    (∃ ctx', image_turn (P:=default_params) (cw_ctx σ) ex_bvec 0 (cw_sys σ) =
               ((None, ctx', v', 8), s')) ∧
    corrupt_flag (area s') = false ∧ ¬ excluded s' 1030 ∧ in_area s' 1030 ∧
    bv_data v' 1030 = 7 ∧ 7 ≠ 1030 mod 251.
Proof.
  set (σ := ex_run true ex_killed [0; 0; 0; 0; 1]). exists σ, (ex_read σ).1.1.2, (ex_read σ).2.
  split; [apply ex_run_reach; vm_compute; reflexivity|].
  split; [vm_compute; reflexivity|]. split; [vm_compute; reflexivity|].
  split; [|split; [vm_compute; reflexivity|]].
  { exists (ex_read σ).1.1.1.2. rewrite ex_read_eq. f_equal. }
  split; [apply storage_elsewhere_spec; vm_compute; reflexivity|].
  split; [eexists 0, _; split; [apply chunk_at_spec; vm_compute; reflexivity|]; vm_compute; split; congruence|].
  split; [vm_compute; reflexivity|]. vm_compute. congruence.
Qed.

(** A write that must not wait meets a chunk the image's worker holds. *)
Definition ex_nowait : list action :=
  [AImageTurn ex_bvec 8; ASubmit (ex_writer 0 16 true); AWriter 0; AWriter 0; AImageDone].

(** C38: a refused write leaves a chunk locked for ever. A bio with [REQ_NOWAIT]
    over two chunks starts loading the first, finds the second in use and is
    refused with [-EAGAIN]; the bio that was to load the first chunk is still in
    the task's list and is dropped with it. In the state reached no task is left,
    nothing is marked corrupted, the chunk's semaphore is held, its request has
    been submitted by no one and is counted as pending; readers of the image and
    writers to the chunk sleep. *)
Theorem cow_refused_write_leaks_lock :
  ∃ σ c io, rtc (cow_step (P:=default_params) false) (ex_cow []) σ ∧
    corrupt_flag (area (cw_sys σ)) = false ∧ cw_writers σ = [] ∧ ctx_chunk (cw_ctx σ) = None ∧
    at_chunk 0 c (cw_sys σ) ∧ lock c = true ∧ chunk_io c = Some io ∧
    io_plugged io = true ∧ io_notified io = false ∧ pending_io_count (area (cw_sys σ)) = 1 ∧
    (ex_read σ).1.1.1.1 = Some BLK_STS_SLEEP ∧
    (copy_turn (P:=default_params) 0 false (cw_sys σ)).1 = Sleep.
Proof.
  exists (ex_run false ex_nowait []). eexists _, _.
  split; [apply ex_run_reach; vm_compute; reflexivity|].
  split; [vm_compute; reflexivity|]. split; [vm_compute; reflexivity|]. split; [vm_compute; reflexivity|].
  split; [apply chunk_at_spec; vm_compute; reflexivity|].
  split_and!; vm_compute; reflexivity.
Qed.
