(* ===== verification/CowPlug.v ===== *)
(** * Requests held back on a task's bio list

    [diff_area_copy] runs with [current->bio_list] set, so that the requests it starts
    are held back until the loop is over (tracker.c, [tracker_submit_bio]). This file
    shows who holds back what: a request is held back only in the list of a writer that
    is still in the loop, for a chunk the writer has passed, and the operations of the
    other tasks hold nothing back. *)
From S2P Require Import Prelude MemoryChecker Kernel Uapi EventQueue DiffBuffer DiffIo DiffStorage.
From S2P Require Import Effects Chunk DiffArea ChunkSpecs CowInv Cow CowSteps CowImage CowSafety.

(** *** The bio list under bios *)

Lemma same_bio_run st b pages : same_view w_bio_list (bio_run st b pages).
Proof. unfold bio_run. same. Qed.
#[export] Hint Resolve same_bio_run : same.
Lemma same_wait_bios l io pages : same_view w_bio_list (wait_bios l io pages).
Proof. revert io pages. induction l; intros io pages; cbn [wait_bios]; same. Qed.
#[export] Hint Resolve same_wait_bios : same.
Notation ds_list := (ds_view w_bio_list).

(** ** What an operation may hold back *)

Notation held_back s := (w_bio_list (kern s)).

(** The request of chunk [n] is held back. *)
Definition plugged (s : sys) (n : Z) : Prop :=
  ∃ c io, at_chunk n c s ∧ chunk_io c = Some io ∧ io_plugged io = true.

(** From [s] to [s'] requests have been held back for chunks in [O] only, each in the
    task's list, which has not lost any. *)
Record queues (O : Z → Prop) (s s' : sys) : Prop := {
  qu_plugged m : plugged s' m → plugged s m ∨ (O m ∧ m ∈ default [] (held_back s'));
  qu_list : match held_back s with
            | None => held_back s' = None
            | Some l => ∃ l', held_back s' = Some (l ++ l') ∧ Forall O l'
            end;
  qu_shift : chunk_shift (area s') = chunk_shift (area s);
}.

#[global] Instance queues_preorder O : PreOrder (queues O).
Proof.
  split.
  - intros s. split; [by left| |done]. destruct (held_back s) as [l|]; [|done]. exists []. by rewrite app_nil_r.
  - intros s1 s2 s3 [P1 L1 E1] [P2 L2 E2]. split; [| |congruence].
    + intros m Hm. destruct (P2 m Hm) as [H2|H2]; [|by right]. destruct (P1 m H2) as [?|[HO Hin]]; [by left|right].
      split; [done|]. destruct (held_back s2) as [l|]; [|by apply elem_of_nil in Hin].
      destruct L2 as (l' & -> & _). apply elem_of_app. by left.
    + destruct (held_back s1) as [l|]; [|by rewrite L1 in L2]. destruct L1 as (l1 & Q1 & F1). rewrite Q1 in L2.
      destruct L2 as (l2 & Q2 & F2). exists (l1 ++ l2). rewrite Q2, app_assoc. split; [done|]. by apply Forall_app.
Qed.

Lemma queues_mono (O O' : Z → Prop) s s' : (∀ m, O m → O' m) → queues O s s' → queues O' s s'.
Proof.
  intros H [P L ?]. split; [| |done].
  - intros m Hm. destruct (P m Hm) as [?|[? ?]]; auto.
  - destruct (held_back s) as [l|]; [|done]. destruct L as (l' & E & F). exists l'. split; [done|].
    eapply list.Forall_impl; [exact F|auto].
Qed.

(** Nothing that matters has changed. *)
Lemma queues_same O s s' :
  (∀ m, plugged s' m → plugged s m) → held_back s' = held_back s →
  chunk_shift (area s') = chunk_shift (area s) → queues O s s'.
Proof.
  intros Hp E Es. split; [auto| |done]. rewrite E. destruct (held_back s) as [l|]; [|done]. exists [].
  by rewrite app_nil_r.
Qed.

Definition queuing {A} (O : Z → Prop) (m : AM A) : Prop := ∀ s, queues O s (m s).2.

Section queuing.
Context (O : Z → Prop).

Lemma queuing_ret {A} (a : A) : queuing O (mret a).
Proof. intros s. reflexivity. Qed.
Lemma queuing_gets {A} (f : sys → A) : queuing O (gets f).
Proof. intros s. reflexivity. Qed.
Lemma queuing_skip : queuing O skip.
Proof. intros s. reflexivity. Qed.
Lemma queuing_bind {A B} (m : AM A) (f : A → AM B) :
  queuing O m → (∀ a, queuing O (f a)) → queuing O (m ≫= f).
Proof. intros Hm Hf s. unfold mbind, M_mbind. etrans; [apply Hm|apply Hf]. Qed.
Lemma queuing_when b m : queuing O m → queuing O (when b m).
Proof. destruct b; [done|]. intros _. apply queuing_skip. Qed.
Lemma queuing_kern {A} (m : K A) : same_view w_bio_list m → queuing O (on_kern m).
Proof. intros H s. apply queues_same; [done| |done]. apply H. Qed.
Lemma queuing_store {A} (m : DS A) : same_view ds_list m → queuing O (on_store m).
Proof. intros H s. apply queues_same; [done| |done]. apply H. Qed.
Lemma queuing_area f :
  (∀ a, chunk_map (f a) = chunk_map a ∧ chunk_shift (f a) = chunk_shift a) → queuing O (on_area f).
Proof.
  intros H s. apply queues_same; [|done|apply H]. unfold plugged, at_chunk. cbn. by rewrite (proj1 (H _)).
Qed.

(** A change of a chunk that starts no request, or one that is in the list. *)
Lemma queues_modc n f s :
  (∀ c io, at_chunk n c s → chunk_io (f c) = Some io → io_plugged io = true →
     (∃ io', chunk_io c = Some io' ∧ io_plugged io' = true) ∨ (O n ∧ n ∈ default [] (held_back s))) →
  queues O s (modc n f s).2.
Proof.
  intros H. split; [|cbn; destruct (held_back s) as [l|]; [exists []; by rewrite app_nil_r|done]|done].
  intros m (c & io & Hc & Hio & Hp). unfold at_chunk in Hc. cbn in Hc. destruct (decide (m = n)) as [->|Hm].
  - rewrite lookup_alter_eq in Hc. destruct (chunk_map (area s) !! n) as [c0|] eqn:E; [|done].
    injection Hc as <-. destruct (H c0 io E Hio Hp) as [(io' & H1 & H2)|?]; [|by right]. left. by exists c0, io'.
  - rewrite lookup_alter_ne in Hc by done. left. by exists c, io.
Qed.
Lemma queuing_modc n f :
  (∀ c, chunk_io (f c) = chunk_io c ∨ chunk_io (f c) = None) → queuing O (modc n f).
Proof.
  intros H s. apply queues_modc. intros c io _ Hio Hp. left. exists io. destruct (H c); [|congruence]. split; congruence.
Qed.
End queuing.

Create HintDb queuing discriminated.
Ltac queuing := repeat first
  [ progress intros
  | solve [auto 2 with queuing nocore]
  | simple apply queuing_bind | simple apply queuing_ret | simple apply queuing_gets
  | simple apply queuing_skip | simple apply queuing_when
  | simple apply queuing_kern; solve [same] | simple apply queuing_store; solve [same]
  | simple apply queuing_area; solve [intros; repeat case_match; done]
  | simple apply queuing_modc; solve [intros; cbn; auto]
  | match goal with |- queuing _ (match ?x with _ => _ end) => destruct x end ].

Lemma queuing_getc O n : queuing O (getc n).
Proof. apply queuing_gets. Qed.
Lemma queuing_null O : queuing O null_dereference.
Proof. intros s. by apply queues_same. Qed.
Lemma queuing_hung O : queuing O (modify (λ s, {| s with hung := true |})).
Proof. intros s. by apply queues_same. Qed.
#[export] Hint Resolve queuing_getc queuing_null queuing_hung : queuing.
Lemma queuing_up O n : queuing O (up n).
Proof. unfold up. queuing. Qed.
Lemma queuing_trylock O n : queuing O (down_trylock n).
Proof. unfold down_trylock. queuing. Qed.
Lemma queuing_killable O n : queuing O (down_killable n).
Proof. unfold down_killable. queuing. Qed.
Lemma queuing_corrupted O e : queuing O (diff_area_set_corrupted e).
Proof. unfold diff_area_set_corrupted, diff_area_event_corrupted. queuing. Qed.
#[export] Hint Resolve queuing_up queuing_trylock queuing_killable queuing_corrupted : queuing.

(** ** Requests *)

(** [wp] with [queues] as the postcondition, step by step. *)
Lemma wp_queuing {A B} O (m : AM A) (f : A → AM B) s0 s (Q : A → sys → Prop) :
  queues O s0 s → wp m s (λ a s', queues O s s' ∧ Q a s') →
  (∀ a s', queues O s0 s' → Q a s' → wp (f a) s' (λ _ s'', queues O s0 s'')) →
  wp (m ≫= f) s (λ _ s'', queues O s0 s'').
Proof. intros H0 Hm Hf. apply wp_bind. eapply wp_mono; [exact Hm|]. intros a s' [H1 H2]. apply Hf; [by etrans|done]. Qed.
Lemma wp_queuing_rest {A} O (m : AM A) s0 s : queues O s0 s → queuing O m → wp m s (λ _ s', queues O s0 s').
Proof. intros H0 Hm. unfold wp. etrans; [exact H0|apply Hm]. Qed.

Lemma io_new_async_unplugged O wr nw fn s :
  wp (on_kern (diff_io_new_async wr nw fn)) s (λ r s', queues O s s' ∧ ∀ io, r = Some io → io_plugged io = false).
Proof.
  apply wp_and; [apply queuing_kern; same|]. unfold on_kern, diff_io_new_async, diff_io_new. wp_steps.
  apply wp_alloc. intros [] vs; cbn [negb]; wp_steps; [|done]. by intros io [= <-].
Qed.

Lemma wait_bios_plugged l io pages w : wp (wait_bios l io pages) w (λ '(io', _) _, io_plugged io' = io_plugged io).
Proof.
  revert io pages w. induction l as [|b l IH]; intros io pages w; cbn [wait_bios]; [by wp_steps|].
  wp_step. apply wp_oracle. intros v vs. wp_step. apply wp_eq. intros pg w1 _.
  eapply wp_mono; [apply IH|]. intros [io' pg'] w2 ->. done.
Qed.

Lemma io_do_queues (O : Z → Prop) n io r b nw s :
  O n →
  wp (on_kern (diff_io_do n io r b nw)) s (λ res s', queues O s s' ∧
    (io_plugged io = false → io_plugged res.1.2 = true → n ∈ default [] (held_back s'))).
Proof.
  intros HO. unfold on_kern. wp_step. unfold diff_io_do.
  assert (Hsame : ∀ w, w_bio_list w = held_back s → queues O s {| s with kern := w |})
    by (intros w E; by apply queues_same).
  destruct (negb (check_page_aligned _)); [wp_steps; split; [by apply Hsame|by cbn; intros ->]|].
  destruct (_ <? _); [wp_steps; split; [by apply Hsame|by cbn; intros ->]|].
  wp_step. eapply wp_mono; [eapply (wp_and _ _ (λ _ w, w_bio_list w = held_back s) (λ _ _, True)); [by apply same_bio_loop|done]|].
  intros [ok bios] w1 [E1 _]. cbv zeta. destruct ok; cbn [negb];
    [|wp_steps; split; [by apply Hsame|by cbn; intros ->]].
  destruct (is_sync_io _).
  - wp_step. eapply wp_mono; [apply (wp_and _ _ (λ _ w, w_bio_list w = w_bio_list w1)); [apply same_wait_bios|apply wait_bios_plugged]|].
    intros [io' pg] w2 [E2 Ep]. wp_steps. split; [apply Hsame; congruence|]. cbn in *. by rewrite Ep; intros ->.
  - unfold submit_bios. wp_steps. rewrite E1. destruct (held_back s) as [l|] eqn:El; wp_steps.
    + split; [|intros _ _; cbn; apply elem_of_app; right; by apply list_elem_of_singleton].
      split; [by left| |done]. rewrite El. exists [n]. split; [done|]. by apply Forall_singleton.
    + split; [apply Hsame; congruence|done].
Qed.

Lemma queuing_io_do (O : Z → Prop) n io r b nw : O n → queuing O (on_kern (diff_io_do n io r b nw)).
Proof. intros HO s. by apply (io_do_queues O n io r b nw s HO). Qed.
#[export] Hint Resolve queuing_io_do : queuing.

Section params.
Context {P : ModuleParams}.

Lemma queuing_buffer_release O n : queuing O (chunk_diff_buffer_release n).
Proof. unfold chunk_diff_buffer_release. queuing. Qed.
#[local] Hint Resolve queuing_buffer_release : queuing.
Lemma queuing_store_failed O n e : queuing O (chunk_store_failed n e).
Proof. unfold chunk_store_failed. queuing. Qed.

(** The two functions that start requests. *)
Lemma queuing_async_store (O : Z → Prop) n nw : O n → queuing O (chunk_async_store_diff n nw).
Proof.
  intros HO s. change (wp (chunk_async_store_diff n nw) s (λ _ s', queues O s s')). unfold chunk_async_store_diff.
  wp_steps. destruct (in_cache _ _); [wp_steps; reflexivity|].
  eapply wp_queuing; [reflexivity|apply (io_new_async_unplugged O)|]. intros [io|] s1 H1 Hio; [|by wp_steps].
  specialize (Hio io eq_refl). cbv beta in Hio.
  eapply (wp_queuing _ _ _ _ _ (λ _ _, True)); [exact H1| |].
  { split; [|done]. apply queues_modc. cbn. intros c io' _ [= <-]. congruence. }
  intros _ s2 H2 _. eapply (wp_queuing _ _ _ _ _ (λ _ _, True)); [exact H2|split; [|done]; by apply queuing_area|].
  intros _ s3 H3 _. unfold getc. wp_step. wp_step. destruct (chunk_region _) as [r|]; [destruct (chunk_buffer _) as [b|]|];
    [|apply wp_queuing_rest; [done|queuing]..].
  eapply (wp_queuing _ _ _ _ _ (λ res s', io_plugged res.1.2 = true → n ∈ default [] (held_back s')));
    [exact H3|eapply wp_mono; [by apply io_do_queues|]; intros res s' [? ?]; auto|].
  intros [[ret io'] b'] s4 H4 Hp. cbn in Hp.
  destruct (negb (ret =? 0)); [apply wp_queuing_rest; [done|queuing]|].
  eapply (wp_queuing _ _ _ _ _ (λ _ _, True)); [exact H4| |intros _ s5 H5 _; by wp_steps].
  split; [|done]. apply queues_modc. cbn. intros c io1 _ [= <-] Hp1. right. auto.
Qed.

Lemma queuing_async_load (O : Z → Prop) n nw : O n → queuing O (chunk_async_load_orig n nw).
Proof.
  intros HO s. change (wp (chunk_async_load_orig n nw) s (λ _ s', queues O s s')). unfold chunk_async_load_orig, getc.
  wp_step. wp_step. wp_step. wp_step. cbv zeta.
  eapply wp_queuing; [reflexivity|apply (io_new_async_unplugged O)|]. intros [io|] s1 H1 Hio; [|by wp_steps].
  specialize (Hio io eq_refl). cbv beta in Hio.
  eapply (wp_queuing _ _ _ _ _ (λ _ _, True)); [exact H1| |].
  { split; [|done]. apply queues_modc. cbn. intros c io' _ [= <-]. congruence. }
  intros _ s2 H2 _. eapply (wp_queuing _ _ _ _ _ (λ _ _, True)); [exact H2|split; [|done]; by apply queuing_area|].
  intros _ s3 H3 _. destruct (chunk_buffer _) as [b|]; [|apply wp_queuing_rest; [done|queuing]].
  eapply (wp_queuing _ _ _ _ _ (λ res s', io_plugged res.1.2 = true → n ∈ default [] (held_back s')));
    [exact H3|eapply wp_mono; [by apply io_do_queues|]; intros res s' [? ?]; auto|].
  intros [[ret io'] b'] s4 H4 Hp. cbn in Hp.
  destruct (negb (ret =? 0)); [apply wp_queuing_rest; [done|queuing]|].
  eapply (wp_queuing _ _ _ _ _ (λ _ _, True)); [exact H4| |intros _ s5 H5 _; by wp_steps].
  split; [|done]. apply queues_modc. cbn. intros c io1 _ [= <-] Hp1. right. auto.
Qed.
End params.
#[export] Hint Resolve queuing_buffer_release queuing_store_failed : queuing.
#[export] Hint Resolve queuing_async_store queuing_async_load : queuing.

(** ** The operations of the area *)

Section area.
Context {P : ModuleParams} (O : Z → Prop).

Lemma queuing_schedule_storing n nw : O n → queuing O (chunk_schedule_storing n nw).
Proof. intros HO. unfold chunk_schedule_storing. queuing. Qed.
Lemma queuing_schedule_caching n : queuing O (chunk_schedule_caching n).
Proof. unfold chunk_schedule_caching. queuing. Qed.
Lemma queuing_take_io_error n : queuing O (take_io_error n).
Proof. unfold take_io_error. queuing. Qed.
#[local] Hint Resolve queuing_schedule_storing queuing_schedule_caching queuing_take_io_error : queuing.
Lemma queuing_notify_load n : O n → queuing O (chunk_notify_load n).
Proof. intros HO. unfold chunk_notify_load, pending_io_dec. queuing. Qed.
Lemma queuing_notify_store n : queuing O (chunk_notify_store n).
Proof. unfold chunk_notify_store, pending_io_dec. queuing. Qed.
Lemma queuing_take_cached n : queuing O (diff_area_take_chunk_from_cache n).
Proof. unfold diff_area_take_chunk_from_cache. queuing. Qed.
#[local] Hint Resolve queuing_notify_load queuing_notify_store queuing_take_cached : queuing.
Lemma queuing_notify_cb n : O n → queuing O (diff_io_notify_cb n).
Proof. intros HO. unfold diff_io_notify_cb. queuing. Qed.

Lemma queuing_copy_locked n nw : O n → queuing O (copy_locked n nw).
Proof. intros HO. unfold copy_locked, copy_fail. queuing. Qed.
Lemma queuing_wait_locked n : queuing O (wait_locked n).
Proof. unfold wait_locked. queuing. Qed.
#[local] Hint Resolve queuing_copy_locked queuing_wait_locked : queuing.
Lemma queuing_wait_turn offset nw : queuing O (wait_turn offset nw).
Proof. unfold wait_turn, lock_turn. queuing. Qed.

Lemma queuing_trylock_first l : queuing O (trylock_first l).
Proof. induction l; cbn [trylock_first]; queuing. Qed.
#[local] Hint Resolve queuing_trylock_first : queuing.
Lemma queuing_cache_release : (∀ n, O n) → queuing O cache_release_turn.
Proof.
  intros HO. unfold cache_release_turn, diff_area_get_chunk_from_cache_and_write_lock.
  unfold get_chunk_from_cache_and_write_lock. queuing.
Qed.

Lemma queuing_put_chunk n wr : queuing O (diff_area_image_put_chunk n wr).
Proof. unfold diff_area_image_put_chunk. queuing. Qed.
Lemma queuing_load_sync n r : O n → queuing O (chunk_load_sync n r).
Proof. intros HO. unfold chunk_load_sync, diff_io_new_sync_read. queuing. Qed.
#[local] Hint Resolve queuing_put_chunk queuing_load_sync : queuing.
Lemma queuing_get_chunk ctx sector : (∀ n, O n) → queuing O (diff_area_image_context_get_chunk ctx sector).
Proof.
  intros HO. unfold diff_area_image_context_get_chunk, get_chunk_locked, diff_area_load_chunk_from_storage.
  unfold chunk_load_diff, chunk_load_orig. queuing.
Qed.
#[local] Hint Resolve queuing_get_chunk : queuing.
Lemma queuing_image_turn ctx v pos : (∀ n, O n) → queuing O (image_turn ctx v pos).
Proof. intros HO. unfold image_turn. queuing. Qed.
Lemma queuing_ctx_done ctx : queuing O (diff_area_image_ctx_done ctx).
Proof. unfold diff_area_image_ctx_done. queuing. Qed.

Lemma queuing_bio_end n k st : queuing O (bio_end n k st).
Proof.
  intros s. change (wp (bio_end n k st) s (λ _ s', queues O s s')). unfold bio_end, getc. wp_steps.
  unfold chunk_at. destruct (chunk_map (area s) !! n) as [c|] eqn:Ec; cbn; [|wp_steps; reflexivity].
  destruct (chunk_io c) as [io|] eqn:Eio; [|wp_steps; reflexivity].
  destruct (chunk_buffer c) as [b|]; [|wp_steps; reflexivity].
  destruct (io_bios io !! k) as [bi|]; [|wp_steps; reflexivity].
  apply wp_bind, wp_eq. intros pages s1 E1.
  assert (queues O s s1 ∧ area s1 = area s) as [Hq Ea].
  { apply (f_equal snd) in E1. cbn in E1. subst s1. split; [apply (queuing_kern O); same|done]. }
  unfold wp. etrans; [exact Hq|]. apply queues_modc. unfold at_chunk. rewrite Ea, Ec. cbn.
  intros c' io' [= <-] [= <-] Hp. left. by exists io.
Qed.
End area.

(** ** Writers *)

Section writers.
Context {P : ModuleParams}.

Lemma store_failed_corrupts n e s : e ≠ 0 → wp (chunk_store_failed n e) s (λ _ s', corrupt_flag (area s') = true).
Proof.
  intros He. unfold chunk_store_failed. do 6 (apply wp_bind, wp_eq; intros ? ? _).
  rewrite (proj2 (Z.eqb_neq _ _) He). cbn [negb when]. apply set_corrupted_flag.
Qed.

(** None of the errors on the way is the one of a killed task. *)
Lemma io_do_error owner io r b nw w : wp (diff_io_do owner io r b nw) w (λ res _, res.1.1 ≠ - EINTR).
Proof.
  unfold diff_io_do. destruct (negb _); [by wp_steps|]. destruct (_ <? _); [by wp_steps|].
  apply wp_bind, wp_eq. intros [ok bios] w1 _. cbv zeta. destruct ok; cbn [negb]; [|by wp_steps].
  destruct (is_sync_io _); apply wp_bind, wp_eq; [intros [io' pg] w2 _|intros io' w2 _]; by wp_steps.
Qed.
Lemma new_region_error count p :
  wp (diff_storage_new_region count) p (λ r _, ∀ e, r = Err e → e ≠ - EINTR).
Proof.
  unfold diff_storage_new_region. wp_steps. destruct (negb _); [wp_steps; by intros e [= <-]|].
  apply wp_bind, wp_eq. intros [] p1 _; cbn [negb]; [|wp_steps; by intros e [= <-]].
  apply wp_bind, wp_eq. intros [] p2 _. destruct (take_region _ _ _ _) as [[[r empty] filled_l] fill].
  apply wp_bind, wp_eq. intros [] p3 _. destruct r as [region|]; apply wp_bind, wp_eq; intros [] p4 _; wp_steps; [done|].
  by intros e [= <-].
Qed.
Lemma async_store_error n nw s : wp (chunk_async_store_diff n nw) s (λ ret _, ret ≠ - EINTR).
Proof.
  unfold chunk_async_store_diff. wp_steps. destruct (in_cache _ _); [by wp_steps|].
  apply wp_bind, wp_eq. intros [io|] s1 _; [|wp_steps; by destruct nw].
  do 3 (apply wp_bind, wp_eq; intros ? ? _). destruct (chunk_region _) as [r|]; [destruct (chunk_buffer _) as [b|]|];
    [|by apply wp_bind, wp_eq; intros ? ? _; wp_steps..].
  apply wp_bind. unfold on_kern at 1. apply wp_zoom. eapply wp_mono; [apply io_do_error|].
  intros [[ret io'] b'] w Hr. cbn in Hr. destruct (negb _); [do 3 (apply wp_bind, wp_eq; intros ? ? _)|
    apply wp_bind, wp_eq; intros ? ? _]; by wp_steps.
Qed.
Lemma async_load_error n nw s : wp (chunk_async_load_orig n nw) s (λ ret _, ret ≠ - EINTR).
Proof.
  unfold chunk_async_load_orig. do 2 (apply wp_bind, wp_eq; intros ? ? _). cbv zeta.
  apply wp_bind, wp_eq. intros [io|] s1 _; [|wp_steps; by destruct nw].
  do 2 (apply wp_bind, wp_eq; intros ? ? _). destruct (chunk_buffer _) as [b|];
    [|by apply wp_bind, wp_eq; intros ? ? _; wp_steps].
  apply wp_bind. unfold on_kern at 1. apply wp_zoom. eapply wp_mono; [apply io_do_error|].
  intros [[ret io'] b'] w Hr. cbn in Hr. destruct (negb _); [do 3 (apply wp_bind, wp_eq; intros ? ? _)|
    apply wp_bind, wp_eq; intros ? ? _]; by wp_steps.
Qed.
Lemma schedule_storing_error n nw s : wp (chunk_schedule_storing n nw) s (λ ret _, ret ≠ - EINTR).
Proof.
  unfold chunk_schedule_storing. wp_steps. destruct (in_cache _ _); [by wp_steps|].
  apply wp_bind, wp_eq. intros c s1 _. destruct (chunk_region c); [apply async_store_error|].
  apply wp_bind. unfold on_store. apply wp_zoom. eapply wp_mono; [apply new_region_error|].
  intros [region|e] p He; [|wp_steps; by apply He]. apply wp_bind, wp_eq. intros [] s2 _. apply async_store_error.
Qed.

(** A turn that has the semaphore goes on, or the area is corrupted. *)
Definition goes_on (t : turn) (s' : sys) : Prop :=
  t = Continue ∨ (∃ ret, t = Return ret ∧ ret ≠ - EINTR) ∧ corrupt_flag (area s') = true.

Lemma copy_fail_goes n e s : e ≠ 0 → e ≠ - EINTR → wp (copy_fail n e) s goes_on.
Proof.
  intros He Hi. unfold copy_fail. wp_step. eapply wp_mono; [by apply store_failed_corrupts|]. intros [] s1 H1.
  wp_steps. right. split; [by exists e|done].
Qed.

Lemma copy_locked_goes n s : wp (copy_locked n false) s goes_on.
Proof.
  unfold copy_locked. apply wp_bind, wp_eq. intros c s1 _.
  wp_if E1; [apply wp_bind, wp_eq; intros _ s2 _; wp_steps; by left|].
  wp_if E2; [by apply copy_fail_goes|].
  wp_if E3.
  - apply wp_bind, wp_eq. intros [] s2 _. apply wp_bind. eapply wp_mono; [apply schedule_storing_error|].
    intros ret s3 Hr. wp_if E4; [apply copy_fail_goes; [by bool_hyps|done]|wp_steps; by left].
  - wp_step. wp_step. apply wp_bind. unfold on_kern. apply wp_zoom.
    apply wp_mono with (P := λ r _, match r.1 with Err e => e ≠ 0 ∧ e ≠ - EINTR | Ok _ => True end).
    { unfold diff_buffer_take. destruct (free_diff_buffers _); [|by wp_steps].
      apply wp_bind, wp_eq. intros [b|] w _; by wp_steps. }
    intros [[b|e] p] w H; (apply wp_bind, wp_eq; intros _ s2 _); [|by apply copy_fail_goes; apply H].
    apply wp_bind, wp_eq. intros [] s3 _. apply wp_bind. eapply wp_mono; [apply async_load_error|].
    intros ret s4 Hr. wp_if E4; [apply copy_fail_goes; [by bool_hyps|done]|wp_steps; by left].
Qed.

(** How a writer's turn in the loop of [diff_area_copy] ends. *)
Definition copy_ends (n : Z) (s : sys) (t : turn) (s' : sys) : Prop :=
  match t with
  | Continue => queues (eq n) s s'
  | Sleep => area s' = area s ∧ held_back s' = held_back s
  | Return ret => ret = - EINTR ∨ corrupt_flag (area s') = true
  end.

Lemma copy_turn_ends offset s :
  wp (copy_turn offset false) s (copy_ends (chunk_number (area s) offset) s).
Proof.
  unfold copy_turn. wp_step. wp_step. cbv zeta. set (n := chunk_number (area s) offset). destruct (chunk_map _ !! n).
  2:{ wp_step. eapply wp_mono; [apply set_corrupted_flag|]. intros [] s1 H1. wp_steps. by right. }
  unfold lock_turn, down_killable, getc. wp_steps. wp_if El; wp_steps.
  - unfold on_kern. wp_step. apply wp_oracle. intros v vs. wp_steps. by destruct (v =? 0); cbn; wp_steps; [|left].
  - apply wp_eq. intros [] s1 E1. wp_step. cbn [negb Z.eqb].
    assert (queues (eq n) s s1) as H1.
    { apply (f_equal snd) in E1. cbn in E1. subst s1. apply queuing_modc. auto. }
    eapply wp_mono; [eapply (wp_and _ _ (λ _ s', queues (eq n) s1 s')); [by apply queuing_copy_locked|apply copy_locked_goes]|].
    intros t s2 [H2 [->|[(ret & -> & _) Hx]]]; [cbn; by etrans|by right].
Qed.
End writers.

(** ** The invariant *)

(** Between the steps no task has a bio list, and no writer refuses to wait: what the
    submission of bios and the rest of the system have to respect. *)
Record orderly (σ : cow) : Prop := {
  or_none : held_back (cw_sys σ) = None;
  or_wait : Forall (λ w, wr_nowait w = false) (cw_writers σ);
}.

Record plug_ok (σ : cow) : Prop := {
  pk_orderly : orderly σ;
  pk_owner n : plugged (cw_sys σ) n →
    ∃ w off, w ∈ cw_writers σ ∧ wr_phase w = PCopy off ∧ n ∈ wr_plug w;
  pk_passed w off n : w ∈ cw_writers σ → wr_phase w = PCopy off → n ∈ wr_plug w →
    n < chunk_number (area (cw_sys σ)) off;
}.

Lemma elem_insert_other {A} (l : list A) i x y z : l !! i = Some x → z ∈ l → z = x ∨ z ∈ <[i := y]> l.
Proof.
  intros Hi [j Hj]%list_elem_of_lookup. destruct (decide (j = i)) as [->|Hne]; [left; congruence|right].
  apply list_elem_of_lookup. exists j. by rewrite list_lookup_insert_ne.
Qed.
Lemma elem_insert_inv {A} (l : list A) i y z : z ∈ <[i := y]> l → z = y ∨ z ∈ l.
Proof.
  intros [j Hj]%list_elem_of_lookup. destruct (decide (j = i)) as [->|Hne].
  - left. rewrite list_lookup_insert_eq in Hj; [congruence|].
    apply lookup_lt_Some in Hj. by rewrite length_insert in Hj.
  - right. rewrite list_lookup_insert_ne in Hj by done. by eapply list_elem_of_lookup_2.
Qed.
Lemma elem_delete_other {A} (l : list A) i x z : l !! i = Some x → z ∈ l → z = x ∨ z ∈ delete i l.
Proof.
  intros Hi [j Hj]%list_elem_of_lookup. destruct (decide (j = i)) as [->|Hne]; [left; congruence|right].
  apply list_elem_of_lookup. destruct (decide (j < i)%nat).
  - exists j. by rewrite list_lookup_delete_lt.
  - exists (pred j). rewrite list_lookup_delete_ge by lia. by replace (S (pred j)) with j by lia.
Qed.
Lemma elem_delete_inv {A} (l : list A) i z : z ∈ delete i l → z ∈ l.
Proof. intros H. eapply elem_of_submseteq; [exact H|]. apply sublist_submseteq, sublist_delete. Qed.

Lemma chunk_number_shift a a' x : chunk_shift a' = chunk_shift a → chunk_number a' x = chunk_number a x.
Proof. intros E. unfold chunk_number. by rewrite E. Qed.

(** Tasks other than the writers hold nothing back. *)
Lemma plug_ok_other σ σ' O :
  plug_ok σ → queues O (cw_sys σ) (cw_sys σ') → cw_writers σ' = cw_writers σ → plug_ok σ'.
Proof.
  intros [[Hn Hw] Ho Hp] [Qp Ql Qs] Ew. rewrite Hn in Ql. split; rewrite ?Ew.
  - split; [done|by rewrite Ew].
  - intros n Hn'. destruct (Qp n Hn') as [H|[_ H]]; [by apply Ho|]. rewrite Ql in H. by apply elem_of_nil in H.
  - intros w off n. rewrite (chunk_number_shift _ _ off Qs). by apply Hp.
Qed.

Lemma plug_ok_ends σ σ' i w :
  plug_ok σ → cw_writers σ !! i = Some w → (∀ off, wr_phase w ≠ PCopy off) →
  queues (λ _, True) (cw_sys σ) (cw_sys σ') →
  (cw_writers σ' = delete i (cw_writers σ) ∨ ∃ w', cw_writers σ' = <[i := w']> (cw_writers σ) ∧
     wr_nowait w' = false ∧ ∀ off, wr_phase w' ≠ PCopy off) → plug_ok σ'.
Proof.
  intros [[Hn Hw] Ho Hp] Hi Hph [Qp Ql Qs] Ew. rewrite Hn in Ql.
  assert (Hin : ∀ w0 off, w0 ∈ cw_writers σ → wr_phase w0 = PCopy off → w0 ∈ cw_writers σ').
  { intros w0 off H0 Hp0. destruct Ew as [->|(w' & -> & _)];
      [destruct (elem_delete_other _ i w w0 Hi H0) as [->|]|destruct (elem_insert_other _ i w w' w0 Hi H0) as [->|]];
      try done; by destruct (Hph off). }
  assert (Hout : ∀ w0 off, w0 ∈ cw_writers σ' → wr_phase w0 = PCopy off → w0 ∈ cw_writers σ).
  { intros w0 off H0 Hp0. destruct Ew as [E|(w' & E & _ & Hph')]; rewrite E in H0; [by eapply elem_delete_inv|].
    destruct (elem_insert_inv _ _ _ _ H0) as [->|]; [by destruct (Hph' off)|done]. }
  split.
  - split; [done|]. destruct Ew as [->|(w' & -> & Hw' & _)]; [by apply Forall_delete|by apply Forall_insert].
  - intros n Hn'. destruct (Qp n Hn') as [H|[_ H]]; [|rewrite Ql in H; by apply elem_of_nil in H].
    destruct (Ho n H) as (w0 & off & H0 & Hp0 & Hin0). exists w0, off. by eauto.
  - intros w0 off n H0 Hp0 Hn0. rewrite (chunk_number_shift _ _ off Qs). eapply Hp; eauto.
Qed.

(** A turn of [diff_area_copy] that goes on: the writer [w] has become [w']. *)
Lemma plug_ok_copied σ σ' i w w' off off' l' :
  plug_ok σ → cw_writers σ !! i = Some w → wr_phase w = PCopy off → wr_phase w' = PCopy off' →
  wr_nowait w' = false → wr_plug w' = wr_plug w ++ l' → cw_writers σ' = <[i := w']> (cw_writers σ) →
  held_back (cw_sys σ') = None → chunk_shift (area (cw_sys σ')) = chunk_shift (area (cw_sys σ)) →
  (∀ n, n ∈ wr_plug w' → n < chunk_number (area (cw_sys σ)) off') →
  (∀ m, plugged (cw_sys σ') m → plugged (cw_sys σ) m ∨ m ∈ wr_plug w') → plug_ok σ'.
Proof.
  intros [[Hn Hw] Ho Hp] Hi Hph Hph' Hnw Epl Ew Hnone Es Hpass Hq.
  assert (Hw' : w' ∈ cw_writers σ').
  { rewrite Ew. apply list_elem_of_lookup. exists i. rewrite list_lookup_insert_eq; [done|by eapply lookup_lt_Some]. }
  split.
  - split; [done|]. rewrite Ew. by apply Forall_insert.
  - intros n H. destruct (Hq n H) as [H1|H1]; [|by exists w', off'].
    destruct (Ho n H1) as (w0 & off0 & H0 & Hp0 & Hin0).
    destruct (elem_insert_other _ i w w' w0 Hi H0) as [->|]; [|exists w0, off0; by rewrite Ew].
    exists w', off'. rewrite Epl. split_and!; [done|done|]. apply elem_of_app. by left.
  - intros w0 off0 n H0 Hp0 Hn0. rewrite (chunk_number_shift _ _ off0 Es). rewrite Ew in H0.
    destruct (elem_insert_inv _ _ _ _ H0) as [->|]; [|by eapply Hp]. rewrite Hph' in Hp0. injection Hp0 as <-. auto.
Qed.

Lemma submit_plugged_unplugs owners s :
  wp (submit_plugged owners) s (λ _ s', held_back s' = held_back s ∧
    chunk_shift (area s') = chunk_shift (area s) ∧ ∀ m, plugged s' m → plugged s m ∧ m ∉ owners).
Proof.
  revert s. induction owners as [|n owners IH]; intros s; cbn [submit_plugged].
  { wp_steps. split_and!; try done. intros m H. split; [done|]. apply not_elem_of_nil. }
  apply wp_bind, wp_eq. intros [] s1 E1. apply (f_equal snd) in E1. cbn in E1. subst s1.
  eapply wp_mono; [apply IH|]. intros [] s2 (E1 & E2 & H2). split_and!; [done|done|]. intros m Hm.
  destruct (H2 m Hm) as [(c & io & Hc & Hio & Hp) Hm2]. unfold at_chunk in Hc. cbn in Hc.
  destruct (decide (m = n)) as [->|Hne].
  - rewrite lookup_alter_eq in Hc. destruct (chunk_map (area s) !! n) as [c0|]; [|done]. injection Hc as <-.
    cbn in Hio. destruct (chunk_io c0); [|done]. by injection Hio as <-.
  - rewrite lookup_alter_ne in Hc by done. split; [by exists c, io|].
    rewrite not_elem_of_cons. by split.
Qed.

Section steps.
Context {P : ModuleParams}.

Lemma chunk_number_next s x : sys_ok s →
  chunk_number (area s) (x + sectors s) = chunk_number (area s) x + 1.
Proof.
  intros Hs. rewrite !chunk_number_div by done. destruct (sectors_pow2 s Hs) as [_ ?].
  rewrite <- (Z.mul_1_l (sectors s)) at 1. rewrite Z.div_add by lia. lia.
Qed.

(** The state after [set_bio_list]. *)
Lemma plugged_kern s w m : plugged {| s with kern := w |} m ↔ plugged s m.
Proof. done. Qed.

(** What a writer's turn makes of the system. *)
Definition after_turn (σ : cow) (i : nat) (r : option writer) (s' : sys) : cow :=
  {| σ with cw_sys := s';
     cw_writers := match r with
                   | Some w' => <[i := w']> (cw_writers σ)
                   | None => delete i (cw_writers σ)
                   end |}.
Definition turn_plug (σ : cow) (i : nat) (r : option writer * Z) (s' : sys) : Prop :=
  r.2 = - EINTR ∨ corrupt_flag (area s') = true ∨ plug_ok (after_turn σ i r.1 s').

Lemma writer_copy_plug σ i w off :
  sys_ok (cw_sys σ) → plug_ok σ → cw_writers σ !! i = Some w → wr_phase w = PCopy off →
  off < wr_sector w + wr_count w → wp (writer_turn w) (cw_sys σ) (turn_plug σ i).
Proof.
  intros Hs Hk Hi Hph Hlt. pose proof Hk as [[Hn Hw] _ Hp].
  pose proof (proj1 (Forall_lookup _ _) Hw i w Hi) as Hnw. cbn in Hnw.
  assert (Hwi : w ∈ cw_writers σ) by (by eapply list_elem_of_lookup_2).
  unfold writer_turn, set_bio_list. rewrite Hph, Hnw.
  wp_step. apply wp_area. cbv zeta. rewrite (proj2 (Z.ltb_lt _ _) Hlt). unfold on_kern. wp_steps. cbn [kern].
  eapply wp_mono; [apply copy_turn_ends|]. cbn [area].
  set (n := chunk_number (area (cw_sys σ)) off). intros t s2 Ht. wp_steps.
  destruct t as [|e|]; cbn [copy_ends] in Ht.
  - destruct Ht as [Qp Ql Qs]. cbn [kern w_bio_list area] in *. destruct Ql as (l' & El & Hl').
    rewrite El in *. cbn [default] in *. right. right.
    cbn [fst]. match goal with |- plug_ok (after_turn _ _ (Some ?v) _) => set (w' := v) end.
    apply (plug_ok_copied σ _ i w w' off (off + sectors (cw_sys σ)) l'); try done.
    + intros m Hm. rewrite chunk_number_next by done. fold n. apply elem_of_app in Hm as [Hm|Hm].
      * specialize (Hp w off m Hwi Hph Hm). fold n in Hp. lia.
      * apply (proj1 (Forall_forall _ _) Hl') in Hm. lia.
    + intros m Hm. destruct (Qp m Hm) as [?|[_ ?]]; auto.
  - destruct Ht as [->|Hx]; [left|right; by left]. done.
  - destruct Ht as [Ea Eb]. cbn [kern w_bio_list area] in *. rewrite Eb. right. right.
    cbn [fst]. match goal with |- plug_ok (after_turn _ _ (Some ?v) _) => set (w' := v) end.
    apply (plug_ok_copied σ _ i w w' off off []); try done; cbn; try by rewrite app_nil_r.
    + by rewrite Ea.
    + intros m Hm. eapply Hp; done.
    + intros m (c & io & Hc & Hm). left. exists c, io. split; [|done]. unfold at_chunk in *. cbn in Hc. by rewrite Ea in Hc.
Qed.

Lemma writer_turn_plug σ i w :
  sys_ok (cw_sys σ) → plug_ok σ → cw_writers σ !! i = Some w → wp (writer_turn w) (cw_sys σ) (turn_plug σ i).
Proof.
  intros Hs Hk Hi. pose proof Hk as [[Hn Hw] Ho Hp].
  pose proof (proj1 (Forall_lookup _ _) Hw i w Hi) as Hnw. cbn in Hnw.
  destruct (wr_phase w) as [off|off|] eqn:Hph.
  - destruct (Z.lt_ge_cases off (wr_sector w + wr_count w)) as [Hlt|Hge]; [by eapply writer_copy_plug|].
    unfold writer_turn. rewrite Hph. wp_step. apply wp_area. cbv zeta. rewrite (proj2 (Z.ltb_ge _ _) Hge).
    wp_step. eapply wp_mono; [apply submit_plugged_unplugs|]. intros [] s1 (E1 & E2 & H1). wp_steps. right. right. cbn.
    split; cbn.
    + split; [cbn; congruence|]. by apply Forall_insert.
    + intros n H. destruct (H1 n H) as [H2 H3]. destruct (Ho n H2) as (w0 & off0 & H0 & Hp0 & Hin0).
      destruct (elem_insert_other _ i w {| w with wr_phase := PWait (round_down (wr_sector w) (sectors (cw_sys σ))); wr_plug := [] |}
        w0 Hi H0) as [->|]; [done|]. by exists w0, off0.
    + intros w0 off0 n H0 Hp0 Hn0. rewrite (chunk_number_shift _ _ off0 E2).
      destruct (elem_insert_inv _ _ _ _ H0) as [->|]; [done|by eapply Hp].
  - unfold writer_turn. rewrite Hph. wp_step. apply wp_area. cbv zeta.
    assert (Hend : ∀ s1 r, queues (λ _, True) (cw_sys σ) s1 →
      (∀ w', r = Some w' → wr_nowait w' = false ∧ ∀ o, wr_phase w' ≠ PCopy o) → plug_ok (after_turn σ i r s1)).
    { intros s1 r Hq Hw'. eapply (plug_ok_ends σ _ i w); [done|done|by rewrite Hph|done|].
      destruct r as [w'|]; [right; exists w'; by destruct (Hw' w')|by left]. }
    destruct (off <? _); [|wp_steps; right; right; apply Hend; [reflexivity|by intros ? [= <-]]].
    wp_step. apply wp_mono with (P := λ _ s1, queues (λ _, True) (cw_sys σ) s1); [apply queuing_wait_turn|].
    intros t s1 Hq. wp_steps. right. right.
    apply Hend; [exact Hq|]. destruct t as [|e|]; cbn; [by intros ? [= <-]| |by intros ? [= <-]; rewrite Hph].
    unfold writer_error. destruct (e =? _); [done|]. by intros ? [= <-].
  - unfold writer_turn. rewrite Hph. wp_step. apply wp_area. cbv zeta. unfold on_kern. wp_steps. right. right.
    eapply (plug_ok_ends σ _ i w); [done|done|by rewrite Hph|by apply queues_same|by left].
Qed.
End steps.
