(* ===== verification/CowLive.v ===== *)
(** * The copy-on-write system always drains

    However the tasks of Cow.v have been interleaved, no task waits for another in a
    circle: the writers in the loop of [diff_area_copy] take the chunks in ascending
    order, so the one that has got furthest waits only for requests that the device and
    the work items can finish without it. *)
From S2P Require Import Prelude MemoryChecker Kernel Uapi EventQueue DiffBuffer DiffIo DiffStorage.
From S2P Require Import Chunk DiffArea ChunkSpecs CowInv Cow CowSteps CowImage CowSafety CowPlug.

Section steps.
Context {P : ModuleParams}.

(** A step of the system in which bios are submitted by tasks that may wait, and nobody
    else leaves a bio list behind. *)
Definition live_step (σ σ' : cow) : Prop := cow_step false σ σ' ∧ orderly σ'.

(** The steps by which the system drains: the writers that the filter holds, the device
    ending a bio with success, the callbacks, and the image's worker letting go of its chunk. *)
Inductive task_step : cow → cow → Prop :=
  | task_writer σ i w r ret s' :
      corrupt_flag (area (cw_sys σ)) = false → cw_writers σ !! i = Some w → wr_phase w ≠ PWrite →
      writer_turn w (cw_sys σ) = ((r, ret), s') → ret ≠ - EINTR →
      task_step σ (after_turn σ i r s')
  | task_bio_end σ n k c io s' :
      corrupt_flag (area (cw_sys σ)) = false →
      at_chunk n c (cw_sys σ) → chunk_io c = Some io → io_plugged io = false →
      bio_end n k 0 (cw_sys σ) = (tt, s') →
      task_step σ {| σ with cw_sys := s' |}
  | task_notify σ n c io s' :
      corrupt_flag (area (cw_sys σ)) = false →
      at_chunk n c (cw_sys σ) → chunk_io c = Some io → io_notified io = true →
      diff_io_notify_cb n (cw_sys σ) = (tt, s') →
      task_step σ {| σ with cw_sys := s' |}
  | task_image_done σ s' :
      corrupt_flag (area (cw_sys σ)) = false →
      diff_area_image_ctx_done (cw_ctx σ) (cw_sys σ) = (tt, s') →
      task_step σ {| σ with cw_sys := s';
        cw_ctx := {| ctx_is_write := ctx_is_write (cw_ctx σ); ctx_chunk := None |} |}.

Lemma task_cow_step σ σ' : task_step σ σ' → cow_step false σ σ'.
Proof.
  intros [? i w r ret s' ? ? Hp ? ?|? n k c io s' ? ? ? ? ?|? n c io s' ? ? ? ? ?|? s' ? ?].
  - by eapply step_writer.
  - by eapply step_bio_end.
  - by eapply step_notify.
  - by eapply step_image_done.
Qed.

Lemma plug_ok_run {A} (O : Z → Prop) (m : AM A) σ a s' ctx img :
  plug_ok σ → queuing O m → m (cw_sys σ) = (a, s') → plug_ok (Cow s' (cw_writers σ) ctx img).
Proof.
  intros Hk Hq E. apply (f_equal snd) in E. cbn in E. subst s'. by eapply (plug_ok_other σ _ O).
Qed.

(** What both kinds of steps keep, while the area is not corrupted. *)
Definition plug_inv (σ : cow) : Prop := corrupt_flag (area (cw_sys σ)) = true ∨ plug_ok σ.

Lemma cow_step_plug σ σ' :
  cow_inv σ → plug_inv σ → cow_step false σ σ' → (orderly σ → orderly σ') → plug_inv σ'.
Proof.
  intros I Hk Hs Ho. destruct Hs as [σ w Hse Hco Hph Hpl|σ i w r ret s' Hcf Hi Hex Ht Hr
    |σ n k status c io s' Hcf Hc Hio Hpl Ht|σ n c io s' Hcf Hc Hio Hnt Ht|σ again s' Hcf Ht
    |σ wr Hn|σ v pos st ctx' v' pos' s' Hcf Hpos Hv Ht|σ s' Hcf Ht|σ s' He];
    (destruct Hk as [Hx|Hk]; [try congruence; left; try done; cbn; by rewrite (ev_area _ _ He)|]).
  - right. pose proof Hk as [Hor Hown Hpass]. specialize (Ho Hor). split; [done| |]; cbn.
    + intros n Hn. destruct (Hown n Hn) as (w0 & off & H0 & H1). exists w0, off. split; [|done].
      apply elem_of_app. by left.
    + intros w0 off n [H0|H0]%elem_of_app Hp0 Hn0; [by eapply Hpass|].
      apply list_elem_of_singleton in H0. subst w0. rewrite Hpl in Hn0. by apply elem_of_nil in Hn0.
  - destruct I as [Hx|[C _]]; [congruence|].
    destruct (wp_run _ _ _ _ _ (writer_turn_plug σ i w (ck_sys _ _ _ C) Hk Hi) Ht) as [H|[H|H]];
      [by destruct Hr|by left|by right].
  - right. eapply (plug_ok_run (λ _, True)); [done|apply queuing_bio_end|done].
  - right. eapply (plug_ok_run (λ _, True)); [done|by apply queuing_notify_cb|done].
  - right. eapply (plug_ok_run (λ _, True)); [done|by apply queuing_cache_release|done].
  - right. by eapply (plug_ok_other σ _ (λ _, True)).
  - right. eapply (plug_ok_run (λ _, True)); [done|by apply queuing_image_turn|done].
  - right. eapply (plug_ok_run (λ _, True)); [done|apply queuing_ctx_done|done].
  - right. pose proof Hk as [Hor Hown Hpass]. specialize (Ho Hor). split; [done| |]; cbn.
    + intros n (c & io & Hc & H). apply Hown. exists c, io. split; [|done]. unfold at_chunk in *.
      by rewrite <- (ev_area _ _ He).
    + intros w off n. rewrite (chunk_number_shift (area (cw_sys σ)) (area s')) by (by rewrite (ev_area _ _ He)). apply Hpass.
Qed.

Lemma task_step_plug σ σ' : cow_inv σ → plug_ok σ → task_step σ σ' → plug_inv σ'.
Proof.
  intros I Hk Hs.
  destruct Hs as [σ i w r ret s' Hcf Hi Hp Ht Hr|σ n k c io s' Hcf ? ? ? Ht|σ n c io s' Hcf ? ? ? Ht|σ s' Hcf Ht].
  - destruct I as [Hx|[C _]]; [congruence|].
    destruct (wp_run _ _ _ _ _ (writer_turn_plug _ i w (ck_sys _ _ _ C) Hk Hi) Ht) as [H|[H|H]]; [done|by left|by right].
  - right. eapply (plug_ok_run (λ _, True)); [done|apply queuing_bio_end|done].
  - right. eapply (plug_ok_run (λ _, True)); [done|by apply queuing_notify_cb|done].
  - right. eapply (plug_ok_run (λ _, True)); [done|apply queuing_ctx_done|done].
Qed.

(** ** Reaching a state by the tasks' own steps *)

Record good (σ : cow) : Prop := {
  gd_clean : corrupt_flag (area (cw_sys σ)) = false;
  gd_ok : cow_ok (cw_sys σ) (cw_img σ) (cw_ctx σ);
  gd_writers : Forall (writer_ok (cw_sys σ)) (cw_writers σ);
  gd_plug : plug_ok σ;
}.

Definition reaches (σ : cow) (Q : cow → Prop) : Prop :=
  ∃ σ', rtc task_step σ σ' ∧ (corrupt_flag (area (cw_sys σ')) = true ∨ (good σ' ∧ Q σ')).

Lemma good_inv σ : cow_inv σ → plug_inv σ → corrupt_flag (area (cw_sys σ)) = true ∨ good σ.
Proof. intros [?|[C Hw]] [?|Hk]; [by left..|]. destruct (corrupt_flag _) eqn:E; [by left|right]. by split. Qed.

Lemma reaches_now σ (Q : cow → Prop) : good σ → Q σ → reaches σ Q.
Proof. intros G HQ. exists σ. split; [done|]. by right. Qed.
Lemma reaches_step σ σ' (Q : cow → Prop) : good σ → task_step σ σ' → (good σ' → reaches σ' Q) → reaches σ Q.
Proof.
  intros [Hcf C Hw Hk] Hs HQ.
  assert (I : cow_inv σ) by (by right).
  pose proof (cow_step_inv _ _ I (task_cow_step _ _ Hs)) as I'. pose proof (task_step_plug _ _ I Hk Hs) as K'.
  destruct (good_inv _ I' K') as [Hx|G]; [exists σ'; split; [by apply rtc_once|by left]|].
  destruct (HQ G) as (σ2 & Hr & H2). exists σ2. split; [by eapply rtc_l|done].
Qed.
Lemma reaches_bind σ (Q R : cow → Prop) :
  reaches σ Q → (∀ σ', good σ' → Q σ' → reaches σ' R) → reaches σ R.
Proof.
  intros (σ1 & H1 & [Hx|[G HQ]]) HR; [exists σ1; split; [done|by left]|].
  destruct (HR σ1 G HQ) as (σ2 & H2 & H). exists σ2. split; [by etrans|done].
Qed.
Lemma reaches_mono σ (Q R : cow → Prop) : reaches σ Q → (∀ σ', good σ' → Q σ' → R σ') → reaches σ R.
Proof. intros H HR. eapply reaches_bind; [exact H|]. intros σ' G HQ. apply reaches_now; auto. Qed.

(** ** Operations on one chunk *)

(** Chunk [n] satisfies [Φ], and the others are those of [M]. *)
Definition alone (n : Z) (Φ : chunk → Prop) (M : gmap Z chunk) (s : sys) : Prop :=
  (∃ c, at_chunk n c s ∧ Φ c) ∧ ∀ m, m ≠ n → chunk_map (area s) !! m = M !! m.
Definition preserves {A} (I : sys → Prop) (m : AM A) : Prop := ∀ s, I s → I (m s).2.

Section preserves.
Context (n : Z) (Φ : chunk → Prop) (M : gmap Z chunk).
Notation I := (alone n Φ M).

Lemma alone_same s s' : chunk_map (area s') = chunk_map (area s) → I s → I s'.
Proof. intros E [H1 H2]. unfold alone, at_chunk. by rewrite E. Qed.

Lemma pre_ret {A} (a : A) : preserves I (mret a).
Proof. by intros s. Qed.
Lemma pre_gets {A} (f : sys → A) : preserves I (gets f).
Proof. by intros s. Qed.
Lemma pre_skip : preserves I skip.
Proof. by intros s. Qed.
Lemma pre_bind {A B} (m : AM A) (f : A → AM B) : preserves I m → (∀ a, preserves I (f a)) → preserves I (m ≫= f).
Proof. intros Hm Hf s H. unfold mbind, M_mbind. by apply Hf, Hm. Qed.
Lemma pre_when b m : preserves I m → preserves I (when b m).
Proof. destruct b; [done|]. intros _. apply pre_skip. Qed.
Lemma pre_kern {A} (m : K A) : preserves I (on_kern m).
Proof. intros s. by apply alone_same. Qed.
Lemma pre_store {A} (m : DS A) : preserves I (on_store m).
Proof. intros s. by apply alone_same. Qed.
Lemma pre_area f : (∀ a, chunk_map (f a) = chunk_map a) → preserves I (on_area f).
Proof. intros H s. apply alone_same. apply H. Qed.
Lemma pre_null : preserves I null_dereference.
Proof. intros s. by apply alone_same. Qed.

Lemma alone_modc (Ψ : chunk → Prop) f s : (∀ c, Φ c → Ψ (f c)) → I s → alone n Ψ M (modc n f s).2.
Proof.
  intros H [(c & Hc & HΦ) Ho]. unfold alone, at_chunk in *. cbn. split.
  - exists (f c). split; [by rewrite lookup_alter_eq, Hc|auto].
  - intros m Hm. rewrite lookup_alter_ne by done. auto.
Qed.
Lemma pre_modc f : (∀ c, Φ c → Φ (f c)) → preserves I (modc n f).
Proof. intros H s. by apply alone_modc. Qed.
End preserves.

Create HintDb preserves discriminated.
Ltac preserves := repeat first
  [ progress intros
  | solve [auto 2 with preserves nocore]
  | simple apply pre_bind | simple apply pre_ret | simple apply pre_gets | simple apply pre_skip
  | simple apply pre_when | simple apply pre_kern | simple apply pre_store | simple apply pre_null
  | simple apply pre_area; solve [intros; repeat case_match; done]
  | match goal with |- preserves _ (match ?x with _ => _ end) => destruct x end ].

(** The request of the chunk, if there is one, is a store. *)
Definition only_store (c : chunk) : Prop := ∀ io, chunk_io c = Some io → notify io = Some fn_chunk_notify_store.
Definition no_request (c : chunk) : Prop := chunk_io c = None.

(** A property of a chunk that only its request decides. *)
Class request_property (Φ : chunk → Prop) : Prop := {
  rp_same c c' : chunk_io c' = chunk_io c → Φ c → Φ c';
  rp_none c : chunk_io c = None → Φ c;
}.
#[local] Instance only_store_request : request_property only_store.
Proof. split; unfold only_store; [by intros c c' ->|by intros c ->]. Qed.
#[local] Instance no_request_request : request_property no_request.
Proof. split; unfold no_request; [by intros c c' ->|done]. Qed.

Section chunk.
Context (n : Z) (M : gmap Z chunk) (Φ : chunk → Prop) {HΦ : request_property Φ}.
Notation keeping m := (preserves (alone n Φ M) m).

Lemma pre_modc_request f : (∀ c, chunk_io (f c) = chunk_io c ∨ chunk_io (f c) = None) → keeping (modc n f).
Proof. intros H. apply pre_modc. intros c Hc. destruct (H c); [by eapply rp_same|by apply rp_none]. Qed.
#[local] Hint Extern 1 (preserves _ (modc _ _)) => simple apply pre_modc_request; solve [intros; cbn; auto] : preserves.

Lemma pre_corrupted e : keeping (diff_area_set_corrupted e).
Proof. unfold diff_area_set_corrupted, diff_area_event_corrupted. preserves. Qed.
Lemma pre_buffer_release : keeping (chunk_diff_buffer_release n).
Proof. unfold chunk_diff_buffer_release, getc. preserves. Qed.
#[local] Hint Resolve pre_corrupted pre_buffer_release : preserves.
Lemma pre_store_failed e : keeping (chunk_store_failed n e).
Proof. unfold chunk_store_failed, up, getc. preserves. Qed.
#[local] Hint Resolve pre_store_failed : preserves.
Lemma pre_schedule_caching : keeping (chunk_schedule_caching n).
Proof. unfold chunk_schedule_caching, up, getc. preserves. Qed.
#[local] Hint Resolve pre_schedule_caching : preserves.
Lemma pre_put_chunk wr : keeping (diff_area_image_put_chunk n wr).
Proof. unfold diff_area_image_put_chunk. preserves. Qed.

(** The callback of a store after it has taken the request. *)
Lemma store_tail_pre error :
  keeping (if negb (error =? 0) then chunk_store_failed n error
   else
     c ← getc n;
     if chunk_state_check c CHUNK_ST_FAILED then chunk_store_failed n 0
     else if chunk_state_check c CHUNK_ST_STORING then
       modc n (chunk_state_unset CHUNK_ST_STORING);;
       modc n (chunk_state_set CHUNK_ST_STORE_READY);;
       c ← getc n;
       if chunk_state_check c CHUNK_ST_DIRTY then
         modc n (chunk_state_unset CHUNK_ST_DIRTY);;
         chunk_diff_buffer_release n;;
         up n
       else chunk_schedule_caching n
     else up n).
Proof. unfold getc, up. preserves. Qed.
End chunk.

#[local] Hint Extern 1 (preserves _ (modc _ _)) =>
  notypeclasses refine (pre_modc_request _ _ _ _ _); [apply _|solve [intros; cbn; auto]] : preserves.
#[local] Hint Extern 1 (preserves _ (chunk_store_failed _ _)) => exact (pre_store_failed _ _ _ _) : preserves.

Lemma take_io_error_alone n M Φ s :
  alone n Φ M s → wp (take_io_error n) s (λ _ s', alone n no_request M s').
Proof.
  intros [(c & Hc & _) Ho]. unfold take_io_error. wp_step. apply (wp_getc _ _ _ _ Hc).
  destruct (chunk_io c) as [io|] eqn:E.
  - apply wp_bind. unfold on_kern. apply wp_zoom, wp_eq. intros [] w _. wp_step.
    apply (alone_modc n (λ _, True) M no_request); [done|]. split; [|done]. exists c. by split.
  - wp_steps. unfold null_dereference. wp_steps. split; [|done]. exists c. by split.
Qed.

Lemma notify_store_alone n M Φ s :
  alone n Φ M s → wp (chunk_notify_store n) s (λ _ s', alone n no_request M s').
Proof.
  intros H. unfold chunk_notify_store. wp_step. eapply wp_mono; [by eapply take_io_error_alone|]. intros e s1 H1.
  apply wp_bind. unfold wp at 1. apply (pre_area n no_request M); [done|]. exact (store_tail_pre n M no_request e s1 H1).
Qed.

(** Starting a store. *)
Lemma io_do_notify owner io r b nw w : wp (diff_io_do owner io r b nw) w (λ res _, notify res.1.2 = notify io).
Proof.
  unfold diff_io_do. destruct (negb _); [by wp_steps|]. destruct (_ <? _); [by wp_steps|].
  apply wp_bind, wp_eq. intros [ok bios] w1 _. cbv zeta. destruct ok; cbn [negb]; [|by wp_steps].
  destruct (is_sync_io _).
  - wp_step. apply wp_mono with (P := λ res _, notify res.1 = notify io); [|intros [io' pg] w2 H; by wp_steps].
    match goal with |- wp (wait_bios _ ?x ?y) _ _ => generalize (eq_refl : notify x = notify io); generalize x y end.
    revert w1. induction bios as [|bi bios IH]; intros w1 x pg Hx; cbn [wait_bios]; [by wp_steps|].
    apply wp_bind, wp_eq. intros v w2 _. apply wp_bind, wp_eq. intros pg' w3 _. by apply IH.
  - unfold submit_bios. wp_steps. by destruct (w_bio_list w1); wp_steps.
Qed.

Lemma wp_alone {A B} n Φ M (m : AM A) (f : A → AM B) s (Q : A → Prop) Ψ :
  alone n Φ M s → preserves (alone n Φ M) m → wp m s (λ a _, Q a) →
  (∀ a s', alone n Φ M s' → Q a → wp (f a) s' (λ _ s'', alone n Ψ M s'')) →
  wp (m ≫= f) s (λ _ s'', alone n Ψ M s'').
Proof. intros H Hm HQ Hf. apply wp_bind. apply Hf; [by apply Hm|exact HQ]. Qed.

Lemma async_store_alone n M nw s :
  alone n only_store M s → wp (chunk_async_store_diff n nw) s (λ _ s', alone n only_store M s').
Proof.
  intros H. unfold chunk_async_store_diff. wp_steps. destruct (in_cache _ _); [by wp_steps|].
  eapply (wp_alone _ _ _ _ _ _ (λ r, ∀ io, r = Some io → notify io = Some fn_chunk_notify_store));
    [exact H|apply pre_kern| |].
  { unfold on_kern, diff_io_new_async_write, diff_io_new_async. wp_steps. apply wp_eq. intros [io|] w _; wp_steps; [|done].
    by intros io' [= <-]. }
  intros [io|] s1 H1 Hio; [|by wp_steps]. specialize (Hio io eq_refl).
  eapply (wp_alone _ _ _ _ _ _ (λ _, True)); [exact H1| |done|].
  { apply pre_modc. unfold only_store. cbn. by intros c _ io' [= <-]. }
  intros [] s2 H2 _. eapply (wp_alone _ _ _ _ _ _ (λ _, True)); [exact H2|by apply pre_area|done|].
  intros [] s3 H3 _. unfold getc. wp_step. wp_step.
  destruct (chunk_region _) as [r|]; [destruct (chunk_buffer _) as [b|]|];
    [|unfold null_dereference; wp_steps; by eapply alone_same..].
  eapply (wp_alone _ _ _ _ _ _ (λ res, notify res.1.2 = notify io)); [exact H3|apply pre_kern| |].
  { unfold on_kern. wp_step. apply io_do_notify. }
  intros [[ret io'] b'] s4 H4 Hn. cbn in Hn. destruct (negb (ret =? 0)).
  - eapply (pre_bind n only_store M); [by apply pre_area| |exact H4]. intros [].
    apply pre_bind; [apply pre_kern|]. intros []. apply pre_bind; [|intros; apply pre_ret].
    by apply pre_modc_request; [apply _|right].
  - eapply (wp_alone _ _ _ _ _ _ (λ _, True)); [exact H4| |done|intros [] s5 H5 _; by wp_steps].
    apply pre_modc. unfold only_store. cbn. intros c _ io1 [= <-]. congruence.
Qed.

Lemma schedule_storing_alone n M nw : preserves (alone n only_store M) (chunk_schedule_storing n nw).
Proof.
  assert (preserves (alone n only_store M) (chunk_async_store_diff n nw)) by (intros s H; by apply async_store_alone).
  unfold chunk_schedule_storing, getc. preserves.
Qed.
#[local] Hint Resolve schedule_storing_alone : preserves.

Lemma notify_load_alone n M Φ s :
  alone n Φ M s → wp (chunk_notify_load n) s (λ _ s', alone n only_store M s').
Proof.
  intros H. unfold chunk_notify_load. wp_step. eapply wp_mono; [by eapply take_io_error_alone|]. intros e s1 H1.
  assert (alone n only_store M s1) as H2.
  { destruct H1 as [(c & Hc & Hn) Ho]. split; [|done]. exists c. split; [done|by apply rp_none]. }
  clear H1. revert s1 H2. change (preserves (alone n only_store M) (
    (if negb (e =? 0) then chunk_store_failed n e
     else
       c ← getc n;
       if chunk_state_check c CHUNK_ST_FAILED then up n
       else if chunk_state_check c CHUNK_ST_LOADING then
         modc n (chunk_state_unset CHUNK_ST_LOADING);;
         modc n (chunk_state_set CHUNK_ST_BUFFER_READY);;
         ret ← chunk_schedule_storing n false;
         when (negb (ret =? 0)) (chunk_store_failed n ret)
       else up n);; pending_io_dec)).
  unfold getc, up, pending_io_dec. preserves.
Qed.

(** ** Unlocking a chunk *)

(** The writers and the chunks other than [n] are as they were. *)
Record untouched (n : Z) (σ σ' : cow) : Prop := {
  un_writers : cw_writers σ' = cw_writers σ;
  un_chunks m : m ≠ n → chunk_map (area (cw_sys σ')) !! m = chunk_map (area (cw_sys σ)) !! m;
}.
#[global] Instance untouched_preorder n : PreOrder (untouched n).
Proof.
  split; [by split|]. intros σ1 σ2 σ3 [E1 H1] [E2 H2]. split; [congruence|]. intros m Hm. by rewrite H2, H1.
Qed.

(** What the invariant knows of a request. *)
Lemma request_ok s img rl n c io :
  chunk_ok s img rl n c → chunk_io c = Some io →
  is_Some (chunk_buffer c) ∧ io_notified io = bool_decide (io_bios io = []) ∧
  (notify io = Some fn_chunk_notify_load ∨ notify io = Some fn_chunk_notify_store).
Proof.
  intros [_ _ U] Hio. destruct U as [|wr|io' b ? Hio' ? ? ? ? ? [] Hb|io' b r ? Hio' ? ? ? ? ? Hb []]; try congruence;
    rewrite Hio in Hio'; injection Hio' as <-; rewrite Hb; (split; [by eexists|]); auto.
Qed.
Lemma idle_ok s img n c : chunk_ok s img None n c → chunk_io c = None → lock c = false.
Proof. intros [_ _ U] Hio. inversion U; congruence. Qed.

Lemma bio_end_alone n c io b bi bios s :
  at_chunk n c s → chunk_io c = Some io → chunk_buffer c = Some b → io_bios io = bi :: bios →
  wp (bio_end n 0 0) s (λ _ s', alone n (λ c', ∃ io', chunk_io c' = Some io' ∧ io_bios io' = bios ∧
    io_plugged io' = io_plugged io ∧ notify io' = notify io) (chunk_map (area s)) s').
Proof.
  intros Hc Hio Hb Hbi. unfold bio_end. wp_step. apply (wp_getc _ _ _ _ Hc). rewrite Hio, Hb, Hbi. cbn [lookup list_lookup].
  apply wp_bind. unfold on_kern. apply wp_zoom, wp_eq. intros pages w _.
  apply (alone_modc n (λ _, True)); [|split; [exists c; by split|done]].
  intros c' _. cbn. eexists. split; [done|]. cbn. by rewrite Hbi.
Qed.

Lemma run_wp {A} (m : AM A) s (Q : A → sys → Prop) : wp m s Q → ∃ a s', m s = (a, s') ∧ Q a s'.
Proof. unfold wp. intros H. exists (m s).1, (m s).2. split; [by destruct (m s)|done]. Qed.

Lemma alone_untouched n Φ σ s' ctx img :
  alone n Φ (chunk_map (area (cw_sys σ))) s' → untouched n σ (Cow s' (cw_writers σ) ctx img).
Proof. intros [_ H]. by split. Qed.

(** The device ends the bios of a request. *)
Lemma finish_bios k σ n c io :
  good σ → at_chunk n c (cw_sys σ) → chunk_io c = Some io → io_plugged io = false → length (io_bios io) = k →
  reaches σ (λ σ', untouched n σ σ' ∧ ∃ c' io', at_chunk n c' (cw_sys σ') ∧ chunk_io c' = Some io' ∧
    io_plugged io' = false ∧ notify io' = notify io ∧ io_notified io' = true).
Proof.
  revert σ c io. induction k as [|k IH]; intros σ c io G Hc Hio Hp Hk;
    destruct (request_ok _ _ _ _ _ _ (ck_chunks _ _ _ (gd_ok _ G) n c Hc) Hio) as ([b Hb] & Hn & _);
    destruct (io_bios io) as [|bi bios] eqn:Hbi; try done.
  - apply reaches_now; [done|]. split; [done|]. exists c, io. split_and!; try done.
  - destruct (run_wp _ _ _ (bio_end_alone n c io b bi bios _ Hc Hio Hb Hbi)) as ([] & s' & E & Ha).
    eapply reaches_step; [done|by eapply task_bio_end; [apply G|..]|]. intros G'.
    pose proof Ha as [(c' & Hc' & io' & Hio' & Hbi' & Hp' & Hf') _].
    eapply reaches_mono; [eapply (IH _ c' io'); try done; [congruence|rewrite Hbi'; by injection Hk]|].
    intros σ2 G2 [U2 H2]. split; [etrans; [by eapply alone_untouched|done]|]. by rewrite <- Hf'.
Qed.

(** The chunk is unlocked, and nothing else has been touched. *)
Definition unlocks (n : Z) (σ σ' : cow) : Prop :=
  untouched n σ σ' ∧ ∃ c, at_chunk n c (cw_sys σ') ∧ lock c = false.

Lemma no_request_unlocks n σ s' ctx img :
  alone n no_request (chunk_map (area (cw_sys σ))) s' → role_of ctx n = None →
  good (Cow s' (cw_writers σ) ctx img) → unlocks n σ (Cow s' (cw_writers σ) ctx img).
Proof.
  intros Ha Hr G. split; [by eapply alone_untouched|]. destruct Ha as [(c & Hc & Hio) _]. exists c. split; [done|].
  pose proof (ck_chunks _ _ _ (gd_ok _ G) n c Hc) as K. cbn [cw_sys cw_img cw_ctx] in K. rewrite Hr in K. by eapply idle_ok.
Qed.

Lemma request_role s img rl n c io : chunk_ok s img rl n c → chunk_io c = Some io → rl = None.
Proof. intros [_ _ U] Hio. inversion U; congruence. Qed.

Lemma alone_here n c σ : at_chunk n c (cw_sys σ) → alone n (λ _, True) (chunk_map (area (cw_sys σ))) (cw_sys σ).
Proof. intros Hc. split; [by exists c|done]. Qed.

(** A callback that is due runs. *)
Lemma run_callback σ n c io Φ (Q : cow → Prop) :
  good σ → at_chunk n c (cw_sys σ) → chunk_io c = Some io → io_notified io = true →
  wp (diff_io_notify_cb n) (cw_sys σ) (λ _ s', alone n Φ (chunk_map (area (cw_sys σ))) s') →
  (∀ s', queues (λ _, True) (cw_sys σ) s' → alone n Φ (chunk_map (area (cw_sys σ))) s' →
     good {| σ with cw_sys := s' |} → reaches {| σ with cw_sys := s' |} Q) → reaches σ Q.
Proof.
  intros G Hc Hio Hn Hwp HQ. destruct (run_wp _ _ _ Hwp) as ([] & s' & E & Ha).
  eapply reaches_step; [done|by eapply task_notify; [apply G|..]|]. intros G'. apply HQ; [|done|done].
  apply (f_equal snd) in E. cbn in E. subst s'. by apply queuing_notify_cb.
Qed.

Lemma notify_cb_wp n c io s Q :
  at_chunk n c s → chunk_io c = Some io →
  match notify io with
  | Some fn_chunk_notify_load => wp (chunk_notify_load n) s Q
  | Some fn_chunk_notify_store => wp (chunk_notify_store n) s Q
  | None => Q tt s
  end → wp (diff_io_notify_cb n) s Q.
Proof.
  intros Hc Hio H. unfold diff_io_notify_cb. wp_step. apply (wp_getc _ _ _ _ Hc). rewrite Hio.
  destruct (notify io) as [[]|]; [done|done|by wp_steps].
Qed.

(** A store that is not held back ends, and the chunk is unlocked. *)
Lemma finish_store σ n c io :
  good σ → at_chunk n c (cw_sys σ) → chunk_io c = Some io → notify io = Some fn_chunk_notify_store →
  io_plugged io = false → reaches σ (unlocks n σ).
Proof.
  intros G Hc Hio Hf Hp. eapply reaches_bind; [by eapply finish_bios|].
  intros σ1 G1 (U1 & c1 & io1 & Hc1 & Hio1 & Hp1 & Hf1 & Hn1).
  eapply (run_callback σ1 n c1 io1 no_request); [done..| |].
  { apply (notify_cb_wp n c1 io1); [done|done|]. rewrite Hf1, Hf. eapply notify_store_alone. by eapply alone_here. }
  intros s' _ Ha G'. apply reaches_now; [done|].
  assert (role_of (cw_ctx σ1) n = None) as Hr
    by exact (request_role _ _ _ _ _ _ (ck_chunks _ _ _ (gd_ok _ G1) n c1 Hc1) Hio1).
  destruct (no_request_unlocks n σ1 s' _ _ Ha Hr G') as [U' H']. split; [by etrans|done].
Qed.

(** ... and so does a load. *)
Lemma finish_request σ n c io :
  good σ → at_chunk n c (cw_sys σ) → chunk_io c = Some io → io_plugged io = false → reaches σ (unlocks n σ).
Proof.
  intros G Hc Hio Hp.
  destruct (request_ok _ _ _ _ _ _ (ck_chunks _ _ _ (gd_ok _ G) n c Hc) Hio) as (_ & _ & [Hf|Hf]);
    [|by eapply finish_store].
  eapply reaches_bind; [by eapply finish_bios|]. intros σ1 G1 (U1 & c1 & io1 & Hc1 & Hio1 & Hp1 & Hf1 & Hn1).
  eapply (run_callback σ1 n c1 io1 only_store); [done..| |].
  { apply (notify_cb_wp n c1 io1); [done|done|]. rewrite Hf1, Hf. eapply notify_load_alone. by eapply alone_here. }
  intros s' Hq Ha G'. pose proof Ha as [(c2 & Hc2 & Hst) _].
  assert (U2 : untouched n σ {| σ1 with cw_sys := s' |}) by (etrans; [exact U1|by eapply alone_untouched]).
  destruct (chunk_io c2) as [io2|] eqn:Hio2.
  - eapply reaches_mono; [eapply (finish_store _ n c2 io2); [done|done|done|by apply Hst|]|].
    + destruct (io_plugged io2) eqn:E; [|done]. destruct (qu_plugged _ _ _ Hq n) as [H|[_ H]]; [by exists c2, io2| |].
      * destruct H as (c3 & io3 & Hc3 & Hio3 & Hp3). unfold at_chunk in *. rewrite Hc1 in Hc3. congruence.
      * pose proof (qu_list _ _ _ Hq) as Hl. rewrite (or_none _ (pk_orderly _ (gd_plug _ G1))) in Hl. rewrite Hl in H.
        by apply elem_of_nil in H.
    + intros σ3 G3 [U3 H3]. split; [by etrans|done].
  - apply reaches_now; [done|]. split; [done|]. exists c2. split; [done|].
    assert (role_of (cw_ctx σ1) n = None) as Hr
      by exact (request_role _ _ _ _ _ _ (ck_chunks _ _ _ (gd_ok _ G1) n c1 Hc1) Hio1).
    pose proof (ck_chunks _ _ _ (gd_ok _ G') n c2 Hc2) as K. cbn [cw_sys cw_img cw_ctx] in K. rewrite Hr in K.
    by eapply idle_ok.
Qed.

(** Any chunk whose request is not held back can be unlocked. *)
Lemma unlock_chunk σ n c :
  good σ → at_chunk n c (cw_sys σ) → ¬ plugged (cw_sys σ) n → reaches σ (unlocks n σ).
Proof.
  intros G Hc Hnp. destruct (chunk_io c) as [io|] eqn:Hio.
  { eapply finish_request; [done|done|done|]. destruct (io_plugged io) eqn:E; [|done]. by destruct Hnp; exists c, io. }
  pose proof (ck_chunks _ _ _ (gd_ok _ G) n c Hc) as K. destruct (role_of (cw_ctx σ) n) as [wr|] eqn:Hr.
  2:{ apply reaches_now; [done|]. split; [done|]. exists c. split; [done|by eapply idle_ok]. }
  assert (ctx_chunk (cw_ctx σ) = Some n) as Hx.
  { unfold role_of in Hr. destruct (ctx_chunk (cw_ctx σ)) as [m|]; [|done]. destruct (Z.eqb_spec m n); [by subst|done]. }
  assert (wp (diff_area_image_ctx_done (cw_ctx σ)) (cw_sys σ) (λ _ s', alone n no_request (chunk_map (area (cw_sys σ))) s')) as Hwp.
  { unfold diff_area_image_ctx_done. rewrite Hx. apply pre_put_chunk; [apply _|]. split; [by exists c|done]. }
  destruct (run_wp _ _ _ Hwp) as ([] & s' & E & Ha).
  eapply reaches_step; [done|eapply task_image_done; [apply G|exact E]|]. intros G'. apply reaches_now; [done|].
  by apply no_request_unlocks.
Qed.

(** ** The chunk size does not change *)

Notation shift_of s := (chunk_shift (area s)).

Lemma queuing_copy_turn offset nw : queuing (λ _, True) (copy_turn offset nw).
Proof.
  pose proof (λ n, queuing_copy_locked (λ _, True) n nw I). unfold copy_turn, lock_turn. queuing.
Qed.

Lemma writer_turn_shift w s : wp (writer_turn w) s (λ _ s', shift_of s' = shift_of s).
Proof.
  unfold writer_turn, set_bio_list. wp_step. apply wp_area. cbv zeta. destruct (wr_phase w) as [off|off|].
  - wp_if E; unfold on_kern; wp_steps.
    + apply wp_eq. intros t s1 E1. wp_steps. cbn [area]. apply (f_equal snd) in E1. cbn in E1. subst s1.
      by rewrite (qu_shift _ _ _ (queuing_copy_turn off (wr_nowait w) _)).
    + eapply wp_mono; [apply submit_plugged_unplugs|]. intros [] s1 (_ & E1 & _). by wp_steps.
  - wp_if E; wp_steps; [|done]. apply wp_eq. intros t s1 E1. wp_steps. apply (f_equal snd) in E1. cbn in E1. subst s1.
    apply (qu_shift _ _ _ (queuing_wait_turn (λ _, True) off (wr_nowait w) s)).
  - unfold on_kern. by wp_steps.
Qed.

Lemma task_step_sectors σ σ' : task_step σ σ' → sectors (cw_sys σ') = sectors (cw_sys σ).
Proof.
  intros H. unfold diff_area_chunk_sectors. do 2 f_equal. f_equal.
  destruct H as [σ i w r ret s' _ _ _ Ht _|σ n k c io s' _ _ _ _ Ht|σ n c io s' _ _ _ _ Ht|σ s' _ Ht]; cbn.
  - exact (wp_run _ _ _ _ _ (writer_turn_shift w (cw_sys σ)) Ht).
  - apply (f_equal snd) in Ht. cbn in Ht. subst s'. apply (qu_shift _ _ _ (queuing_bio_end (λ _, True) n k 0 _)).
  - apply (f_equal snd) in Ht. cbn in Ht. subst s'. apply (qu_shift _ _ _ (queuing_notify_cb (λ _, True) n I _)).
  - apply (f_equal snd) in Ht. cbn in Ht. subst s'. apply (qu_shift _ _ _ (queuing_ctx_done (λ _, True) _ _)).
Qed.

Lemma reaches_sectors σ (Q : cow → Prop) :
  reaches σ Q → reaches σ (λ σ', Q σ' ∧ sectors (cw_sys σ') = sectors (cw_sys σ)).
Proof.
  intros (σ' & Hr & H). exists σ'. split; [done|]. destruct H as [?|[G HQ]]; [by left|right]. split_and!; try done.
  clear G HQ. induction Hr as [|σ1 σ2 σ3 H12 _ IH]; [done|]. by rewrite IH, (task_step_sectors _ _ H12).
Qed.

(** ** A writer that need not wait *)

Record same_bio (w w' : writer) : Prop := {
  sb_sector : wr_sector w' = wr_sector w;
  sb_count : wr_count w' = wr_count w;
  sb_nowait : wr_nowait w' = wr_nowait w;
  sb_data : wr_data w' = wr_data w;
}.
#[global] Instance same_bio_preorder : PreOrder same_bio.
Proof. split; [by split|]. intros w1 w2 w3 [] []. split; congruence. Qed.

(** How many turns a writer has left. *)
Definition chunks_left (step : Z) (w : writer) (off : Z) : nat :=
  Z.to_nat ((wr_sector w + wr_count w - off + step - 1) / step).
Definition turns_left (step : Z) (w : writer) : nat :=
  match wr_phase w with
  | PCopy off => chunks_left step w off + chunks_left step w (round_down (wr_sector w) step) + 2
  | PWait off => chunks_left step w off + 1
  | PWrite => 0
  end.

Lemma chunks_left_next step w off :
  0 < step → off < wr_sector w + wr_count w → (chunks_left step w (off + step) < chunks_left step w off)%nat.
Proof.
  intros Hs Hlt. unfold chunks_left. set (a := wr_sector w + wr_count w - off + step - 1).
  replace (wr_sector w + wr_count w - (off + step) + step - 1) with (a + -1 * step) by lia.
  rewrite Z.div_add by lia. assert (1 ≤ a / step) by (apply Z.div_le_lower_bound; lia). lia.
Qed.

(** The chunk that a writer takes next. *)
Definition target (s : sys) (w : writer) : option Z :=
  match wr_phase w with
  | PCopy off | PWait off =>
      if off <? wr_sector w + wr_count w then Some (chunk_number (area s) off) else None
  | PWrite => None
  end.

Definition is_unlocked (s : sys) (n : Z) : Prop := ∀ c, at_chunk n c s → lock c = false.

Lemma lock_turn_unlocked n body s (Q : turn → sys → Prop) c :
  at_chunk n c s → lock c = false → (∀ s1, shift_of s1 = shift_of s → wp body s1 Q) → wp (lock_turn n false body) s Q.
Proof.
  intros Hc Hl Hb. unfold lock_turn, down_killable. wp_step. wp_step. apply (wp_getc _ _ _ _ Hc). rewrite Hl.
  unfold modc, on_area. wp_steps. by apply Hb.
Qed.

Lemma copy_turn_unlocked off s : is_unlocked s (chunk_number (area s) off) → wp (copy_turn off false) s goes_on.
Proof.
  intros Hu. unfold copy_turn. wp_step. wp_step. cbv zeta.
  destruct (chunk_map (area s) !! chunk_number (area s) off) as [c|] eqn:Ec.
  - eapply lock_turn_unlocked; [exact Ec|by apply Hu|]. intros s1 _. apply copy_locked_goes.
  - wp_step. eapply wp_mono; [apply set_corrupted_flag|]. intros [] s1 H1. wp_steps. right. split; [|done].
    by exists (- EINVAL).
Qed.

Definition passes (t : turn) (_ : sys) : Prop := t = Continue ∨ ∃ ret, t = Return ret ∧ ret ≠ - EINTR ∧ ret ≠ - EAGAIN.

Lemma wait_turn_unlocked off s : is_unlocked s (chunk_number (area s) off) → wp (wait_turn off false) s passes.
Proof.
  intros Hu. unfold wait_turn. wp_step. wp_step. cbv zeta.
  destruct (chunk_map (area s) !! chunk_number (area s) off) as [c|] eqn:Ec.
  - eapply lock_turn_unlocked; [exact Ec|by apply Hu|]. intros s1 _. unfold wait_locked, up.
    apply wp_bind, wp_eq. intros c' s2 _. wp_if E1; [apply wp_bind, wp_eq; intros [] s3 _; wp_steps; right; by exists (- EFAULT)|].
    wp_if E2; [apply wp_bind, wp_eq; intros [] s3 _|]; wp_steps; by left.
  - apply wp_bind, wp_eq. intros [] s1 _. wp_steps. right. by exists (- EINVAL).
Qed.

(** What a turn of such a writer comes to. *)
Definition advanced (step : Z) (w : writer) (r : option writer * Z) (s' : sys) : Prop :=
  r.2 ≠ - EINTR ∧ (corrupt_flag (area s') = true ∨
    ∃ w', r.1 = Some w' ∧ same_bio w w' ∧ (turns_left step w' < turns_left step w)%nat).

Lemma writer_turn_advances s w :
  sys_ok s → wr_nowait w = false → wr_phase w ≠ PWrite → (∀ n, target s w = Some n → is_unlocked s n) →
  wp (writer_turn w) s (advanced (sectors s) w).
Proof.
  intros Hs Hnw Hp Hu. destruct (sectors_pow2 s Hs) as [_ Hcs]. unfold writer_turn, set_bio_list, target in *.
  rewrite Hnw. wp_step. apply wp_area. cbv zeta. destruct (wr_phase w) as [off|off|] eqn:Hph; [| |done].
  - destruct (off <? _) eqn:E; bool_hyps; unfold on_kern; wp_steps.
    + eapply wp_mono; [apply copy_turn_unlocked; cbn; by apply Hu|]. intros t s1 Ht. wp_steps.
      destruct Ht as [->|[(ret & -> & Hr) Hx]].
      * split; [done|]. right. eexists. split; [done|]. split; [by split|]. unfold turns_left. cbn. rewrite Hph.
        pose proof (chunks_left_next (sectors s) w off ltac:(lia) E). unfold chunks_left in *. cbn. lia.
      * unfold writer_error. split; [by destruct (ret =? _)|]. by left.
    + apply wp_eq. intros [] s1 _. wp_steps. split; [done|]. right. eexists. split; [done|]. split; [by split|].
      unfold turns_left. cbn. rewrite Hph. unfold chunks_left. cbn. lia.
  - destruct (off <? _) eqn:E; bool_hyps; wp_steps.
    + eapply wp_mono; [apply wait_turn_unlocked; by apply Hu|]. intros t s1 Ht. wp_steps.
      destruct Ht as [->|(ret & -> & Hr & Ha)].
      * split; [done|]. right. eexists. split; [done|]. split; [by split|]. unfold turns_left. cbn. rewrite Hph.
        pose proof (chunks_left_next (sectors s) w off ltac:(lia) E). unfold chunks_left in *. cbn. lia.
      * unfold writer_error. rewrite (proj2 (Z.eqb_neq _ _) Ha). split; [done|]. right. eexists. split; [done|].
        split; [by split|]. unfold turns_left. rewrite Hph. cbn. lia.
    + split; [done|]. right. eexists. split; [done|]. split; [by split|]. unfold turns_left. cbn. rewrite Hph. lia.
Qed.

(** ** There is always a writer that can go on *)

Lemma writer_advance σ i w :
  good σ → cw_writers σ !! i = Some w → wr_phase w ≠ PWrite →
  (∀ n, target (cw_sys σ) w = Some n → is_unlocked (cw_sys σ) n) →
  reaches σ (λ σ', ∃ w', cw_writers σ' = <[i := w']> (cw_writers σ) ∧ same_bio w w' ∧
    (turns_left (sectors (cw_sys σ)) w' < turns_left (sectors (cw_sys σ)) w)%nat).
Proof.
  intros G Hi Hp Hu.
  pose proof (proj1 (Forall_lookup _ _) (or_wait _ (pk_orderly _ (gd_plug _ G))) i w Hi) as Hnw. cbn in Hnw.
  destruct (run_wp _ _ _ (writer_turn_advances _ w (ck_sys _ _ _ (gd_ok _ G)) Hnw Hp Hu)) as ([r ret] & s' & E & Hr & H).
  eapply reaches_step; [done|by eapply task_writer; [apply G|..]|]. intros G'. apply reaches_now; [done|].
  destruct H as [Hx|(w' & Hw & Hs & Hlt)]; [pose proof (gd_clean _ G') as Hc; cbn in Hc; congruence|]. cbn in Hw. subst r. by exists w'.
Qed.

(** The writer in [diff_area_copy] that has got furthest. *)
Lemma furthest_writer a (l : list writer) :
  (∀ w off, w ∈ l → wr_phase w ≠ PCopy off) ∨
  ∃ w off, w ∈ l ∧ wr_phase w = PCopy off ∧
    ∀ w' off', w' ∈ l → wr_phase w' = PCopy off' → chunk_number a off' ≤ chunk_number a off.
Proof.
  induction l as [|w l IH]; [left; by intros w off []%elem_of_nil|].
  destruct (wr_phase w) as [off|off|] eqn:Hp.
  2,3: destruct IH as [Hno|(w1 & off1 & H1 & Hp1 & Hmax)]; [left|right; exists w1, off1; split_and!; [by right|done|]];
       intros w' off' [->|H']%elem_of_cons; try congruence; by eauto.
  right. destruct IH as [Hno|(w1 & off1 & H1 & Hp1 & Hmax)].
  - exists w, off. split_and!; [by left|done|]. intros w' off' [->|H']%elem_of_cons Hp'; [|by destruct (Hno w' off')].
    rewrite Hp in Hp'. injection Hp' as <-. lia.
  - destruct (Z.le_ge_cases (chunk_number a off) (chunk_number a off1)) as [Hle|Hle].
    + exists w1, off1. split_and!; [by right|done|]. intros w' off' [->|H']%elem_of_cons Hp'; [|by eauto].
      rewrite Hp in Hp'. by injection Hp' as <-.
    + exists w, off. split_and!; [by left|done|]. intros w' off' [->|H']%elem_of_cons Hp'; [|specialize (Hmax w' off' H' Hp'); lia].
      rewrite Hp in Hp'. injection Hp' as <-. lia.
Qed.

Definition let_through (w : writer) : Prop := wr_phase w = PWrite.
#[global] Instance phase_eq_dec : EqDecision phase.
Proof. solve_decision. Defined.
#[global] Instance let_through_dec w : Decision (let_through w).
Proof. unfold let_through. apply _. Defined.

(** Some writer waits for no other. *)
Lemma pick_writer σ :
  good σ → Forall let_through (cw_writers σ) ∨
  ∃ i w, cw_writers σ !! i = Some w ∧ wr_phase w ≠ PWrite ∧
    ∀ n, target (cw_sys σ) w = Some n → ¬ plugged (cw_sys σ) n.
Proof.
  intros G. pose proof (gd_plug _ G) as [_ Hown Hpass].
  destruct (furthest_writer (area (cw_sys σ)) (cw_writers σ)) as [Hno|(w & off & Hw & Hp & Hmax)].
  - assert (Hnp : ∀ n, ¬ plugged (cw_sys σ) n).
    { intros n Hn. destruct (Hown n Hn) as (w & off & Hw & Hp & _). by apply (Hno w off). }
    destruct (decide (Forall let_through (cw_writers σ))) as [H|H]; [by left|right].
    apply not_Forall_Exists in H; [|apply _].
    apply Exists_exists in H as (w & Hw & Hp). apply list_elem_of_lookup in Hw as [i Hi]. exists i, w.
    by split_and!; [..|intros n _].
  - right. apply list_elem_of_lookup in Hw as [i Hi]. exists i, w. split_and!; [done|by rewrite Hp|].
    unfold target. rewrite Hp. intros n Ht Hn. destruct (off <? _); [|done]. injection Ht as <-.
    destruct (Hown _ Hn) as (w' & off' & Hw' & Hp' & Hin). specialize (Hpass w' off' _ Hw' Hp' Hin).
    specialize (Hmax w' off' Hw' Hp'). lia.
Qed.

Lemma target_sectors s s' w : sectors s' = sectors s → sys_ok s → sys_ok s' → target s' w = target s w.
Proof.
  intros E Hs Hs'. unfold target. by destruct (wr_phase w); [rewrite !chunk_number_div, E by done..|].
Qed.

(** The steps it takes to bring one writer further. *)
Lemma some_writer_advances σ :
  good σ → Forall let_through (cw_writers σ) ∨
  reaches σ (λ σ', ∃ i w w', cw_writers σ !! i = Some w ∧ cw_writers σ' = <[i := w']> (cw_writers σ) ∧
    same_bio w w' ∧ (turns_left (sectors (cw_sys σ)) w' < turns_left (sectors (cw_sys σ)) w)%nat).
Proof.
  intros G. destruct (pick_writer σ G) as [H|(i & w & Hi & Hp & Ht)]; [by left|right].
  assert (reaches σ (λ σ', cw_writers σ' = cw_writers σ ∧
    ∀ n, target (cw_sys σ) w = Some n → is_unlocked (cw_sys σ') n)) as H1.
  { destruct (target (cw_sys σ) w) as [n|]; [|by apply reaches_now].
    destruct (chunk_map (area (cw_sys σ)) !! n) as [c|] eqn:Ec.
    - eapply reaches_mono; [eapply unlock_chunk; [done|exact Ec|by apply Ht]|]. intros σ1 G1 ([Ew _] & c1 & Hc1 & Hl1).
      split; [done|]. intros m [= <-] c' Hc'. unfold at_chunk in *. congruence.
    - apply reaches_now; [done|]. split; [done|]. intros m [= <-] c' Hc'. unfold at_chunk in *. congruence. }
  eapply reaches_bind; [by apply reaches_sectors|]. intros σ1 G1 [[Ew Hu] Es]. rewrite <- Ew in Hi.
  eapply reaches_mono; [eapply (writer_advance σ1 i w); try done|].
  - intros n Hn. apply Hu. rewrite <- Hn. symmetry. apply target_sectors; [done|apply G|apply G1].
  - intros σ2 G2 (w' & Ew2 & Hsb & Hlt). rewrite Es in Hlt. rewrite Ew in *. exists i, w, w'. by split_and!.
Qed.

(** ** Draining *)

Definition all_turns (step : Z) (l : list writer) : nat := sum_list_with (turns_left step) l.

Lemma all_turns_insert step l i w w' :
  l !! i = Some w → (turns_left step w' < turns_left step w)%nat → (all_turns step (<[i := w']> l) < all_turns step l)%nat.
Proof.
  unfold all_turns. revert i. induction l as [|x l IH]; intros [|i] Hi Hlt; try done; cbn -[turns_left].
  - injection Hi as ->. lia.
  - apply Nat.add_lt_mono_l, (IH i Hi Hlt).
Qed.

Lemma same_bios_insert l i w w' : l !! i = Some w → same_bio w w' → Forall2 same_bio l (<[i := w']> l).
Proof.
  intros Hi Hs. revert i Hi. induction l as [|x l IH]; intros [|i] Hi; try done; cbn.
  - injection Hi as ->. constructor; [done|]. apply Forall2_same_length_lookup_2; [done|]. intros j y z Hy Hz. naive_solver.
  - constructor; [done|auto].
Qed.

(** Every writer is let through. *)
Lemma drain_writers k σ :
  good σ → (all_turns (sectors (cw_sys σ)) (cw_writers σ) ≤ k)%nat →
  reaches σ (λ σ', Forall let_through (cw_writers σ') ∧ Forall2 same_bio (cw_writers σ) (cw_writers σ')).
Proof.
  revert σ. induction k as [|k IH]; intros σ G Hk;
    (destruct (some_writer_advances σ G) as [H|H];
       [apply reaches_now; [done|]; split; [done|reflexivity]|]).
  - destruct H as (σ1 & Hr & [?|[_ (i & w & w' & Hi & _ & _ & Hlt)]]); [exists σ1; by auto|].
    pose proof (all_turns_insert _ _ _ _ _ Hi Hlt). lia.
  - eapply reaches_bind; [by apply reaches_sectors|]. intros σ1 G1 [(i & w & w' & Hi & Ew & Hs & Hlt) Es].
    pose proof (all_turns_insert _ _ _ _ _ Hi Hlt) as Hm.
    eapply reaches_mono; [apply (IH σ1 G1); rewrite Es, Ew; lia|]. intros σ2 G2 [H2 F2]. split; [done|].
    etrans; [|exact F2]. rewrite Ew. by eapply same_bios_insert.
Qed.

(** Then every chunk is unlocked. *)
Lemma drain_chunks (ns : list Z) σ :
  good σ → Forall let_through (cw_writers σ) →
  reaches σ (λ σ', cw_writers σ' = cw_writers σ ∧ (∀ n, n ∈ ns → is_unlocked (cw_sys σ') n) ∧
    ∀ n, n ∉ ns → chunk_map (area (cw_sys σ')) !! n = chunk_map (area (cw_sys σ)) !! n).
Proof.
  intros G Hw. induction ns as [|n ns IH]; [apply reaches_now; [done|]; split_and!; [done|by intros n []%elem_of_nil|done]|].
  eapply reaches_bind; [exact IH|]. intros σ1 G1 (Ew & Hu & Hsame).
  destruct (chunk_map (area (cw_sys σ1)) !! n) as [c|] eqn:Ec.
  - eapply reaches_mono; [eapply (unlock_chunk σ1 n c); [done|exact Ec|]|].
    + intros Hp. destruct (pk_owner _ (gd_plug _ G1) n Hp) as (w & off & Hin & Hph & _). rewrite Ew in Hin.
      apply (proj1 (Forall_forall _ _) Hw) in Hin. unfold let_through in Hin. congruence.
    + intros σ2 G2 ([Ew2 Ho] & c2 & Hc2 & Hl2). split_and!; [congruence| |].
      * intros m Hm c' Hc'. unfold at_chunk in *. destruct (decide (m = n)) as [->|Hne]; [congruence|].
        rewrite Ho in Hc' by done. apply elem_of_cons in Hm as [->|Hm]; [done|]. by eapply Hu.
      * intros m Hm. apply not_elem_of_cons in Hm as [Hne Hm]. rewrite Ho by done. auto.
  - apply reaches_now; [done|]. split_and!; [done| |].
    + intros m Hm c' Hc'. apply elem_of_cons in Hm as [->|Hm]; [unfold at_chunk in Hc'; congruence|by eapply Hu].
    + intros m Hm. apply not_elem_of_cons in Hm as [_ Hm]. auto.
Qed.

Lemma live_reach_inv σ0 σ :
  cow_inv σ0 → plug_inv σ0 → rtc live_step σ0 σ → cow_inv σ ∧ plug_inv σ.
Proof.
  intros I K H. induction H as [|σ0 σ1 σ2 [H1 Ho] _ IH]; [done|].
  apply IH; [by eapply cow_step_inv|by eapply cow_step_plug].
Qed.

Lemma init_plug_ok σ : cow_init σ → orderly σ → plug_ok σ.
Proof.
  intros [_ [Hf _ _] _ Hw _ _] Ho. split; [done| |].
  - intros n (c & io & Hc & Hio & _). destruct (Hf n c Hc). congruence.
  - rewrite Hw. by intros w off n []%elem_of_nil.
Qed.

(** The state in which the filter holds no bio and no chunk is in use. *)
Record drained (σ : cow) : Prop := {
  dr_writers : Forall let_through (cw_writers σ);
  dr_chunks n c : at_chunk n c (cw_sys σ) → lock c = false ∧ chunk_io c = None;
}.

(** C4: the copy-on-write system never deadlocks. From a fresh difference area, let the
    writers, the device, the callbacks, the cache release, the image's worker and the rest of
    the system take any steps in any order, with any errors, with bios of tasks that may wait
    and are not killed. In every state that is reached, while the area is not corrupted, the
    tasks at hand can finish by themselves: without any new bio and without help from outside
    there are steps of the writers, of the device, of the callbacks and of the image's worker
    after which every bio that the filter held, the same ones in the same order, has been let
    through, no chunk is locked and no request is in flight - or the area has been marked
    corrupted, and then the filter holds bios no longer. *)
Theorem cow_always_drains σ0 σ :
  cow_init σ0 → orderly σ0 → rtc live_step σ0 σ → corrupt_flag (area (cw_sys σ)) = false →
  ∃ σ', rtc task_step σ σ' ∧
    (corrupt_flag (area (cw_sys σ')) = true ∨
     drained σ' ∧ Forall2 same_bio (cw_writers σ) (cw_writers σ')).
Proof.
  intros Hi Ho Hr Hcf.
  destruct (live_reach_inv _ _ (cow_init_inv _ Hi) (or_intror (init_plug_ok _ Hi Ho)) Hr) as [I K].
  destruct (good_inv _ I K) as [?|G]; [congruence|].
  assert (reaches σ (λ σ', drained σ' ∧ Forall2 same_bio (cw_writers σ) (cw_writers σ'))) as (σ' & H1 & H2).
  { eapply reaches_bind; [by eapply drain_writers|]. intros σ1 G1 [Hw Hb].
    eapply reaches_mono; [by apply (drain_chunks (chunk_numbers (area (cw_sys σ1))) σ1)|].
    intros σ2 G2 (Ew & Hu & Hsame). split; [|by rewrite Ew]. split; [by rewrite Ew|]. intros n c Hc.
    assert (lock c = false) as Hl.
    { destruct (decide (n ∈ chunk_numbers (area (cw_sys σ1)))) as [Hn|Hn]; [by eapply Hu|].
      unfold at_chunk in Hc. rewrite Hsame in Hc by done. destruct Hn. unfold chunk_numbers.
      apply list_elem_of_fmap. exists (n, c). split; [done|]. by apply elem_of_map_to_list. }
    split; [done|]. destruct (ck_chunks _ _ _ (gd_ok _ G2) n c Hc) as [_ _ U]. inversion U; congruence. }
  exists σ'. split; [done|]. destruct H2 as [?|[_ H2]]; [by left|by right].
Qed.
End steps.

(** ** Two writers that meet

    The first writer has taken chunk 0 and waits for chunk 1, whose request the second
    writer holds back. *)
Definition orderlyb (σ : cow) : bool :=
  bool_decide (w_bio_list (kern (cw_sys σ)) = None) && forallb (λ w, negb (wr_nowait w)) (cw_writers σ).

Lemma orderlyb_spec σ : orderlyb σ = true → orderly σ.
Proof.
  unfold orderlyb. intros [H1%bool_decide_eq_true H2]%andb_true_iff. split; [done|].
  apply Forall_forall. intros w Hw. rewrite forallb_forall in H2. apply list_elem_of_In, H2 in Hw. by destruct (wr_nowait w).
Qed.

Fixpoint run_live {P : ModuleParams} (acts : list action) (σ : cow) : option cow :=
  match acts with
  | [] => Some σ
  | a :: acts => σ' ← exec false a σ; if orderlyb σ' then run_live acts σ' else None
  end.

Lemma run_live_reach {P : ModuleParams} acts σ σ' : run_live acts σ = Some σ' → rtc live_step σ σ'.
Proof.
  revert σ. induction acts as [|a acts IH]; intros σ; cbn; [by intros [= <-]|].
  destruct (exec false a σ) as [σ1|] eqn:E; cbn; [|done]. destruct (orderlyb σ1) eqn:Eo; [|done]. intros H.
  eapply rtc_l; [|by apply IH]. split; [by eapply exec_step|by apply orderlyb_spec].
Qed.

Definition ex_meeting : list action :=
  [ASubmit (ex_writer 0 16 false); AWriter 0; ASubmit (ex_writer 8 8 false); AWriter 1; AWriter 0].
Definition ex_met : cow := default (ex_cow []) (run_live (P:=default_params) ex_meeting (ex_cow [])).

Lemma cow_always_drains_witness :
  (copy_turn (P:=default_params) 8 false (cw_sys ex_met)).1 = Sleep ∧
  ∃ σ', rtc (task_step (P:=default_params)) ex_met σ' ∧
    (corrupt_flag (area (cw_sys σ')) = true ∨
     drained σ' ∧ Forall2 same_bio (cw_writers ex_met) (cw_writers σ')).
Proof.
  split; [vm_compute; reflexivity|].
  apply (cow_always_drains (P:=default_params) (ex_cow []) ex_met).
  - apply ex_cow_init.
  - apply orderlyb_spec. vm_compute. reflexivity.
  - apply (run_live_reach ex_meeting). unfold ex_met.
    destruct (run_live ex_meeting (ex_cow [])) as [σ|] eqn:E; [done|].
    assert (is_some (run_live (P:=default_params) ex_meeting (ex_cow [])) = true) as H by (vm_compute; reflexivity).
    by rewrite E in H.
  - vm_compute. reflexivity.
Defined.
