(* ===== verification/Footprint.v ===== *)
(** * What an area may write

    The sectors of the difference storage that have been handed to an area, its
    footprint, and that every operation on the area keeps to them: the regions of its
    chunks and the bios it has in flight lie in the footprint, which only grows, by
    sectors that nobody has. This holds whether or not the area is corrupted. *)
From S2P Require Import Prelude MemoryChecker Kernel Uapi EventQueue DiffBuffer DiffIo DiffStorage.
From S2P Require Import Effects Chunk DiffArea ChunkSpecs CowInv Cow CowSteps CowImage CowSafety.

(** The parts of an area that say where it lies, and that it stays corrupted. *)
Definition area_kept (a a' : diff_area) : Prop :=
  chunk_map a' = chunk_map a ∧ chunk_shift a' = chunk_shift a ∧ orig_bdev a' = orig_bdev a ∧
  (corrupt_flag a = true → corrupt_flag a' = true).

(** A set of sectors of devices. *)
Notation footprint := (Z → Z → Prop).

(** What a bio writes lies in [R]. *)
Definition bio_owned (R : footprint) (bi : bio) : Prop :=
  bi_write bi = true → Forall (λ v, 0 ≤ v.2) (bi_io_vec bi) ∧
    ∀ a, bi_sector bi * SECTOR_SIZE ≤ a < bi_sector bi * SECTOR_SIZE + vec_bytes (bi_io_vec bi) →
      R (bi_bdev bi) (a / SECTOR_SIZE).

Record owns (R : footprint) (s : sys) : Prop := {
  ow_shift : 9 ≤ chunk_shift (area s) ≤ 27;
  ow_storage : storage_wf (storage s);
  ow_taken bd x : R bd x → taken (storage s) bd x;
  ow_region n c r : at_chunk n c s → chunk_region c = Some r →
    dr_count r ≤ 65535 * 8 ∧ ∀ bd x, region_has r bd x → R bd x;
  ow_io n c io : at_chunk n c s → chunk_io c = Some io → Forall (bio_owned R) (io_bios io);
}.

(** From [s] to [s'] the footprint has grown from [R] to [R'], by sectors that had not
    been handed out, and the devices have the same contents. *)
Record grows (R R' : footprint) (s s' : sys) : Prop := {
  gr_more bd x : R bd x → R' bd x;
  gr_fresh bd x : R' bd x → R bd x ∨ ¬ taken (storage s) bd x;
  gr_bdev : orig_bdev (area s') = orig_bdev (area s);
  gr_covered bd x : covered (storage s') bd x ↔ covered (storage s) bd x;
  gr_taken bd x : taken (storage s) bd x → taken (storage s') bd x;
  gr_disk : w_disk (kern s') = w_disk (kern s);
  gr_corrupt : corrupt_flag (area s) = true → corrupt_flag (area s') = true;
  gr_bdevs : storage_bdevs (storage s') = storage_bdevs (storage s);
}.

Lemma grows_refl R s : grows R R s s.
Proof. by split; auto. Qed.

Lemma grows_trans R1 R2 R3 s1 s2 s3 : grows R1 R2 s1 s2 → grows R2 R3 s2 s3 → grows R1 R3 s1 s3.
Proof.
  intros [M1 F1 B1 C1 T1 D1 X1 E1] [M2 F2 B2 C2 T2 D2 X2 E2].
  split; [auto| |congruence| |auto|congruence|auto|congruence].
  - intros bd x H. destruct (F2 bd x H) as [H2|H2]; [by apply F1|]. right. auto.
  - intros bd x. by rewrite C2, C1.
Qed.

Lemma bio_owned_mono (R R' : footprint) bi :
  (∀ bd x, R bd x → R' bd x) → bio_owned R bi → bio_owned R' bi.
Proof. intros H Hb Hw. destruct (Hb Hw) as [? Hr]. split; [done|]. auto. Qed.

Definition tame {A} (m : AM A) : Prop :=
  ∀ R s, owns R s → wp m s (λ _ s', ∃ R', owns R' s' ∧ grows R R' s s').

(** An operation that leaves the storage, the devices and the chunks' regions and
    requests alone. *)
Lemma owns_same R s s' :
  chunk_map (area s') = chunk_map (area s) → chunk_shift (area s') = chunk_shift (area s) →
  storage s' = storage s → owns R s → owns R s'.
Proof. intros Em Es Est [H1 H2 H3 H4 H5]. split; unfold at_chunk; rewrite ?Em, ?Es, ?Est; done. Qed.

Section rules.

Lemma tame_ret {A} (a : A) : tame (mret a).
Proof. intros R s H. exists R. split; [done|apply grows_refl]. Qed.
Lemma tame_gets {A} (f : sys → A) : tame (gets f).
Proof. intros R s H. exists R. split; [done|apply grows_refl]. Qed.
Lemma tame_skip : tame skip.
Proof. intros R s H. exists R. split; [done|apply grows_refl]. Qed.
Lemma tame_bind {A B} (m : AM A) (f : A → AM B) : tame m → (∀ a, tame (f a)) → tame (m ≫= f).
Proof.
  intros Hm Hf R s H. apply wp_bind. eapply wp_mono; [by apply Hm|]. intros a s1 (R1 & H1 & G1).
  eapply wp_mono; [by apply Hf|]. intros b s2 (R2 & H2 & G2). exists R2. split; [done|]. by eapply grows_trans.
Qed.
Lemma tame_when b m : tame m → tame (when b m).
Proof. destruct b; [done|]. intros _. apply tame_skip. Qed.

Lemma tame_kern {A} (m : K A) : same_view w_disk m → tame (on_kern m).
Proof.
  intros Hm R s H. unfold on_kern. rewrite wp_zoom. exists R. split; [by apply (owns_same R s)|].
  split; auto; try done. apply Hm.
Qed.
Lemma tame_area f :
  (∀ a, area_kept a (f a)) →
  tame (on_area f).
Proof.
  intros Hf R s H. exists R. destruct (Hf (area s)) as (Em & Es & Eb & Ex). split; [by apply (owns_same R s)|].
  split; auto; done.
Qed.
Lemma tame_event code data : tame (on_store (storage_event_gen code data)).
Proof.
  intros R s H. unfold on_store. rewrite wp_zoom. eapply wp_mono; [apply storage_event_gen_spec|].
  intros r [d w] [Hq (q & -> & _)]. cbn in Hq. exists R. destruct H as [H1 H2 H3 H4 H5]. split.
  - split; try done. by destruct H2.
  - split; auto; try done. cbn. by destruct Hq.
Qed.

(** A change of a chunk that keeps its region and its request, or drops them. *)
Lemma owns_modc R s n f :
  (∀ c r, at_chunk n c s → chunk_region (f c) = Some r →
     dr_count r ≤ 65535 * 8 ∧ ∀ bd x, region_has r bd x → R bd x) →
  (∀ c io, at_chunk n c s → chunk_io (f c) = Some io → Forall (bio_owned R) (io_bios io)) →
  owns R s → owns R (modc n f s).2 ∧ grows R R s (modc n f s).2.
Proof.
  intros Hr Hi [H1 H2 H3 H4 H5].
  assert (Hat : ∀ m c, at_chunk m c (modc n f s).2 → (m ≠ n ∧ at_chunk m c s) ∨ ∃ c0, m = n ∧ at_chunk n c0 s ∧ c = f c0).
  { intros m c Hc. unfold at_chunk in Hc. cbn in Hc. destruct (decide (m = n)) as [->|Hm].
    - rewrite lookup_alter_eq in Hc. destruct (chunk_map (area s) !! n) as [c0|] eqn:E; [|done].
      injection Hc as <-. right. by exists c0.
    - rewrite lookup_alter_ne in Hc by done. by left. }
  split; [|split; auto; done]. split; try done.
  - intros m c r Hc Hrg. destruct (Hat m c Hc) as [[_ H]|(c0 & -> & H & ->)]; [by apply (H4 m c)|by apply (Hr c0)].
  - intros m c io Hc Hio. destruct (Hat m c Hc) as [[_ H]|(c0 & -> & H & ->)]; [by apply (H5 m c)|by apply (Hi c0)].
Qed.
Lemma tame_modc n f :
  (∀ c, chunk_region (f c) = chunk_region c ∨ chunk_region (f c) = None) →
  (∀ c, chunk_io (f c) = chunk_io c ∨ chunk_io (f c) = None) → tame (modc n f).
Proof.
  intros Hr Hi R s H. exists R. apply owns_modc; [| |done].
  - intros c r Hc E. apply (ow_region _ _ H n c); [done|]. destruct (Hr c); congruence.
  - intros c io Hc E. apply (ow_io _ _ H n c); [done|]. destruct (Hi c); congruence.
Qed.
End rules.

Create HintDb tame discriminated.
Ltac tame := repeat first
  [ progress intros
  | solve [auto 2 with tame nocore]
  | simple apply tame_bind | simple apply tame_ret | simple apply tame_gets
  | simple apply tame_skip | simple apply tame_when
  | simple apply tame_kern; solve [same]
  | simple apply tame_area; solve [intros; repeat case_match; by split_and!]
  | simple apply tame_modc; solve [intros; cbn; auto]
  | match goal with |- tame (match ?x with _ => _ end) => destruct x end ].

Lemma tame_getc n : tame (getc n).
Proof. apply tame_gets. Qed.
Lemma tame_null : tame null_dereference.
Proof. intros R s H. exists R. split; [by apply (owns_same R s)|split; auto; done]. Qed.
Lemma tame_hung : tame (modify (λ s, {| s with hung := true |})).
Proof. intros R s H. exists R. split; [by apply (owns_same R s)|split; auto; done]. Qed.
#[export] Hint Resolve tame_getc tame_null tame_hung tame_event : tame.
Lemma tame_up n : tame (up n).
Proof. unfold up. tame. Qed.
Lemma tame_trylock n : tame (down_trylock n).
Proof. unfold down_trylock. tame. Qed.
Lemma tame_killable n : tame (down_killable n).
Proof. unfold down_killable. tame. Qed.
Lemma tame_corrupted e : tame (diff_area_set_corrupted e).
Proof. unfold diff_area_set_corrupted, diff_area_event_corrupted. tame. Qed.
#[export] Hint Resolve tame_up tame_trylock tame_killable tame_corrupted : tame.

(** ** Requests *)

Lemma bio_loop_write fuel wr r pr pg l w :
  Forall (λ b, bi_write b = wr) l →
  wp (bio_loop fuel wr r pr pg l) w (λ '(_, bs) _, Forall (λ b, bi_write b = wr) bs).
Proof.
  revert pr pg l w. induction fuel as [|fuel IH]; intros pr pg l w Hl; cbn [bio_loop];
    (destruct (pr <? dr_count r); [|by wp_steps]); [by wp_steps|].
  destruct (if _ <? _ then _ else _) as [nr portion]. wp_step. apply wp_alloc. intros [] vs; cbn [negb]; [|by wp_steps].
  destruct (bio_fill _ _ _ _) as [[vecs off] page']. apply IH. apply Forall_app. split; [done|].
  by apply Forall_singleton.
Qed.

Lemma wait_bios_disk l io pages w :
  Forall (λ b, bi_write b = false) l →
  wp (wait_bios l io pages) w (λ '(io', _) w', w_disk w' = w_disk w ∧ io_bios io' = io_bios io).
Proof.
  revert io pages w. induction l as [|b l IH]; intros io pages w; cbn [wait_bios]; [by intros; wp_steps|].
  intros [Hb Hl]%list.Forall_cons. wp_step. apply wp_oracle. intros v vs. unfold bio_run at 1. rewrite Hb. wp_steps.
  eapply wp_mono; [by apply IH|]. by intros [io' pg] w' [-> ->].
Qed.

Lemma bio_wf_owned (R : footprint) r bi :
  (∀ bd x, region_has r bd x → R bd x) → bio_wf r true bi → bio_owned R bi.
Proof.
  intros HR Hwf _. pose proof Hwf as [Hbd _ Hlo Hhi Hv]. split.
  - revert Hv. generalize (bio_lo r bi) as lo. induction (bi_io_vec bi) as [|[p len] vs IH]; intros lo; [constructor|].
    cbn. intros (_ & ? & H). constructor; [cbn; lia|by eapply IH].
  - intros a Ha. rewrite Hbd. apply HR. eapply bio_has_sector; [exact Hwf|].
    unfold bio_has, bio_hi, bio_lo, region_base, SECTOR_SIZE in *. lia.
Qed.

(** What a request that has been started has in flight. *)
Definition io_within (R : footprint) (io : diff_io) : Prop := Forall (bio_owned R) (io_bios io).

Lemma io_do_within (R : footprint) owner io r b nw w :
  (is_sync_io io = true → is_write io = false) → io_bios io = [] →
  (is_write io = true → dr_count r ≤ 65535 * 8 ∧ ∀ bd x, region_has r bd x → R bd x) →
  wp (diff_io_do owner io r b nw) w (λ '(_, io', _) w', w_disk w' = w_disk w ∧ io_within R io').
Proof.
  intros Hsy Hnil HR. assert (H0 : io_within R io) by (unfold io_within; rewrite Hnil; constructor).
  unfold diff_io_do. destruct (negb _); [by wp_steps|]. destruct (_ <? _); [by wp_steps|].
  apply wp_bind.
  apply wp_mono with (P := λ '(ok, bs) w', w_disk w' = w_disk w ∧ Forall (λ b, bi_write b = is_write io) bs ∧
    (ok = true → Forall (bio_owned R) bs)).
  { destruct (is_write io) eqn:Ew.
    - destruct HR as [Hc HR]; [done|]. eapply wp_mono.
      { apply wp_and; [apply (bio_loop_spec (Z.to_nat (dr_count r)) true r 0 0 []); lia|by apply bio_loop_write]. }
      intros [ok bs] w' [[[vs ->] Hok] Hw]. split; [done|]. split; [done|]. intros E.
      destruct (Hok E) as (new & -> & [Hwf _] & _). cbn. eapply list.Forall_impl; [exact Hwf|].
      intros bi Hbi. by apply (bio_wf_owned R r).
    - eapply wp_mono; [eapply (wp_and _ _ (λ _ w', w_disk w' = w_disk w));
        [by apply (same_bio_loop w_disk)|by apply (bio_loop_write _ false)]|].
      intros [ok bs] w' [Hd Hw]. split; [done|]. split; [done|]. intros _. eapply list.Forall_impl; [exact Hw|].
      cbn. intros bi Hbi Hbi'. congruence. }
  intros [ok bs] w1 (Hd & Hw & Hown). cbv zeta. destruct ok; cbn [negb]; [|by wp_steps].
  cbn [is_sync_io]. destruct (is_sync_io io) eqn:Es.
  - rewrite (Hsy eq_refl) in Hw. wp_step. eapply wp_mono; [by apply wait_bios_disk|].
    intros [io' pg] w2 [Hd2 Hb2]. wp_steps. split; [congruence|]. unfold io_within. rewrite Hb2. cbn. by rewrite Hnil.
  - unfold submit_bios. wp_steps. destruct (w_bio_list w1); wp_steps; (split; [done|]); by apply Hown.
Qed.

Lemma io_new_async_fresh wr nw fn w :
  wp (diff_io_new_async wr nw fn) w (λ r _, ∀ io, r = Some io → io_bios io = [] ∧ is_write io = wr ∧ is_sync_io io = false).
Proof.
  unfold diff_io_new_async, diff_io_new. wp_steps. apply wp_alloc. intros [] vs; cbn [negb]; wp_steps; [|done].
  by intros io [= <-].
Qed.

(** ** The chunks *)

(** The footprint is the same in [s] and in the state [s0] the operation started in. *)
Definition stays (R : footprint) (s0 s : sys) : Prop := owns R s ∧ grows R R s0 s.

Definition settles {A} (R : footprint) (s0 : sys) (_ : A) (s : sys) : Prop :=
  ∃ R', owns R' s ∧ grows R R' s0 s.

Lemma wp_stays {A B} R (m : AM A) (f : A → AM B) s0 s (Q : A → sys → Prop) :
  stays R s0 s → wp m s (λ a s', stays R s s' ∧ Q a s') →
  (∀ a s', stays R s0 s' → Q a s' → wp (f a) s' (settles R s0)) → wp (m ≫= f) s (settles R s0).
Proof.
  intros [_ G0] Hm Hf. apply wp_bind. eapply wp_mono; [exact Hm|]. intros a s' [[H1 G1] H2].
  apply Hf; [|done]. split; [done|]. by eapply grows_trans.
Qed.
Lemma wp_settles {A} R (m : AM A) s0 s : stays R s0 s → tame m → wp m s (settles R s0).
Proof.
  intros [H0 G0] Hm. eapply wp_mono; [by apply Hm|]. intros a s' (R' & H1 & G1). exists R'. split; [done|].
  by eapply grows_trans.
Qed.

Lemma kern_stays {A} R (m : K A) s : same_view w_disk m → owns R s → stays R s (on_kern m s).2.
Proof.
  intros Hm H. split; [by apply (owns_same R s)|]. split; auto; try done. apply Hm.
Qed.
Lemma area_stays R f s :
  (∀ a, area_kept a (f a)) →
  owns R s → stays R s (on_area f s).2.
Proof.
  intros Hf H. destruct (Hf (area s)) as (Em & Es & Eb & Ex). split; [by apply (owns_same R s)|]. split; auto; done.
Qed.

Section params.
Context {P : ModuleParams}.

Lemma tame_buffer_release n : tame (chunk_diff_buffer_release n).
Proof. unfold chunk_diff_buffer_release. tame. Qed.
#[local] Hint Resolve tame_buffer_release : tame.
Lemma tame_store_failed n e : tame (chunk_store_failed n e).
Proof. unfold chunk_store_failed. tame. Qed.

(** A request has been made for chunk [n] and is started. *)
Lemma start_settles R n io r b nw s0 s :
  is_sync_io io = false → io_bios io = [] → stays R s0 s →
  (is_write io = true → dr_count r ≤ 65535 * 8 ∧ ∀ bd x, region_has r bd x → R bd x) →
  wp ('(ret, io, b) ← on_kern (diff_io_do n io r b nw);
      if negb (ret =? 0) then
        on_area (λ a, {| a with pending_io_count := pending_io_count a - 1 |});;
        on_kern (diff_io_free (Some io));;
        modc n (λ c, {| c with chunk_io := None |});;
        mret ret
      else
        modc n (λ c, {| c with chunk_io := Some io; chunk_buffer := Some b |});;
        mret ret) s (settles R s0).
Proof.
  intros Hsy Hnil Hst Hr.
  eapply (wp_stays R _ _ _ _ (λ res _, io_within R res.1.2)); [exact Hst| |].
  { unfold on_kern. rewrite wp_zoom. eapply wp_mono; [apply (io_do_within R); [congruence|done|done]|].
    intros [[ret io'] b'] w [Hd Hio]. split; [|done]. destruct Hst as [H _]. split; [by apply (owns_same R s)|].
    split; auto; done. }
  intros [[ret io'] b'] s4 H4 Hp. cbn in Hp. destruct (negb (ret =? 0)); [apply wp_settles; [done|tame]|].
  eapply (wp_stays R _ _ _ _ (λ _ _, True)); [exact H4| |intros _ s5 H5 _; wp_steps; by exists R].
  split; [|done]. apply owns_modc; [| |apply H4].
  - intros c rg Hc E. by apply (ow_region _ _ (proj1 H4) n c).
  - by intros c io1 _ [= <-].
Qed.

Lemma tame_async_store n nw : tame (chunk_async_store_diff n nw).
Proof.
  intros R s H. unfold chunk_async_store_diff. fold (settles (A:=Z) R s).
  assert (H0 : stays R s s) by (split; [done|apply grows_refl]).
  wp_steps. destruct (in_cache _ _); [wp_steps; by exists R|].
  eapply (wp_stays R _ _ _ _ (λ r _, ∀ io, r = Some io → io_bios io = [] ∧ is_write io = true ∧ is_sync_io io = false));
    [exact H0| |].
  { apply (wp_and _ _ (λ _ s', stays R s s')); [apply kern_stays; [unfold diff_io_new_async_write; same|done]|].
    unfold on_kern. rewrite wp_zoom. apply io_new_async_fresh. }
  intros [io|] s1 H1 Hio; [|wp_steps; by exists R]. destruct (Hio io eq_refl) as (Hnil & _ & Hsy).
  eapply (wp_stays R _ _ _ _ (λ _ _, True)); [exact H1| |].
  { split; [|done]. apply owns_modc; [| |apply H1].
    - intros c rg Hc E. by apply (ow_region _ _ (proj1 H1) n c).
    - intros c io1 _ [= <-]. by rewrite Hnil. }
  intros _ s2 H2 _. eapply (wp_stays R _ _ _ _ (λ _ _, True)); [exact H2|split; [|done]; apply area_stays; [done|apply H2]|].
  intros _ s3 H3 _. unfold getc. wp_step. wp_step. unfold chunk_at.
  destruct (chunk_map (area s3) !! n) as [c|] eqn:Ec; cbn [from_option id chunk_region chunk_zero];
    [|apply wp_settles; [done|tame]].
  destruct (chunk_region c) as [r|] eqn:Er; [destruct (chunk_buffer c) as [b|]|];
    [|apply wp_settles; [done|tame]..].
  apply start_settles; try done. intros _. by apply (ow_region _ _ (proj1 H3) n c).
Qed.

Lemma tame_async_load n nw : tame (chunk_async_load_orig n nw).
Proof.
  intros R s H. unfold chunk_async_load_orig, getc. fold (settles (A:=Z) R s).
  assert (H0 : stays R s s) by (split; [done|apply grows_refl]).
  wp_step. wp_step. wp_step. wp_step. cbv zeta.
  eapply (wp_stays R _ _ _ _ (λ r _, ∀ io, r = Some io → io_bios io = [] ∧ is_write io = false ∧ is_sync_io io = false));
    [exact H0| |].
  { apply (wp_and _ _ (λ _ s', stays R s s')); [apply kern_stays; [unfold diff_io_new_async_read; same|done]|].
    unfold on_kern. rewrite wp_zoom. apply io_new_async_fresh. }
  intros [io|] s1 H1 Hio; [|wp_steps; by exists R]. destruct (Hio io eq_refl) as (Hnil & Hw & Hsy).
  eapply (wp_stays R _ _ _ _ (λ _ _, True)); [exact H1| |].
  { split; [|done]. apply owns_modc; [| |apply H1].
    - intros c rg Hc E. by apply (ow_region _ _ (proj1 H1) n c).
    - intros c io1 _ [= <-]. by rewrite Hnil. }
  intros _ s2 H2 _. eapply (wp_stays R _ _ _ _ (λ _ _, True)); [exact H2|split; [|done]; apply area_stays; [done|apply H2]|].
  intros _ s3 H3 _. destruct (chunk_buffer _) as [b|]; [|apply wp_settles; [done|tame]].
  apply start_settles; try done. congruence.
Qed.
End params.
#[export] Hint Resolve tame_buffer_release tame_store_failed tame_async_store tame_async_load : tame.

(** ** The operations of the area *)

Section area.
Context {P : ModuleParams}.

(** The one place where the footprint grows. *)
Lemma tame_schedule_storing n nw : tame (chunk_schedule_storing n nw).
Proof.
  intros R s H. unfold chunk_schedule_storing. wp_step. wp_step. destruct (in_cache _ _); [wp_steps; exists R; split; [done|apply grows_refl]|].
  unfold getc. wp_step. wp_step. destruct (chunk_region _) as [r|]; [by apply tame_async_store|].
  apply wp_bind. unfold on_store at 1. rewrite wp_zoom.
  destruct (chunk_sectors_pow2 (area s) (ow_shift _ _ H)) as [_ Hc].
  eapply wp_mono; [apply wp_and; [apply new_region_ok; [apply H|lia]|apply diff_storage_new_region_bdevs]|].
  intros [r|e] [d w] [([Hq _] & Hwf & Hcov & Htk & Hr) [Hbd _]]; cbn [fst snd] in *.
  2:{ wp_steps. exists R. destruct H as [H1 H2 H3 H4 H5]. split; [by split; auto|]. split; auto; done. }
  destruct Hr as [Hcount Hr].
  set (R1 := λ bd x, R bd x ∨ region_has r bd x).
  set (s1 := {| s with storage := d; kern := w |}).
  assert (H1 : owns R1 s1).
  { destruct H as [H1 H2 H3 H4 H5]. split; try done.
    - intros bd x [Hx|[-> Hx]]; [by apply Htk, H3|]. apply (Hr x). lia.
    - intros m c r' Hc' Hr'. destruct (H4 m c r' Hc' Hr') as [? Hx]. split; [done|]. intros. left. by apply Hx.
    - intros m c io Hc' Hio. eapply list.Forall_impl; [by apply (H5 m c)|]. intros bi.
      apply bio_owned_mono. intros. by left. }
  assert (G1 : grows R R1 s s1).
  { split; try done.
    - intros. by left.
    - intros bd x [Hx|[-> Hx]]; [by left|right]. apply (Hr x). lia. }
  apply wp_bind, wp_eq. intros [] s2 E2. apply (f_equal snd) in E2. cbn [snd] in E2. subst s2.
  destruct (owns_modc R1 s1 n (λ c, {| c with chunk_region := Some r |})) as [H2 G2]; [| |done|].
  - intros c r' _ [= <-]. split; [lia|]. intros. by right.
  - intros c io Hc' Hio. by apply (ow_io _ _ H1 n c).
  - eapply wp_mono; [by apply tame_async_store|]. intros ret s3 (R3 & H3 & G3). exists R3. split; [done|].
    eapply grows_trans; [exact G1|]. eapply grows_trans; [exact G2|exact G3].
Qed.
Lemma tame_schedule_caching n : tame (chunk_schedule_caching n).
Proof. unfold chunk_schedule_caching. tame. Qed.
Lemma tame_take_io_error n : tame (take_io_error n).
Proof. unfold take_io_error. tame. Qed.
#[local] Hint Resolve tame_schedule_storing tame_schedule_caching tame_take_io_error : tame.
Lemma tame_notify_load n : tame (chunk_notify_load n).
Proof. unfold chunk_notify_load, pending_io_dec. tame. Qed.
Lemma tame_notify_store n : tame (chunk_notify_store n).
Proof. unfold chunk_notify_store, pending_io_dec. tame. Qed.
Lemma tame_take_cached n : tame (diff_area_take_chunk_from_cache n).
Proof. unfold diff_area_take_chunk_from_cache. tame. Qed.
#[local] Hint Resolve tame_notify_load tame_notify_store tame_take_cached : tame.
Lemma tame_notify_cb n : tame (diff_io_notify_cb n).
Proof. unfold diff_io_notify_cb. tame. Qed.

Lemma tame_copy_locked n nw : tame (copy_locked n nw).
Proof. unfold copy_locked, copy_fail. tame. Qed.
Lemma tame_wait_locked n : tame (wait_locked n).
Proof. unfold wait_locked. tame. Qed.
#[local] Hint Resolve tame_copy_locked tame_wait_locked : tame.
Lemma tame_copy_turn offset nw : tame (copy_turn offset nw).
Proof. unfold copy_turn, lock_turn. tame. Qed.
Lemma tame_wait_turn offset nw : tame (wait_turn offset nw).
Proof. unfold wait_turn, lock_turn. tame. Qed.

Lemma tame_trylock_first l : tame (trylock_first l).
Proof. induction l; cbn [trylock_first]; tame. Qed.
#[local] Hint Resolve tame_trylock_first : tame.
Lemma tame_cache_release : tame cache_release_turn.
Proof.
  unfold cache_release_turn, diff_area_get_chunk_from_cache_and_write_lock.
  unfold get_chunk_from_cache_and_write_lock. tame.
Qed.

(** The image's worker reads synchronously. *)
Lemma io_new_sync_fresh w :
  wp diff_io_new_sync_read w (λ r _, ∀ io, r = Some io → io_bios io = [] ∧ is_write io = false).
Proof.
  unfold diff_io_new_sync_read, diff_io_new_sync, diff_io_new. wp_steps. apply wp_alloc.
  intros [] vs; cbn [negb]; wp_steps; [|done]. by intros io [= <-].
Qed.
Lemma tame_io_read n io r b nw : is_write io = false → io_bios io = [] → tame (on_kern (diff_io_do n io r b nw)).
Proof.
  intros Hw Hnil R s H. unfold on_kern. rewrite wp_zoom.
  eapply wp_mono; [apply (io_do_within R); [done|done|congruence]|]. intros [[ret io'] b'] w [Hd _].
  exists R. split; [by apply (owns_same R s)|]. split; auto; done.
Qed.
Lemma tame_load_sync n r : tame (chunk_load_sync n r).
Proof.
  intros R s H. unfold chunk_load_sync. fold (settles (A:=Z) R s).
  eapply (wp_stays R _ _ _ _ (λ r _, ∀ io, r = Some io → io_bios io = [] ∧ is_write io = false));
    [split; [done|apply grows_refl]| |].
  { apply (wp_and _ _ (λ _ s', stays R s s')); [apply kern_stays; [unfold diff_io_new_sync_read; same|done]|].
    unfold on_kern. rewrite wp_zoom. apply io_new_sync_fresh. }
  intros [io|] s1 H1 Hio; [|wp_steps; by exists R]. destruct (Hio io eq_refl) as [Hnil Hw].
  apply wp_settles; [done|]. apply tame_bind; [tame|]. intros c. destruct (chunk_buffer c) as [b|]; [|tame].
  apply tame_bind; [by apply tame_io_read|]. tame.
Qed.
#[local] Hint Resolve tame_load_sync : tame.
Lemma tame_put_chunk n wr : tame (diff_area_image_put_chunk n wr).
Proof. unfold diff_area_image_put_chunk. tame. Qed.
#[local] Hint Resolve tame_put_chunk : tame.
Lemma tame_get_chunk ctx sector : tame (diff_area_image_context_get_chunk ctx sector).
Proof.
  unfold diff_area_image_context_get_chunk, get_chunk_locked, diff_area_load_chunk_from_storage.
  unfold chunk_load_diff, chunk_load_orig. tame.
Qed.
#[local] Hint Resolve tame_get_chunk : tame.
Lemma tame_image_turn ctx v pos : tame (image_turn ctx v pos).
Proof. unfold image_turn. tame. Qed.
Lemma tame_ctx_done ctx : tame (diff_area_image_ctx_done ctx).
Proof. unfold diff_area_image_ctx_done. tame. Qed.

Lemma tame_bio_list l : tame (set_bio_list l).
Proof. unfold set_bio_list. tame. Qed.
Lemma tame_submit_plugged owners : tame (submit_plugged owners).
Proof.
  induction owners as [|n owners IH]; cbn [submit_plugged]; [tame|]. apply tame_bind; [|by tame].
  intros R s H. exists R. apply owns_modc; [| |done].
  - intros c r Hc E. by apply (ow_region _ _ H n c).
  - intros c io Hc. cbn. destruct (chunk_io c) as [io0|] eqn:E; [|done]. intros [= <-].
    by apply (ow_io _ _ H n c io0).
Qed.
End area.
#[export] Hint Resolve tame_notify_cb tame_copy_turn tame_wait_turn tame_cache_release tame_image_turn : tame.
#[export] Hint Resolve tame_ctx_done tame_bio_list tame_submit_plugged : tame.

(** ** The tasks *)

(** As [grows], for a step that may also write: into the footprint, or to the original
    device outside the storage. *)
Record keeps_to (R R' : footprint) (s s' : sys) : Prop := {
  kt_fresh bd x : R' bd x → R bd x ∨ ¬ taken (storage s) bd x;
  kt_bdev : orig_bdev (area s') = orig_bdev (area s);
  kt_covered bd x : covered (storage s') bd x ↔ covered (storage s) bd x;
  kt_taken bd x : taken (storage s) bd x → taken (storage s') bd x;
  kt_corrupt : corrupt_flag (area s) = true → corrupt_flag (area s') = true;
  kt_bdevs : storage_bdevs (storage s') = storage_bdevs (storage s);
  kt_disk bd addr : w_disk (kern s') bd addr = w_disk (kern s) bd addr ∨ R' bd (addr / SECTOR_SIZE) ∨
    (bd = orig_bdev (area s) ∧ ¬ excluded s addr);
}.

Definition confined {A} (m : AM A) (s : sys) : Prop :=
  ∀ R, owns R s → wp m s (λ _ s', ∃ R', owns R' s' ∧ keeps_to R R' s s').

Lemma grows_keeps_to R R' s s' : grows R R' s s' → keeps_to R R' s s'.
Proof. intros [? ? ? ? ? Hd ? ?]. split; auto. intros. left. by rewrite Hd. Qed.
Lemma tame_confined {A} (m : AM A) s : tame m → confined m s.
Proof.
  intros Hm R H. eapply wp_mono; [by apply Hm|]. intros a s' (R' & ? & ?). exists R'.
  split; [done|]. by apply grows_keeps_to.
Qed.

Lemma vecs_write_out bdev pos vs pages d bd a :
  Forall (λ v, 0 ≤ v.2) vs → bd ≠ bdev ∨ a < pos ∨ pos + vec_bytes vs ≤ a →
  vecs_write bdev pos vs pages d bd a = d bd a.
Proof.
  revert pos d. induction vs as [|[p len] vs IH]; intros pos d; [done|]. intros [Hl Hv]%list.Forall_cons Ha.
  assert (0 ≤ vec_bytes vs).
  { clear -Hv. unfold vec_bytes. induction Hv; cbn; [lia|]. cbn in *. lia. }
  cbn in *. fold (vec_bytes vs) in Ha. rewrite IH by (done || lia). apply disk_write_out. lia.
Qed.

Section tasks.
Context {P : ModuleParams}.

Lemma bio_end_confined n k st s : confined (bio_end n k st) s.
Proof.
  intros R H. unfold bio_end, getc. wp_step. wp_step. unfold chunk_at.
  assert (Hskip : ∃ R', owns R' s ∧ keeps_to R R' s s) by (exists R; split; [done|apply grows_keeps_to, grows_refl]).
  destruct (chunk_map (area s) !! n) as [c|] eqn:Ec; cbn [from_option id chunk_io chunk_zero]; [|done].
  destruct (chunk_io c) as [io|] eqn:Eio; [|done]. destruct (chunk_buffer c) as [b|]; [|done].
  destruct (io_bios io !! k) as [bi|] eqn:Ek; [|done].
  pose proof (ow_io _ _ H n c io Ec Eio) as Hio. pose proof (proj1 (Forall_lookup _ _) Hio k bi Ek) as Hbi.
  apply wp_bind. unfold on_kern. rewrite wp_zoom.
  apply wp_mono with (P := λ _ w, ∀ bd addr, w_disk w bd addr = w_disk (kern s) bd addr ∨ R bd (addr / SECTOR_SIZE)).
  { unfold bio_run. destruct (bi_write bi) eqn:Ew; wp_steps; [|by left]. intros bd addr. cbn.
    destruct (Hbi Ew) as [Hv Hr].
    destruct (decide (bd = bi_bdev bi ∧ bi_sector bi * SECTOR_SIZE ≤ addr <
      bi_sector bi * SECTOR_SIZE + vec_bytes (bi_io_vec bi))) as [[-> Ha]|Ha]; [right; by apply Hr|left].
    apply vecs_write_out; [done|]. destruct (decide (bd = bi_bdev bi)); [right|by left]. lia. }
  intros pages w Hd. set (s1 := {| s with kern := w |}).
  assert (H1 : owns R s1) by (by apply (owns_same R s)). destruct io as [wr sy bs pg er nt pl]; cbn in *.
  match goal with |- wp (modc n ?f) _ _ => destruct (owns_modc R s1 n f) as [H2 G2]; [| |exact H1|] end.
  - intros c' r Hc' E. by apply (ow_region _ _ H n c').
  - intros c' io' _ [= <-]. unfold diff_io_endio. by apply Forall_delete.
  - exists R. split; [exact H2|]. destruct (grows_keeps_to _ _ _ _ G2) as [? ? ? ? ? ? _]. split; auto.
    intros bd addr. destruct (Hd bd addr); auto.
Qed.

Lemma writer_turn_confined w s :
  (wr_phase w = PWrite → ∀ addr,
     wr_sector w * SECTOR_SIZE ≤ addr < (wr_sector w + wr_count w) * SECTOR_SIZE → ¬ excluded s addr) →
  confined (writer_turn w) s.
Proof.
  intros Hex. destruct (wr_phase w) as [off|off|] eqn:Hph;
    [apply tame_confined; unfold writer_turn; rewrite Hph; cbv zeta; tame..|].
  intros R H. unfold writer_turn. rewrite Hph. wp_step. apply wp_area. cbv zeta. unfold on_kern. wp_steps.
  exists R. split; [by apply (owns_same R s)|]. split; auto; try done. intros bd addr. cbn.
  destruct (decide (bd = orig_bdev (area s) ∧ wr_sector w * SECTOR_SIZE ≤ addr <
    wr_sector w * SECTOR_SIZE + wr_count w * SECTOR_SIZE)) as [[-> Ha]|Ha].
  - right. right. split; [done|]. apply Hex; [done|lia].
  - left. apply disk_write_out. destruct (decide (bd = orig_bdev (area s))); [right|by left]. lia.
Qed.
End tasks.
