(* ===== verification/StorageUse.v ===== *)
(** * What the tasks of an area do to the difference storage

    Whatever a task of Cow.v does, the storage it works on changes in two ways only: a region
    is taken from it with [diff_storage_new_region], or the event of a corrupted area is put
    into its queue. *)
From S2P Require Import Prelude MemoryChecker Kernel Uapi EventQueue DiffBuffer DiffIo DiffStorage.
From S2P Require Import Effects Chunk DiffArea ChunkSpecs CowInv Cow.

Section params.
Context {P : ModuleParams}.

(** From [d] to [d'], with the regions [new] taken, the last one first. *)
Inductive store_uses : diff_storage → list diff_region → diff_storage → Prop :=
  | uses_none d : store_uses d [] d
  | uses_region d new d1 count w r d' w' :
      store_uses d new d1 → 0 < count < 2 ^ 64 → diff_storage_new_region count (d1, w) = (r, (d', w')) →
      store_uses d (match r with Ok r => r :: new | Err _ => new end) d'
  | uses_corrupted d new d1 dev err w r d' w' :
      store_uses d new d1 →
      storage_event_gen blk_snap_event_code_corrupted (corrupted dev err) (d1, w) = (r, (d', w')) →
      store_uses d new d'.

Lemma store_uses_trans d1 n1 d2 n2 d3 :
  store_uses d1 n1 d2 → store_uses d2 n2 d3 → store_uses d1 (n2 ++ n1) d3.
Proof.
  intros H1 H2. revert H1. induction H2 as [d|d new d1' count w r d' w' _ IH Hc E|d new d1' dev err w r d' w' _ IH E]; intros H1.
  - done.
  - pose proof (uses_region _ _ _ _ _ _ _ _ (IH H1) Hc E) as H. by destruct r.
  - by eapply uses_corrupted; [apply IH|].
Qed.

(** An operation that does no more than that to the storage of its area, and that
    does not change the size of the area's chunks. *)
Definition spends {A} (m : AM A) : Prop :=
  ∀ s, 9 ≤ chunk_shift (area s) ≤ 27 →
    chunk_shift (area (m s).2) = chunk_shift (area s) ∧ ∃ new, store_uses (storage s) new (storage (m s).2).

Lemma spends_same {A} (m : AM A) :
  (∀ s, chunk_shift (area (m s).2) = chunk_shift (area s) ∧ storage (m s).2 = storage s) → spends m.
Proof. intros H s _. destruct (H s) as [E1 E2]. split; [done|]. exists []. rewrite E2. constructor. Qed.

Lemma spends_ret {A} (a : A) : spends (mret a).
Proof. by apply spends_same. Qed.
Lemma spends_gets {A} (f : sys → A) : spends (gets f).
Proof. by apply spends_same. Qed.
Lemma spends_skip : spends skip.
Proof. by apply spends_same. Qed.
Lemma spends_bind {A B} (m : AM A) (f : A → AM B) : spends m → (∀ a, spends (f a)) → spends (m ≫= f).
Proof.
  intros Hm Hf s Hs. unfold mbind, M_mbind. destruct (Hm s Hs) as [E1 [n1 U1]].
  destruct (Hf (m s).1 (m s).2) as [E2 [n2 U2]]; [by rewrite E1|]. split; [congruence|].
  exists (n2 ++ n1). by eapply store_uses_trans.
Qed.
Lemma spends_when b m : spends m → spends (when b m).
Proof. destruct b; [done|]. intros _. apply spends_skip. Qed.
Lemma spends_kern {A} (m : K A) : spends (on_kern m).
Proof. by apply spends_same. Qed.
Lemma spends_area f : (∀ a, chunk_shift (f a) = chunk_shift a) → spends (on_area f).
Proof. intros Hf. apply spends_same. intros s. split; [apply Hf|done]. Qed.
Lemma spends_modc n f : spends (modc n f).
Proof. by apply spends_same. Qed.
Lemma spends_null : spends null_dereference.
Proof. by apply spends_same. Qed.
Lemma spends_hung : spends (modify (λ s, {| s with hung := true |})).
Proof. by apply spends_same. Qed.

Create HintDb spends discriminated.
#[local] Hint Resolve spends_null spends_hung spends_kern spends_modc : spends.
Ltac spends := repeat first
  [ progress intros
  | solve [auto 2 with spends nocore]
  | simple apply spends_bind | simple apply spends_ret | simple apply spends_gets
  | simple apply spends_skip | simple apply spends_when
  | simple apply spends_area; solve [intros; repeat case_match; done]
  | match goal with |- spends (match ?x with _ => _ end) => destruct x end ].

(** The two operations on the storage. *)
Lemma spends_event dev err :
  spends (on_store (storage_event_gen blk_snap_event_code_corrupted (corrupted dev err))).
Proof.
  intros s Hs. split; [done|]. exists [].
  destruct (storage_event_gen blk_snap_event_code_corrupted (corrupted dev err) (storage s, kern s)) as [r [d w]] eqn:E.
  unfold on_store, zoom. cbn [snd storage]. rewrite E. eapply uses_corrupted; [constructor|exact E].
Qed.
Lemma spends_region count : 0 < count < 2 ^ 64 → spends (on_store (diff_storage_new_region count)).
Proof.
  intros Hc s Hs. split; [done|].
  destruct (diff_storage_new_region count (storage s, kern s)) as [r [d w]] eqn:E.
  unfold on_store, zoom. cbn [snd storage]. rewrite E. eexists. eapply uses_region; [constructor|exact Hc|exact E].
Qed.
#[local] Hint Resolve spends_event : spends.

Lemma spends_getc n : spends (getc n).
Proof. apply spends_gets. Qed.
#[local] Hint Resolve spends_getc : spends.
Lemma spends_up n : spends (up n).
Proof. unfold up. spends. Qed.
Lemma spends_trylock n : spends (down_trylock n).
Proof. unfold down_trylock. spends. Qed.
Lemma spends_killable n : spends (down_killable n).
Proof. unfold down_killable. spends. Qed.
Lemma spends_corrupted e : spends (diff_area_set_corrupted e).
Proof. unfold diff_area_set_corrupted, diff_area_event_corrupted. spends. Qed.
#[local] Hint Resolve spends_up spends_trylock spends_killable spends_corrupted : spends.
Lemma spends_buffer_release n : spends (chunk_diff_buffer_release n).
Proof. unfold chunk_diff_buffer_release. spends. Qed.
#[local] Hint Resolve spends_buffer_release : spends.
Lemma spends_store_failed n e : spends (chunk_store_failed n e).
Proof. unfold chunk_store_failed. spends. Qed.
Lemma spends_async_store n nw : spends (chunk_async_store_diff n nw).
Proof. unfold chunk_async_store_diff. spends. Qed.
Lemma spends_async_load n nw : spends (chunk_async_load_orig n nw).
Proof. unfold chunk_async_load_orig. spends. Qed.
#[local] Hint Resolve spends_store_failed spends_async_store spends_async_load : spends.

Lemma spends_read_area {A} (f : diff_area → AM A) :
  (∀ a, 9 ≤ chunk_shift a ≤ 27 → spends (f a)) → spends (gets area ≫= f).
Proof. intros H s Hs. exact (H (area s) Hs s Hs). Qed.

(** The one place where regions are taken: as many sectors as a chunk has. *)
Lemma spends_schedule_storing n nw : spends (chunk_schedule_storing n nw).
Proof.
  unfold chunk_schedule_storing. apply spends_read_area. intros a Ha.
  destruct (chunk_sectors_pow2 a Ha) as [_ Hc]. destruct (in_cache a n); [spends|].
  apply spends_bind; [spends|]. intros c. destruct (chunk_region c); [spends|].
  apply spends_bind; [apply spends_region; lia|]. spends.
Qed.
Lemma spends_schedule_caching n : spends (chunk_schedule_caching n).
Proof. unfold chunk_schedule_caching. spends. Qed.
Lemma spends_take_io_error n : spends (take_io_error n).
Proof. unfold take_io_error. spends. Qed.
#[local] Hint Resolve spends_schedule_storing spends_schedule_caching spends_take_io_error : spends.
Lemma spends_notify_load n : spends (chunk_notify_load n).
Proof. unfold chunk_notify_load, pending_io_dec. spends. Qed.
Lemma spends_notify_store n : spends (chunk_notify_store n).
Proof. unfold chunk_notify_store, pending_io_dec. spends. Qed.
Lemma spends_take_cached n : spends (diff_area_take_chunk_from_cache n).
Proof. unfold diff_area_take_chunk_from_cache. spends. Qed.
#[local] Hint Resolve spends_notify_load spends_notify_store spends_take_cached : spends.
Lemma spends_notify_cb n : spends (diff_io_notify_cb n).
Proof. unfold diff_io_notify_cb. spends. Qed.
Lemma spends_copy_locked n nw : spends (copy_locked n nw).
Proof. unfold copy_locked, copy_fail. spends. Qed.
Lemma spends_wait_locked n : spends (wait_locked n).
Proof. unfold wait_locked. spends. Qed.
#[local] Hint Resolve spends_copy_locked spends_wait_locked : spends.
Lemma spends_copy_turn offset nw : spends (copy_turn offset nw).
Proof. unfold copy_turn, lock_turn. spends. Qed.
Lemma spends_wait_turn offset nw : spends (wait_turn offset nw).
Proof. unfold wait_turn, lock_turn. spends. Qed.
Lemma spends_trylock_first l : spends (trylock_first l).
Proof. induction l; cbn [trylock_first]; spends. Qed.
#[local] Hint Resolve spends_trylock_first : spends.
Lemma spends_cache_release : spends cache_release_turn.
Proof.
  unfold cache_release_turn, diff_area_get_chunk_from_cache_and_write_lock.
  unfold get_chunk_from_cache_and_write_lock. spends.
Qed.
Lemma spends_load_sync n r : spends (chunk_load_sync n r).
Proof. unfold chunk_load_sync. spends. Qed.
#[local] Hint Resolve spends_load_sync : spends.
Lemma spends_put_chunk n wr : spends (diff_area_image_put_chunk n wr).
Proof. unfold diff_area_image_put_chunk. spends. Qed.
#[local] Hint Resolve spends_put_chunk : spends.
Lemma spends_get_chunk ctx sector : spends (diff_area_image_context_get_chunk ctx sector).
Proof.
  unfold diff_area_image_context_get_chunk, get_chunk_locked, diff_area_load_chunk_from_storage.
  unfold chunk_load_diff, chunk_load_orig. spends.
Qed.
#[local] Hint Resolve spends_get_chunk : spends.
Lemma spends_image_turn ctx v pos : spends (image_turn ctx v pos).
Proof. unfold image_turn. spends. Qed.
Lemma spends_ctx_done ctx : spends (diff_area_image_ctx_done ctx).
Proof. unfold diff_area_image_ctx_done. spends. Qed.
Lemma spends_submit_plugged owners : spends (submit_plugged owners).
Proof. induction owners as [|n owners IH]; cbn [submit_plugged]; spends. Qed.
Lemma spends_bio_list l : spends (set_bio_list l).
Proof. unfold set_bio_list. spends. Qed.
#[local] Hint Resolve spends_copy_turn spends_wait_turn spends_submit_plugged spends_bio_list : spends.
Lemma spends_bio_end n k st : spends (bio_end n k st).
Proof. unfold bio_end. spends. Qed.
Lemma spends_writer_turn w : spends (writer_turn w).
Proof. unfold writer_turn. spends. Qed.

(** ** The steps of the tasks *)

(** A turn of a writer in the filter, the completion of a bio and the callback of a request, a
    turn of the worker that empties the caches, a turn of the image's worker and its
    letting go of its chunk. *)
Inductive area_op : Type :=
  | OpWriter (w : writer)
  | OpBioEnd (n : Z) (k : nat) (status : Z)
  | OpNotify (n : Z)
  | OpCacheRelease
  | OpImageTurn (ctx : diff_area_image_ctx) (v : bvec) (pos : Z)
  | OpImageDone (ctx : diff_area_image_ctx).

Definition area_do (op : area_op) : AM unit :=
  match op with
  | OpWriter w => _ ← writer_turn w; skip
  | OpBioEnd n k status => bio_end n k status
  | OpNotify n => diff_io_notify_cb n
  | OpCacheRelease => _ ← cache_release_turn; skip
  | OpImageTurn ctx v pos => _ ← image_turn ctx v pos; skip
  | OpImageDone ctx => diff_area_image_ctx_done ctx
  end.

#[local] Hint Resolve spends_writer_turn spends_bio_end spends_notify_cb spends_cache_release spends_image_turn spends_ctx_done : spends.
Lemma area_do_spends op : spends (area_do op).
Proof. destruct op; cbn [area_do]; spends. Qed.
End params.
