(* ===== verification/AreaNew.v ===== *)
(** * A new difference area

    What [diff_area_new] builds: a chunk size that respects the limits, chunks
    that cover the device exactly, and a state from which the copy-on-write
    system of Cow.v can start; and what it leaves behind when it fails. *)
From S2P Require Import Prelude MemoryChecker Kernel Uapi EventQueue DiffBuffer DiffIo DiffStorage.
From S2P Require Import Chunk DiffArea ChunkSpecs CowInv Cow CowSteps CowImage CowSafety.

(** ** The chunk size *)

Lemma area_count_spec cap s :
  9 ≤ s ≤ 63 → 0 < cap ≤ 2 ^ 54 →
  0 < count_by_shift cap s ∧
  (count_by_shift cap s - 1) * 2 ^ (s - 9) < cap ≤ count_by_shift cap s * 2 ^ (s - 9).
Proof.
  intros Hs Hc. unfold count_by_shift, SECTOR_SHIFT.
  assert (0 < 2 ^ (s - 9)) by (apply pow2_pos; lia).
  assert (2 ^ (s - 9) ≤ 2 ^ 54) by (apply Z.pow_le_mono_r; lia).
  rewrite (u64_small (s - 9)), shiftl_1, round_up_pow2 by lia.
  rewrite Z.shiftr_div_pow2, Z.div_mul by lia.
  pose proof (Z.div_mod (cap + (2 ^ (s - 9) - 1)) (2 ^ (s - 9)) ltac:(lia)).
  pose proof (Z.mod_pos_bound (cap + (2 ^ (s - 9) - 1)) (2 ^ (s - 9)) ltac:(lia)). nia.
Qed.

Section params.
Context {P : ModuleParams}.

(** The conditions under which the loop of [diff_area_calculate_chunk_size] goes
    on at a shift. *)
Definition size_refused (cap min_io shift : Z) : bool :=
  (chunk_maximum_count <? count_by_shift cap shift) || (2 ^ (shift - 9) <? min_io).

Lemma chunk_size_loop_spec fuel cap min_io shift :
  9 ≤ shift → 54 - (shift - 9) ≤ Z.of_nat fuel → shift ≤ 63 →
  0 < cap ≤ 2 ^ 54 → min_io ≤ 2 ^ 54 → 0 < chunk_maximum_count < 2 ^ 31 →
  ∃ s, chunk_size_loop fuel cap min_io shift (count_by_shift cap shift) =
         Some (s, count_by_shift cap s) ∧
    shift ≤ s ≤ 63 ∧ size_refused cap min_io s = false ∧
    ∀ s', shift ≤ s' < s → size_refused cap min_io s' = true.
Proof.
  revert shift. induction fuel as [|fuel IH]; intros shift Hs Hf Hs' Hc Hm Hx; cbn [chunk_size_loop];
    unfold SECTOR_SHIFT; rewrite shiftl_1, u64_small by lia; fold (size_refused cap min_io shift);
    (destruct (size_refused cap min_io shift) eqn:E; [|exists shift; split_and!; try done; lia]).
  - exfalso. assert (shift = 63) as -> by lia. destruct (area_count_spec cap 63) as (? & ? & _); [lia..|].
    unfold size_refused in E. apply orb_true_iff in E as [E%Z.ltb_lt|E%Z.ltb_lt]; [nia|lia].
  - destruct (decide (shift = 63)) as [->|Hne].
    + exfalso. destruct (area_count_spec cap 63) as (? & ? & _); [lia..|].
      unfold size_refused in E. apply orb_true_iff in E as [E%Z.ltb_lt|E%Z.ltb_lt]; [nia|lia].
    + destruct (IH (shift + 1)) as (s & Hl & Hr & Hfin & Hmin); try lia. exists s.
      split_and!; try done; try lia. intros s' Hss. destruct (decide (s' = shift)) as [->|]; [done|].
      apply Hmin. lia.
Qed.

(** C22: the chunk size is always found and is the smallest that fits. For every
    device of up to 2^54 sectors the loop of [diff_area_calculate_chunk_size] ends;
    the chunks cover the device with none to spare, there are no more of them than
    [chunk_maximum_count], a chunk is no smaller than the device's minimal I/O
    size, and no smaller permitted shift has these properties. *)
Theorem diff_area_chunk_size_optimal cap io_min :
  0 < cap ≤ 2 ^ 54 → 0 ≤ io_min < 2 ^ 32 → 9 ≤ chunk_minimum_shift ≤ 63 →
  0 < chunk_maximum_count < 2 ^ 31 →
  ∃ shift count, diff_area_calculate_chunk_size cap io_min = Some (shift, count) ∧
    chunk_minimum_shift ≤ shift ≤ 63 ∧
    (count - 1) * 2 ^ (shift - 9) < cap ≤ count * 2 ^ (shift - 9) ∧
    0 < count ≤ chunk_maximum_count ∧ io_min / 512 ≤ 2 ^ (shift - 9) ∧
    ∀ s, chunk_minimum_shift ≤ s < shift → size_refused cap (io_min / 512) s = true.
Proof.
  intros Hc Hio Hs Hx. unfold diff_area_calculate_chunk_size. rewrite u64_small by lia.
  unfold SECTOR_SHIFT. rewrite Z.shiftr_div_pow2 by lia. change (2 ^ 9) with 512.
  assert (io_min / 512 ≤ 2 ^ 54) by (apply Z.div_le_upper_bound; lia).
  destruct (chunk_size_loop_spec 64 cap (io_min / 512) chunk_minimum_shift)
    as (s & -> & Hr & Hfin & Hmin); try lia.
  exists s, (count_by_shift cap s). destruct (area_count_spec cap s) as (? & ?); [lia..|].
  unfold size_refused in Hfin. bool_hyps. split_and!; try done; lia.
Qed.
End params.

(** ** The chunks of a new area *)

Definition new_chunk (count n : Z) : chunk :=
  {| number := n; chunk_sector_count := count; lock := false; state := 0; chunk_buffer := None;
     chunk_region := None; chunk_io := None |}.

(** From [s] to [s'] only the chunks from [n] to [n + k] were added, and counted. *)
Record chunks_added (n k : Z) (s s' : sys) : Prop := {
  ca_area : area s' = (let a := area s in {| a with chunk_map := chunk_map (area s') |});
  ca_chunks m : chunk_map (area s') !! m =
    if bool_decide (n ≤ m < n + k) then Some (new_chunk (sectors s) m) else chunk_map (area s) !! m;
  ca_size : Z.of_nat (size (chunk_map (area s'))) = Z.of_nat (size (chunk_map (area s))) + k;
  ca_storage : storage s' = storage s;
  ca_quiet : quiet (kern s) (kern s');
  ca_oops : oops s' = oops s ∧ hung s' = hung s;
  ca_mem t : mem_delta (kern s) (kern s') t (if bool_decide (t = memory_object_chunk) then k else 0);
}.

Lemma chunks_added_nil n s : chunks_added n 0 s s.
Proof.
  split; try done; [by destruct s as [[]]| |lia|].
  - intros m. rewrite bool_decide_eq_false_2 by lia. done.
  - intros t. unfold mem_delta. case_bool_decide; lia.
Qed.

Lemma chunks_added_trans n k s1 s2 s3 :
  0 ≤ k → chunks_added n 1 s1 s2 → chunks_added (n + 1) k s2 s3 → chunks_added n (k + 1) s1 s3.
Proof.
  intros Hk A B. destruct A as [A1 A2 A3 A4 A5 A6 A7], B as [B1 B2 B3 B4 B5 B6 B7].
  assert (Es : sectors s2 = sectors s1) by (by rewrite A1). split; try congruence; try lia.
  - by rewrite B1, A1.
  - intros m. rewrite B2, A2, Es. repeat case_bool_decide; done || lia.
  - by rewrite A5.
  - destruct A6, B6. split; congruence.
  - intros t. specialize (A7 t). specialize (B7 t). unfold mem_delta in *. case_bool_decide; lia.
Qed.

Lemma alloc_chunks_spec count n s :
  (∀ m, n ≤ m → chunk_map (area s) !! m = None) →
  wp (alloc_chunks count n) s (λ ret s',
    ∃ k, 0 ≤ k ≤ Z.of_nat count ∧ chunks_added n k s s' ∧ (ret = 0 ∧ k = Z.of_nat count ∨ ret < 0)).
Proof.
  revert n s. induction count as [|count IH]; intros n s Hn; cbn [alloc_chunks].
  { wp_steps. exists 0. split; [lia|]. split; [apply chunks_added_nil|by left]. }
  wp_step. unfold on_kern at 1. rewrite wp_zoom. unfold chunk_alloc. wp_step. apply wp_alloc.
  intros ok vs. destruct ok; cbn [negb]; wp_steps.
  2:{ exists 0. split; [lia|]. split; [|right; unfold ENOMEM; lia].
      by destruct (chunks_added_nil n s). }
  unfold on_kern at 1. rewrite wp_zoom. apply wp_oracle. intros v vs'. cbn [kern area].
  wp_if Ev; bool_hyps.
  - wp_step. unfold on_kern. wp_steps. exists 0. split; [lia|]. split; [|right; lia].
    destruct (chunks_added_nil n s). split; try done. intros t. unfold mem_delta. cbn.
    unfold upd. repeat case_decide; case_bool_decide; subst; try done; lia.
  - wp_step. unfold on_area at 1. wp_steps. cbn [area].
    match goal with |- wp _ ?x _ => set (s1 := x) end.
    assert (A : chunks_added n 1 s s1).
    { split; try done.
      - intros m. cbn. destruct (decide (m = n)) as [->|Hne].
        + rewrite lookup_insert_eq, bool_decide_eq_true_2 by lia. done.
        + rewrite lookup_insert_ne, bool_decide_eq_false_2 by lia. done.
      - cbn. rewrite map_size_insert_None by (by apply Hn). lia.
      - intros t. unfold mem_delta. cbn. unfold upd. case_decide; case_bool_decide; subst; try done; lia. }
    eapply wp_mono; [apply IH|].
    + intros m Hm. cbn. rewrite lookup_insert_ne by lia. apply Hn. lia.
    + intros ret s2 (k & Hk & B & Hr). exists (k + 1). split; [lia|].
      split; [by eapply chunks_added_trans; [lia|..]|]. destruct Hr as [[-> ->]|?]; [left; lia|by right].
Qed.

(** ** Giving the chunks back *)

(** From [s] to [s'] the chunks [ns] were freed. *)
Record chunks_freed (ns : list Z) (s s' : sys) : Prop := {
  cr_area : area s' = (let a := area s in {| a with chunk_map := chunk_map (area s') |});
  cr_chunks m : m ∉ ns → chunk_map (area s') !! m = chunk_map (area s) !! m;
  cr_storage : storage s' = storage s;
  cr_quiet : quiet (kern s) (kern s');
  cr_oops : oops s' = oops s ∧ hung s' = hung s;
  cr_mem t : mem_delta (kern s) (kern s') t (if bool_decide (t = memory_object_chunk) then - lenZ ns else 0);
}.

Section free.
Context {P : ModuleParams}.

(** Only chunk [n] has changed. *)
Record only_chunk (n : Z) (s s' : sys) : Prop := {
  oc_area : area s' = (let a := area s in {| a with chunk_map := chunk_map (area s') |});
  oc_chunks m : m ≠ n → chunk_map (area s') !! m = chunk_map (area s) !! m;
  oc_storage : storage s' = storage s;
  oc_kern : kern s' = kern s;
  oc_oops : oops s' = oops s ∧ hung s' = hung s;
}.

Lemma only_chunk_trans n s1 s2 s3 : only_chunk n s1 s2 → only_chunk n s2 s3 → only_chunk n s1 s3.
Proof.
  intros [A1 A2 A3 A4 [A5 A6]] [B1 B2 B3 B4 [B5 B6]]. split; try congruence.
  - by rewrite B1, A1.
  - intros m Hm. by rewrite B2, A2.
  - split; congruence.
Qed.

Lemma wp_modc_only n f c s0 s Q :
  only_chunk n s0 s → at_chunk n c s →
  (∀ s', only_chunk n s0 s' → at_chunk n (f c) s' → Q tt s') → wp (modc n f) s Q.
Proof.
  intros Ho Hc HQ. unfold modc, on_area. wp_steps. apply HQ.
  - eapply only_chunk_trans; [exact Ho|]. split; try done. intros m Hm. cbn. by rewrite lookup_alter_ne.
  - unfold at_chunk in *. cbn. by rewrite lookup_alter_eq, Hc.
Qed.

Lemma chunk_free_spec n k s :
  at_chunk n (new_chunk k n) s → wp (chunk_free n) s (λ _ s', chunks_freed [n] s s').
Proof.
  intros Hc. unfold chunk_free, down. wp_step. wp_step. apply (wp_getc _ _ _ _ Hc). cbn [lock new_chunk].
  apply (wp_modc_only n _ (new_chunk k n) s); [by split; destruct s as [[]]|done|]. intros s1 O1 H1.
  unfold chunk_diff_buffer_release. wp_step. wp_step. apply (wp_getc _ _ _ _ H1).
  cbn [chunk_buffer new_chunk]. wp_steps. apply (wp_getc _ _ _ _ H1).
  cbn [chunk_region new_chunk diff_storage_free_region]. wp_step. unfold on_kern at 1. rewrite wp_zoom. wp_steps.
  replace {| s1 with kern := kern s1 |} with s1 by (by destruct s1).
  apply (wp_modc_only _ _ _ _ _ _ O1 H1). intros s2 O2 H2. wp_step. unfold up.
  apply (wp_modc_only _ _ _ _ _ _ O2 H2). intros s3 [A1 A2 A3 A4 A5] _. unfold on_area, on_kern. wp_steps.
  split; cbn; try done.
  - by rewrite A1.
  - intros m Hm. rewrite list_elem_of_singleton in Hm. rewrite lookup_delete_ne by done. by apply A2.
  - intros t. unfold mem_delta. cbn. rewrite A4. unfold upd. case_decide; case_bool_decide; subst; done || lia.
Qed.

Lemma free_chunks_spec ns s :
  NoDup ns → (∀ n, n ∈ ns → ∃ k, at_chunk n (new_chunk k n) s) →
  wp (free_chunks ns) s (λ _ s', chunks_freed ns s s').
Proof.
  revert s. induction ns as [|n ns IH]; intros s Hd Hn; cbn [free_chunks]; wp_steps.
  { split; try done; [by destruct s as [[]]|]. intros t. unfold mem_delta, lenZ. case_bool_decide; cbn; lia. }
  apply NoDup_cons in Hd as [Hni Hd]. destruct (Hn n) as [k Hk]; [apply elem_of_cons; auto|].
  eapply wp_mono; [by eapply chunk_free_spec|]. intros [] s1 [A1 A2 A3 A4 A5 A6].
  eapply wp_mono; [apply IH; [done|]|].
  - intros m Hm. destruct (Hn m) as [km Hkm]; [apply elem_of_cons; auto|]. exists km.
    unfold at_chunk. rewrite A2; [done|]. rewrite list_elem_of_singleton. by intros ->.
  - intros [] s2 [B1 B2 B3 B4 B5 B6]. split; try congruence.
    + by rewrite B1, A1.
    + intros m Hm. rewrite not_elem_of_cons in Hm. destruct Hm. rewrite B2 by done.
      apply A2. by rewrite list_elem_of_singleton.
    + by rewrite A4.
    + destruct A5, B5. split; congruence.
    + intros t. specialize (A6 t). specialize (B6 t). unfold mem_delta, lenZ in *. cbn in *.
      case_bool_decide; lia.
Qed.

(** The last reference to an area without buffers. *)
Lemma diff_area_put_spec s :
  area_kref (area s) = 1 → free_diff_buffers (pool (area s)) = [] →
  (∀ n c, at_chunk n c s → ∃ k, c = new_chunk k n) →
  wp diff_area_put s (λ _ s',
    storage s' = storage s ∧ w_disk (kern s') = w_disk (kern s) ∧
    (∀ x, w_open (kern s') x = w_open (kern s) x - (if bool_decide (x = orig_bdev (area s)) then 1 else 0)) ∧
    ∀ t, mem_delta (kern s) (kern s') t
      (if bool_decide (t = memory_object_chunk) then - Z.of_nat (size (chunk_map (area s)))
       else if bool_decide (t = memory_object_diff_area) then -1 else 0)).
Proof.
  intros Hk Hp Hn. unfold diff_area_put, on_area. wp_steps. cbn [area area_kref]. rewrite Hk.
  change (1 - 1 =? 0) with true. cbn [when]. unfold diff_area_free. wp_step. apply wp_area. wp_step.
  match goal with |- wp _ ?x _ => set (s1 := x) end.
  eapply wp_mono; [apply free_chunks_spec|].
  - apply NoDup_fst_map_to_list.
  - intros n Hin. apply list_elem_of_fmap in Hin as ([m c] & -> & Hin). apply elem_of_map_to_list in Hin.
    destruct (Hn m c Hin) as [k ->]. exists k. exact Hin.
  - intros [] s2 [B1 B2 B3 B4 B5 B6]. 
    assert (Hp2 : free_diff_buffers (pool (area s2)) = []) by (by rewrite B1).
    unfold on_kern, on_area. wp_steps. unfold diff_buffer_cleanup. cbn [area]. rewrite Hp2.
    cbn [cleanup_loop]. wp_steps. cbn. split_and!; try done; [by destruct B4| |].
    + intros x. destruct B4 as [_ Ho _ _]. unfold upd. rewrite Ho. cbn.
      case_decide; case_bool_decide; subst; done || lia.
    + intros t. specialize (B6 t). unfold mem_delta, chunk_numbers, lenZ in *.
      rewrite length_fmap, length_map_to_list in B6. cbn in *. unfold upd.
      repeat case_decide; repeat case_bool_decide; subst; try done; lia.
Qed.
End free.

(** ** The result of [diff_area_new] *)

(** The chunks cover exactly [nr] sectors. *)
Record area_covers (nr : Z) (a : diff_area) : Prop := {
  av_in x : 0 ≤ x < nr → ∃ c, chunk_map a !! (x / diff_area_chunk_sectors a) = Some c ∧
    x < x / diff_area_chunk_sectors a * diff_area_chunk_sectors a + chunk_sector_count c;
  av_out n c : chunk_map a !! n = Some c →
    0 ≤ n < chunk_count a ∧ 0 < chunk_sector_count c ∧
    n * diff_area_chunk_sectors a + chunk_sector_count c ≤ nr;
}.

(** What the module has allocated and opened is as before. *)
Definition nothing_held (w w' : world) : Prop :=
  (∀ t, mem_delta w w' t 0) ∧ ∀ x, w_open w' x = w_open w x.

(** The chunk map after the last chunk was cut to the end of the device. *)
Lemma built_area nr shift count a :
  9 ≤ shift ≤ 63 → 0 < nr ≤ 2 ^ 53 → 0 < count →
  (count - 1) * 2 ^ (shift - 9) < nr ≤ count * 2 ^ (shift - 9) → count * 2 ^ (shift - 9) ≤ 2 ^ 54 →
  chunk_shift a = shift → chunk_count a = count →
  read_cache_queue a = [] → write_cache_queue a = [] →
  (∀ m, chunk_map a !! m =
     if bool_decide (0 ≤ m < count)
     then Some ((if bool_decide (m = count - 1) then recalculate_last_chunk_size nr else id)
                  (new_chunk (2 ^ (shift - 9)) m))
     else None) →
  area_fresh a ∧ area_covers nr a.
Proof.
  intros Hs Hnr Hc Hb H54 Esh Ecn Hrd Hwr Hm. pose proof (pow2_pos (shift - 9) ltac:(lia)) as Hp.
  assert (Ecs : diff_area_chunk_sectors a = 2 ^ (shift - 9)).
  { unfold diff_area_chunk_sectors, SECTOR_SHIFT. rewrite Esh, shiftl_1, u64_small by nia. done. }
  set (cs := 2 ^ (shift - 9)) in *.
  assert (Hlast : ∀ m, chunk_sector_count (recalculate_last_chunk_size nr (new_chunk cs m)) =
                       nr - (count - 1) * cs).
  { intros m. unfold recalculate_last_chunk_size. cbn [chunk_sector_count new_chunk].
    assert (Er : round_down nr cs = nr / cs * cs) by (apply round_down_pow2; lia). rewrite Er.
    pose proof (Z.div_mod nr cs ltac:(lia)). pose proof (Z.mod_pos_bound nr cs ltac:(lia)).
    destruct (Z.ltb_spec (nr / cs * cs) nr); cbn [chunk_sector_count new_chunk].
    - assert (nr / cs = count - 1) as -> by nia. lia.
    - assert (nr / cs = count) by nia. nia. }
  assert (Hget : ∀ m c, chunk_map a !! m = Some c → 0 ≤ m < count ∧
    number c = m ∧ state c = 0 ∧ lock c = false ∧ chunk_buffer c = None ∧ chunk_region c = None ∧
    chunk_io c = None ∧ chunk_sector_count c = Z.min cs (nr - m * cs)).
  { intros m c. rewrite Hm. case_bool_decide as H1; [|done]. intros [= <-].
    case_bool_decide as H2.
    - rewrite Hlast. unfold recalculate_last_chunk_size. subst m. destruct (_ <? _); cbn; split_and!; done || nia.
    - cbn. split_and!; done || nia. }
  split; split; rewrite ?Ecs; try done.
  - intros n c (? & ? & ? & ? & ? & ? & ? & ?)%Hget. split; rewrite ?Ecs; try done; nia.
  - intros x Hx. pose proof (Z.div_mod x cs ltac:(lia)). pose proof (Z.mod_pos_bound x cs ltac:(lia)).
    assert (0 ≤ x / cs < count) by (split; [apply Z.div_pos; lia|apply Z.div_lt_upper_bound; nia]).
    destruct (chunk_map a !! (x / cs)) as [c|] eqn:Ec.
    + exists c. split; [done|]. destruct (Hget _ _ Ec) as (_ & _ & _ & _ & _ & _ & _ & ->). nia.
    + exfalso. rewrite Hm, bool_decide_eq_true_2 in Ec by lia. done.
  - intros n c (? & ? & ? & ? & ? & ? & ? & ->)%Hget. rewrite Ecn. nia.
Qed.

Section new.
Context {P : ModuleParams}.

(** Limits under which the theorems hold: a device of at most 2^53 sectors and
    sensible module parameters. *)
Record new_limits (nr io_min : Z) : Prop := {
  nl_nr : 0 < nr ≤ 2 ^ 53;
  nl_io : 0 ≤ io_min < 2 ^ 32;
  nl_shift : 9 ≤ chunk_minimum_shift ≤ 45;
  nl_count : 0 < chunk_maximum_count < 2 ^ 31;
}.

(** The chunks of the size that was computed fit the address space. *)
Lemma chunk_size_found nr io_min :
  new_limits nr io_min →
  ∃ shift count, diff_area_calculate_chunk_size nr io_min = Some (shift, count) ∧
    9 ≤ shift ≤ 63 ∧ 0 < count ∧
    (count - 1) * 2 ^ (shift - 9) < nr ≤ count * 2 ^ (shift - 9) ∧ count * 2 ^ (shift - 9) ≤ 2 ^ 54.
Proof.
  intros [Hnr Hio Hs Hx]. unfold diff_area_calculate_chunk_size. rewrite u64_small by lia.
  unfold SECTOR_SHIFT. rewrite Z.shiftr_div_pow2 by lia. change (2 ^ 9) with 512.
  assert (io_min / 512 ≤ 2 ^ 23) by (apply Z.div_le_upper_bound; lia).
  destruct (chunk_size_loop_spec 64 nr (io_min / 512) chunk_minimum_shift)
    as (s & -> & Hr & Hfin & Hmin); try lia.
  exists s, (count_by_shift nr s). destruct (area_count_spec nr s) as (H1 & H2 & H3); [lia..|].
  split_and!; try done; try lia.
  assert (H36 : 2 ^ (s - 9) ≤ 2 ^ 53); [|nia].
  destruct (Z.le_gt_cases (s - 9) 53); [apply Z.pow_le_mono_r; lia|].
  assert (s = 63) as -> by lia. specialize (Hmin 62 ltac:(lia)). unfold size_refused in Hmin.
  destruct (area_count_spec nr 62) as (? & ? & _); [lia..|].
  apply orb_true_iff in Hmin as [E%Z.ltb_lt|E%Z.ltb_lt]; [nia|]. change (62 - 9) with 53 in *. lia.
Qed.

(** The part of [diff_area_new] after the checks. *)
Lemma build_area_spec nr shift count bdev d w :
  9 ≤ shift ≤ 63 → 0 < nr ≤ 2 ^ 53 → 0 < count →
  (count - 1) * 2 ^ (shift - 9) < nr ≤ count * 2 ^ (shift - 9) → count * 2 ^ (shift - 9) ≤ 2 ^ 54 →
  wp (ret ← alloc_chunks (Z.to_nat count) 0;
      if negb (ret =? 0) then diff_area_put;; mret (Err ret)
      else modc (count - 1) (recalculate_last_chunk_size nr);; a ← gets area; mret (Ok a))
     {| area := diff_area_zero bdev shift count; storage := d; kern := w; oops := false; hung := false |}
     (λ r s', storage s' = d ∧ w_disk (kern s') = w_disk w ∧
       match r with
       | Err e => e < 0 ∧
           (∀ t, mem_delta w (kern s') t (if bool_decide (t = memory_object_diff_area) then -1 else 0)) ∧
           ∀ x, w_open (kern s') x = w_open w x - (if bool_decide (x = bdev) then 1 else 0)
       | Ok a => area_fresh a ∧ area_covers nr a ∧ orig_bdev a = bdev ∧ corrupt_flag a = false ∧
           pool a = {| free_diff_buffers := []; free_diff_buffers_count := 0 |} ∧
           chunk_shift a = shift
       end).
Proof.
  intros Hs Hnr Hc Hb H54. wp_step. eapply wp_mono; [apply alloc_chunks_spec|].
  { intros m _. apply lookup_empty. }
  intros ret s1 (k & Hk & [A1 A2 A3 A4 A5 A6 A7] & Hret). cbn [area storage kern chunk_map diff_area_zero] in *.
  assert (Ecs : diff_area_chunk_sectors (diff_area_zero bdev shift count) = 2 ^ (shift - 9)).
  { unfold diff_area_chunk_sectors, SECTOR_SHIFT. cbn. pose proof (pow2_pos (shift - 9) ltac:(lia)).
    rewrite shiftl_1, u64_small by nia. done. }
  rewrite map_size_empty in A3. destruct A5 as [D1 O1 _ _]. wp_if E; bool_hyps.
  - destruct Hret as [[? _]|Hneg]; [done|]. wp_step. eapply wp_mono; [apply diff_area_put_spec|].
    + by rewrite A1.
    + by rewrite A1.
    + intros n c Hn. unfold at_chunk in Hn. rewrite A2 in Hn. case_bool_decide; [|done].
      injection Hn as <-. eauto.
    + intros [] s2 (B1 & B2 & B3 & B4). wp_steps. split; [congruence|]. split; [congruence|].
      split; [done|]. split.
      * intros t. specialize (A7 t). specialize (B4 t). unfold mem_delta in *.
        repeat case_bool_decide; subst; try done; lia.
      * intros x. rewrite B3, O1. by rewrite A1.
  - destruct Hret as [[_ ->]|?]; [|lia]. unfold modc, on_area. wp_steps. cbn [storage kern area].
    split; [done|]. split; [done|]. rewrite Z2Nat.id in A2 by lia.
    destruct (built_area nr shift count (let a := area s1 in {| a with chunk_map :=
      alter (recalculate_last_chunk_size nr) (count - 1) (chunk_map a) |})) as [Hf Hcov];
      try done; try (by rewrite A1); [|split_and!; try done; by rewrite A1].
    intros m. cbn. rewrite Ecs in A2. destruct (decide (m = count - 1)) as [->|Hne].
    + rewrite lookup_alter_eq, A2, !bool_decide_eq_true_2 by lia. done.
    + rewrite lookup_alter_ne, A2, (bool_decide_eq_false_2 (m = _)) by done.
      rewrite Z.add_0_l. by case_bool_decide.
Qed.

(** A device of at most 128 MiB per permitted chunk gets chunks of at most 128
    MiB. *)
Lemma chunk_size_small nr io_min shift count :
  new_limits nr io_min → chunk_minimum_shift ≤ 27 → nr ≤ chunk_maximum_count * 2 ^ 18 →
  io_min ≤ 2 ^ 27 → diff_area_calculate_chunk_size nr io_min = Some (shift, count) → shift ≤ 27.
Proof.
  intros [Hnr Hio Hs Hx] Hm Hc Hi. unfold diff_area_calculate_chunk_size. rewrite u64_small by lia.
  unfold SECTOR_SHIFT. rewrite Z.shiftr_div_pow2 by lia. change (2 ^ 9) with 512.
  assert (io_min / 512 ≤ 2 ^ 18) by (apply Z.div_le_upper_bound; lia).
  destruct (chunk_size_loop_spec 64 nr (io_min / 512) chunk_minimum_shift)
    as (s & -> & Hr & _ & Hmin); try lia. intros [= -> _].
  destruct (Z.le_gt_cases shift 27); [done|exfalso]. specialize (Hmin 27 ltac:(lia)).
  unfold size_refused in Hmin. destruct (area_count_spec nr 27) as (? & ? & _); [lia..|].
  change (27 - 9) with 18 in *. apply orb_true_iff in Hmin as [E%Z.ltb_lt|E%Z.ltb_lt]; nia.
Qed.

(** What a successful or failed [diff_area_new] leaves. *)
Definition new_post (dev nr io_min : Z) (d : diff_storage) (w : world)
    (r : option (result diff_area)) (p : diff_storage * world) : Prop :=
  p.1 = d ∧ w_disk p.2 = w_disk w ∧
  match r with
  | None => False
  | Some (Err e) => e < 0 ∧ (capacity d ≠ 0 → nothing_held w p.2)
  | Some (Ok a) => area_fresh a ∧ area_covers nr a ∧ orig_bdev a = dev ∧ corrupt_flag a = false ∧
      pool a = {| free_diff_buffers := []; free_diff_buffers_count := 0 |} ∧
      ∃ count, diff_area_calculate_chunk_size nr io_min = Some (chunk_shift a, count)
  end.

Lemma diff_area_new_spec dev nr io_min d w :
  new_limits nr io_min → wp (diff_area_new dev nr io_min) (d, w) (new_post dev nr io_min d w).
Proof.
  intros Hl. destruct (chunk_size_found nr io_min Hl) as (shift & count & Hcs & Hs & Hc & Hb & H54).
  unfold diff_area_new. wp_step. unfold on_world at 1. rewrite wp_zoom. apply wp_blkdev_get_by_dev.
  { intros e vs He. wp_steps. split_and!; try done. intros _. split; [|done].
    intros t. unfold mem_delta. cbn. lia. }
  intros vs. wp_step. unfold on_world at 1. rewrite wp_zoom. apply wp_alloc. intros ok vs'.
  assert (Hput : ∀ x, upd (upd (w_open w) dev (w_open w dev + 1)) dev
    (upd (w_open w) dev (w_open w dev + 1) dev - 1) x = w_open w x).
  { intros x. unfold upd. repeat case_decide; subst; done || lia. }
  destruct ok; cbn [negb].
  2:{ wp_step. unfold on_world. wp_steps. split_and!; try done. intros _. split; [|exact Hput].
      intros t. unfold mem_delta. cbn. lia. }
  wp_step. unfold on_world at 1. wp_steps. rewrite Hcs. wp_step. wp_steps. cbn [fst snd]. wp_if E; bool_hyps.
  { wp_steps. split_and!; try done. }
  wp_steps. cbn [fst snd]. match goal with |- context [alloc_chunks _ _ ≫= ?f] =>
    match goal with |- context [(alloc_chunks ?n 0 ≫= f) ?x] =>
      pose proof (build_area_spec nr shift count dev d (kern x) Hs (nl_nr _ _ Hl) Hc Hb H54) as H;
      unfold wp in H; cbn [kern] in H; destruct ((alloc_chunks n 0 ≫= f) x) as [r s']
    end end.
  destruct H as (H1 & H2 & H3). cbn in H2, H3. unfold new_post. cbn [fst snd].
  cbn [fst snd] in *. split; [exact H1|]. split; [exact H2|]. destruct r as [a|e].
  - destruct H3 as (Hf & Hcov & Hbd & Hx & Hp & Hsh). split_and!; try done. exists count. by rewrite Hsh.
  - destruct H3 as (He & Hmem & Hop). split; [done|]. intros _. split.
    + intros t. specialize (Hmem t). unfold mem_delta in *. cbn in Hmem. rewrite Hmem. unfold upd.
      clear. case_decide; case_bool_decide; subst; try done; lia.
    + intros x. rewrite Hop. unfold upd. clear. case_decide; case_bool_decide; subst; try done; lia.
Qed.
End new.

(** ** Properties *)

Section properties.
Context {P : ModuleParams}.

(** C21: a new area covers its device exactly, and a failed attempt leaves nothing
    behind. [diff_area_new] ends for every device within the limits; if it
    succeeds, every sector of the device lies in the chunk that [chunk_number]
    computes for it, no chunk reaches past the end of the device, and all chunks
    are idle; if it fails while the storage is not empty, every object it
    allocated has been freed and the device has been closed, wherever it failed. *)
Theorem diff_area_new_covers_device dev nr io_min d w :
  new_limits nr io_min →
  wp (diff_area_new dev nr io_min) (d, w) (λ r '(d', w'),
    d' = d ∧
    match r with
    | None => False
    | Some (Ok a) => area_fresh a ∧ area_covers nr a ∧ orig_bdev a = dev ∧ corrupt_flag a = false
    | Some (Err e) => e < 0 ∧ (capacity d ≠ 0 → nothing_held w w')
    end).
Proof.
  intros Hl. eapply wp_mono; [by apply diff_area_new_spec|]. intros r [d' w'] (Hd & _ & H).
  split; [done|]. destruct r as [[a|e]|]; [|done..]. by destruct H as (? & ? & ? & ? & _).
Qed.

(** With an empty difference storage [diff_area_new] fails and leaks. When
    nothing else fails, the call returns [-EFAULT], but the area it has allocated
    is still counted and the device it has opened is still open. *)
Theorem diff_area_new_empty_storage_leaks dev nr io_min d w :
  new_limits nr io_min → capacity d = 0 → w_oracle w = [] →
  wp (diff_area_new dev nr io_min) (d, w) (λ r '(d', w'),
    r = Some (Err (- EFAULT)) ∧ mem_delta w w' memory_object_diff_area 1 ∧
    w_open w' dev = w_open w dev + 1).
Proof.
  intros Hl Hd Ho. destruct (chunk_size_found nr io_min Hl) as (shift & count & Hcs & _).
  unfold diff_area_new. wp_step. unfold on_world at 1. rewrite wp_zoom. unfold blkdev_get_by_dev at 1.
  wp_step. rewrite wp_oracle_nil by done. change (0 =? 0) with true. cbv iota. wp_steps.
  rewrite wp_alloc_nil by done. cbn [negb]. wp_step.
  unfold on_world at 1. wp_steps. rewrite Hcs. wp_steps. cbn [fst snd]. rewrite Hd.
  change (0 =? 0) with true. cbv iota. wp_steps. unfold mem_delta. cbn. rewrite !upd_eq. by split_and!.
Qed.

(** C23: a snapshot can start from a new area. If the device has at most 128 MiB
    per permitted chunk and [diff_area_new] succeeds on a usable storage, the
    system with that area, no bio in flight and the device's contents as the image
    is an initial state of the copy-on-write protocol, so every theorem about runs
    of the protocol applies to it. *)
Theorem diff_area_new_starts_cow dev nr io_min d w a d' w' :
  new_limits nr io_min → chunk_minimum_shift ≤ 27 → nr ≤ chunk_maximum_count * 2 ^ 18 →
  io_min ≤ 2 ^ 27 → storage_wf d →
  diff_area_new dev nr io_min (d, w) = (Some (Ok a), (d', w')) →
  cow_init {| cw_sys := {| area := a; storage := d'; kern := w'; oops := false; hung := false |};
              cw_writers := []; cw_ctx := diff_area_image_ctx_init false; cw_img := w_disk w dev |}.
Proof.
  intros Hl Hm Hc Hi Hd E.
  destruct (wp_run _ _ _ _ _ (diff_area_new_spec dev nr io_min d w Hl) E)
    as (E1 & E2 & Hf & _ & Hbd & _ & Hp & count & Hcs). cbn in E1, E2. subst d'.
  split; try done.
  - split; cbn [storage area cw_sys]; [done| |].
    + rewrite Hp. split; [done|constructor].
    + pose proof (chunk_size_small _ _ _ _ Hl Hm Hc Hi Hcs).
      destruct (chunk_size_found nr io_min Hl) as (s & n & Hcs' & Hs & _). rewrite Hcs in Hcs'.
      injection Hcs' as E3 E4. rewrite E3 in *. lia.
  - intros x. cbn. by rewrite E2, Hbd.
Qed.
End properties.

(** ** Witnesses: a device of 1 GiB and a bit *)

Definition ex_nr : Z := 2097155.

Lemma ex_limits : new_limits (P:=default_params) ex_nr 512.
Proof. split; cbn; unfold ex_nr; lia. Qed.

Lemma diff_area_chunk_size_optimal_witness :
  ∃ shift count, diff_area_calculate_chunk_size (P:=default_params) ex_nr 512 = Some (shift, count) ∧
    0 < count ≤ 2097152.
Proof.
  destruct (diff_area_chunk_size_optimal (P:=default_params) ex_nr 512) as (s & c & H & _ & _ & Hc & _);
    [cbn; unfold ex_nr; lia..|]. exists s, c. split; [exact H|exact Hc].
Defined.

(** A small device, so that the chunks can be computed. *)
Definition ex_new (d : diff_storage) : option (result diff_area) * (diff_storage * world) :=
  diff_area_new (P:=default_params) 1 1030 512 (d, ex_world).

Lemma ex_small_limits : new_limits (P:=default_params) 1030 512.
Proof. split; cbn; lia. Qed.

Lemma diff_area_new_covers_device_witness :
  ∃ a, (ex_new ex_storage).1 = Some (Ok a) ∧ area_covers 1030 a.
Proof.
  pose proof (diff_area_new_covers_device (P:=default_params) 1 1030 512 ex_storage ex_world ex_small_limits) as H.
  unfold wp in H. fold (ex_new ex_storage) in H. destruct (ex_new ex_storage) as [r [d' w']] eqn:E.
  destruct H as [_ H]. destruct r as [[a|e]|].
  - exists a. split; [reflexivity|apply H].
  - exfalso. assert (match (ex_new ex_storage).1 with Some (Ok _) => true | _ => false end = true) as Ht
      by (vm_compute; reflexivity). rewrite E in Ht. discriminate Ht.
  - destruct H.
Defined.

Lemma diff_area_new_empty_storage_leaks_witness :
  w_open (ex_new {| ex_storage with capacity := 0 |}).2.2 1 = 1.
Proof.
  pose proof (diff_area_new_empty_storage_leaks (P:=default_params) 1 1030 512
    {| ex_storage with capacity := 0 |} ex_world ex_small_limits eq_refl eq_refl) as H.
  unfold wp in H. fold (ex_new {| ex_storage with capacity := 0 |}) in H.
  destruct (ex_new _) as [r [d' w']]. destruct H as (_ & _ & H). exact H.
Defined.

Lemma diff_area_new_starts_cow_witness :
  ∃ a, cow_init {| cw_sys := {| area := a; storage := ex_storage; kern := (ex_new ex_storage).2.2;
                                oops := false; hung := false |};
                   cw_writers := []; cw_ctx := diff_area_image_ctx_init false;
                   cw_img := w_disk ex_world 1 |}.
Proof.
  assert (E2 : (ex_new ex_storage).2.1 = ex_storage) by (vm_compute; reflexivity).
  assert (E1 : match (ex_new ex_storage).1 with Some (Ok _) => true | _ => false end = true)
    by (vm_compute; reflexivity).
  destruct (ex_new ex_storage) as [r [d' w']] eqn:E. cbn in *.
  destruct r as [[a|e]|]; [|discriminate E1..]. subst d'. exists a.
  apply (diff_area_new_starts_cow (P:=default_params) 1 1030 512 ex_storage ex_world a ex_storage w').
  - exact ex_small_limits.
  - cbn. lia.
  - cbn. lia.
  - lia.
  - exact ex_storage_wf.
  - exact E.
Defined.
