(* ===== verification/State.v ===== *)
(** * The state of the whole module

    The control side of the module (bdevfilter.c, tracker.c, snapimage.c,
    snapshot.c, main.c) works on objects that point to each other. A pointer is a
    number, an object is an entry of the map of its type, and freeing an object
    removes the entry. The lists of the module are lists of pointers, except the
    list of snapshots, whose links are kept as they are in memory ([links]).
    Every function runs under the lock the code takes, so it is one step. *)
From S2P Require Import Prelude MemoryChecker Kernel Uapi EventQueue CbtMap DiffBuffer DiffIo.
From S2P Require Import DiffStorage Chunk DiffArea.

(** [struct block_device], as much as the module looks at: [bd_ptr] is its
    identity (the pointer, or the disk and the partition number), which changes
    when a device with the same number is created again. *)
Record block_device := BlockDevice { bd_dev : Z; bd_ptr : Z }.

(** What the kernel answers about a device number. *)
Record device := Device {
  dev_ptr : Z;
  dev_sectors : Z;
  dev_io_min : Z;
}.

(** [struct bdev_extension]. *)
Record bdev_extension := BdevExtension {
  ext_dev_id : Z;
  ext_bdev : Z;
  bd_filter : option Z;
}.

(** [struct tracker] with the [struct bdev_filter] embedded in it:
    [flt_kref], and [submit_lock], whether it is held for writing. The pointer to
    the filter is the pointer to the tracker. *)
Record tracker := Tracker {
  flt_kref : Z;
  submit_lock : bool;
  tr_dev_id : Z;
  snapshot_is_taken : bool;
  tr_cbt_map : option Z;
  tr_diff_area : option Z;
  is_frozen : bool;
}.

(** A bio to a snapshot image: its first sector and its segments. *)
Record image_bio := ImageBio {
  ib_write : bool;
  ib_sector : Z;
  ib_segments : list bvec;
}.

(** [struct snapimage]; [img_disk] is the device number of its disk. Its thread
    lives as long as the object. *)
Record snapimage := SnapImage {
  img_capacity : Z;
  img_queue : list image_bio;
  img_disk : Z;
  img_diff_area : Z;
  img_cbt_map : Z;
}.

(** [struct snapshot]; the arrays hold pointers or null. *)
Record snapshot := Snapshot {
  snap_kref : Z;
  snap_id : Z;
  is_taken : bool;
  snap_storage : Z;
  snap_count : Z;
  tracker_array : list (option Z);
  snapimage_array : list (option Z);
}.

(** [broken] records the use of a null or freed pointer, [stuck] a task that waits
    for a lock that somebody holds. *)
Record modst := ModSt {
  mkern : world;
  devices : Z → device;
  bdev_extension_list : list bdev_extension;
  trackers : gmap Z tracker;
  tracked_device_list : list Z;
  tracker_release_list : list Z;
  trackers_counter : Z;
  cbt_maps : gmap Z cbt_map;
  areas : gmap Z (diff_area * Z);
  storages : gmap Z diff_storage;
  snapimages : gmap Z snapimage;
  snapshot_objs : gmap Z snapshot;
  links : gmap Z (Z * Z);
  fs_frozen : Z → Z;
  next_ptr : Z;
  broken : bool;
  stuck : bool;
}.

Notation G := (M modst).

Definition in_kern {A} (m : K A) : G A := zoom mkern (λ w s, {| s with mkern := w |}) m.
Definition broken_pointer : G unit := modify (λ s, {| s with broken := true |}).

(** A fresh pointer. *)
Definition new_ptr : G Z :=
  p ← gets next_ptr;
  modify (λ s, {| s with next_ptr := p + 1 |});;
  mret p.

(** The block device of an open device number. *)
Definition bdev_of (s : modst) (dev_id : Z) : block_device :=
  {| bd_dev := dev_id; bd_ptr := dev_ptr (devices s dev_id) |}.

Definition open_bdev (dev_id : Z) : G (result block_device) :=
  r ← in_kern (blkdev_get_by_dev dev_id);
  s ← gets id;
  mret (match r with Ok d => Ok (bdev_of s d) | Err e => Err e end).
Definition close_bdev (bdev : block_device) : G unit := in_kern (blkdev_put (bd_dev bdev)).

(** Read and change the tracker a pointer points to. *)
Definition get_tracker (t : Z) : G (option tracker) := gets (λ s, trackers s !! t).
Definition mod_tracker (t : Z) (f : tracker → tracker) : G unit :=
  modify (λ s, {| s with trackers := alter f t (trackers s) |}).

(** Freezing and thawing the file system of a device ([freeze_bdev] may fail). *)
Definition freeze_bdev (dev_id : Z) : G Z :=
  v ← in_kern oracle;
  if v =? 0 then
    modify (λ s, {| s with fs_frozen := upd (fs_frozen s) dev_id (fs_frozen s dev_id + 1) |});;
    mret 0
  else mret (- Z.abs v).
(** [thaw_bdev] refuses a device that is not frozen. *)
Definition thaw_bdev (dev_id : Z) : G Z :=
  n ← gets (λ s, fs_frozen s dev_id);
  if n =? 0 then mret (- EINVAL)
  else
    modify (λ s, {| s with fs_frozen := upd (fs_frozen s) dev_id (fs_frozen s dev_id - 1) |});;
    mret 0.

(** ** References to the objects of other components *)

(** Run an operation of a difference area, with the storage it points to. [None]:
    the area or the storage is gone. *)
Definition with_area {A} (p : Z) (m : AM A) : G (option A) :=
  s ← gets id;
  match areas s !! p with
  | None => broken_pointer;; mret None
  | Some (da, st) =>
      match storages s !! st with
      | None => broken_pointer;; mret None
      | Some d =>
          let r := m {| area := da; storage := d; kern := mkern s; oops := false; hung := false |} in
          modify (λ s, {| s with mkern := kern r.2; areas := <[p := (area r.2, st)]> (areas s);
                                 storages := <[st := storage r.2]> (storages s);
                                 broken := broken s || oops r.2; stuck := stuck s || hung r.2 |});;
          mret (Some r.1)
      end
  end.

(** [diff_area_get]. *)
Definition area_get (p : Z) : G unit :=
  modify (λ s, {| s with areas :=
    alter (λ '(da, st), ({| da with area_kref := area_kref da + 1 |}, st)) p (areas s) |}).

(** [diff_area_put] on a pointer that may be null. Freeing an area does not use its
    storage, which may be gone already. *)
Definition area_put `{ModuleParams} (a : option Z) : G unit :=
  match a with
  | None => skip
  | Some p =>
      s ← gets id;
      match areas s !! p with
      | None => broken_pointer
      | Some (da, st) =>
          let r := (diff_area_put {| area := da; storage := default diff_storage_zero (storages s !! st);
                                     kern := mkern s; oops := false; hung := false |}).2 in
          modify (λ s, {| s with mkern := kern r;
            areas := if area_kref (area r) =? 0 then delete p (areas s)
                     else <[p := (area r, st)]> (areas s) |})
      end
  end.

(** [cbt_map_get], and [cbt_map_put] on a pointer that may be null. *)
Definition cbt_get (p : Z) : G unit :=
  modify (λ s, {| s with cbt_maps := alter cbt_map_get p (cbt_maps s) |}).
Definition cbt_put (c : option Z) : G unit :=
  match c with
  | None => skip
  | Some p =>
      m ← gets (λ s, cbt_maps s !! p);
      match m with
      | None => broken_pointer
      | Some m =>
          r ← in_kern (cbt_map_put m);
          modify (λ s, {| s with cbt_maps :=
            match r with None => delete p (cbt_maps s) | Some m => <[p := m]> (cbt_maps s) end |})
      end
  end.

(** Symbolic execution on [modst]: the fields of an updated state are computed at
    once, so that a chain of updates stays one record. *)
Ltac modst_simpl :=
  cbn [mkern devices bdev_extension_list trackers tracked_device_list tracker_release_list
       trackers_counter cbt_maps areas storages snapimages snapshot_objs links fs_frozen next_ptr
       broken stuck w_mem w_oracle w_disk w_open w_garbage w_bio_list].
Ltac wp_run_steps :=
  repeat (lazymatch goal with |- wp _ _ _ => wp_step; modst_simpl end).
