(* ===== verification/BdevFilter.v ===== *)
(** * The block device filter (bdevfilter.c, bdevfilter.h)

    A list that says which filter sits on which block device, the filters'
    reference counts, and the hook in the kernel's submission of bios. The
    filters of this module are its trackers, so the [release] operation of a
    filter is [tracker_release]. *)
From S2P Require Import Prelude MemoryChecker Kernel Uapi EventQueue CbtMap DiffBuffer DiffIo.
From S2P Require Import DiffStorage Chunk DiffArea State.

Definition bdev_extension_find (dev_id : Z) (l : list bdev_extension) : option bdev_extension :=
  find (λ e, dev_id =? ext_dev_id e) l.
Definition bdev_extension_find_bdev (ptr : Z) (l : list bdev_extension) : option bdev_extension :=
  find (λ e, ptr =? ext_bdev e) l.

(** Change the extension that [bdev_extension_find] finds. *)
Fixpoint change_first (dev_id : Z) (flt : option Z) (l : list bdev_extension) : list bdev_extension :=
  match l with
  | [] => []
  | e :: l => if dev_id =? ext_dev_id e then {| e with bd_filter := flt |} :: l else e :: change_first dev_id flt l
  end.
Definition set_filter (dev_id : Z) (flt : option Z) : G unit :=
  modify (λ s, {| s with bdev_extension_list := change_first dev_id flt (bdev_extension_list s) |}).
(** Delete the extension of a device number. There is one at most: the operations of
    the list keep the numbers distinct ([attach_keeps_numbers] and [detach_keeps_numbers]),
    and then this takes off the entry that [bdev_extension_find] finds, and no other
    ([delete_found_entry]). *)
Definition del_extension (dev_id : Z) : G unit :=
  modify (λ s, {| s with bdev_extension_list :=
    filter (λ e, ext_dev_id e ≠ dev_id) (bdev_extension_list s) |}).
Definition add_extension (e : bdev_extension) : G unit :=
  modify (λ s, {| s with bdev_extension_list := bdev_extension_list s ++ [e] |}).

(** [tracker_release] (tracker.c): the tracker waits for the worker. *)
Definition tracker_release (t : Z) : G unit :=
  modify (λ s, {| s with tracker_release_list := tracker_release_list s ++ [t] |}).

(** [bdev_filter_free]. *)
Definition bdev_filter_free (flt : Z) : G unit := tracker_release flt.

Definition bdev_filter_get (flt : Z) : G unit :=
  mod_tracker flt (λ t, {| t with flt_kref := flt_kref t + 1 |}).

Definition bdev_filter_put (flt : option Z) : G unit :=
  match flt with
  | None => skip
  | Some flt =>
      mod_tracker flt (λ t, {| t with flt_kref := flt_kref t - 1 |});;
      t ← get_tracker flt;
      match t with
      | None => broken_pointer
      | Some t => when (flt_kref t =? 0) (bdev_filter_free flt)
      end
  end.

(** The extension found or made; [false] when there is no memory. *)
Definition bdev_extension_append (bdev : block_device) : G bool :=
  ok ← in_kern alloc;
  if negb ok then mret false
  else
    l ← gets bdev_extension_list;
    let ext_tmp := {| ext_dev_id := bd_dev bdev; ext_bdev := bd_ptr bdev; bd_filter := None |} in
    match bdev_extension_find (bd_dev bdev) l with
    | None => add_extension ext_tmp;; mret true
    | Some ext =>
        if ext_bdev ext =? bd_ptr bdev then mret true
        else
          del_extension (bd_dev bdev);;
          add_extension ext_tmp;;
          bdev_filter_put (bd_filter ext);;
          mret true
    end.

Definition bdev_filter_attach (bdev : block_device) (flt : Z) : G Z :=
  ok ← bdev_extension_append bdev;
  if negb ok then mret (- ENOMEM)
  else
    l ← gets bdev_extension_list;
    match bdev_extension_find (bd_dev bdev) l with
    | None => broken_pointer;; mret 0
    | Some ext =>
        match bd_filter ext with
        | Some _ => mret (- EBUSY)
        | None => set_filter (bd_dev bdev) (Some flt);; mret 0
        end
    end.

Definition lp_bdev_filter_detach (dev_id : Z) : G Z :=
  l ← gets bdev_extension_list;
  match bdev_extension_find dev_id l with
  | None => mret (- ENOENT)
  | Some ext =>
      match bd_filter ext with
      | None => mret (- ENOENT)
      | Some flt => set_filter dev_id None;; bdev_filter_put (Some flt);; mret 0
      end
  end.

Definition bdev_filter_detach (bdev : block_device) : G unit :=
  _ ← lp_bdev_filter_detach (bd_dev bdev);
  mret tt.

Definition bdev_filter_get_by_bdev (bdev : block_device) : G (option Z) :=
  l ← gets bdev_extension_list;
  match bdev_extension_find_bdev (bd_ptr bdev) l with
  | None => mret None
  | Some ext =>
      match bd_filter ext with
      | None => mret None
      | Some flt => bdev_filter_get flt;; mret (Some flt)
      end
  end.

(** What becomes of a bio: it goes on to the device, it is refused with
    [bio_wouldblock_error], the task sleeps on [submit_lock], or the filter is
    still working on it and keeps [a]. *)
Inductive filtered (A : Type) : Type :=
  | ToDevice
  | WouldBlock
  | Asleep
  | Held (a : A).
Arguments ToDevice {A}.
Arguments WouldBlock {A}.
Arguments Asleep {A}.
Arguments Held {A} a.

(** [bdev_filters_apply]; [submit_bio] is the filter's operation. A filter that
    is still working on a bio keeps its reference. *)
Definition bdev_filters_apply {A} (submit_bio : Z → G (filtered A)) (bdev : block_device)
    (is_nowait : bool) : G (filtered A) :=
  flt ← bdev_filter_get_by_bdev bdev;
  match flt with
  | None => mret ToDevice
  | Some flt =>
      t ← get_tracker flt;
      match t with
      | None => broken_pointer;; mret ToDevice
      | Some t =>
          if submit_lock t then
            if is_nowait then bdev_filter_put (Some flt);; mret WouldBlock
            else mret Asleep
          else
            completed ← submit_bio flt;
            match completed with
            | Held a => mret (Held a)
            | _ => bdev_filter_put (Some flt);; mret completed
            end
      end
  end.

(** [submit_bio_noacct_handler]: bios submitted while the task has a
    [bio_list] are not filtered. *)
Definition submit_bio_noacct_handler {A} (submit_bio : Z → G (filtered A)) (bdev : block_device)
    (is_nowait : bool) : G (filtered A) :=
  l ← gets (λ s, w_bio_list (mkern s));
  match l with
  | Some _ => mret ToDevice
  | None => bdev_filters_apply submit_bio bdev is_nowait
  end.

Definition bdev_filter_init (flt : Z) : G unit :=
  mod_tracker flt (λ t, {| t with flt_kref := 1; submit_lock := false |}).

(** [percpu_down_write] waits for the bios in the filter, and for ever if the
    lock has been left held. *)
Definition bdevfilter_freeze_queue (flt : Z) : G unit :=
  t ← get_tracker flt;
  match t with
  | None => broken_pointer
  | Some t =>
      if submit_lock t then modify (λ s, {| s with stuck := true |})
      else mod_tracker flt (λ t, {| t with submit_lock := true |})
  end.
Definition bdevfilter_unfreeze_queue (flt : Z) : G unit :=
  mod_tracker flt (λ t, {| t with submit_lock := false |}).

(** ** The list as a finite map

    The contract of the list: a map from device numbers to the device that was
    seen and the filter on it. *)
Definition ext_lookup (s : modst) (dev_id : Z) : option (Z * option Z) :=
  (λ e, (ext_bdev e, bd_filter e)) <$> bdev_extension_find dev_id (bdev_extension_list s).

(** From [s] to [s'] only the filter list has changed. *)
Record only_exts (s s' : modst) : Prop := {
  oe_kern : quiet (mkern s) (mkern s');
  oe_trackers : trackers s' = trackers s;
  oe_release : tracker_release_list s' = tracker_release_list s;
  oe_cbt : cbt_maps s' = cbt_maps s;
  oe_areas : areas s' = areas s;
  oe_broken : broken s' = broken s;
}.

#[global] Instance only_exts_preorder : PreOrder only_exts.
Proof.
  split.
  - intros s. by split.
  - intros s1 s2 s3 [] []. split; try congruence. by etrans.
Qed.

Lemma find_change_first d d' flt l :
  bdev_extension_find d (change_first d' flt l) =
  if d =? d' then (λ e, {| e with bd_filter := flt |}) <$> bdev_extension_find d l
  else bdev_extension_find d l.
Proof.
  unfold bdev_extension_find. induction l as [|e l IH]; [by destruct (d =? d')|]. cbn.
  destruct (Z.eqb_spec d' (ext_dev_id e)) as [->|Hn]; cbn.
  - by destruct (d =? ext_dev_id e).
  - rewrite IH. destruct (Z.eqb_spec d (ext_dev_id e)) as [->|]; [|done].
    by rewrite (proj2 (Z.eqb_neq (ext_dev_id e) d')) by congruence.
Qed.

Lemma find_filter_ne d d' l :
  bdev_extension_find d (filter (λ e, ext_dev_id e ≠ d') l) =
  if d =? d' then None else bdev_extension_find d l.
Proof.
  unfold bdev_extension_find. induction l as [|e l IH]; [by destruct (d =? d')|].
  rewrite filter_cons. case_decide as H; cbn.
  - rewrite IH. destruct (Z.eqb_spec d (ext_dev_id e)) as [->|Hne]; [|done].
    by rewrite (proj2 (Z.eqb_neq _ _) H).
  - rewrite IH. subst d'. by destruct (d =? ext_dev_id e).
Qed.

Lemma find_app d l e :
  bdev_extension_find d (l ++ [e]) =
  match bdev_extension_find d l with
  | Some x => Some x
  | None => if d =? ext_dev_id e then Some e else None
  end.
Proof.
  unfold bdev_extension_find. induction l as [|x l IH]; [done|]. cbn.
  by destruct (d =? ext_dev_id x).
Qed.

Lemma set_filter_spec d flt s :
  wp (set_filter d flt) s (λ _ s', only_exts s s' ∧ ∀ d',
    ext_lookup s' d' = if d' =? d then (λ p, (p.1, flt)) <$> ext_lookup s d else ext_lookup s d').
Proof.
  unfold set_filter. wp_steps. split; [by split|]. intros d'. unfold ext_lookup. cbn [bdev_extension_list].
  rewrite find_change_first. destruct (Z.eqb_spec d' d) as [->|Hne]; [|done].
  by destruct (bdev_extension_find d (bdev_extension_list s)).
Qed.

(** Replacing the extension of a device by a new one. *)
Lemma ext_replace_spec e s :
  wp (del_extension (ext_dev_id e);; add_extension e) s (λ _ s', only_exts s s' ∧ ∀ d',
    ext_lookup s' d' = if d' =? ext_dev_id e then Some (ext_bdev e, bd_filter e) else ext_lookup s d').
Proof.
  unfold del_extension, add_extension. wp_steps. split; [by split|]. intros d'.
  unfold ext_lookup. cbn [bdev_extension_list]. rewrite find_app, find_filter_ne.
  destruct (Z.eqb_spec d' (ext_dev_id e)) as [->|Hne]; [done|].
  by destruct (bdev_extension_find d' (bdev_extension_list s)).
Qed.

Lemma add_extension_spec e s :
  bdev_extension_find (ext_dev_id e) (bdev_extension_list s) = None →
  wp (add_extension e) s (λ _ s', only_exts s s' ∧ ∀ d',
    ext_lookup s' d' = if d' =? ext_dev_id e then Some (ext_bdev e, bd_filter e) else ext_lookup s d').
Proof.
  intros Hn. unfold add_extension. wp_steps. split; [by split|]. intros d'.
  unfold ext_lookup. cbn [bdev_extension_list]. rewrite find_app.
  destruct (Z.eqb_spec d' (ext_dev_id e)) as [->|Hne]; [by rewrite Hn|].
  by destruct (bdev_extension_find d' (bdev_extension_list s)).
Qed.

(** Dropping a reference to a filter. *)
Lemma filter_put_spec flt s t :
  trackers s !! flt = Some t →
  wp (bdev_filter_put (Some flt)) s (λ _ s',
    bdev_extension_list s' = bdev_extension_list s ∧ mkern s' = mkern s ∧ broken s' = broken s ∧
    trackers s' = <[flt := {| t with flt_kref := flt_kref t - 1 |}]> (trackers s) ∧
    tracker_release_list s' =
      tracker_release_list s ++ (if flt_kref t - 1 =? 0 then [flt] else [])).
Proof.
  intros Ht. unfold bdev_filter_put, mod_tracker, get_tracker. wp_steps. cbn [trackers].
  rewrite lookup_alter_eq, Ht. cbn.
  assert (Ea : alter (λ t : tracker, {| t with flt_kref := flt_kref t - 1 |}) flt (trackers s) =
    <[flt := {| t with flt_kref := flt_kref t - 1 |}]> (trackers s)).
  { apply map_eq. intros m. destruct (decide (m = flt)) as [->|Hm];
      [by rewrite lookup_alter_eq, lookup_insert_eq, Ht|by rewrite lookup_alter_ne, lookup_insert_ne]. }
  wp_if E; unfold bdev_filter_free, tracker_release; wp_steps; cbn; rewrite Ea; split_and!; try done.
  by rewrite app_nil_r.
Qed.

(** The filter [f] has lost one reference from [s] to [s'], and was released if it
    was the last. *)
Definition put_once (f : Z) (s s' : modst) : Prop :=
  ∃ t, trackers s !! f = Some t ∧
    trackers s' = <[f := {| t with flt_kref := flt_kref t - 1 |}]> (trackers s) ∧
    tracker_release_list s' = tracker_release_list s ++ (if flt_kref t =? 1 then [f] else []).

Definition refs_kept (s s' : modst) : Prop :=
  trackers s' = trackers s ∧ tracker_release_list s' = tracker_release_list s.

(** The filters on the list are trackers that exist. *)
Definition filters_exist (s : modst) : Prop :=
  ∀ d p f, ext_lookup s d = Some (p, Some f) → is_Some (trackers s !! f).

Lemma put_once_spec f s :
  is_Some (trackers s !! f) →
  wp (bdev_filter_put (Some f)) s (λ _ s',
    bdev_extension_list s' = bdev_extension_list s ∧ broken s' = broken s ∧ put_once f s s').
Proof.
  intros [t Ht]. eapply wp_mono; [by apply filter_put_spec|]. intros [] s' (H1 & _ & H2 & H3 & H4).
  split_and!; try done. exists t. split_and!; try done. rewrite H4. f_equal.
  destruct (Z.eqb_spec (flt_kref t - 1) 0), (Z.eqb_spec (flt_kref t) 1); done || lia.
Qed.

(** The extension for a device: what [bdev_extension_append] does to the map. *)
Lemma append_spec bdev s :
  filters_exist s →
  wp (bdev_extension_append bdev) s (λ ok s',
    broken s' = broken s ∧
    (∀ d, d ≠ bd_dev bdev → ext_lookup s' d = ext_lookup s d) ∧
    if ok then
      match ext_lookup s (bd_dev bdev) with
      | Some (p, f) =>
          if p =? bd_ptr bdev then ext_lookup s' (bd_dev bdev) = Some (p, f) ∧ refs_kept s s'
          else ext_lookup s' (bd_dev bdev) = Some (bd_ptr bdev, None) ∧
               match f with Some f => put_once f s s' | None => refs_kept s s' end
      | None => ext_lookup s' (bd_dev bdev) = Some (bd_ptr bdev, None) ∧ refs_kept s s'
      end
    else refs_kept s s' ∧ ext_lookup s' (bd_dev bdev) = ext_lookup s (bd_dev bdev)).
Proof.
  intros Hf. unfold bdev_extension_append. wp_step. unfold in_kern. rewrite wp_zoom. apply wp_alloc.
  intros ok vs. destruct ok; cbn [negb]; wp_steps; [|by split_and!]. cbn [bdev_extension_list].
  match goal with |- wp _ ?x _ => set (s1 := x) end.
  assert (Hl : ∀ d, ext_lookup s1 d = ext_lookup s d) by done.
  destruct (bdev_extension_find (bd_dev bdev) (bdev_extension_list s)) as [e|] eqn:E.
  - assert (Ee : ext_lookup s (bd_dev bdev) = Some (ext_bdev e, bd_filter e))
      by (unfold ext_lookup; by rewrite E).
    rewrite Ee. wp_if Ep; wp_steps; [by split_and!|].
    set (ne := {| ext_dev_id := bd_dev bdev; ext_bdev := bd_ptr bdev; bd_filter := None |}).
    pose proof (ext_replace_spec ne s1) as H.
    rewrite wp_bind in H. eapply wp_mono; [exact H|]. clear H. intros [] s2 H2. wp_step.
    eapply wp_mono; [exact H2|]. clear H2. intros [] s3 [O3 H3]. cbn [ext_dev_id ext_bdev bd_filter ne] in H3.
    assert (Hnew : ∀ d, ext_lookup s3 d = if d =? bd_dev bdev then Some (bd_ptr bdev, None) else ext_lookup s d)
      by done.
    destruct O3 as [_ O3 R3 _ _ B3]. destruct (bd_filter e) as [f|].
    + wp_step. eapply wp_mono; [apply put_once_spec|].
      { rewrite O3. by eapply Hf. }
      intros [] s4 (L4 & B4 & (t & T4 & T5 & T6)). wp_steps.
      assert (Hx : ∀ d, ext_lookup s4 d = ext_lookup s3 d) by (intros d; unfold ext_lookup; by rewrite L4).
      split; [by rewrite B4, B3|]. split; [intros d Hd|split].
      * rewrite Hx, Hnew. by rewrite (proj2 (Z.eqb_neq _ _)).
      * by rewrite Hx, Hnew, Z.eqb_refl.
      * exists t. rewrite O3 in T4, T5. rewrite R3 in T6. done.
    + cbn [bdev_filter_put]. wp_steps. split; [done|]. split; [intros d Hd|split; [|by split]].
      * rewrite Hnew. by rewrite (proj2 (Z.eqb_neq _ _)).
      * by rewrite Hnew, Z.eqb_refl.
  - assert (Ee : ext_lookup s (bd_dev bdev) = None) by (unfold ext_lookup; by rewrite E).
    rewrite Ee. wp_step.
    eapply wp_mono; [apply (add_extension_spec {| ext_dev_id := bd_dev bdev; ext_bdev := bd_ptr bdev;
      bd_filter := None |} s1 E)|].
    intros [] s2 [[_ O2 R2 _ _ B2] H2]. cbn [ext_dev_id ext_bdev bd_filter] in H2. wp_steps.
    split; [done|]. split; [intros d Hd|split; [|by split]].
    + rewrite H2. by rewrite (proj2 (Z.eqb_neq _ _)).
    + by rewrite H2, Z.eqb_refl.
Qed.

Lemma ext_lookup_find s d p f :
  ext_lookup s d = Some (p, f) →
  ∃ e, bdev_extension_find d (bdev_extension_list s) = Some e ∧ ext_bdev e = p ∧ bd_filter e = f.
Proof.
  unfold ext_lookup. destruct (bdev_extension_find _ _) as [e|]; [|done]. intros [= <- <-]. eauto.
Qed.

(** ** Properties *)

(** C25: attaching a filter. The list of extensions behaves as a map from device
    numbers to filters: [bdev_filter_attach] changes no other device; it refuses
    with [-EBUSY] exactly when the very device already has a filter and then
    changes nothing; otherwise, unless there is no memory, the filter is on the
    device afterwards, and if the device number belonged to a device that has
    since been removed, the filter left on that one has lost one reference and was
    released if it was the last. *)
Theorem bdev_filter_attach_refines bdev flt s :
  filters_exist s →
  wp (bdev_filter_attach bdev flt) s (λ ret s',
    broken s' = broken s ∧
    (∀ d, d ≠ bd_dev bdev → ext_lookup s' d = ext_lookup s d) ∧
    ((ret = - ENOMEM ∧ ext_lookup s' (bd_dev bdev) = ext_lookup s (bd_dev bdev) ∧ refs_kept s s') ∨
     match ext_lookup s (bd_dev bdev) with
     | Some (p, Some f) =>
         if p =? bd_ptr bdev
         then ret = - EBUSY ∧ ext_lookup s' (bd_dev bdev) = Some (p, Some f) ∧ refs_kept s s'
         else ret = 0 ∧ ext_lookup s' (bd_dev bdev) = Some (bd_ptr bdev, Some flt) ∧ put_once f s s'
     | _ => ret = 0 ∧ ext_lookup s' (bd_dev bdev) = Some (bd_ptr bdev, Some flt) ∧ refs_kept s s'
     end)).
Proof.
  intros Hf. unfold bdev_filter_attach. wp_step. eapply wp_mono; [by apply append_spec|].
  intros ok s1 (B1 & O1 & H1). destruct ok; cbn [negb]; wp_steps.
  2:{ split_and!; try done. left. by destruct H1. }
  assert (Hend : ∀ p, ext_lookup s1 (bd_dev bdev) = Some (p, None) → wp
    (match bdev_extension_find (bd_dev bdev) (bdev_extension_list s1) with
     | None => broken_pointer;; mret 0
     | Some ext => match bd_filter ext with
                   | Some _ => mret (- EBUSY)
                   | None => set_filter (bd_dev bdev) (Some flt);; mret 0
                   end
     end) s1 (λ ret s', broken s' = broken s ∧
       (∀ d, d ≠ bd_dev bdev → ext_lookup s' d = ext_lookup s d) ∧ ret = 0 ∧
       ext_lookup s' (bd_dev bdev) = Some (p, Some flt) ∧ refs_kept s1 s')).
  { intros p Hp. destruct (ext_lookup_find _ _ _ _ Hp) as (e & -> & <- & ->). wp_step.
    eapply wp_mono; [apply set_filter_spec|]. intros [] s2 [[_ T2 R2 _ _ B2] H2]. wp_steps.
    split; [congruence|]. split; [intros d Hd|split_and!; try done].
    - rewrite H2, (proj2 (Z.eqb_neq _ _)) by done. by apply O1.
    - by rewrite H2, Z.eqb_refl, Hp. }
  assert (Hr : ∀ s2, refs_kept s1 s2 → ∀ f, put_once f s s1 → put_once f s s2).
  { intros s2 [E1 E2] f (t & ? & ? & ?). exists t. split_and!; congruence. }
  assert (Hk : ∀ s2, refs_kept s1 s2 → refs_kept s s1 → refs_kept s s2).
  { intros s2 [E1 E2] [E3 E4]. split; congruence. }
  destruct (ext_lookup s (bd_dev bdev)) as [[p [f|]]|].
  - destruct (p =? bd_ptr bdev) eqn:Ep; destruct H1 as [H1 H2].
    + destruct (ext_lookup_find _ _ _ _ H1) as (e & -> & _ & ->). wp_steps.
      split_and!; try done. right. by split_and!.
    + eapply wp_mono; [by apply (Hend (bd_ptr bdev))|]. intros ret s2 (? & ? & ? & ? & ?).
      split_and!; try done. right. split_and!; eauto.
  - destruct (p =? bd_ptr bdev) eqn:Ep; destruct H1 as [H1 H2].
    + apply Z.eqb_eq in Ep. subst p. eapply wp_mono; [by apply (Hend (bd_ptr bdev))|].
      intros ret s2 (? & ? & ? & ? & ?). split_and!; try done. right. split_and!; eauto.
    + eapply wp_mono; [by apply (Hend (bd_ptr bdev))|]. intros ret s2 (? & ? & ? & ? & ?).
      split_and!; try done. right. split_and!; eauto.
  - destruct H1 as [H1 H2]. eapply wp_mono; [by apply (Hend (bd_ptr bdev))|].
    intros ret s2 (? & ? & ? & ? & ?). split_and!; try done. right. split_and!; eauto.
Qed.

(** Detaching a filter. [lp_bdev_filter_detach] changes no other device; it
    answers [-ENOENT] and changes nothing if the device number has no filter;
    otherwise it takes the filter off, so that bios to the device are no longer
    filtered, and drops the reference the list held. *)
Theorem bdev_filter_detach_refines dev_id s :
  filters_exist s →
  wp (lp_bdev_filter_detach dev_id) s (λ ret s',
    broken s' = broken s ∧
    (∀ d, d ≠ dev_id → ext_lookup s' d = ext_lookup s d) ∧
    match ext_lookup s dev_id with
    | Some (p, Some f) => ret = 0 ∧ ext_lookup s' dev_id = Some (p, None) ∧ put_once f s s'
    | _ => ret = - ENOENT ∧ s' = s
    end).
Proof.
  intros Hf. unfold lp_bdev_filter_detach. wp_steps.
  destruct (bdev_extension_find dev_id (bdev_extension_list s)) as [e|] eqn:E.
  2:{ wp_steps. unfold ext_lookup. by rewrite E. }
  assert (Ee : ext_lookup s dev_id = Some (ext_bdev e, bd_filter e)) by (unfold ext_lookup; by rewrite E).
  rewrite Ee. destruct (bd_filter e) as [f|]; [|by wp_steps]. wp_step.
  eapply wp_mono; [apply set_filter_spec|]. intros [] s1 [[_ T1 R1 _ _ B1] H1]. wp_step.
  eapply wp_mono; [apply put_once_spec|].
  { rewrite T1. by eapply Hf. }
  intros [] s2 (L2 & B2 & (t & Ht & T2 & R2)). wp_steps.
  assert (Hl : ∀ d, ext_lookup s2 d = ext_lookup s1 d) by (intros d; unfold ext_lookup; by rewrite L2).
  split; [congruence|]. split; [intros d Hd|split_and!; [done| |]].
  - by rewrite Hl, H1, (proj2 (Z.eqb_neq _ _)).
  - by rewrite Hl, H1, Z.eqb_refl, Ee.
  - exists t. rewrite T1 in Ht, T2. rewrite R1 in R2. done.
Qed.

(** ** One extension for a device number *)

Definition numbers (s : modst) : list Z := ext_dev_id <$> bdev_extension_list s.

(** The entry found, taken off its list. *)
Fixpoint remove_found (dev_id : Z) (l : list bdev_extension) : list bdev_extension :=
  match l with
  | [] => []
  | e :: l => if dev_id =? ext_dev_id e then l else e :: remove_found dev_id l
  end.

(** While the numbers are distinct, deleting by number deletes the entry found. *)
Lemma delete_found_entry d l :
  NoDup (ext_dev_id <$> l) → filter (λ e, ext_dev_id e ≠ d) l = remove_found d l.
Proof.
  induction l as [|e l IH]; [done|]. rewrite fmap_cons, NoDup_cons. intros [Hn Hd]. rewrite filter_cons. cbn.
  destruct (Z.eqb_spec d (ext_dev_id e)) as [->|Hne].
  - rewrite decide_False by auto. clear IH Hd. induction l as [|x l IHl]; [done|].
    rewrite fmap_cons, not_elem_of_cons in Hn. destruct Hn as [Hx Hn].
    rewrite filter_cons, decide_True by congruence. by rewrite IHl.
  - rewrite decide_True by congruence. by rewrite IH.
Qed.

Lemma change_first_numbers d flt l : ext_dev_id <$> change_first d flt l = ext_dev_id <$> l.
Proof. induction l as [|e l IH]; [done|]. cbn. destruct (d =? ext_dev_id e); cbn; [done|by f_equal]. Qed.

Lemma find_none_numbers d l : bdev_extension_find d l = None → d ∉ (ext_dev_id <$> l).
Proof.
  unfold bdev_extension_find. induction l as [|e l IH]; cbn; [intros _; apply not_elem_of_nil|].
  destruct (Z.eqb_spec d (ext_dev_id e)) as [->|Hne]; [done|].
  intros H. rewrite not_elem_of_cons. split; [done|by apply IH].
Qed.

Lemma put_keeps_list f s : wp (bdev_filter_put f) s (λ _ s', bdev_extension_list s' = bdev_extension_list s).
Proof.
  unfold bdev_filter_put, bdev_filter_free, tracker_release, mod_tracker, get_tracker, broken_pointer.
  destruct f as [f|]; wp_steps; [|done]. case_match; [|by wp_steps]. by wp_if E; wp_steps.
Qed.

Lemma append_keeps_numbers bdev s :
  NoDup (numbers s) → wp (bdev_extension_append bdev) s (λ _ s', NoDup (numbers s')).
Proof.
  intros Hd. unfold bdev_extension_append, numbers, add_extension, del_extension. wp_step. unfold in_kern.
  rewrite wp_zoom. apply wp_alloc. intros ok vs. destruct ok; cbn [negb]; wp_steps; [|done]. cbn [bdev_extension_list].
  destruct (bdev_extension_find (bd_dev bdev) (bdev_extension_list s)) as [e|] eqn:E.
  - wp_if Ep; wp_steps; [done|]. cbn [bdev_extension_list].
    eapply wp_mono; [apply put_keeps_list|]. intros [] s1 E1. wp_steps. rewrite E1. cbn [bdev_extension_list].
    rewrite fmap_app. cbn. apply NoDup_app. split_and!.
    + eapply sublist_NoDup; [exact Hd|]. apply fmap_sublist, sublist_filter.
    + intros d Hin. rewrite list_elem_of_singleton. intros ->. apply list_elem_of_fmap in Hin as (x & Ex & Hx).
      apply list_elem_of_filter in Hx as [Hx _]. by rewrite Ex in Hx.
    + apply NoDup_singleton.
  - wp_steps. cbn [bdev_extension_list]. rewrite fmap_app. cbn. apply NoDup_app. split_and!; [done| |apply NoDup_singleton].
    intros d Hin. rewrite list_elem_of_singleton. intros ->. by apply (find_none_numbers _ _ E).
Qed.

(** The operations of the list keep the numbers distinct. *)
Theorem attach_keeps_numbers bdev flt s :
  NoDup (numbers s) → wp (bdev_filter_attach bdev flt) s (λ _ s', NoDup (numbers s')).
Proof.
  intros Hd. unfold bdev_filter_attach. wp_step. eapply wp_mono; [by apply append_keeps_numbers|].
  intros ok s1 H1. destruct ok; cbn [negb]; wp_steps; [|done].
  destruct (bdev_extension_find (bd_dev bdev) (bdev_extension_list s1)) as [e|]; [|by unfold broken_pointer; wp_steps].
  destruct (bd_filter e); [by wp_steps|]. unfold set_filter. wp_steps. unfold numbers. cbn [bdev_extension_list].
  by rewrite change_first_numbers.
Qed.

Theorem detach_keeps_numbers d s :
  NoDup (numbers s) → wp (lp_bdev_filter_detach d) s (λ _ s', NoDup (numbers s')).
Proof.
  intros Hd. unfold lp_bdev_filter_detach, set_filter. wp_steps.
  destruct (bdev_extension_find d (bdev_extension_list s)) as [e|]; [|by wp_steps].
  destruct (bd_filter e) as [f|]; [|by wp_steps]. wp_steps.
  eapply wp_mono; [apply put_keeps_list|]. intros [] s1 E1. wp_steps. unfold numbers. rewrite E1.
  cbn [bdev_extension_list]. by rewrite change_first_numbers.
Qed.

(** ** Witnesses: device 5 was created again after tracker 100 was attached *)

Definition ex_tracker (kref : Z) : tracker :=
  {| flt_kref := kref; submit_lock := false; tr_dev_id := 5; snapshot_is_taken := false;
     tr_cbt_map := None; tr_diff_area := None; is_frozen := false |}.

Definition ex_modst : modst :=
  {| mkern := world0; devices := λ _, {| dev_ptr := 51; dev_sectors := 4096; dev_io_min := 512 |};
     bdev_extension_list := [{| ext_dev_id := 5; ext_bdev := 50; bd_filter := Some 100 |}];
     trackers := {[ 100 := ex_tracker 1 ]}; tracked_device_list := [5]; tracker_release_list := [];
     trackers_counter := 2; cbt_maps := ∅; areas := ∅; storages := ∅; snapimages := ∅;
     snapshot_objs := ∅; links := ∅; fs_frozen := λ _, 0; next_ptr := 200; broken := false;
     stuck := false |}.

Lemma ex_filters_exist : filters_exist ex_modst.
Proof.
  intros d p f. unfold ext_lookup. cbn. destruct (d =? 5); cbn; [|done]. intros [= <- <-].
  by exists (ex_tracker 1).
Qed.

Lemma bdev_filter_attach_refines_witness :
  let s' := (bdev_filter_attach (bdev_of ex_modst 5) 101 ex_modst).2 in
  ext_lookup s' 5 = Some (51, Some 101) ∧ tracker_release_list s' = [100] ∧ put_once 100 ex_modst s'.
Proof.
  split; [vm_compute; reflexivity|]. split; [vm_compute; reflexivity|].
  destruct (bdev_filter_attach_refines (bdev_of ex_modst 5) 101 ex_modst ex_filters_exist)
    as (_ & _ & [[H _]|(_ & _ & H)]); [exfalso; vm_compute in H; discriminate H|exact H].
Defined.

Lemma bdev_filter_detach_refines_witness :
  let s' := (lp_bdev_filter_detach 5 ex_modst).2 in
  ext_lookup s' 5 = Some (50, None) ∧ put_once 100 ex_modst s'.
Proof.
  destruct (bdev_filter_detach_refines 5 ex_modst ex_filters_exist) as (_ & _ & _ & H1 & H2).
  split; [exact H1|exact H2].
Defined.
