(* ===== verification/FilterHook.v ===== *)
(** * How bios reach the filter (bdevfilter.c: loading and unloading)

    The module makes the kernel call [submit_bio_noacct_handler] at the entry of
    [submit_bio_noacct], by a live patch or by ftrace, whichever the kernel has. The handler
    goes on behind the instruction at the entry that calls the hook, so that it does not come
    back to itself. *)
From stdpp Require Import strings.
From S2P Require Import Prelude MemoryChecker Kernel Uapi EventQueue CbtMap DiffBuffer DiffIo.
From S2P Require Import DiffStorage Chunk DiffArea State BdevFilter.

(** What the kernel knows of the hook: the live patch is enabled; the functions the ftrace
    operations are set to, and whether they are registered. *)
Record hooks := Hooks {
  klp_enabled : bool;
  ftrace_filter : list string;
  ftrace_registered : bool;
}.

(** Where a call ends up. *)
Inductive target : Type := Body | Handler.

Notation HM := (M (hooks * modst)).
Definition on_hooks (f : hooks → hooks) : HM unit := modify (λ s, (f s.1, s.2)).
Definition hook_kern {A} (m : K A) : HM A := zoom (λ s, mkern s.2) (λ w s, (s.1, let m := s.2 in {| m with mkern := w |})) m.
Definition on_list (m : G unit) : HM unit := zoom snd (λ m s, (s.1, m)) m.

(** ** The kernel's functions

    Each answers 0 or an error. *)
Definition errno : K Z := v ← oracle; mret (if v =? 0 then 0 else - Z.abs v).

Definition klp_enable_patch : HM Z :=
  ret ← hook_kern errno;
  when (ret =? 0) (on_hooks (λ h, {| h with klp_enabled := true |}));;
  mret ret.
(** [ftrace_set_filter] adds a function to the filter, or, with [reset], starts the filter
    anew. *)
Definition ftrace_set_filter (buf : option string) (reset : bool) : HM Z :=
  ret ← hook_kern errno;
  when (ret =? 0) (on_hooks (λ h, {| h with ftrace_filter :=
    (if (reset : bool) then [] else ftrace_filter h) ++ (match buf with Some f => [f] | None => [] end) |}));;
  mret ret.
Definition register_ftrace_function : HM Z :=
  ret ← hook_kern errno;
  when (ret =? 0) (on_hooks (λ h, {| h with ftrace_registered := true |}));;
  mret ret.
Definition unregister_ftrace_function : HM unit := on_hooks (λ h, {| h with ftrace_registered := false |}).

(** ** bdevfilter.c *)

Definition funcname_submit_bio_noacct : string := "submit_bio_noacct".

Definition CALL_INSTRUCTION_LENGTH : Z := 5.
(** The address of the function in the kernel, and the address behind the call at its entry. *)
Definition submit_bio_noacct_notrace (submit_bio_noacct : Z) : Z := submit_bio_noacct + CALL_INSTRUCTION_LENGTH.

(** [funcs], [objs] and [patch]: the live patch puts a new function in the place of the old
    one. *)
Definition klp_funcs : list (string * target) := [(funcname_submit_bio_noacct, Handler)].

Definition lp_filter_init : HM Z := klp_enable_patch.
(** The loop takes the first extension off the list until there is none. *)
Fixpoint free_extensions (l : list bdev_extension) : G unit :=
  match l with
  | [] => skip
  | _ :: l => modify (λ s, {| s with bdev_extension_list := l |});; free_extensions l
  end.
Definition lp_filter_done : HM unit := on_list (l ← gets bdev_extension_list; free_extensions l).

(** [ftrace_handler_submit_bio_noacct]: the instruction pointer is set to the handler. *)
Definition ftrace_handler_submit_bio_noacct (ip : target) : target := Handler.

Definition trace_filter_init : HM Z :=
  ret ← ftrace_set_filter (Some funcname_submit_bio_noacct) false;
  if negb (ret =? 0) then mret ret
  else
    ret ← register_ftrace_function;
    if negb (ret =? 0) then _ ← ftrace_set_filter None true; mret ret else mret ret.

Definition trace_filter_done : HM unit :=
  unregister_ftrace_function;;
  on_list (l ← gets bdev_extension_list; free_extensions l).

(** ** Calls *)

(** The kernel's function [name] is called at the address [addr], its entry being [entry]:
    a live patch or ftrace takes over at the entry only. *)
Definition call_target (h : hooks) (name : string) (entry addr : Z) : target :=
  if negb (addr =? entry) then Body
  else if klp_enabled h then
    match find (λ f, bool_decide (f.1 = name)) klp_funcs with Some f => f.2 | None => Body end
  else if ftrace_registered h && bool_decide (name ∈ ftrace_filter h) then ftrace_handler_submit_bio_noacct Body
  else Body.

(** A bio is submitted at the address [addr]. What the filter keeps or refuses does not come
    back; what it lets through goes on at [submit_bio_noacct_notrace]. The result is what has
    become of the bio, and how often it has passed the filter. [None]: the calls do not end. *)
Fixpoint submit_at {A} (fuel : nat) (h : hooks) (entry : Z) (submit_bio : Z → G (filtered A)) (bdev : block_device)
    (nowait : bool) (addr : Z) (passes : nat) : G (option (filtered A * nat)) :=
  match fuel with
  | O => mret None
  | S fuel =>
      match call_target h funcname_submit_bio_noacct entry addr with
      | Body => mret (Some (ToDevice, passes))
      | Handler =>
          r ← submit_bio_noacct_handler submit_bio bdev nowait;
          match r with
          | ToDevice => submit_at fuel h entry submit_bio bdev nowait (submit_bio_noacct_notrace entry) (S passes)
          | _ => mret (Some (r, S passes))
          end
      end
  end.

(** ** Properties *)

Definition hooked (h : hooks) : bool :=
  klp_enabled h || (ftrace_registered h && bool_decide (funcname_submit_bio_noacct ∈ ftrace_filter h)).

(** Every bio passes the filter once. If the hook is installed, a bio that is submitted at the
    entry of [submit_bio_noacct] passes the handler exactly once, whatever the handler decides, and
    goes on to the device exactly when the handler lets it through; two calls are enough. If
    the hook is not installed the bio goes to the device and the module is not involved. *)
Theorem submit_filtered_once {A} h entry (submit_bio : Z → G (filtered A)) bdev nowait s fuel :
  submit_at (S (S fuel)) h entry submit_bio bdev nowait entry 0 s =
    if hooked h then
      let r := submit_bio_noacct_handler submit_bio bdev nowait s in (Some (r.1, 1%nat), r.2)
    else (Some (ToDevice, 0%nat), s).
Proof.
  assert (Hc : call_target h funcname_submit_bio_noacct entry entry = if hooked h then Handler else Body).
  { unfold call_target, hooked. rewrite Z.eqb_refl. cbn [negb]. destruct (klp_enabled h); cbn; [done|].
    by destruct (_ && _). }
  assert (Hn : call_target h funcname_submit_bio_noacct entry (submit_bio_noacct_notrace entry) = Body).
  { unfold call_target, submit_bio_noacct_notrace, CALL_INSTRUCTION_LENGTH. by rewrite (proj2 (Z.eqb_neq _ _)) by lia. }
  cbn [submit_at]. rewrite Hc. destruct (hooked h); [|done]. unfold mbind at 1, M_mbind at 1. cbn zeta.
  destruct (submit_bio_noacct_handler submit_bio bdev nowait s) as [[| | |a] s'] eqn:E; cbn; try done.
  rewrite Hn. done.
Qed.

Lemma free_extensions_spec l s :
  wp (free_extensions l) s (λ _ s', s' = {| s with bdev_extension_list := match l with [] => bdev_extension_list s | _ => [] end |}).
Proof.
  revert s. induction l as [|e l IH]; intros s; cbn [free_extensions]; [by destruct s|].
  wp_steps. eapply wp_mono; [apply IH|]. intros [] s' ->. by destruct l.
Qed.

(** Loading and unloading. On a kernel without the hook, [trace_filter_init] installs it and
    returns 0, or it returns an error and the kernel is without it; it changes nothing of the module. Unloading takes
    the hook away and empties the list of extensions, and touches no filter. *)
Theorem filter_module_roundtrip s :
  klp_enabled s.1 = false → ftrace_registered s.1 = false →
  wp trace_filter_init s (λ ret s1,
    hooked s1.1 = (ret =? 0) ∧ bdev_extension_list s1.2 = bdev_extension_list s.2 ∧
    wp trace_filter_done s1 (λ _ s2, hooked s2.1 = false ∧ bdev_extension_list s2.2 = [] ∧
      trackers s2.2 = trackers s.2 ∧ tracker_release_list s2.2 = tracker_release_list s.2)).
Proof.
  intros Hk Hr. destruct s as [h m]. cbn in Hk, Hr.
  assert (Hdone : ∀ h1 w, klp_enabled h1 = false →
    wp trace_filter_done (h1, {| m with mkern := w |}) (λ _ s2, hooked s2.1 = false ∧ bdev_extension_list s2.2 = [] ∧
      trackers s2.2 = trackers m ∧ tracker_release_list s2.2 = tracker_release_list m)).
  { intros h1 w H1. unfold trace_filter_done, unregister_ftrace_function, on_hooks, on_list. wp_steps.
    eapply wp_mono; [apply free_extensions_spec|]. intros [] s2 ->. unfold hooked. cbn. rewrite H1. cbn.
    by destruct (bdev_extension_list m). }
  assert (He : ∀ (s : hooks * modst) (Q : Z → hooks * modst → Prop), (∀ ret w, Q ret (s.1, let m := s.2 in {| m with mkern := w |})) →
    wp (hook_kern errno) s Q).
  { intros s Q HQ. unfold hook_kern, errno. rewrite wp_zoom. wp_step. apply wp_oracle. intros v vs. wp_steps. apply HQ. }
  unfold trace_filter_init, ftrace_set_filter, register_ftrace_function, on_hooks.
  wp_step. wp_step. apply He. intros ret w. destruct (ret =? 0) eqn:E1; cbn [when negb]; wp_steps; rewrite ?E1; cbn [negb].
  2:{ wp_steps. unfold hooked at 1. cbn. rewrite Hk, Hr, E1. split_and!; try done. by apply Hdone. }
  wp_steps. apply He. intros ret2 w2. cbn [fst snd]. destruct (ret2 =? 0) eqn:E2; cbn [when negb]; wp_steps; rewrite ?E2; cbn [negb].
  - wp_steps. unfold hooked at 1. cbn. rewrite Hk, E2. cbn. split_and!; [|done|by apply Hdone].
    apply bool_decide_eq_true. apply elem_of_app. right. by apply list_elem_of_singleton.
  - wp_steps. apply He. intros ret3 w3. cbn [fst snd]. destruct (ret3 =? 0); cbn [when]; wp_steps;
      (unfold hooked at 1; cbn; rewrite Hk, Hr, E2; split_and!; [done|done|by apply Hdone]).
Qed.

(** ** Witnesses *)

Definition no_hooks : hooks := {| klp_enabled := false; ftrace_filter := []; ftrace_registered := false |}.

Lemma filter_module_roundtrip_witness :
  let s1 := (trace_filter_init (no_hooks, ex_modst)).2 in
  hooked s1.1 = true ∧ hooked (trace_filter_done s1).2.1 = false.
Proof.
  intros s1. destruct (filter_module_roundtrip (no_hooks, ex_modst) eq_refl eq_refl) as (H1 & _ & H2 & _).
  split; [exact H1|exact H2].
Defined.
