(* ===== verification/SnapImage.v ===== *)
(** * Snapshot images (snapimage.c, snapimage.h)

    A snapshot image is a disk. Bios to it are queued, and a thread serves them from
    the difference area. The configuration is that of a kernel with
    [blk_alloc_disk] and an [add_disk] that returns a code. *)
From S2P Require Import Prelude MemoryChecker Kernel Uapi EventQueue CbtMap DiffBuffer DiffIo.
From S2P Require Import DiffStorage Chunk DiffArea ChunkSpecs CowInv Cow CowSteps CowImage.
From S2P Require Import CowSafety State.

#[global] Instance blk_status_eq_dec : EqDecision blk_status.
Proof. solve_decision. Defined.

(** How a bio to an image ends: [bi_status] with the segments as they are then, or
    not yet, because the thread sleeps on a chunk's semaphore. *)
Inductive bio_result : Type :=
  | Ended (bi_status : blk_status) (segments : list bvec)
  | Waiting.

Section params.
Context {P : ModuleParams}.

(** [bio_for_each_segment] with its [break]. *)
Fixpoint process_segments (ctx : diff_area_image_ctx) (pos : Z) (segs : list bvec)
    : AM (blk_status * diff_area_image_ctx * list bvec) :=
  match segs with
  | [] => mret (BLK_STS_OK, ctx, [])
  | v :: segs =>
      '(st, ctx, v, pos) ← diff_area_image_io ctx v pos;
      match st with
      | BLK_STS_OK =>
          '(st, ctx, segs) ← process_segments ctx pos segs;
          mret (st, ctx, v :: segs)
      | _ => mret (st, ctx, v :: segs)
      end
  end.

(** [snapimage_process_bio]. [diff_area_throttling_io] only waits. The bio ends
    with the status it started with, whatever the segments returned. *)
Definition snapimage_process_bio (bio : image_bio) : AM bio_result :=
  '(st, ctx, segs) ←
    process_segments (diff_area_image_ctx_init (ib_write bio)) (ib_sector bio) (ib_segments bio);
  match st with
  | BLK_STS_SLEEP => mret Waiting
  | _ => diff_area_image_ctx_done ctx;; mret (Ended BLK_STS_OK segs)
  end.

Definition mod_image (i : Z) (f : snapimage → snapimage) : G unit :=
  modify (λ s, {| s with snapimages := alter f i (snapimages s) |}).

Definition get_bio_from_queue (i : Z) : G (option image_bio) :=
  img ← gets (λ s, snapimages s !! i);
  match img with
  | None => broken_pointer;; mret None
  | Some img =>
      match img_queue img with
      | [] => mret None
      | bio :: q => mod_image i (λ img, {| img with img_queue := q |});; mret (Some bio)
      end
  end.

(** The inner loop of [snapimage_kthread_worker_fn]: the bios it has ended, oldest
    first. One turn per queued bio is enough. *)
Fixpoint snapimage_kthread_worker_fn (fuel : nat) (i : Z) : G (list bio_result) :=
  match fuel with
  | O => mret []
  | S fuel =>
      bio ← get_bio_from_queue i;
      match bio with
      | None => mret []
      | Some bio =>
          img ← gets (λ s, snapimages s !! i);
          match img with
          | None => broken_pointer;; mret []
          | Some img =>
              r ← with_area (img_diff_area img) (snapimage_process_bio bio);
              match r with
              | None => mret []
              | Some Waiting => modify (λ s, {| s with stuck := true |});; mret []
              | Some (Ended st segs) =>
                  l ← snapimage_kthread_worker_fn fuel i;
                  mret (Ended st segs :: l)
              end
          end
      end
  end.

(** [snapimage_submit_bio]: [Some] when the bio is ended at once. *)
Definition snapimage_submit_bio (bio : image_bio) (i : Z) : G (option bio_result) :=
  s ← gets id;
  match img ← snapimages s !! i; areas s !! img_diff_area img with
  | None => broken_pointer;; mret None
  | Some (da, _) =>
      if negb (diff_area_is_corrupted da) then
        mod_image i (λ img, {| img with img_queue := img_queue img ++ [bio] |});;
        mret None
      else mret (Some (Ended BLK_STS_IOERR (ib_segments bio)))
  end.

(** [snapimage_free_disk], and the end of [snapimage_free] in the other
    configuration. *)
Definition snapimage_free_disk (i : Z) : G unit :=
  img ← gets (λ s, snapimages s !! i);
  match img with
  | None => broken_pointer
  | Some img =>
      area_put (Some (img_diff_area img));;
      cbt_put (Some (img_cbt_map img));;
      modify (λ s, {| s with snapimages := delete i (snapimages s) |});;
      in_kern (memory_object_dec memory_object_snapimage)
  end.

(** [snapimage_free]: the thread serves the bios that are queued before it stops.
    Nobody else holds the disk. *)
Definition snapimage_free (i : Z) : G unit :=
  img ← gets (λ s, snapimages s !! i);
  match img with
  | None => broken_pointer
  | Some img =>
      _ ← snapimage_kthread_worker_fn (length (img_queue img)) i;
      snapimage_free_disk i
  end.

(** [snapimage_create]. The disk gets the device number of the next pointer; a
    disk name always fits. The last error path stops the thread and drops the disk,
    but keeps the object and its references. *)
Definition snapimage_create (a c : Z) : G (result Z) :=
  ok ← in_kern alloc;
  if negb ok then mret (Err (- ENOMEM))
  else
    in_kern (memory_object_inc memory_object_snapimage);;
    m ← gets (λ s, cbt_maps s !! c);
    match m with
    | None => broken_pointer;; mret (Err 0)
    | Some m =>
        let fail (ret : Z) : G (result Z) :=
          in_kern (memory_object_dec memory_object_snapimage);; mret (Err ret) in
        task ← in_kern oracle;
        if negb (task =? 0) then fail (- Z.abs task)
        else
          ok ← in_kern alloc;
          if negb ok then fail (- ENOMEM)
          else
            i ← new_ptr;
            area_get a;;
            cbt_get c;;
            modify (λ s, {| s with snapimages :=
              <[i := {| img_capacity := device_capacity m; img_queue := []; img_disk := i;
                        img_diff_area := a; img_cbt_map := c |}]> (snapimages s) |});;
            ret ← in_kern oracle;
            if negb (ret =? 0) then mret (Err (- Z.abs ret)) else mret (Ok i)
    end.
End params.

(** ** What serving the image leaves in place

    The storage's blocks, the device and the geometry of the area stay, and an area
    that is corrupted stays corrupted. *)
Record same_space (s s' : sys) : Prop := {
  sp_blocks : blocks (storage s') = blocks (storage s);
  sp_bdev : orig_bdev (area s') = orig_bdev (area s);
  sp_shift : chunk_shift (area s') = chunk_shift (area s);
  sp_counts : chunk_sector_count <$> chunk_map (area s') = chunk_sector_count <$> chunk_map (area s);
  sp_corrupt : corrupt_flag (area s) = true → corrupt_flag (area s') = true;
}.

#[global] Instance same_space_preorder : PreOrder same_space.
Proof.
  split; [by intros s|]. intros s1 s2 s3 [? ? ? ? ?] [? ? ? ? ?]. split; try congruence. auto.
Qed.

Lemma same_space_excluded s s' addr : same_space s s' → excluded s' addr ↔ excluded s addr.
Proof. intros [Hb Ho _ _ _]. unfold excluded, covered. by rewrite Hb, Ho. Qed.

Lemma same_space_in_area s s' addr : same_space s s' → in_area s' addr → in_area s addr.
Proof.
  intros [_ _ Hsh Hc _] (n & c & Hn & Hr). unfold at_chunk in Hn.
  assert (E : (chunk_sector_count <$> chunk_map (area s)) !! n = Some (chunk_sector_count c))
    by (by rewrite <- Hc, lookup_fmap, Hn).
  rewrite lookup_fmap in E. destruct (chunk_map (area s) !! n) as [c0|] eqn:E0; [|done].
  injection E as E. exists n, c0. split; [done|].
  unfold chunk_base, chunk_len, sectors, diff_area_chunk_sectors in *. by rewrite E, <- Hsh.
Qed.

Definition spaced {A} (m : AM A) : Prop := ∀ s, wp m s (λ _ s', same_space s s').

Section spaced.
Context {A B : Type}.

Lemma spaced_bind (m : AM A) (f : A → AM B) : spaced m → (∀ a, spaced (f a)) → spaced (m ≫= f).
Proof.
  intros Hm Hf s. apply wp_bind. eapply wp_mono; [apply Hm|]. intros a s1 H1.
  eapply wp_mono; [apply Hf|]. intros b s2 H2. by rewrite H1.
Qed.
Lemma spaced_ret (a : A) : spaced (mret a).
Proof. intros s. by apply wp_ret. Qed.
Lemma spaced_gets (f : sys → A) : spaced (gets f).
Proof. intros s. by apply wp_gets. Qed.
Lemma spaced_on_kern (m : K A) : spaced (on_kern m).
Proof. intros s. unfold on_kern. apply wp_zoom. apply wp_eq. by intros a w _. Qed.
End spaced.

Lemma spaced_skip : spaced skip.
Proof. by intros s. Qed.
Lemma spaced_when b m : spaced m → spaced (when b m).
Proof. destruct b; [done|]. intros _. apply spaced_skip. Qed.
Lemma spaced_null : spaced null_dereference.
Proof. by intros s. Qed.
Lemma spaced_on_area f :
  (∀ a, orig_bdev (f a) = orig_bdev a ∧ chunk_shift (f a) = chunk_shift a ∧
        chunk_sector_count <$> chunk_map (f a) = chunk_sector_count <$> chunk_map a ∧
        (corrupt_flag a = true → corrupt_flag (f a) = true)) → spaced (on_area f).
Proof. intros H s. destruct (H (area s)) as (? & ? & ? & ?). by apply wp_modify. Qed.
Lemma spaced_modc n f : (∀ c, chunk_sector_count (f c) = chunk_sector_count c) → spaced (modc n f).
Proof.
  intros H. apply spaced_on_area. intros a. split_and!; try done. cbn. apply map_eq. intros m.
  rewrite !lookup_fmap. destruct (decide (m = n)) as [->|Hne];
    [rewrite lookup_alter_eq|by rewrite lookup_alter_ne].
  destruct (chunk_map a !! n) as [c|]; [|done]. cbn. by rewrite H.
Qed.

Create HintDb space discriminated.
Ltac space := repeat first
  [ progress intros
  | solve [auto 2 with space nocore]
  | simple apply spaced_bind | simple apply spaced_ret | simple apply spaced_gets | simple apply spaced_on_kern | simple apply spaced_skip
  | simple apply spaced_when | simple apply spaced_null | simple apply spaced_modc; done
  | simple apply spaced_on_area; intros; split_and!; done
  | match goal with |- spaced (match ?x with _ => _ end) => destruct x end ].

Section space.
Context {P : ModuleParams}.

Lemma spaced_getc n : spaced (getc n).
Proof. apply spaced_gets. Qed.
Lemma spaced_up n : spaced (up n).
Proof. unfold up. space. Qed.
Lemma spaced_event e : spaced (diff_area_event_corrupted e).
Proof.
  unfold diff_area_event_corrupted. space. intros s. unfold on_store, storage_event_gen. wp_steps.
  apply wp_eq. intros [r q] w _. by wp_steps.
Qed.
#[local] Hint Resolve spaced_getc spaced_event : space.
Lemma spaced_set_corrupted e : spaced (diff_area_set_corrupted e).
Proof. unfold diff_area_set_corrupted. space. Qed.
Lemma spaced_release n : spaced (chunk_diff_buffer_release n).
Proof. unfold chunk_diff_buffer_release. space. Qed.
#[local] Hint Resolve spaced_up spaced_set_corrupted spaced_release : space.

Lemma spaced_store_failed n e : spaced (chunk_store_failed n e).
Proof. unfold chunk_store_failed. space. Qed.
#[local] Hint Resolve spaced_store_failed : space.
Lemma spaced_caching n : spaced (chunk_schedule_caching n).
Proof. unfold chunk_schedule_caching. space. Qed.
Lemma spaced_killable n : spaced (down_killable n).
Proof. unfold down_killable. space. Qed.
Lemma spaced_take_from_cache n : spaced (diff_area_take_chunk_from_cache n).
Proof.
  unfold diff_area_take_chunk_from_cache. space. apply spaced_on_area. intros ?.
  by destruct (chunk_state_check _ _).
Qed.
Lemma spaced_load_sync n r : spaced (chunk_load_sync n r).
Proof. unfold chunk_load_sync. space. Qed.
#[local] Hint Resolve spaced_caching spaced_killable spaced_take_from_cache spaced_load_sync : space.
Lemma spaced_load n : spaced (diff_area_load_chunk_from_storage n).
Proof. unfold diff_area_load_chunk_from_storage, chunk_load_diff, chunk_load_orig. space. Qed.
#[local] Hint Resolve spaced_load : space.
Lemma spaced_get_chunk ctx sector : spaced (diff_area_image_context_get_chunk ctx sector).
Proof.
  unfold diff_area_image_context_get_chunk, get_chunk_locked, diff_area_image_put_chunk. space.
Qed.
#[local] Hint Resolve spaced_get_chunk : space.

Lemma spaced_image_turn ctx v pos : spaced (image_turn ctx v pos).
Proof. unfold image_turn. space. Qed.
Lemma spaced_ctx_done ctx : spaced (diff_area_image_ctx_done ctx).
Proof. unfold diff_area_image_ctx_done, diff_area_image_put_chunk. space. Qed.
End space.
#[export] Hint Resolve spaced_image_turn spaced_ctx_done : space.

(** ** Reading the image *)

(** The first [k] bytes of the segment are the image's, the rest is as it was. *)
Record seg_read (s : sys) (img : Z → Z) (pos : Z) (v v' : bvec) (k : Z) : Prop := {
  sr_range : 0 ≤ k ≤ bv_left v;
  sr_left : bv_left v' = bv_left v - k;
  sr_pos : bv_pos v' = bv_pos v + k;
  sr_rest i : ¬ (bv_pos v ≤ i < bv_pos v + k) → bv_data v' i = bv_data v i;
  sr_data i : 0 ≤ i < k → in_area s (pos * SECTOR_SIZE + i) → ¬ excluded s (pos * SECTOR_SIZE + i) →
    bv_data v' (bv_pos v + i) = img (pos * SECTOR_SIZE + i);
}.

(** The segments after a read: some are read, at most one is read in part, the
    others are untouched; [complete] when all are read. *)
Fixpoint bio_read (s : sys) (img : Z → Z) (pos : Z) (segs segs' : list bvec) (complete : bool) : Prop :=
  match segs, segs' with
  | [], [] => True
  | v :: segs, v' :: segs' =>
      ∃ k, seg_read s img pos v v' k ∧
        if k =? bv_left v then bio_read s img (pos + k / SECTOR_SIZE) segs segs' complete
        else complete = false ∧ segs' = segs
  | _, _ => False
  end.

Definition seg_ok (v : bvec) : Prop := 0 ≤ bv_left v ∧ bv_left v mod SECTOR_SIZE = 0.

Lemma seg_read_refl s img pos v : seg_ok v → seg_read s img pos v v 0.
Proof. intros [? ?]. split; intros; try done; lia. Qed.

Lemma seg_read_space s s' img pos v v' k :
  same_space s s' → seg_read s img pos v v' k → seg_read s' img pos v v' k.
Proof.
  intros H [? ? ? ? D]. split; try done. intros i Hi Hin Hex. apply D; [done| |].
  - by eapply same_space_in_area.
  - by rewrite <- (same_space_excluded _ _ _ H).
Qed.

Lemma bio_read_untouched s img pos segs : Forall seg_ok segs → bio_read s img pos segs segs false.
Proof.
  intros H. revert pos. induction H as [|v segs Hv _ IH]; intros pos; cbn [bio_read]; [done|].
  exists 0. split; [by apply seg_read_refl|]. by destruct (_ =? _).
Qed.

Lemma bio_read_space s s' img pos segs segs' b :
  same_space s s' → bio_read s img pos segs segs' b → bio_read s' img pos segs segs' b.
Proof.
  intros H. revert pos segs'. induction segs as [|v segs IH]; intros pos [|v' segs']; cbn; try done.
  intros (k & Hk & Hr). exists k. split; [by eapply seg_read_space|]. destruct (k =? bv_left v); eauto.
Qed.

(** A turn delivers a piece, and the loop goes on behind it. *)
Lemma seg_read_trans s img pos pos' v v1 v2 k :
  seg_ok v → delivered s img v v1 pos pos' →
  seg_read s img pos' v1 v2 k → seg_read s img pos v v2 (bv_left v - bv_left v1 + k) ∧ seg_ok v1 ∧
    pos' = pos + (bv_left v - bv_left v1) / SECTOR_SIZE.
Proof.
  intros [Hv Hm] (Hk & Hp & Hal & Ho & Hd) [R1 R2 R3 R4 R5]. destruct (Hal Hm) as [Hkm Hpos].
  set (j := bv_left v - bv_left v1) in *.
  assert (Ej : j = SECTOR_SIZE * (j / SECTOR_SIZE)) by (by apply Z.div_exact).
  split; [|split; [split; [lia|]|done]].
  - split; try lia.
    + intros i Hi. rewrite R4 by lia. apply Ho. lia.
    + intros i Hi Hin Hex. destruct (decide (i < j)) as [Hij|Hij].
      * rewrite R4 by lia. apply Hd; [lia|done..].
      * replace (bv_pos v + i) with (bv_pos v1 + (i - j)) by lia.
        assert (Ea : pos * SECTOR_SIZE + i = pos' * SECTOR_SIZE + (i - j)) by (rewrite Hpos; lia).
        rewrite Ea in *. apply R5; [lia|done..].
  - replace (bv_left v1) with (bv_left v - j) by lia. by rewrite Zminus_mod, Hm, Hkm.
Qed.

Section read.
Context {P : ModuleParams}.

Definition io_read_ok (s : sys) (img : Z → Z) (v : bvec) (pos : Z)
    (r : blk_status * diff_area_image_ctx * bvec * Z) (s' : sys) : Prop :=
  let '(st, ctx', v', pos') := r in
  same_space s s' ∧
  (corrupt_flag (area s') = true ∨
   (cow_ok s' img ctx' ∧ ctx_is_write ctx' = false ∧ ∃ k, seg_read s' img pos v v' k ∧ pos' = pos + k / SECTOR_SIZE ∧
      (st = BLK_STS_OK → k = bv_left v))).

Lemma io_read_stop s s' img st ctx v pos :
  same_space s s' → cow_ok s' img ctx ∨ corrupt_flag (area s') = true → ctx_is_write ctx = false →
  seg_ok v → (st = BLK_STS_OK → bv_left v = 0) → io_read_ok s img v pos (st, ctx, v, pos) s'.
Proof.
  intros Hs C Hw Hv Hst. split; [done|]. destruct C as [C|C]; [right|by left].
  split; [done|]. split; [done|]. exists 0. split; [by apply seg_read_refl|].
  split; [change (0 / SECTOR_SIZE) with 0; lia|]. intros E. by rewrite Hst.
Qed.

Lemma io_read_step s s1 s2 img v v1 pos pos1 r :
  same_space s s1 → seg_ok v → delivered s1 img v v1 pos pos1 →
  io_read_ok s1 img v1 pos1 r s2 → io_read_ok s img v pos r s2.
Proof.
  destruct r as [[[st ctx] v'] pos']. intros Hs Hv Hd (H1 & H2). split; [by rewrite Hs|].
  destruct H2 as [?|(C & Hw & k & Hk & Hp & Hst)]; [by left|right]. split; [done|]. split; [done|].
  assert (Hd2 : delivered s2 img v v1 pos pos1).
  { destruct Hd as (? & ? & ? & ? & D). split_and!; try done; try lia. intros i Hi Hin Hex.
    apply D; [done|by eapply same_space_in_area|by rewrite <- (same_space_excluded _ _ _ H1)]. }
  destruct (seg_read_trans _ _ _ _ _ _ _ _ Hv Hd2 Hk) as (Hr & [_ Hv1] & Hp1). destruct Hv as [_ Hv].
  exists (bv_left v - bv_left v1 + k). split; [done|].
  assert (Hj : (bv_left v - bv_left v1) mod SECTOR_SIZE = 0) by (by rewrite Zminus_mod, Hv, Hv1).
  split; [|intros; rewrite Hst by done; lia]. rewrite Hp, Hp1.
  rewrite (proj2 (Z.div_exact (bv_left v - bv_left v1) SECTOR_SIZE ltac:(done)) Hj).
  rewrite (Z.mul_comm SECTOR_SIZE), Z.div_mul, Z.div_add_l by done. lia.
Qed.

Lemma spaced_image_io_loop fuel ctx v pos : spaced (image_io_loop fuel ctx v pos).
Proof. revert ctx v pos. induction fuel as [|fuel IH]; intros; cbn [image_io_loop]; space. Qed.

Lemma image_io_loop_corrupted fuel s s1 img ctx v v1 pos pos1 :
  same_space s s1 → corrupt_flag (area s1) = true →
  wp (image_io_loop fuel ctx v1 pos1) s1 (io_read_ok s img v pos).
Proof.
  intros H1 Hc. eapply wp_mono; [apply spaced_image_io_loop|]. intros [[[st ctx'] v'] pos'] s2 H2.
  split; [by rewrite H1|]. left. by apply (sp_corrupt _ _ H2).
Qed.

Lemma image_turn_status ctx v pos s :
  wp (image_turn ctx v pos) s (λ r _, r.1.1.1 ≠ Some BLK_STS_OK).
Proof.
  unfold image_turn. wp_step. apply wp_eq. intros [[n|e|] ctx1] s1 _; wp_steps; try done.
  unfold getc. wp_steps. destruct (chunk_buffer _) as [b|]; unfold null_dereference, modc, on_area;
    [destruct (image_copy _ _ _ _ _ _) as [[b' v'] pos']|]; by wp_steps.
Qed.

Lemma delivered_next s img v v' pos pos' :
  seg_ok v → 0 ≤ pos → delivered s img v v' pos pos' → seg_ok v' ∧ 0 ≤ pos'.
Proof.
  intros [Hv Hm] Hp (Hk & _ & Hal & _). destruct (Hal Hm) as [Hkm ->].
  set (j := bv_left v - bv_left v') in *.
  split; [split; [lia|]|pose proof (Z.div_pos j SECTOR_SIZE ltac:(lia) ltac:(done)); lia].
  replace (bv_left v') with (bv_left v - j) by lia. by rewrite Zminus_mod, Hm, Hkm.
Qed.

Lemma image_io_loop_read fuel s img ctx v pos :
  cow_ok s img ctx → corrupt_flag (area s) = false → ctx_is_write ctx = false → 0 ≤ pos → seg_ok v →
  wp (image_io_loop fuel ctx v pos) s (io_read_ok s img v pos).
Proof.
  revert s ctx v pos. induction fuel as [|fuel IH]; intros s ctx v pos C Hx Hw Hpos Hv; simpl;
    (destruct (Z.eqb_spec (bv_left v) 0) as [E|E]; [wp_steps; by apply io_read_stop; auto|]).
  { wp_steps. by apply io_read_stop; auto. }
  wp_step. apply wp_eq. intros [[[st ctx1] v1] pos1] s1 E1.
  pose proof (wp_run _ _ _ _ _ (spaced_image_turn ctx v pos s) E1) as Hs1. cbv beta in Hs1.
  assert (Hl : 0 < bv_left v) by (destruct Hv; lia).
  destruct (wp_run _ _ _ _ _ (image_turn_spec s img ctx v pos C Hx Hpos Hl) E1) as [Hw1 H1].
  destruct (corrupt_flag (area s1)) eqn:Hx1.
  { destruct st as [st|]; [|by apply image_io_loop_corrupted]. wp_steps. split; [done|by left]. }
  destruct H1 as [?|(C1 & _ & H1)]; [done|]. unfold img_after in C1. rewrite Hw in *.
  destruct st as [st|].
  { destruct H1 as [-> ->]. wp_steps. apply io_read_stop; auto. intros ->.
    by destruct (wp_run _ _ _ _ _ (image_turn_status ctx v pos s) E1). }
  specialize (H1 eq_refl). destruct (delivered_next _ _ _ _ _ _ Hv Hpos H1) as [Hv1 Hp1].
  eapply wp_mono; [by apply IH|]. intros r s2. by apply io_read_step.
Qed.

Lemma spaced_segments ctx pos segs : spaced (process_segments ctx pos segs).
Proof.
  revert ctx pos. induction segs as [|v segs IH]; intros; cbn [process_segments]; space.
  apply spaced_image_io_loop.
Qed.

(** The segments of a bio, in order. *)
Lemma process_segments_read segs s img ctx pos :
  cow_ok s img ctx → corrupt_flag (area s) = false → ctx_is_write ctx = false → 0 ≤ pos →
  Forall seg_ok segs →
  wp (process_segments ctx pos segs) s (λ '(st, ctx', segs') s',
    same_space s s' ∧
    (corrupt_flag (area s') = true ∨
     (cow_ok s' img ctx' ∧ ctx_is_write ctx' = false ∧
      bio_read s' img pos segs segs' (bool_decide (st = BLK_STS_OK))))).
Proof.
  revert s ctx pos. induction segs as [|v segs IH]; intros s ctx pos C Hx Hw Hpos Hv; cbn [process_segments].
  { wp_steps. split; [done|]. by right. }
  inversion_clear Hv as [|? ? Hv1 Hv2]. wp_step. eapply wp_mono; [by apply image_io_loop_read|].
  intros [[[st ctx1] v1] pos1] s1 [Hs1 H1]. destruct (corrupt_flag (area s1)) eqn:Hx1.
  { destruct st; wp_steps; try (split; [done|by left]).
    eapply wp_mono; [apply spaced_segments|]. intros [[st ctx2] segs'] s2 Hs2. wp_steps.
    split; [by rewrite Hs1|]. left. by apply (sp_corrupt _ _ Hs2). }
  destruct H1 as [?|(C1 & Hw1 & k & Hk & -> & Hst)]; [done|].
  destruct st; wp_steps.
  - eapply wp_mono; [apply (IH s1); try done|].
    { pose proof (Z.div_pos k SECTOR_SIZE ltac:(apply Hk) ltac:(done)). lia. }
    intros [[st ctx2] segs'] s2 [Hs2 H2]. wp_steps. split; [by rewrite Hs1|].
    destruct H2 as [?|(C2 & Hw2 & H2)]; [by left|right]. split_and!; try done.
    exists k. split; [by eapply seg_read_space|]. by rewrite (Hst eq_refl), Z.eqb_refl in *.
  - split; [done|]. right. split_and!; try done. exists k. split; [done|].
    destruct (_ =? _); [by apply bio_read_untouched|done].
  - split; [done|]. right. split_and!; try done. exists k. split; [done|].
    destruct (_ =? _); [by apply bio_read_untouched|done].
Qed.

Lemma idle_ctx s img ctx wr :
  cow_ok s img ctx → ctx_chunk ctx = None → cow_ok s img (diff_area_image_ctx_init wr).
Proof.
  intros [? ? Hc ? ? ?] Hn. split; try done. intros n c Hc'. change (role_of (diff_area_image_ctx_init wr) n) with (@None bool).
  rewrite <- (role_no_chunk ctx n Hn). by apply Hc.
Qed.

Lemma ctx_done_spec s img ctx :
  cow_ok s img ctx → corrupt_flag (area s) = false →
  wp (diff_area_image_ctx_done ctx) s (λ _ s',
    cow_ok s' img (no_chunk ctx) ∧ corrupt_flag (area s') = false).
Proof.
  intros C Hx. unfold diff_area_image_ctx_done. destruct (ctx_chunk ctx) as [n|] eqn:Hn.
  - eapply wp_mono; [by apply put_ctx_spec|]. by intros [] s' (? & _ & ?).
  - wp_steps. split; [by eapply idle_ctx|done].
Qed.

End read.

(** ** The references of an image *)

Definition image_of (i a c : Z) (m : cbt_map) : snapimage :=
  {| img_capacity := device_capacity m; img_queue := []; img_disk := i; img_diff_area := a;
     img_cbt_map := c |}.

(** The state with one more image, which holds a reference to its area and to its
    map, up to the kernel's part and the fresh pointers. *)
Record with_image (s s' : modst) (i a c : Z) (da : diff_area) (st : Z) (m : cbt_map) : Prop := {
  wi_images : snapimages s' = <[i := image_of i a c m]> (snapimages s);
  wi_areas : areas s' = <[a := ({| da with area_kref := area_kref da + 1 |}, st)]> (areas s);
  wi_cbt : cbt_maps s' = <[c := cbt_map_get m]> (cbt_maps s);
  wi_memory : mem_delta (mkern s) (mkern s') memory_object_snapimage 1;
  wi_broken : broken s' = broken s;
}.

Record same_objects (s s' : modst) : Prop := {
  so_images : snapimages s' = snapimages s;
  so_areas : areas s' = areas s;
  so_cbt : cbt_maps s' = cbt_maps s;
  so_memory : mem_delta (mkern s) (mkern s') memory_object_snapimage 0;
  so_broken : broken s' = broken s;
}.

Section refs.
Context {P : ModuleParams}.

Lemma snapimage_create_spec a c s da st m :
  areas s !! a = Some (da, st) → cbt_maps s !! c = Some m →
  wp (snapimage_create a c) s (λ r s',
    match r with
    | Ok i => i = next_ptr s ∧ with_image s s' i a c da st m
    | Err e => e < 0 ∧ (same_objects s s' ∨ with_image s s' (next_ptr s) a c da st m)
    end).
Proof.
  intros Ha Hc. unfold snapimage_create, in_kern. wp_run_steps. apply wp_alloc. intros ok vs.
  destruct ok; cbn [negb]; wp_run_steps.
  2:{ split; [done|left]. split; try done. unfold mem_delta. simpl. lia. }
  rewrite Hc. wp_run_steps. apply wp_oracle. intros v vs'. modst_simpl.
  destruct (Z.eqb_spec v 0); cbn [negb]; wp_run_steps.
  2:{ split; [lia|left]. split; try done. unfold mem_delta. simpl. rewrite !upd_eq. lia. }
  apply wp_alloc. intros ok' vs2. destruct ok'; cbn [negb]; wp_run_steps.
  2:{ split; [done|left]. split; try done. unfold mem_delta. simpl. rewrite !upd_eq. lia. }
  unfold new_ptr, area_get, cbt_get. wp_run_steps. apply wp_oracle. intros r vs3. modst_simpl.
  rewrite (alter_lookup_Some _ _ _ _ Ha), (alter_lookup_Some _ _ _ _ Hc).
  destruct (Z.eqb_spec r 0); cbn [negb]; wp_run_steps; (split; [done || lia|]); [|right];
    split; try done; unfold mem_delta; simpl; rewrite upd_eq; lia.
Qed.

Lemma area_put_spec a s da st :
  areas s !! a = Some (da, st) → 1 < area_kref da →
  wp (area_put (Some a)) s (λ _ s',
    s' = {| s with areas := <[a := ({| da with area_kref := area_kref da - 1 |}, st)]> (areas s) |}).
Proof.
  intros Ha Hk. unfold area_put. wp_run_steps. cbn [id]. rewrite Ha.
  set (r := (diff_area_put _).2).
  assert (Er : r = {| area := {| da with area_kref := area_kref da - 1 |};
    storage := default diff_storage_zero (storages s !! st); kern := mkern s; oops := false; hung := false |}).
  { unfold r, diff_area_put, mbind, M_mbind, on_area, modify, gets, when. cbn.
    by rewrite (proj2 (Z.eqb_neq _ _)) by lia. }
  rewrite Er. cbn [area kern area_kref]. rewrite (proj2 (Z.eqb_neq _ _)) by lia. wp_run_steps. by destruct s.
Qed.

Lemma cbt_put_spec c s m :
  cbt_maps s !! c = Some m → 1 < kref m →
  wp (cbt_put (Some c)) s (λ _ s',
    s' = {| s with cbt_maps := <[c := {| m with kref := kref m - 1 |}]> (cbt_maps s) |}).
Proof.
  intros Hc Hk. unfold cbt_put, in_kern, cbt_map_put. wp_run_steps. rewrite Hc. wp_run_steps.
  rewrite (proj2 (Z.eqb_neq _ _)) by lia. wp_run_steps. by destruct s.
Qed.

(** C27: creating an image and freeing it gives back every reference. If
    [snapimage_create] succeeds, the image is found under its pointer with the
    capacity the map has, one reference to its area and one to its map; when
    [snapimage_free] removes it, the images, the areas and the maps with all their
    reference counts, and the count of image objects, are what they were before. *)
Theorem snapimage_create_free a c s da st m :
  areas s !! a = Some (da, st) → cbt_maps s !! c = Some m → 1 ≤ area_kref da → 1 ≤ kref m →
  snapimages s !! next_ptr s = None →
  wp (snapimage_create a c) s (λ r s1, ∀ i, r = Ok i →
    with_image s s1 i a c da st m ∧ wp (snapimage_free i) s1 (λ _ s2, same_objects s s2)).
Proof.
  intros Ha Hc Hka Hkc Hnew. eapply wp_mono; [by apply snapimage_create_spec|].
  intros r s1 H i ->. destruct H as [-> W]. split; [done|]. destruct W as [Wi Wa Wc Wm Wb].
  unfold snapimage_free, snapimage_free_disk. wp_step. wp_step. rewrite Wi, lookup_insert_eq.
  cbn [image_of img_queue length snapimage_kthread_worker_fn]. wp_step. wp_step. wp_step. wp_step.
  rewrite Wi, lookup_insert_eq. cbn [image_of img_diff_area img_cbt_map]. wp_step.
  eapply wp_mono; [eapply area_put_spec; [rewrite Wa; apply lookup_insert_eq|cbn; lia]|].
  intros [] s2 ->. wp_step. eapply wp_mono; [eapply cbt_put_spec; [cbn; rewrite Wc; apply lookup_insert_eq|cbn; lia]|].
  intros [] s3 ->. unfold in_kern. wp_run_steps. split; modst_simpl.
  - rewrite Wi. by apply delete_insert_id.
  - rewrite Wa, insert_insert_eq. apply insert_id. rewrite Ha. do 2 f_equal. destruct da; cbn. f_equal. lia.
  - rewrite Wc, insert_insert_eq. apply insert_id. rewrite Hc. f_equal. destruct m; cbn. f_equal. lia.
  - unfold mem_delta in *. simpl. rewrite upd_eq. lia.
  - done.
Qed.
End refs.

(** ** Examples on the small area of CowSafety *)

Definition ex_read_bio : image_bio :=
  {| ib_write := false; ib_sector := 0; ib_segments := [ex_bvec; ex_bvec] |}.

Definition ex_process (oracle : list Z) : bio_result :=
  (snapimage_process_bio (P:=default_params) ex_read_bio (cw_sys (ex_cow oracle))).1.

Definition first_bytes (r : bio_result) : list Z :=
  match r with Ended _ segs => (λ v, bv_data v 5) <$> segs | Waiting => [] end.


(** An error while the image is read is never reported. Whatever happens, a bio
    that [snapimage_process_bio] ends is ended as successful; when the first chunk
    cannot be read because there is no memory, the reader is told that the read
    succeeded and finds the bytes that were in its buffer before. *)
Theorem snapimage_errors_unreported :
  (∀ (P : ModuleParams) bio s, wp (snapimage_process_bio bio) s (λ r _,
     match r with Ended st _ => st = BLK_STS_OK | Waiting => True end)) ∧
  ex_process [1] = Ended BLK_STS_OK (ib_segments ex_read_bio) ∧
  first_bytes (ex_process [1]) ≠ first_bytes (ex_process []).
Proof.
  split; [|split; [vm_compute; reflexivity|vm_compute; discriminate]].
  intros P bio s. unfold snapimage_process_bio. wp_step. apply wp_eq. intros [[st ctx] segs] s1 _.
  destruct st; wp_steps; try done; apply wp_eq; intros [] s2 _; by wp_steps.
Qed.

(** A module with one area, at 102, and one change tracking map, at 101. *)
Definition ex_image_state (oracle : list Z) : modst :=
  {| mkern := {| world0 with w_oracle := oracle |};
     devices := λ _, {| dev_ptr := 50; dev_sectors := 500; dev_io_min := 512 |};
     bdev_extension_list := []; trackers := ∅; tracked_device_list := []; tracker_release_list := [];
     trackers_counter := 1; cbt_maps := {[ 101 := ex_cbt 2 1 [2; 1; 0; 1] ]};
     areas := {[ 102 := (ex_area, 103) ]}; storages := {[ 103 := ex_storage ]}; snapimages := ∅;
     snapshot_objs := ∅; links := ∅; fs_frozen := λ _, 0; next_ptr := 200; broken := false;
     stuck := false |}.

Lemma snapimage_create_free_witness :
  let s := ex_image_state [] in
  let s1 := (snapimage_create 102 101 s).2 in
  (snapimage_create 102 101 s).1 = Ok 200 ∧
  same_objects s (snapimage_free (P:=default_params) 200 s1).2.
Proof.
  intros s s1. assert (E : (snapimage_create 102 101 s).1 = Ok 200) by (vm_compute; reflexivity).
  split; [exact E|].
  assert (Hk : 1 ≤ area_kref ex_area) by (cbn; lia).
  assert (Hc : 1 ≤ kref (ex_cbt 2 1 [2; 1; 0; 1])) by (cbn; lia).
  exact (proj2 (snapimage_create_free (P:=default_params) 102 101 s ex_area 103 (ex_cbt 2 1 [2; 1; 0; 1])
    eq_refl eq_refl Hk Hc eq_refl 200 E)).
Defined.

(** When the disk cannot be added, [snapimage_create] returns the error but
    keeps the image object and the references it has taken: the count of image
    objects, the area's and the map's reference counts stay raised, and nothing
    will lower them, so the area is never freed. *)
Theorem snapimage_create_leaks :
  let s := ex_image_state [0; 0; 0; 5] in
  let s' := (snapimage_create 102 101 s).2 in
  (snapimage_create 102 101 s).1 = Err (- 5) ∧
  (area_kref <$> (fst <$> areas s' !! 102)) = Some 2 ∧ (kref <$> cbt_maps s' !! 101) = Some 2 ∧
  mem_delta (mkern s) (mkern s') memory_object_snapimage 1.
Proof. vm_compute. done. Qed.
