(* ===== verification/Tracker.v ===== *)
(** * Trackers (tracker.c, tracker.h)

    A tracker is the filter on a block device: it records changes in the change
    tracking map and, while a snapshot is taken, has the difference area save the
    data a write is about to overwrite. *)
From S2P Require Import Prelude MemoryChecker Kernel Uapi EventQueue CbtMap DiffBuffer DiffIo.
From S2P Require Import DiffStorage Chunk DiffArea ChunkSpecs CowInv Cow State BdevFilter.

Section params.
Context {P : ModuleParams}.

(** ** tracker.c *)

Definition tracker_free (t : Z) : G unit :=
  tr ← get_tracker t;
  match tr with
  | None => broken_pointer
  | Some tr =>
      area_put (tr_diff_area tr);;
      cbt_put (tr_cbt_map tr);;
      modify (λ s, {| s with trackers := delete t (trackers s);
                             trackers_counter := trackers_counter s - 1 |});;
      in_kern (memory_object_dec memory_object_tracker)
  end.

Definition tracker_get_by_dev (bdev : block_device) : G (option Z) := bdev_filter_get_by_bdev bdev.

(** The bio as the filter sees it: [b_own] says that its [bi_end_io] is
    [diff_io_endio], [b_remapped] is the flag [BIO_REMAPPED] (the block layer has
    already turned [bi_sector] into a sector of the whole disk), and [b_start] is
    [bd_start_sect] of its device. *)
Record filter_bio := FilterBio {
  b_own : bool;
  b_write : bool;
  b_remapped : bool;
  b_start : Z;
  b_sector : Z;
  b_count : Z;
  b_nowait : bool;
  b_data : Z → Z;
}.

(** The first sector the bio touches, counted from the start of its device. *)
Definition bio_sector (bio : filter_bio) : Z :=
  if b_remapped bio then u64 (b_sector bio - b_start bio) else b_sector bio.

(** [tracker_submit_bio] up to the copy-on-write: the bio passes, or it becomes
    a task of the protocol of Cow.v, at the start of [diff_area_copy]. *)
Definition tracker_submit_bio (bio : filter_bio) (t : Z) : G (filtered (Z * writer)) :=
  if b_own bio then mret ToDevice
  else if negb (b_write bio) then mret ToDevice
  else if b_count bio =? 0 then mret ToDevice
  else
    s ← gets id;
    match trackers s !! t with
    | None => broken_pointer;; mret ToDevice
    | Some tr =>
        match tr_cbt_map tr ≫= λ p, pair p <$> cbt_maps s !! p with
        | None => broken_pointer;; mret ToDevice
        | Some (p, m) =>
            match cbt_map_set m (bio_sector bio) (b_count bio) with
            | None => broken_pointer;; mret ToDevice
            | Some (err, m) =>
                modify (λ s, {| s with cbt_maps := <[p := m]> (cbt_maps s) |});;
                if negb (err =? 0) || negb (snapshot_is_taken tr) then mret ToDevice
                else
                  match tr_diff_area tr ≫= λ a, pair a <$> areas s !! a with
                  | None => broken_pointer;; mret ToDevice
                  | Some (a, (da, _)) =>
                      if diff_area_is_corrupted da then mret ToDevice
                      else
                        mret (Held (a, {| wr_sector := bio_sector bio; wr_count := b_count bio;
                          wr_nowait := b_nowait bio; wr_data := b_data bio;
                          wr_phase := PCopy (round_down (bio_sector bio) (diff_area_chunk_sectors da));
                          wr_plug := [] |}))
                  end
            end
        end
    end.

(** [tracker_release_work]: the worker frees the trackers that wait. *)
Fixpoint release_loop (l : list Z) : G unit :=
  match l with
  | [] => skip
  | t :: l => tracker_free t;; release_loop l
  end.
Definition tracker_release_work : G unit :=
  l ← gets tracker_release_list;
  modify (λ s, {| s with tracker_release_list := [] |});;
  release_loop l.

Definition tracker_put (t : option Z) : G unit := bdev_filter_put t.

Definition tracker_filter_attach (bdev : block_device) (t : Z) : G Z :=
  err ← freeze_bdev (bd_dev bdev);
  when (err =? 0) (mod_tracker t (λ t, {| t with is_frozen := true |}));;
  ret ← bdev_filter_attach bdev t;
  when (err =? 0)
    (mod_tracker t (λ t, {| t with is_frozen := false |});;
     _ ← thaw_bdev (bd_dev bdev);
     skip);;
  mret ret.

Definition tracker_filter_detach (bdev : block_device) : G unit :=
  err ← freeze_bdev (bd_dev bdev);
  bdev_filter_detach bdev;;
  when (err =? 0) (_ ← thaw_bdev (bd_dev bdev); skip).

(** The outer [None]: the block-size loop of the map does not end. *)
Definition tracker_new (bdev : block_device) : G (option (result Z)) :=
  ok ← in_kern alloc;
  if negb ok then mret (Some (Err (- ENOMEM)))
  else
    in_kern (memory_object_inc memory_object_tracker);;
    t ← new_ptr;
    modify (λ s, {| s with trackers_counter := trackers_counter s + 1;
      trackers := <[t := {| flt_kref := 1; submit_lock := false; tr_dev_id := bd_dev bdev;
                            snapshot_is_taken := false; tr_cbt_map := None; tr_diff_area := None;
                            is_frozen := false |}]> (trackers s) |});;
    s ← gets id;
    c ← in_kern (cbt_map_create (dev_sectors (devices s (bd_dev bdev))));
    match c with
    | None => mret None
    | Some None => tracker_put (Some t);; mret (Some (Err (- ENOMEM)))
    | Some (Some m) =>
        p ← new_ptr;
        modify (λ s, {| s with cbt_maps := <[p := m]> (cbt_maps s) |});;
        mod_tracker t (λ t, {| t with tr_cbt_map := Some p; is_frozen := false |});;
        ret ← tracker_filter_attach bdev t;
        if negb (ret =? 0) then tracker_put (Some t);; mret (Some (Err ret))
        else mret (Some (Ok t))
    end.

(** The tracker's map, for functions that only run when it is there. *)
Definition tracker_cbt (t : Z) : G (option (Z * cbt_map)) :=
  gets (λ s, tr ← trackers s !! t; p ← tr_cbt_map tr; pair p <$> cbt_maps s !! p).
Definition set_cbt (p : Z) (m : cbt_map) : G unit :=
  modify (λ s, {| s with cbt_maps := <[p := m]> (cbt_maps s) |}).

(** The error path returns with the queue still frozen. *)
Definition tracker_take_snapshot (t : Z) : G Z :=
  s ← gets id;
  match tr ← trackers s !! t; a ← tr_diff_area tr; areas s !! a with
  | None => broken_pointer;; mret 0
  | Some (da, _) =>
      bdevfilter_freeze_queue t;;
      c ← tracker_cbt t;
      match c with
      | None => broken_pointer;; mret 0
      | Some (p, m) =>
          let capacity := dev_sectors (devices s (orig_bdev da)) in
          let cbt_reset_needed := is_corrupted m || negb (device_capacity m =? capacity) in
          r ← (if cbt_reset_needed then in_kern (cbt_map_reset m capacity)
               else mret (Some (0, m)));
          match r with
          | None => broken_pointer;; mret 0
          | Some (ret, m) =>
              set_cbt p m;;
              if negb (ret =? 0) then mret ret
              else
                m ← in_kern (cbt_map_switch m);
                match m with
                | None => broken_pointer;; mret 0
                | Some m =>
                    set_cbt p m;;
                    mod_tracker t (λ t, {| t with snapshot_is_taken := true |});;
                    bdevfilter_unfreeze_queue t;;
                    mret 0
                end
          end
      end
  end.

Definition tracker_release_snapshot (t : Z) : G unit :=
  bdevfilter_freeze_queue t;;
  mod_tracker t (λ t, {| t with snapshot_is_taken := false |});;
  bdevfilter_unfreeze_queue t.

Definition tracker_init : G Z :=
  modify (λ s, {| s with tracker_release_list := [] |});; mret 0.

(** The result is the pointer, an error, or [None] when the map's block-size loop
    does not end. *)
Definition tracker_create_or_get (dev_id : Z) : G (option (result Z)) :=
  b ← open_bdev dev_id;
  match b with
  | Err e => mret (Some (Err e))
  | Ok bdev =>
      t ← tracker_get_by_dev bdev;
      r ← (match t with
           | Some t => mret (Some (Ok t))
           | None =>
               ok ← in_kern alloc;
               if negb ok then mret (Some (Err (- ENOMEM)))
               else
                 in_kern (memory_object_inc memory_object_tracked_device);;
                 r ← tracker_new bdev;
                 match r with
                 | None => mret None
                 | Some (Err e) =>
                     in_kern (memory_object_dec memory_object_tracked_device);;
                     mret (Some (Err e))
                 | Some (Ok t) =>
                     bdev_filter_get t;;
                     modify (λ s, {| s with tracked_device_list := tracked_device_list s ++ [dev_id] |});;
                     mret (Some (Ok t))
                 end
           end);
      close_bdev bdev;;
      mret r
  end.

(** Remove the first entry of a device from the list of tracked devices. *)
Fixpoint remove_first (d : Z) (l : list Z) : option (list Z) :=
  match l with
  | [] => None
  | x :: l => if x =? d then Some l else cons x <$> remove_first d l
  end.

(** [None]: the variable [ret] has no value when the tracker was removed. *)
Definition tracker_remove (dev_id : Z) : G (option Z) :=
  b ← open_bdev dev_id;
  match b with
  | Err _ => ret ← lp_bdev_filter_detach dev_id; mret (Some ret)
  | Ok bdev =>
      t ← tracker_get_by_dev bdev;
      ret ← (match t with
             | None => mret (Some (- ENODATA))
             | Some t =>
                 tr ← get_tracker t;
                 ret ← (match tr with
                        | None => broken_pointer;; mret None
                        | Some tr =>
                            if snapshot_is_taken tr then mret (Some (- EBUSY))
                            else
                              tracker_filter_detach bdev;;
                              l ← gets tracked_device_list;
                              (match remove_first dev_id l with
                               | None => skip
                               | Some l =>
                                   modify (λ s, {| s with tracked_device_list := l |});;
                                   in_kern (memory_object_dec memory_object_tracked_device)
                               end);;
                              mret None
                        end);
                 tracker_put (Some t);;
                 mret ret
             end);
      close_bdev bdev;;
      mret ret
  end.

(** [tracker_done]: the devices are taken off the list one by one. Waiting for the
    release worker changes nothing. *)
Fixpoint done_loop (l : list Z) : G unit :=
  match l with
  | [] => skip
  | d :: l =>
      modify (λ s, {| s with tracked_device_list := l |});;
      _ ← tracker_remove d;
      in_kern (memory_object_dec memory_object_tracked_device);;
      done_loop l
  end.
Definition tracker_done : G unit :=
  l ← gets tracked_device_list;
  done_loop l.

(** [tracker_read_cbt_bitmap]: the return value ([int] of a [size_t]) and the
    bytes copied to the user. *)
Definition tracker_read_cbt_bitmap (dev_id offset length : Z) : G (option (Z * list Z)) :=
  b ← open_bdev dev_id;
  match b with
  | Err e => mret (Some (e, []))
  | Ok bdev =>
      t ← tracker_get_by_dev bdev;
      ret ← (match t with
             | None => mret (Some (- ENODATA, []))
             | Some t =>
                 tr ← get_tracker t;
                 c ← tracker_cbt t;
                 ret ← (match tr, c with
                        | Some tr, Some (_, m) =>
                            if snapshot_is_taken tr then in_kern (cbt_map_read_to_user m offset length)
                            else mret (Some (- EPERM, []))
                        | _, _ => broken_pointer;; mret None
                        end);
                 tracker_put (Some t);;
                 mret ret
             end);
      close_bdev bdev;;
      mret ret
  end.

(** [collect_cbt_info]: the entry as the call leaves it. A block size that is not
    an [int] is left as 0 here. *)
Definition collect_cbt_info (dev_id : Z) (info : blk_snap_cbt_info) : G blk_snap_cbt_info :=
  b ← open_bdev dev_id;
  match b with
  | Err _ => mret info
  | Ok bdev =>
      t ← tracker_get_by_dev bdev;
      info ← (match t with
              | None => mret info
              | Some t =>
                  c ← tracker_cbt t;
                  tracker_put (Some t);;
                  mret (match c with
                        | None => info
                        | Some (_, m) =>
                            {| info with
                               ci_device_capacity := u64 (Z.shiftl (device_capacity m) SECTOR_SHIFT);
                               ci_blk_size := u32 (default 0 (cbt_map_blk_size m));
                               ci_blk_count := u32 (blk_count m);
                               ci_snap_number := u8 (snap_number_previous m);
                               ci_generation_id := generation_id m |}
                        end)
              end);
      close_bdev bdev;;
      mret info
  end.

Fixpoint collect_infos (infos : list blk_snap_cbt_info) : G (list blk_snap_cbt_info) :=
  match infos with
  | [] => mret []
  | i :: infos =>
      i ← collect_cbt_info (MKDEV (mj (ci_dev_id i)) (mn (ci_dev_id i))) i;
      infos ← collect_infos infos;
      mret (i :: infos)
  end.

Definition cbt_info_of (dev_id : Z) : blk_snap_cbt_info :=
  {| ci_dev_id := {| mj := MAJOR dev_id; mn := MINOR dev_id |}; ci_blk_size := 0;
     ci_device_capacity := 0; ci_blk_count := 0; ci_generation_id := 0; ci_snap_number := 0 |}.

(** [tracker_collect]: the return value, [*pcount] when it is written, and the
    entries written. [max_count] is [None] when no array is given. *)
Definition tracker_collect (max_count : option Z) : G (Z * option Z * list blk_snap_cbt_info) :=
  l ← gets tracked_device_list;
  match max_count with
  | None => mret (0, Some (lenZ l), [])
  | Some max_count =>
      if max_count <? lenZ l
      then mret (- ENOBUFS, None, cbt_info_of <$> take (Z.to_nat max_count) l)
      else
        infos ← collect_infos (cbt_info_of <$> l);
        mret (0, Some (lenZ l), infos)
  end.

Definition tracker_mark_dirty_blocks (dev_id : Z) (ranges : list blk_snap_block_range) : G (option Z) :=
  b ← open_bdev dev_id;
  match b with
  | Err e => mret (Some e)
  | Ok bdev =>
      t ← tracker_get_by_dev bdev;
      ret ← (match t with
             | None => mret (Some (- ENODEV))
             | Some t =>
                 c ← tracker_cbt t;
                 ret ← (match c with
                        | None => broken_pointer;; mret None
                        | Some (p, m) =>
                            match cbt_map_mark_dirty_blocks m ranges with
                            | None => broken_pointer;; mret None
                            | Some (ret, m) => set_cbt p m;; mret (Some ret)
                            end
                        end);
                 tracker_put (Some t);;
                 mret ret
             end);
      close_bdev bdev;;
      mret ret
  end.
End params.

(** ** Properties *)

(** The tracker's objects. *)
Record tracked (s : modst) (t : Z) (tr : tracker) (p : Z) (m : cbt_map) : Prop := {
  tk_tracker : trackers s !! t = Some tr;
  tk_ptr : tr_cbt_map tr = Some p;
  tk_cbt : cbt_maps s !! p = Some m;
}.

Definition bio_ok (bio : filter_bio) : Prop :=
  b_own bio = false ∧ b_write bio = true ∧ 0 ≤ bio_sector bio ∧ 0 < b_count bio ∧
  bio_sector bio + b_count bio ≤ 2 ^ 64.

Section proofs.
Context {P : ModuleParams}.

(** C10: no write escapes the tracker. For every write bio that another task
    submits to a tracked device whose change tracking map is intact,
    [tracker_submit_bio] marks every block of the range with at least the current
    change number, or marks the whole map as corrupted. If the range was recorded, a
    snapshot is taken and the area is not corrupted, the bio is held and enters the
    copy-on-write protocol as a task that starts with the chunk of its first sector;
    in every other case it passes to the device and the area is left alone. *)
Theorem tracker_write_recorded bio t s tr p m :
  bio_ok bio → tracked s t tr p m → cbt_wf m → is_corrupted m = false →
  (snapshot_is_taken tr = true → ∃ a da st, tr_diff_area tr = Some a ∧ areas s !! a = Some (da, st)) →
  wp (tracker_submit_bio bio t) s (λ r s',
    broken s' = broken s ∧ areas s' = areas s ∧ trackers s' = trackers s ∧
    ∃ m', cbt_maps s' = <[p := m']> (cbt_maps s) ∧
      (is_corrupted m' = false → ∀ b, in_blocks m (bio_sector bio) (b_count bio) b →
         0 ≤ b < blk_count m ∧ snap_number_active m ≤ table_at (write_map m') b) ∧
      match r with
      | Held (a, w) =>
          is_corrupted m' = false ∧ snapshot_is_taken tr = true ∧ tr_diff_area tr = Some a ∧
          wr_sector w = bio_sector bio ∧ wr_count w = b_count bio ∧ wr_nowait w = b_nowait bio ∧
          wr_plug w = [] ∧
          ∃ da st, areas s !! a = Some (da, st) ∧ corrupt_flag da = false ∧
            wr_phase w = PCopy (round_down (bio_sector bio) (diff_area_chunk_sectors da))
      | ToDevice =>
          is_corrupted m' = true ∨ snapshot_is_taken tr = false ∨
          ∃ a da st, tr_diff_area tr = Some a ∧ areas s !! a = Some (da, st) ∧ corrupt_flag da = true
      | _ => False
      end).
Proof.
  intros (Ho & Hw & H0 & Hc & Hov) [Ht Hp Hm] Hwf Hcor Ha. unfold tracker_submit_bio.
  rewrite Ho, Hw. cbn [negb]. rewrite (proj2 (Z.eqb_neq _ _)) by lia. wp_steps. cbn [id].
  rewrite Ht, Hp. cbn [mbind option_bind]. rewrite Hm. cbn [fmap option_fmap option_map].
  destruct (cbt_map_set_spec m (bio_sector bio) (b_count bio)) as (m' & -> & _ & Em & Hin & Htab); [done..|].
  assert (Hmark : is_corrupted m' = false → ∀ b, in_blocks m (bio_sector bio) (b_count bio) b →
    0 ≤ b < blk_count m ∧ snap_number_active m ≤ table_at (write_map m') b).
  { intros Hc' b [Hb1 Hb2]. pose proof (proj1 Hin Hc').
    pose proof (cbt_block_nonneg m (bio_sector bio) (wf_shift _ Hwf) H0). split; [lia|].
    rewrite Htab by lia. unfold marked.
    rewrite (proj2 (Z.leb_le _ _) Hb1), (proj2 (Z.leb_le _ _) Hb2). simpl. lia. }
  wp_steps. destruct (is_corrupted m') eqn:Ec.
  { cbn. wp_steps. split_and!; try done. exists m'. split_and!; [done|intros; congruence|by left]. }
  cbn [negb Z.eqb orb]. change (negb (0 =? 0)) with false. cbn [orb].
  destruct (snapshot_is_taken tr) eqn:Etk; cbn [negb].
  2:{ wp_steps. split_and!; try done. exists m'. split_and!; [done|(intros _; exact (Hmark eq_refl))|by right; left]. }
  destruct (Ha eq_refl) as (a & da & st & Ea & Eda). rewrite Ea. cbn [mbind option_bind].
  rewrite Eda. cbn [fmap option_fmap option_map]. unfold diff_area_is_corrupted.
  destruct (corrupt_flag da) eqn:Ecf; wp_steps; split_and!; try done; exists m'; split_and!; try done; try (intros _; exact (Hmark eq_refl)).
  - right. right. by exists a, da, st.
  - by exists da, st.
Qed.

(** When the change tracking map is corrupted, a write to a device under
    snapshot is let through without being saved and without the difference area
    being marked corrupted: the snapshot loses its data silently. *)
Theorem tracker_corrupted_map_skips_cow bio t s tr p m :
  bio_ok bio → tracked s t tr p m → is_corrupted m = true → snapshot_is_taken tr = true →
  wp (tracker_submit_bio bio t) s (λ r s', r = ToDevice ∧ areas s' = areas s).
Proof.
  intros (Ho & Hw & H0 & Hc & Hov) [Ht Hp Hm] Hcor Htk. unfold tracker_submit_bio.
  rewrite Ho, Hw. cbn [negb]. rewrite (proj2 (Z.eqb_neq _ _)) by lia. wp_steps. cbn [id].
  rewrite Ht, Hp. cbn [mbind option_bind]. rewrite Hm. cbn [fmap option_fmap option_map].
  unfold cbt_map_set. rewrite Hcor. wp_steps. by cbn.
Qed.

(** ** Taking a snapshot *)

Lemma freeze_spec t s tr :
  trackers s !! t = Some tr → submit_lock tr = false →
  wp (bdevfilter_freeze_queue t) s (λ _ s',
    s' = {| s with trackers := <[t := {| tr with submit_lock := true |}]> (trackers s) |}).
Proof.
  intros Ht Hl. unfold bdevfilter_freeze_queue, get_tracker, mod_tracker. wp_steps. rewrite Ht, Hl. wp_steps.
  by rewrite (alter_lookup_Some _ _ _ _ Ht).
Qed.

(** Taking a snapshot of a device switches its tables and starts the
    copy-on-write, and leaves the queue as it was. For a tracker with an area, an
    intact map of the device's present size and an unlocked queue,
    [tracker_take_snapshot] returns 0, the map is the one [cbt_map_switch] makes,
    the tracker filters writes for the snapshot, and bios pass the queue again. *)
Theorem tracker_take_snapshot_starts t s tr p m a da st :
  tracked s t tr p m → cbt_wf m → is_corrupted m = false → submit_lock tr = false →
  tr_diff_area tr = Some a → areas s !! a = Some (da, st) →
  device_capacity m = dev_sectors (devices s (orig_bdev da)) →
  wp (tracker_take_snapshot t) s (λ ret s',
    ret = 0 ∧ broken s' = broken s ∧
    trackers s' = <[t := {| tr with snapshot_is_taken := true |}]> (trackers s) ∧
    ∃ m', (cbt_map_switch m (mkern s)).1 = Some m' ∧ cbt_maps s' = <[p := m']> (cbt_maps s) ∧
      snap_number_previous m' = snap_number_active m).
Proof.
  intros [Ht Hp Hm] Hwf Hcor Hl Ea Eda Hcap. unfold tracker_take_snapshot. wp_run_steps. cbn [id].
  rewrite Ht. cbn [mbind option_bind]. rewrite Ea. cbn [mbind option_bind]. rewrite Eda. wp_step.
  eapply wp_mono; [by apply freeze_spec|]. intros [] s1 ->. unfold tracker_cbt. wp_run_steps. cbn [trackers cbt_maps].
  rewrite lookup_insert_eq. cbn [mbind option_bind tr_cbt_map]. rewrite Hp. cbn [mbind option_bind]. rewrite Hm.
  cbn [fmap option_fmap option_map]. rewrite Hcor, Hcap, Z.eqb_refl. cbn [negb orb]. wp_run_steps.
  change (negb (0 =? 0)) with false. cbv iota. unfold set_cbt, in_kern. wp_run_steps. cbn [mkern].
  apply wp_eq. intros r w E. pose proof (wp_run _ _ _ _ _ (cbt_map_switch_spec m (mkern s) Hwf) E) as
    (_ & m' & -> & _ & Hprev & _). wp_run_steps. unfold mod_tracker, bdevfilter_unfreeze_queue, mod_tracker. wp_run_steps.
  split; [done|]. split; [done|]. split.
  - cbn. apply map_eq. intros k. destruct (decide (k = t)) as [->|Hk].
    + rewrite !lookup_alter_eq, !lookup_insert_eq. destruct tr; cbn in *; by subst.
    + by rewrite !lookup_alter_ne, !lookup_insert_ne.
  - exists m'. rewrite E. split_and!; try done. cbn. by rewrite insert_insert_eq.
Qed.

Lemma cbt_map_reset_bio_list m capacity w :
  wp (cbt_map_reset m capacity) w (λ _ w', w_bio_list w' = w_bio_list w).
Proof.
  unfold cbt_map_reset, cbt_map_deallocate, when. wp_steps.
  assert (Ha : ∀ m w0, w_bio_list w0 = w_bio_list w →
    wp (cbt_map_allocate m) w0 (λ _ w', w_bio_list w' = w_bio_list w)).
  { intros m0 w0 <-. unfold cbt_map_allocate. destruct (read_map m0), (write_map m0); wp_steps; try done.
    apply vzalloc_spec; intros vs; [|intros _]; wp_steps; [done|].
    apply vzalloc_spec; intros vs'; [|intros _]; wp_steps; [done|]. apply wp_oracle. intros. by wp_steps. }
  destruct (read_map m), (write_map m); wp_steps;
    (destruct (cbt_map_calculate_block_size _); wp_steps; [|done]; wp_call Ha; by try (intros; wp_steps)).
Qed.

Lemma locked_filter_sleeps {A} (submit : Z → G (filtered A)) bdev e t tr s :
  bdev_extension_find_bdev (bd_ptr bdev) (bdev_extension_list s) = Some e → bd_filter e = Some t →
  trackers s !! t = Some tr → submit_lock tr = true → w_bio_list (mkern s) = None →
  (submit_bio_noacct_handler submit bdev false s).1 = Asleep.
Proof.
  intros He Hf Ht Hl Hb. change (wp (submit_bio_noacct_handler submit bdev false) s (λ r _, r = Asleep)).
  unfold submit_bio_noacct_handler, bdev_filters_apply, bdev_filter_get_by_bdev, bdev_filter_get,
    mod_tracker, get_tracker.
  wp_step. wp_step. rewrite Hb. wp_run_steps. rewrite He, Hf. wp_run_steps.
  rewrite lookup_alter_eq, Ht. cbn [fmap option_fmap option_map submit_lock]. rewrite Hl. by wp_steps.
Qed.

(** A snapshot that cannot be taken freezes its device. If the change
    tracking map has to be made again and that fails, [tracker_take_snapshot]
    returns an error with the filter's queue still locked: from then on every task
    that submits a bio to the device sleeps, and the snapshot is not taken. *)
Theorem tracker_take_failure_freezes t s tr p m a da st bdev e :
  tracked s t tr p m → submit_lock tr = false →
  tr_diff_area tr = Some a → areas s !! a = Some (da, st) →
  bdev_extension_find_bdev (bd_ptr bdev) (bdev_extension_list s) = Some e → bd_filter e = Some t →
  w_bio_list (mkern s) = None →
  wp (tracker_take_snapshot t) s (λ ret s',
    ret ≠ 0 →
    trackers s' = <[t := {| tr with submit_lock := true |}]> (trackers s) ∧
    ∀ bio, (submit_bio_noacct_handler (tracker_submit_bio bio) bdev false s').1 = Asleep).
Proof.
  intros [Ht Hp Hm] Hl Ea Eda He Hf Hb. unfold tracker_take_snapshot. wp_steps. cbn [id].
  rewrite Ht. cbn [mbind option_bind]. rewrite Ea. cbn [mbind option_bind]. rewrite Eda. wp_step.
  eapply wp_mono; [by apply freeze_spec|]. intros [] s1 ->. unfold tracker_cbt. wp_run_steps.
  rewrite lookup_insert_eq. cbn [mbind option_bind tr_cbt_map]. rewrite Hp. cbn [mbind option_bind]. rewrite Hm.
  cbn [fmap option_fmap option_map]. unfold set_cbt, in_kern.
  destruct (_ || _); wp_run_steps.
  - apply wp_eq. intros r w E.
    pose proof (wp_run _ _ _ _ _ (cbt_map_reset_bio_list m _ (mkern s)) E) as Hw. cbv beta in Hw.
    destruct r as [[ret m']|]; wp_run_steps; [|by intros []]. destruct (Z.eqb_spec ret 0); cbn [negb]; wp_run_steps.
    + apply wp_eq. intros [m2|] w2 E2; unfold mod_tracker, bdevfilter_unfreeze_queue, mod_tracker;
        wp_run_steps; by intros [].
    + intros _. split; [destruct tr; cbn in *; by subst|]. intros bio. eapply locked_filter_sleeps; cbn; try done.
      * by rewrite lookup_insert_eq.
      * done.
      * by rewrite Hw.
  - change (negb (0 =? 0)) with false. cbv iota. wp_run_steps.
    apply wp_eq. intros [m2|] w2 E2; unfold mod_tracker, bdevfilter_unfreeze_queue, mod_tracker;
      wp_run_steps; by intros [].
Qed.
End proofs.

(** ** Witnesses: tracker 100 on device 1, with the map of CbtMap's examples *)

Definition ex_area1 : diff_area :=
  {| area_kref := 1; orig_bdev := 1; chunk_shift := 18; chunk_count := 1;
     chunk_map := ∅; read_cache_queue := []; read_cache_count := 0; write_cache_queue := [];
     write_cache_count := 0; cache_release_work := false;
     pool := {| free_diff_buffers := []; free_diff_buffers_count := 0 |};
     corrupt_flag := false; pending_io_count := 0 |}.

Definition ex_tracker1 (taken : bool) : tracker :=
  {| flt_kref := 1; submit_lock := false; tr_dev_id := 1; snapshot_is_taken := taken;
     tr_cbt_map := Some 101; tr_diff_area := Some 102; is_frozen := false |}.

Definition ex_tracked (taken : bool) (m : cbt_map) (sectors : Z) (oracle : list Z) : modst :=
  {| mkern := {| world0 with w_oracle := oracle |};
     devices := λ _, {| dev_ptr := 50; dev_sectors := sectors; dev_io_min := 512 |};
     bdev_extension_list := [{| ext_dev_id := 1; ext_bdev := 50; bd_filter := Some 100 |}];
     trackers := {[ 100 := ex_tracker1 taken ]}; tracked_device_list := [1]; tracker_release_list := [];
     trackers_counter := 2; cbt_maps := {[ 101 := m ]}; areas := {[ 102 := (ex_area1, 103) ]};
     storages := ∅; snapimages := ∅; snapshot_objs := ∅; links := ∅; fs_frozen := λ _, 0;
     next_ptr := 200; broken := false; stuck := false |}.

Definition ex_map1 : cbt_map := ex_cbt 2 1 [2; 1; 0; 1].
Definition ex_map1_corrupted : cbt_map := let m := ex_map1 in {| m with is_corrupted := true |}.

Lemma ex_map1_wf : cbt_wf ex_map1.
Proof. by apply ex_cbt_wf. Qed.

Lemma ex_tracked_ok taken m sectors oracle :
  tracked (ex_tracked taken m sectors oracle) 100 (ex_tracker1 taken) 101 m.
Proof. split; reflexivity. Qed.

Definition ex_bio (sector count : Z) : filter_bio :=
  {| b_own := false; b_write := true; b_remapped := false; b_start := 0; b_sector := sector; b_count := count; b_nowait := false;
     b_data := λ _, 0 |}.

Lemma tracker_write_recorded_witness :
  let s := ex_tracked true ex_map1 500 [] in
  let s' := (@tracker_submit_bio (ex_bio 128 200) 100 s).2 in
  (∃ a w, (@tracker_submit_bio (ex_bio 128 200) 100 s).1 = Held (a, w)) ∧ trackers s' = trackers s.
Proof.
  intros s s'. split; [do 2 eexists; vm_compute; reflexivity|].
  assert (Hb : bio_ok (ex_bio 128 200)) by (unfold bio_ok; cbn; lia).
  destruct (tracker_write_recorded (ex_bio 128 200) 100 s (ex_tracker1 true) 101 ex_map1 Hb
    (ex_tracked_ok true ex_map1 500 []) ex_map1_wf eq_refl) as (_ & _ & H & _); [|exact H].
  intros _. exists 102, ex_area1, 103. split; reflexivity.
Defined.

Lemma tracker_corrupted_map_skips_cow_witness :
  let s := ex_tracked true ex_map1_corrupted 500 [] in
  (@tracker_submit_bio (ex_bio 128 200) 100 s).1 = ToDevice.
Proof.
  intros s. assert (Hb : bio_ok (ex_bio 128 200)) by (unfold bio_ok; cbn; lia).
  exact (proj1 (tracker_corrupted_map_skips_cow (ex_bio 128 200) 100 s (ex_tracker1 true) 101
    ex_map1_corrupted Hb (ex_tracked_ok true ex_map1_corrupted 500 []) eq_refl eq_refl)).
Defined.

Lemma tracker_take_snapshot_starts_witness :
  let s := ex_tracked false ex_map1 500 [] in
  (@tracker_take_snapshot default_params 100 s).1 = 0.
Proof.
  intros s. exact (proj1 (@tracker_take_snapshot_starts default_params 100 s (ex_tracker1 false) 101 ex_map1
    102 ex_area1 103 (ex_tracked_ok false ex_map1 500 []) ex_map1_wf eq_refl eq_refl eq_refl eq_refl eq_refl)).
Defined.

(** The device has been resized and there is no memory for the new tables. *)
Lemma tracker_take_failure_freezes_witness :
  let s := ex_tracked false ex_map1 100000 [1] in
  let s' := (@tracker_take_snapshot default_params 100 s).2 in
  ((@tracker_take_snapshot default_params 100 s).1 = - ENOMEM) ∧
  (submit_bio_noacct_handler (tracker_submit_bio (ex_bio 128 200)) (bdev_of s 1) false s').1 = Asleep.
Proof.
  intros s s'. assert (E : (@tracker_take_snapshot default_params 100 s).1 = - ENOMEM)
    by (vm_compute; reflexivity).
  split; [exact E|].
  refine (proj2 (@tracker_take_failure_freezes default_params 100 s (ex_tracker1 false) 101 ex_map1 102
    ex_area1 103 (bdev_of s 1) _ (ex_tracked_ok false ex_map1 100000 [1]) eq_refl eq_refl eq_refl eq_refl
    eq_refl eq_refl _) (ex_bio 128 200)).
  rewrite E. done.
Defined.
