(* ===== verification/Snapshot.v ===== *)
(** * Snapshots (snapshot.c, snapshot.h)

    A snapshot owns a difference storage and, for each of its devices, a reference
    to the device's tracker and an image. The snapshots are linked in a ring of
    [struct list_head], whose head is the node 0; the ring is modelled link by
    link. The configuration is BLK_SNAP_SEQUENTALFREEZE, with a [freeze_bdev] that
    returns a code. *)
From S2P Require Import Prelude MemoryChecker Kernel Uapi EventQueue CbtMap DiffBuffer DiffIo.
From S2P Require Import DiffStorage Chunk DiffArea ChunkSpecs CowInv Cow CowSteps CowImage.
From S2P Require Import CowSafety State BdevFilter SnapImage Tracker.

(** ** The ring (<linux/list.h>): node to (prev, next) *)

Notation ring := (gmap Z (Z * Z)).
Definition SNAPSHOTS : Z := 0.

Definition ring_next (l : ring) (n : Z) : option Z := snd <$> l !! n.
Definition ring_prev (l : ring) (n : Z) : option Z := fst <$> l !! n.
Definition set_next (n v : Z) (l : ring) : ring := alter (λ x, (x.1, v)) n l.
Definition set_prev (n v : Z) (l : ring) : ring := alter (λ x, (v, x.2)) n l.

Definition INIT_LIST_HEAD (n : Z) (l : ring) : ring := <[n := (n, n)]> l.

(** [list_add_tail(new, head)]: [None] when the head is not a node. *)
Definition list_add_tail (new head : Z) (l : ring) : option ring :=
  prev ← ring_prev l head;
  Some (set_next prev new (set_prev new prev (set_next new head (set_prev head new l)))).

(** [list_del]: the node's own links are poisoned. *)
Definition list_del (n : Z) (l : ring) : option ring :=
  '(prev, next) ← l !! n;
  Some (delete n (set_next prev next (set_prev next prev l))).

Definition list_empty (l : ring) : bool := bool_decide (ring_next l SNAPSHOTS = Some SNAPSHOTS).

(** [list_for_each_entry] from node [n] up to the first node that satisfies [f].
    A ring that comes back to its head has no more nodes than links. *)
Inductive search : Type := Found (p : Z) | NotFound | Lost.
Fixpoint list_find (fuel : nat) (f : Z → bool) (l : ring) (n : Z) : search :=
  if n =? SNAPSHOTS then NotFound
  else if f n then Found n
  else match fuel, ring_next l n with
       | S fuel, Some n => list_find fuel f l n
       | _, _ => Lost
       end.

(** All entries of a [list_for_each_entry] without a [break]. *)
Fixpoint list_entries (fuel : nat) (l : ring) (n : Z) : option (list Z) :=
  if n =? SNAPSHOTS then Some []
  else match fuel, ring_next l n with
       | S fuel, Some next => cons n <$> list_entries fuel l next
       | _, _ => None
       end.

Definition snapshot_find (f : Z → bool) (s : modst) : search :=
  match ring_next (links s) SNAPSHOTS with
  | None => Lost
  | Some n => list_find (size (links s)) f (links s) n
  end.
Definition snapshot_entries (s : modst) : option (list Z) :=
  n ← ring_next (links s) SNAPSHOTS;
  list_entries (size (links s)) (links s) n.

Definition on_links (f : ring → option ring) : G unit :=
  l ← gets links;
  match f l with
  | None => broken_pointer
  | Some l => modify (λ s, {| s with links := l |})
  end.

Definition has_id (s : modst) (id p : Z) : bool :=
  match snapshot_objs s !! p with Some x => snap_id x =? id | None => false end.

Definition mod_snapshot (p : Z) (f : snapshot → snapshot) : G unit :=
  modify (λ s, {| s with snapshot_objs := alter f p (snapshot_objs s) |}).
Definition get_snapshot (p : Z) : G (option snapshot) := gets (λ s, snapshot_objs s !! p).

(** The tracker of an array entry with its area's device, if it has an area. *)
Definition tracker_orig (t : Z) (s : modst) : option (option Z) :=
  tr ← trackers s !! t;
  match tr_diff_area tr with
  | None => Some None
  | Some a => x ← areas s !! a; Some (Some (orig_bdev x.1))
  end.

Section params.
Context {P : ModuleParams}.

(** ** Releasing *)

Definition release_tracker (t : option Z) : G unit :=
  match t with
  | None => skip
  | Some t =>
      o ← gets (tracker_orig t);
      match o with
      | None => broken_pointer
      | Some None => skip
      | Some (Some bdev) =>
          err ← freeze_bdev bdev;
          tracker_release_snapshot t;;
          when (err =? 0) (_ ← thaw_bdev bdev; skip)
      end
  end.

Fixpoint each (f : option Z → G unit) (l : list (option Z)) : G unit :=
  match l with
  | [] => skip
  | x :: l => f x;; each f l
  end.

Definition used {A} (x : snapshot) (l : list A) : list A := take (Z.to_nat (snap_count x)) l.

Definition snapshot_release_trackers (x : snapshot) : G unit :=
  each release_tracker (used x (tracker_array x)).

(** The last loop of [snapshot_release]: the tracker gives up its area. *)
Definition drop_tracker (t : option Z) : G unit :=
  match t with
  | None => skip
  | Some t =>
      tr ← get_tracker t;
      match tr with
      | None => broken_pointer
      | Some tr =>
          area_put (tr_diff_area tr);;
          mod_tracker t (λ tr, {| tr with tr_diff_area := None |});;
          tracker_put (Some t)
      end
  end.

Definition snapshot_release (p : Z) : G unit :=
  x ← get_snapshot p;
  match x with
  | None => broken_pointer
  | Some x =>
      each (λ i, match i with None => skip | Some i => snapimage_free i end)
        (used x (snapimage_array x));;
      snapshot_release_trackers x;;
      each drop_tracker (used x (tracker_array x));;
      mod_snapshot p (λ x, {| x with tracker_array :=
        replicate (length (used x (tracker_array x))) None ++
        drop (Z.to_nat (snap_count x)) (tracker_array x) |})
  end.

(** [diff_storage_put] on the snapshot's storage. *)
Definition storage_put (st : Z) : G unit :=
  d ← gets (λ s, storages s !! st);
  match d with
  | None => broken_pointer
  | Some d =>
      r ← in_kern (diff_storage_put d);
      modify (λ s, {| s with storages :=
        match r with None => delete st (storages s) | Some d => <[st := d]> (storages s) end |})
  end.

Definition snapshot_free (p : Z) : G unit :=
  snapshot_release p;;
  x ← get_snapshot p;
  match x with
  | None => broken_pointer
  | Some x =>
      in_kern (memory_object_dec memory_object_snapimage_array);;
      in_kern (memory_object_dec memory_object_tracker_array);;
      storage_put (snap_storage x);;
      modify (λ s, {| s with snapshot_objs := delete p (snapshot_objs s);
                             links := delete p (links s) |});;
      in_kern (memory_object_dec memory_object_snapshot)
  end.

Definition snapshot_get (p : Z) : G unit := mod_snapshot p (λ x, {| x with snap_kref := snap_kref x + 1 |}).
Definition snapshot_put (p : option Z) : G unit :=
  match p with
  | None => skip
  | Some p =>
      mod_snapshot p (λ x, {| x with snap_kref := snap_kref x - 1 |});;
      x ← get_snapshot p;
      match x with
      | None => broken_pointer
      | Some x => when (snap_kref x =? 0) (snapshot_free p)
      end
  end.

(** ** Creating and destroying *)

Definition snapshot_new (count : Z) : G (result Z) :=
  ok ← in_kern alloc;
  if negb ok then mret (Err (- ENOMEM))
  else
    in_kern (memory_object_inc memory_object_snapshot);;
    let fail_free_snapshot : G (result Z) :=
      in_kern (memory_object_dec memory_object_snapshot);; mret (Err (- ENOMEM)) in
    let fail_free_trackers : G (result Z) :=
      in_kern (memory_object_dec memory_object_tracker_array);; fail_free_snapshot in
    let fail_free_snapimage : G (result Z) :=
      in_kern (memory_object_dec memory_object_snapimage_array);; fail_free_trackers in
    ok ← in_kern alloc;
    if negb ok then fail_free_snapshot
    else
      in_kern (memory_object_inc memory_object_tracker_array);;
      ok ← in_kern alloc;
      if negb ok then fail_free_trackers
      else
        in_kern (memory_object_inc memory_object_snapimage_array);;
        d ← in_kern diff_storage_new;
        match d with
        | None => fail_free_snapimage
        | Some d =>
            st ← new_ptr;
            p ← new_ptr;
            id ← in_kern oracle;
            modify (λ s, {| s with storages := <[st := d]> (storages s);
              links := INIT_LIST_HEAD p (links s);
              snapshot_objs := <[p := {| snap_kref := 1; snap_id := id; is_taken := false;
                snap_storage := st; snap_count := 0;
                tracker_array := replicate (Z.to_nat count) None;
                snapimage_array := replicate (Z.to_nat count) None |}]> (snapshot_objs s) |});;
            mret (Ok p)
        end.

(** The [do] loop of [snapshot_done]; it takes one snapshot off the ring each turn. *)
Fixpoint snapshot_done_loop (fuel : nat) : G unit :=
  n ← gets (λ s, ring_next (links s) SNAPSHOTS);
  match n, fuel with
  | None, _ => broken_pointer
  | Some n, _ =>
      if n =? SNAPSHOTS then skip
      else
        match fuel with
        | O => modify (λ s, {| s with stuck := true |})
        | S fuel => on_links (list_del n);; snapshot_put (Some n);; snapshot_done_loop fuel
        end
  end.
Definition snapshot_done : G unit :=
  s ← gets id;
  snapshot_done_loop (size (links s)).

Definition blk_snap_dev_is_equal (first second : blk_snap_dev) : bool :=
  (mj first =? mj second) && (mn first =? mn second).

(** The two [for] loops. *)
Fixpoint check_same_devices (devices : list blk_snap_dev) : Z :=
  match devices with
  | [] => 0
  | first :: rest =>
      if existsb (blk_snap_dev_is_equal first) rest then - EINVAL else check_same_devices rest
  end.

(** The loop of [snapshot_create]: [Some ret] when it fails with [ret]. The outer
    [None]: the block-size loop of a map does not end. *)
Fixpoint add_trackers (p inx : Z) (devs : list blk_snap_dev) : G (option (option Z)) :=
  match devs with
  | [] => mret (Some None)
  | d :: devs =>
      r ← tracker_create_or_get (MKDEV (mj d) (mn d));
      match r with
      | None => mret None
      | Some (Err e) => mret (Some (Some e))
      | Some (Ok t) =>
          mod_snapshot p (λ x, {| x with tracker_array := setZ inx (Some t) (tracker_array x);
                                         snap_count := snap_count x + 1 |});;
          add_trackers p (inx + 1) devs
      end
  end.

(** The return code and the id. *)
Definition snapshot_create (devs : list blk_snap_dev) : G (option (Z * Z)) :=
  let ret := check_same_devices devs in
  if negb (ret =? 0) then mret (Some (ret, 0))
  else
    r ← snapshot_new (lenZ devs);
    match r with
    | Err e => mret (Some (e, 0))
    | Ok p =>
        r ← add_trackers p 0 devs;
        match r with
        | None => mret None
        | Some (Some e) => snapshot_put (Some p);; mret (Some (e, 0))
        | Some None =>
            on_links (list_add_tail SNAPSHOTS p);;
            x ← get_snapshot p;
            mret (Some (0, match x with Some x => snap_id x | None => 0 end))
        end
    end.

Definition snapshot_get_by_id (id : Z) : G (option Z) :=
  s ← gets (λ s, s);
  if list_empty (links s) then mret None
  else
    match snapshot_find (has_id s id) s with
    | Found p => snapshot_get p;; mret (Some p)
    | NotFound => mret None
    | Lost => broken_pointer;; mret None
    end.

Definition snapshot_destroy (id : Z) : G Z :=
  s ← gets (λ s, s);
  p ← (if list_empty (links s) then mret None
       else
         match snapshot_find (has_id s id) s with
         | Found p => on_links (list_del p);; mret (Some p)
         | NotFound => mret None
         | Lost => broken_pointer;; mret None
         end);
  match p with
  | None => mret (- ENODEV)
  | Some p => snapshot_put (Some p);; mret 0
  end.

(** Run an operation of a storage. *)
Definition with_store {A} (st : Z) (m : DS A) : G (option A) :=
  s ← gets (λ s, s);
  match storages s !! st with
  | None => broken_pointer;; mret None
  | Some d =>
      let r := m (d, mkern s) in
      modify (λ s, {| s with storages := <[st := r.2.1]> (storages s); mkern := r.2.2 |});;
      mret (Some r.1)
  end.

Definition snapshot_append_storage (id : Z) (dev : blk_snap_dev) (ranges : list blk_snap_block_range)
    : G Z :=
  p ← snapshot_get_by_id id;
  match p with
  | None => mret (- ESRCH)
  | Some p =>
      x ← get_snapshot p;
      match x with
      | None => broken_pointer;; mret 0
      | Some x =>
          r ← with_store (snap_storage x) (diff_storage_append_block (MKDEV (mj dev) (mn dev)) ranges);
          snapshot_put (Some p);;
          mret (default 0 r)
      end
  end.

(** ** Taking *)

(** The first loop of [snapshot_take_trackers]: the trackers taken so far, latest
    first, and the code it ended with. The device of a tracker that could not be
    taken stays frozen. *)
Fixpoint take_trackers (done l : list (option Z)) : G (list (option Z) * Z) :=
  match l with
  | [] => mret (done, 0)
  | None :: l => take_trackers (None :: done) l
  | Some t :: l =>
      o ← gets (tracker_orig t);
      match o with
      | Some (Some bdev) =>
          err ← freeze_bdev bdev;
          ret ← tracker_take_snapshot t;
          if negb (ret =? 0) then mret (done, ret)
          else
            when (err =? 0) (_ ← thaw_bdev bdev; skip);;
            take_trackers (Some t :: done) l
      | _ => broken_pointer;; mret (done, 0)
      end
  end.

(** The [while (inx--)] loop, which thaws whether or not it froze. *)
Definition untake_tracker (t : option Z) : G unit :=
  match t with
  | None => skip
  | Some t =>
      o ← gets (tracker_orig t);
      match o with
      | Some (Some bdev) =>
          _ ← freeze_bdev bdev;
          tracker_release_snapshot t;;
          _ ← thaw_bdev bdev;
          skip
      | _ => broken_pointer
      end
  end.

Definition snapshot_take_trackers (p : Z) (x : snapshot) : G Z :=
  '(done, ret) ← take_trackers [] (used x (tracker_array x));
  if ret =? 0 then mod_snapshot p (λ x, {| x with is_taken := true |});; mret 0
  else each untake_tracker done;; mret ret.

(** The loop of [snapshot_take] that makes the areas, over the storage [st]. *)
Fixpoint new_areas (st : Z) (l : list (option Z)) : G (option Z) :=
  match l with
  | [] => mret (Some 0)
  | None :: l => new_areas st l
  | Some t :: l =>
      s ← gets (λ s, s);
      match trackers s !! t with
      | None => broken_pointer;; mret (Some 0)
      | Some tr =>
          let dev := devices s (tr_dev_id tr) in
          r ← with_store st (diff_area_new (tr_dev_id tr) (dev_sectors dev) (dev_io_min dev));
          match r with
          | Some (Some (Ok da)) =>
              a ← new_ptr;
              modify (λ s, {| s with areas := <[a := (da, st)]> (areas s) |});;
              mod_tracker t (λ tr, {| tr with tr_diff_area := Some a |});;
              new_areas st l
          | Some (Some (Err e)) => mret (Some e)
          | _ => mret None
          end
      end
  end.

(** Is the area of one of the trackers corrupted already? *)
Fixpoint any_corrupted (s : modst) (l : list (option Z)) : option bool :=
  match l with
  | [] => Some false
  | None :: l => any_corrupted s l
  | Some t :: l =>
      tr ← trackers s !! t;
      a ← tr_diff_area tr;
      x ← areas s !! a;
      if diff_area_is_corrupted x.1 then Some true else any_corrupted s l
  end.

(** The loop that makes the images; it stops at the first error. *)
Fixpoint new_images (p inx : Z) (l : list (option Z)) : G Z :=
  match l with
  | [] => mret 0
  | t :: l =>
      s ← gets (λ s, s);
      match t ← t; tr ← trackers s !! t; a ← tr_diff_area tr; c ← tr_cbt_map tr; Some (a, c) with
      | None => broken_pointer;; mret 0
      | Some (a, c) =>
          r ← snapimage_create a c;
          match r with
          | Err e => mret e
          | Ok i =>
              mod_snapshot p (λ x, {| x with snapimage_array := setZ inx (Some i) (snapimage_array x) |});;
              new_images p (inx + 1) l
          end
      end
  end.

(** [None]: a chunk size cannot be computed. *)
Definition snapshot_take (id : Z) : G (option Z) :=
  p ← snapshot_get_by_id id;
  match p with
  | None => mret (Some (- ESRCH))
  | Some p =>
      x ← get_snapshot p;
      match x with
      | None => broken_pointer;; mret (Some 0)
      | Some x =>
          let out (ret : Z) : G (option Z) := snapshot_put (Some p);; mret (Some ret) in
          let fail (ret : Z) : G (option Z) :=
            on_links (list_del p);; snapshot_put (Some p);; out ret in
          if is_taken x then out (- EALREADY)
          else if snap_count x =? 0 then out (- ENODEV)
          else
            let l := used x (tracker_array x) in
            r ← new_areas (snap_storage x) l;
            match r with
            | None => mret None
            | Some ret =>
                if negb (ret =? 0) then fail ret
                else
                  ret ← snapshot_take_trackers p x;
                  if negb (ret =? 0) then fail ret
                  else
                    s ← gets (λ s, s);
                    match any_corrupted s l with
                    | None => broken_pointer;; mret (Some 0)
                    | Some true => fail (- EFAULT)
                    | Some false => ret ← new_images p 0 l; out ret
                    end
            end
      end
  end.

(** ** Information *)

(** [snapshot_wait_event]: the wait returns at once when there is an event, else
    it ends by timeout or by a signal. *)
Definition snapshot_wait_event (id : Z) : G (result event) :=
  p ← snapshot_get_by_id id;
  match p with
  | None => mret (Err (- ESRCH))
  | Some p =>
      s ← gets (λ s, s);
      match x ← snapshot_objs s !! p; d ← storages s !! snap_storage x; Some (snap_storage x, d) with
      | None => broken_pointer;; mret (Err 0)
      | Some (st, d) =>
          v ← in_kern oracle;
          let ret := match eq_list (ds_events d) with
                     | _ :: _ => 1
                     | [] => if v =? 0 then 0 else - ERESTARTSYS
                     end in
          match event_wait (ds_events d) ret with
          | None => broken_pointer;; mret (Err 0)
          | Some (e, q) =>
              modify (λ s, {| s with storages := <[st := {| d with ds_events := q |}]> (storages s) |});;
              snapshot_put (Some p);;
              mret e
          end
      end
  end.

(** The copying loop of [snapshot_collect]; a fault leaves the code 0. *)
Fixpoint copy_ids (pcount inx : Z) (l : list Z) : G (Z * Z * list Z) :=
  match l with
  | [] => mret (0, inx, [])
  | p :: l =>
      if pcount <=? inx then mret (- ENODATA, inx, [])
      else
        x ← get_snapshot p;
        left ← in_kern (copy_user 16);
        if negb (left =? 0) then mret (0, inx, [])
        else
          '(ret, n, ids) ← copy_ids pcount (inx + 1) l;
          mret (ret, n, match x with Some x => snap_id x | None => 0 end :: ids)
  end.

(** [snapshot_collect]: the code, [*pcount] afterwards and the ids copied;
    [has_array] says whether the user gave an array. *)
Definition snapshot_collect (pcount : Z) (has_array : bool) : G (Z * Z * list Z) :=
  s ← gets (λ s, s);
  if list_empty (links s) then mret (0, 0, [])
  else
    match snapshot_entries s with
    | None => broken_pointer;; mret (0, 0, [])
    | Some l => if negb has_array then mret (0, lenZ l, []) else copy_ids pcount 0 l
    end.

Definition no_dev : blk_snap_dev := {| mj := 0; mn := 0 |}.
Definition dev_of (dev_id : Z) : blk_snap_dev := {| mj := MAJOR dev_id; mn := MINOR dev_id |}.

(** One entry of the array [snapshot_collect_images] fills. *)
Definition image_info (s : modst) (t i : option Z) : blk_snap_image_info :=
  {| orig_dev_id := match t ≫= λ t, trackers s !! t with
                    | Some tr => dev_of (tr_dev_id tr) | None => no_dev end;
     image_dev_id := match i ≫= λ i, snapimages s !! i with
                     | Some img => dev_of (img_disk img) | None => no_dev end |}.

(** [snapshot_collect_images]: the code, [*pcount] (when it is written) and the
    entries copied. *)
Definition snapshot_collect_images (id pcount : Z) (has_array : bool)
    : G (Z * option Z * list blk_snap_image_info) :=
  p ← snapshot_get_by_id id;
  match p with
  | None => mret (- ESRCH, None, [])
  | Some p =>
      s ← gets (λ s, s);
      match snapshot_objs s !! p with
      | None => broken_pointer;; mret (0, None, [])
      | Some x =>
          let out (ret : Z) (l : list blk_snap_image_info) : G (Z * option Z * list blk_snap_image_info) :=
            snapshot_put (Some p);; mret (ret, Some (snap_count x), l) in
          if negb (is_taken x) then out (- ENODEV) []
          else if negb has_array then out 0 []
          else if pcount <? snap_count x then out (- ENODATA) []
          else
            ok ← in_kern alloc;
            if negb ok then out (- ENOMEM) []
            else
              in_kern (memory_object_inc memory_object_blk_snap_image_info);;
              let infos := zip_with (image_info s) (used x (tracker_array x)) (used x (snapimage_array x)) in
              len ← in_kern (copy_user (snap_count x * 16));
              in_kern (memory_object_dec memory_object_blk_snap_image_info);;
              if negb (len =? 0) then out (- ENODATA) [] else out 0 infos
      end
  end.

(** The search for the image in the arrays of a snapshot; [None]: an entry without
    an image is dereferenced. *)
Fixpoint find_image (s : modst) (dev : Z) (l : list (option Z)) : option (option Z) :=
  match l with
  | [] => Some None
  | i :: l =>
      img ← i ≫= λ i, snapimages s !! i;
      if img_disk img =? dev then Some (Some (img_cbt_map img)) else find_image s dev l
  end.
Fixpoint find_images (s : modst) (dev : Z) (cbt : option Z) (l : list Z) : option (option Z) :=
  match l with
  | [] => Some cbt
  | p :: l =>
      x ← snapshot_objs s !! p;
      c ← find_image s dev (used x (snapimage_array x));
      find_images s dev (match c with Some c => Some c | None => cbt end) l
  end.

Definition snapshot_mark_dirty_blocks (image_dev_id : Z) (ranges : list blk_snap_block_range) : G Z :=
  s ← gets (λ s, s);
  if list_empty (links s) then mret 0
  else
    match l ← snapshot_entries s; find_images s image_dev_id None l with
    | None => broken_pointer;; mret 0
    | Some None => mret (- ENODEV)
    | Some (Some c) =>
        match cbt_maps s !! c ≫= λ m, cbt_map_mark_dirty_blocks m ranges with
        | None => broken_pointer;; mret 0
        | Some (ret, m) => set_cbt c m;; mret ret
        end
    end.
End params.
