(* ===== verification/SnapshotSpecs.v ===== *)
(** * Properties of snapshots: the ring, creation and destruction

    The circular list of snapshots as a sequence, what [list_add_tail] and [list_del]
    do to it, and the theorems on [snapshot_new], [snapshot_create],
    [snapshot_destroy] and the guards of [snapshot_take]. *)
From S2P Require Import Prelude MemoryChecker Kernel Uapi EventQueue CbtMap DiffBuffer DiffIo.
From S2P Require Import DiffStorage Chunk DiffArea ChunkSpecs CowInv Cow CowSteps CowImage.
From S2P Require Import CowSafety State BdevFilter SnapImage Tracker Snapshot.

(** ** The ring as a list

    [seg l a xs b]: from [a] the links lead through the nodes [xs] to [b], and the
    back links lead the same way back. *)
Fixpoint seg (l : ring) (a : Z) (xs : list Z) (b : Z) : Prop :=
  match xs with
  | [] => ring_next l a = Some b ∧ ring_prev l b = Some a
  | x :: xs => ring_next l a = Some x ∧ ring_prev l x = Some a ∧ seg l x xs b
  end.

(** The ring holds the snapshots [xs], in this order. *)
Definition ring_ok (l : ring) (xs : list Z) : Prop :=
  seg l SNAPSHOTS xs SNAPSHOTS ∧ NoDup (SNAPSHOTS :: xs).

Lemma seg_app l a xs m ys b : seg l a (xs ++ m :: ys) b ↔ seg l a xs m ∧ seg l m ys b.
Proof. revert a. induction xs as [|x xs IH]; intros a; cbn; [tauto|]. rewrite IH. tauto. Qed.

Lemma ring_next_in l n v : ring_next l n = Some v → is_Some (l !! n).
Proof. unfold ring_next. by destruct (l !! n). Qed.

Lemma seg_nodes l a xs b x : seg l a xs b → x ∈ a :: xs → is_Some (l !! x).
Proof.
  revert a. induction xs as [|y xs IH]; intros a H Hx; cbn in H.
  - apply list_elem_of_singleton in Hx as ->. by eapply ring_next_in, H.
  - destruct H as (H1 & _ & H2). apply elem_of_cons in Hx as [->|Hx]; [by eapply ring_next_in|eauto].
Qed.

Lemma ring_size l xs : ring_ok l xs → (length xs < size l)%nat.
Proof.
  intros [Hs Hn]. assert (Hsub : (list_to_set (SNAPSHOTS :: xs) : gset Z) ⊆ dom l).
  { intros x Hx. apply elem_of_list_to_set in Hx. apply elem_of_dom. by eapply seg_nodes. }
  apply subseteq_size in Hsub. rewrite size_list_to_set, size_dom in Hsub by done. cbn in Hsub. lia.
Qed.

Lemma seg_first l a xs b : seg l a xs b → ring_next l a = Some (hd b xs).
Proof. destruct xs; cbn; by intros []. Qed.

Lemma list_entries_seg fuel l a xs :
  seg l a xs SNAPSHOTS → SNAPSHOTS ∉ xs → (length xs ≤ fuel)%nat →
  list_entries fuel l (hd SNAPSHOTS xs) = Some xs.
Proof.
  revert a fuel. induction xs as [|x xs IH]; intros a fuel Hs Hn Hf; cbn [hd]; [by destruct fuel|].
  destruct fuel as [|fuel]; cbn in Hf; [lia|]. cbn in Hs. destruct Hs as (_ & _ & Hs).
  apply not_elem_of_cons in Hn as [Hx Hn]. cbn [list_entries].
  rewrite (proj2 (Z.eqb_neq _ _)), (seg_first _ _ _ _ Hs) by done. rewrite (IH x fuel) by (done || lia). done.
Qed.

Lemma list_find_seg fuel f l a xs :
  seg l a xs SNAPSHOTS → SNAPSHOTS ∉ xs → (length xs ≤ fuel)%nat →
  list_find fuel f l (hd SNAPSHOTS xs) = match find f xs with Some p => Found p | None => NotFound end.
Proof.
  revert a fuel. induction xs as [|x xs IH]; intros a fuel Hs Hn Hf; cbn [hd]; [by destruct fuel|].
  destruct fuel as [|fuel]; cbn in Hf; [lia|]. cbn in Hs. destruct Hs as (_ & _ & Hs).
  apply not_elem_of_cons in Hn as [Hx Hn]. cbn [list_find find].
  rewrite (proj2 (Z.eqb_neq _ _)) by done. destruct (f x); [done|].
  rewrite (seg_first _ _ _ _ Hs). apply (IH x fuel); done || lia.
Qed.

(** Walking the ring ends, and meets exactly its snapshots. *)
Lemma ring_walk s xs :
  ring_ok (links s) xs → snapshot_entries s = Some xs ∧
  list_empty (links s) = bool_decide (xs = []) ∧
  ∀ f, snapshot_find f s = match find f xs with Some p => Found p | None => NotFound end.
Proof.
  intros H. pose proof (ring_size _ _ H). destruct H as [Hs Hn]. apply NoDup_cons in Hn as [Hn _].
  unfold snapshot_entries, snapshot_find, list_empty. rewrite (seg_first _ _ _ _ Hs). cbn.
  split_and!; [eapply list_entries_seg; done || lia| |intros f; eapply list_find_seg; done || lia].
  apply bool_decide_ext. destruct xs as [|x xs]; cbn; [done|]. split; [|done].
  intros [= ->]. destruct Hn. by apply elem_of_cons; left.
Qed.

(** ** Linking and unlinking *)

Lemma ring_next_set_next l n v m :
  ring_next (set_next n v l) m = if m =? n then (λ _, v) <$> l !! n else ring_next l m.
Proof.
  unfold ring_next, set_next. destruct (Z.eqb_spec m n) as [->|];
    [rewrite lookup_alter_eq; by destruct (l !! n)|by rewrite lookup_alter_ne].
Qed.
Lemma ring_next_set_prev l n v m : ring_next (set_prev n v l) m = ring_next l m.
Proof.
  unfold ring_next, set_prev. destruct (decide (m = n)) as [->|];
    [rewrite lookup_alter_eq; by destruct (l !! n)|by rewrite lookup_alter_ne].
Qed.
Lemma ring_prev_set_prev l n v m :
  ring_prev (set_prev n v l) m = if m =? n then (λ _, v) <$> l !! n else ring_prev l m.
Proof.
  unfold ring_prev, set_prev. destruct (Z.eqb_spec m n) as [->|];
    [rewrite lookup_alter_eq; by destruct (l !! n)|by rewrite lookup_alter_ne].
Qed.
Lemma ring_prev_set_next l n v m : ring_prev (set_next n v l) m = ring_prev l m.
Proof.
  unfold ring_prev, set_next. destruct (decide (m = n)) as [->|];
    [rewrite lookup_alter_eq; by destruct (l !! n)|by rewrite lookup_alter_ne].
Qed.
Lemma is_Some_set_next l n v m : is_Some (set_next n v l !! m) ↔ is_Some (l !! m).
Proof. unfold set_next. apply lookup_alter_is_Some. Qed.
Lemma is_Some_set_prev l n v m : is_Some (set_prev n v l !! m) ↔ is_Some (l !! m).
Proof. unfold set_prev. apply lookup_alter_is_Some. Qed.

Lemma fmap_const_Some {A} (x : option A) (v : Z) : is_Some x → (λ _, v) <$> x = Some v.
Proof. by intros [? ->]. Qed.

(** Where the links lead after a node has been taken out. *)
Lemma list_del_links l x p q :
  l !! x = Some (p, q) → is_Some (l !! p) → is_Some (l !! q) →
  ∃ l', list_del x l = Some l' ∧
    ∀ n, n ≠ x → ring_next l' n = (if n =? p then Some q else ring_next l n) ∧
                 ring_prev l' n = (if n =? q then Some p else ring_prev l n).
Proof.
  intros Hx Hp Hq. unfold list_del. rewrite Hx. cbn. eexists. split; [done|]. intros n Hn.
  assert (Hd : ∀ l0 : ring, ring_next (delete x l0) n = ring_next l0 n ∧ ring_prev (delete x l0) n = ring_prev l0 n).
  { intros l0. unfold ring_next, ring_prev. by rewrite lookup_delete_ne. }
  destruct (Hd (set_next p q (set_prev q p l))) as [-> ->].
  rewrite ring_next_set_next, ring_next_set_prev, ring_prev_set_next, ring_prev_set_prev.
  rewrite !fmap_const_Some; [done|done|by apply is_Some_set_prev].
Qed.

Lemma seg_ext l l' a xs b :
  (∀ n, n ∈ a :: xs → ring_next l' n = ring_next l n) →
  (∀ n, n ∈ xs ++ [b] → ring_prev l' n = ring_prev l n) → seg l a xs b → seg l' a xs b.
Proof.
  revert a. induction xs as [|x xs IH]; intros a Hn Hp; cbn.
  - rewrite Hn, Hp by (by apply elem_of_cons; left). done.
  - intros (H1 & H2 & H3). rewrite Hn, Hp by (by apply elem_of_cons; left). split_and!; try done.
    apply IH; [| |done]; intros n Hi; [apply Hn|apply Hp]; by apply elem_of_cons; right.
Qed.

(** The last of the nodes [xs] behind [a], and the neighbours of a node. *)
Definition last_of (a : Z) (xs : list Z) : Z := foldl (λ _ x, x) a xs.

Lemma seg_split l a xs x ys b :
  seg l a (xs ++ x :: ys) b →
  l !! x = Some (last_of a xs, hd b ys) ∧
  (∀ xs', xs = xs' ++ [last_of a xs] → seg l a xs' (last_of a xs)) ∧
  (∀ ys', ys = hd b ys :: ys' → seg l (hd b ys) ys' b).
Proof.
  rewrite seg_app. intros [H1 H2]. split_and!.
  - assert (Hp : ring_prev l x = Some (last_of a xs)).
    { clear H2. revert a H1. induction xs as [|z xs IH]; intros a; cbn [seg]; [by intros []|].
      intros (_ & _ & H). by rewrite (IH z H). }
    pose proof (seg_first _ _ _ _ H2) as Hq. unfold ring_next, ring_prev in *.
    destruct (l !! x) as [[p q]|]; [|done]. cbn in *. congruence.
  - intros xs' E. set (p := last_of a xs) in *. rewrite E in H1. by apply seg_app in H1 as [H1 _].
  - intros ys' E. rewrite E in H2. cbn in H2. by destruct H2 as (_ & _ & ?).
Qed.

Lemma last_of_app a xs p : last_of a (xs ++ [p]) = p.
Proof. unfold last_of. by rewrite foldl_app. Qed.

Lemma last_of_in a xs : last_of a xs ∈ a :: xs.
Proof.
  destruct xs as [|p xs] using rev_ind; [by apply elem_of_cons; left|].
  rewrite last_of_app. apply elem_of_cons. right. apply elem_of_app. right. by apply elem_of_cons; left.
Qed.

Lemma not_in_both (a p : Z) (xs ys : list Z) :
  p ∈ a :: xs → a ∉ ys → (∀ y, y ∈ xs → y ∉ ys) → ∀ n, n ∈ ys → n ≠ p.
Proof. intros Hp Ha Hd n Hn ->. apply elem_of_cons in Hp as [->|Hp]; [done|by eapply Hd]. Qed.

(** Taking a snapshot out of the ring leaves the others in their order. *)
Lemma list_del_ring l xs x ys :
  ring_ok l (xs ++ x :: ys) → ∃ l', list_del x l = Some l' ∧ ring_ok l' (xs ++ ys).
Proof.
  intros [Hs Hn]. destruct (seg_split _ _ _ _ _ _ Hs) as (Hx & Hxs & Hys).
  pose proof (last_of_in SNAPSHOTS xs) as Hp.
  assert (Hq : hd SNAPSHOTS ys ∈ SNAPSHOTS :: ys) by (destruct ys; set_solver +).
  destruct (list_del_links l x (last_of SNAPSHOTS xs) (hd SNAPSHOTS ys) Hx) as (l' & El & Hl');
    [eapply seg_nodes; [exact Hs|]; set_solver +Hp|eapply seg_nodes; [exact Hs|]; set_solver +Hq|].
  exists l'. split; [done|]. clear Hs Hx El. apply NoDup_cons in Hn as [H0 Hn].
  apply NoDup_app in Hn as (Hnx & Hd & Hny). apply NoDup_cons in Hny as [Hxy Hny].
  split; [|apply NoDup_cons; split; [set_solver +H0|]; apply NoDup_app; split_and!; [done|set_solver +Hd|done]].
  assert (Hnext : ∀ n, n ≠ x → n ≠ last_of SNAPSHOTS xs → ring_next l' n = ring_next l n).
  { intros n H1 H2. destruct (Hl' n H1) as [-> _]. by rewrite (proj2 (Z.eqb_neq _ _)). }
  assert (Hprev : ∀ n, n ≠ x → n ≠ hd SNAPSHOTS ys → ring_prev l' n = ring_prev l n).
  { intros n H1 H2. destruct (Hl' n H1) as [_ ->]. by rewrite (proj2 (Z.eqb_neq _ _)). }
  assert (Hx0 : x ≠ SNAPSHOTS) by (intros E; apply H0; rewrite <- E; apply elem_of_app; right; apply elem_of_cons; by left).
  assert (Hpx : last_of SNAPSHOTS xs ≠ x).
  { intros E. rewrite E in Hp. apply elem_of_cons in Hp as [?|Hp]; [done|]. apply (Hd x Hp), elem_of_cons. by left. }
  assert (Hqx : hd SNAPSHOTS ys ≠ x).
  { intros E. rewrite E in Hq. by apply elem_of_cons in Hq as [?|Hq]. }
  assert (Hpq : ring_next l' (last_of SNAPSHOTS xs) = Some (hd SNAPSHOTS ys) ∧
                ring_prev l' (hd SNAPSHOTS ys) = Some (last_of SNAPSHOTS xs)).
  { destruct (Hl' _ Hpx) as [-> _]. destruct (Hl' _ Hqx) as [_ ->]. by rewrite !Z.eqb_refl. }
  assert (H0x : SNAPSHOTS ∉ xs) by (set_solver +H0). assert (H0y : SNAPSHOTS ∉ ys) by (set_solver +H0).
  assert (Hdy : ∀ y, y ∈ xs → y ∉ ys) by (set_solver +Hd).
  pose proof (not_in_both _ _ _ _ Hp H0y Hdy) as Hpy.
  assert (Hqy : ∀ n, n ∈ xs → n ≠ hd SNAPSHOTS ys) by (apply (not_in_both _ _ _ _ Hq H0x); set_solver +Hdy).
  assert (Hright : seg l' (last_of SNAPSHOTS xs) ys SNAPSHOTS).
  { destruct ys as [|y ys]; [exact Hpq|]. cbn [hd] in *. cbn. split_and!; [apply Hpq..|].
    apply NoDup_cons in Hny as [Hy _].
    apply (seg_ext l); [..|by apply Hys]; intros n Hi; [apply Hnext|apply Hprev].
    - set_solver +Hi Hxy.
    - set_solver +Hi Hpy.
    - set_solver +Hi Hxy H0.
    - set_solver +Hi Hy H0. }
  destruct xs as [|p xs _] using rev_ind; [exact Hright|]. rewrite last_of_app in *.
  rewrite <- app_assoc. apply seg_app. split; [|exact Hright]. apply NoDup_app in Hnx as (_ & Hpd & _).
  apply (seg_ext l); [..|by apply Hxs]; intros n Hi; [apply Hnext|apply Hprev].
  - set_solver +Hi Hd H0.
  - set_solver +Hi Hpd H0.
  - set_solver +Hi Hd.
  - set_solver +Hi Hqy.
Qed.

(** ** What the other components leave alone

    Neither the ring nor the snapshot objects are touched outside snapshot.c. *)
Definition snaps (s : modst) : ring * gmap Z snapshot := (links s, snapshot_objs s).
Definition aside {A} (m : G A) : Prop := ∀ s, wp m s (λ _ s', snaps s' = snaps s).

Section aside.
Context {A B : Type}.

Lemma aside_bind (m : G A) (f : A → G B) : aside m → (∀ a, aside (f a)) → aside (m ≫= f).
Proof.
  intros Hm Hf s. apply wp_bind. eapply wp_mono; [apply Hm|]. intros a s1 H1.
  eapply wp_mono; [apply Hf|]. intros b s2 H2. congruence.
Qed.
Lemma aside_ret (a : A) : aside (mret a).
Proof. intros s. by apply wp_ret. Qed.
Lemma aside_gets (f : modst → A) : aside (gets f).
Proof. intros s. by apply wp_gets. Qed.
Lemma aside_in_kern (m : K A) : aside (in_kern m).
Proof. intros s. unfold in_kern. apply wp_zoom. apply wp_eq. by intros a w _. Qed.
End aside.
Lemma aside_skip : aside skip.
Proof. by intros s. Qed.
Lemma aside_when b m : aside m → aside (when b m).
Proof. destruct b; [done|]. intros _. apply aside_skip. Qed.
Lemma aside_modify f : (∀ s, snaps (f s) = snaps s) → aside (modify f).
Proof. intros H s. by apply wp_modify. Qed.
Lemma aside_broken : aside broken_pointer.
Proof. by intros s. Qed.
Lemma aside_mod_tracker t f : aside (mod_tracker t f).
Proof. by apply aside_modify. Qed.
Lemma aside_get_tracker t : aside (get_tracker t).
Proof. apply aside_gets. Qed.
Lemma aside_new_ptr : aside new_ptr.
Proof. by intros s. Qed.

Create HintDb aside discriminated.
#[export] Hint Resolve aside_broken aside_mod_tracker aside_get_tracker aside_new_ptr : aside.

Ltac aside := repeat first
  [ progress intros
  | solve [auto 2 with aside nocore]
  | simple apply aside_bind | simple apply aside_ret | simple apply aside_gets
  | simple apply aside_in_kern | simple apply aside_skip | simple apply aside_when
  | simple apply aside_modify; done
  | match goal with |- aside (match ?x with _ => _ end) => destruct x end ].

Section aside_tracker.
Context {P : ModuleParams}.

Lemma aside_put t : aside (bdev_filter_put t).
Proof. unfold bdev_filter_put, bdev_filter_free, tracker_release. aside. Qed.
Lemma aside_freeze d : aside (freeze_bdev d).
Proof. unfold freeze_bdev. aside. Qed.
Lemma aside_thaw d : aside (thaw_bdev d).
Proof. unfold thaw_bdev. aside. Qed.
Lemma aside_freeze_queue t : aside (bdevfilter_freeze_queue t).
Proof. unfold bdevfilter_freeze_queue. aside. Qed.
Lemma aside_unfreeze_queue t : aside (bdevfilter_unfreeze_queue t).
Proof. unfold bdevfilter_unfreeze_queue. aside. Qed.
Lemma aside_area_put a : aside (area_put a).
Proof. unfold area_put. aside. Qed.
Lemma aside_cbt_put c : aside (cbt_put c).
Proof. unfold cbt_put. aside. Qed.
Lemma aside_with_area {A} p (m : AM A) : aside (with_area p m).
Proof. unfold with_area. aside. Qed.
#[local] Hint Resolve aside_put aside_freeze aside_thaw aside_freeze_queue aside_unfreeze_queue
  aside_area_put aside_cbt_put aside_with_area : aside.

Lemma aside_release t : aside (tracker_release_snapshot t).
Proof. unfold tracker_release_snapshot. aside. Qed.
Lemma aside_attach bdev t : aside (bdev_filter_attach bdev t).
Proof.
  unfold bdev_filter_attach, bdev_extension_append, add_extension, del_extension, set_filter. aside.
Qed.
#[local] Hint Resolve aside_release aside_attach : aside.
Lemma aside_tracker_new bdev : aside (tracker_new bdev).
Proof. unfold tracker_new, tracker_put, tracker_filter_attach. aside. Qed.
#[local] Hint Resolve aside_tracker_new : aside.
Lemma aside_create_or_get d : aside (tracker_create_or_get d).
Proof.
  unfold tracker_create_or_get, open_bdev, close_bdev, tracker_get_by_dev, bdev_filter_get_by_bdev,
    bdev_filter_get. aside.
Qed.
Lemma aside_take_snapshot t : aside (tracker_take_snapshot t).
Proof. unfold tracker_take_snapshot, tracker_cbt, set_cbt. aside. Qed.

Lemma aside_worker fuel i : aside (snapimage_kthread_worker_fn fuel i).
Proof.
  induction fuel as [|fuel IH]; cbn [snapimage_kthread_worker_fn]; unfold get_bio_from_queue, mod_image; aside.
Qed.
#[local] Hint Resolve aside_worker : aside.
Lemma aside_image_free i : aside (snapimage_free i).
Proof. unfold snapimage_free, snapimage_free_disk. aside. Qed.
#[local] Hint Resolve aside_image_free : aside.

Lemma aside_each f l : (∀ x, aside (f x)) → aside (each f l).
Proof. intros Hf. induction l as [|x l IH]; cbn [each]; aside; apply Hf. Qed.
Lemma aside_release_tracker t : aside (release_tracker t).
Proof. unfold release_tracker. aside. Qed.
Lemma aside_drop_tracker t : aside (drop_tracker t).
Proof. unfold drop_tracker, tracker_put. aside. Qed.
Lemma aside_storage_put st : aside (storage_put st).
Proof. unfold storage_put. aside. Qed.
End aside_tracker.
#[export] Hint Resolve aside_put aside_freeze aside_thaw aside_release aside_create_or_get
  aside_take_snapshot aside_image_free aside_each aside_release_tracker aside_drop_tracker
  aside_storage_put aside_area_put : aside.

(** ** Creating a snapshot *)

(** With its arguments exchanged, [list_add_tail] makes a ring of the new node alone. *)
Lemma list_add_self l z p :
  l !! p = Some (p, p) → is_Some (l !! z) → z ≠ p →
  ∃ l', list_add_tail z p l = Some l' ∧ seg l' z [p] z.
Proof.
  intros Hp [[a b] H0] Hne. unfold list_add_tail, ring_prev at 1. rewrite Hp. cbn. eexists. split; [done|].
  unfold ring_next, ring_prev, set_next, set_prev.
  repeat first [rewrite lookup_alter_eq|rewrite lookup_alter_ne by done|rewrite Hp|rewrite H0]. done.
Qed.

Lemma list_add_swapped l p :
  l !! p = Some (p, p) → is_Some (l !! SNAPSHOTS) → SNAPSHOTS ≠ p →
  ∃ l', list_add_tail SNAPSHOTS p l = Some l' ∧ ring_ok l' [p].
Proof.
  intros Hp H0 Hne. destruct (list_add_self l SNAPSHOTS p Hp H0 Hne) as (l' & E & H). exists l'.
  split; [done|]. split; [done|]. apply NoDup_cons. split; [|apply NoDup_singleton].
  by rewrite list_elem_of_singleton.
Qed.

(** Counters that were raised and lowered again. *)
Ltac balanced :=
  let t := fresh "t" in intros t; cbn;
  repeat match goal with H : w_mem _ = _ |- _ => rewrite H end; cbn;
  unfold upd; repeat case_decide; subst; congruence || lia.

Section create.
Context {P : ModuleParams}.

Lemma diff_storage_new_Some w : wp diff_storage_new w (λ d w',
  match d with None => w_mem w' = w_mem w | Some _ => True end).
Proof.
  unfold diff_storage_new. wp_steps. apply wp_alloc. intros ok vs. destruct ok; cbn [negb]; [|by wp_steps].
  wp_steps. apply wp_eq. intros r s' _. by wp_steps.
Qed.

Definition new_snapshot (id st count : Z) : snapshot :=
  {| snap_kref := 1; snap_id := id; is_taken := false; snap_storage := st; snap_count := 0;
     tracker_array := replicate (Z.to_nat count) None; snapimage_array := replicate (Z.to_nat count) None |}.

Lemma snapshot_new_spec count s :
  wp (snapshot_new count) s (λ r s',
    match r with
    | Err e => e = - ENOMEM ∧ snaps s' = snaps s ∧ storages s' = storages s ∧ broken s' = broken s ∧
        ∀ t, memory_counter (w_mem (mkern s')) t = memory_counter (w_mem (mkern s)) t
    | Ok p =>
        p = next_ptr s + 1 ∧ links s' = <[p := (p, p)]> (links s) ∧ broken s' = broken s ∧
        ∃ id d, storages s' = <[next_ptr s := d]> (storages s) ∧
          snapshot_objs s' = <[p := new_snapshot id (next_ptr s) count]> (snapshot_objs s)
    end).
Proof.
  unfold snapshot_new, in_kern. wp_run_steps. apply wp_alloc. intros ok vs.
  destruct ok; cbn [negb]; wp_run_steps; [|by split_and!].
  apply wp_alloc. intros ok vs2. destruct ok; cbn [negb]; wp_run_steps; [|split_and!; try done; balanced].
  apply wp_alloc. intros ok vs3. destruct ok; cbn [negb]; wp_run_steps; [|split_and!; try done; balanced].
  eapply wp_mono; [apply diff_storage_new_Some|]. intros d w Hd.
  destruct d as [d|]; wp_run_steps; [|split_and!; try done; rewrite ?Hd; balanced].
  unfold new_ptr, INIT_LIST_HEAD. wp_run_steps. apply wp_oracle. intros id vs4. wp_run_steps.
  split_and!; try done. by exists id, d.
Qed.

(** A snapshot that cannot be created leaves nothing behind. When
    [snapshot_new] fails, at whichever of its allocations, every allocation counter
    and every object of the module is as before; when it succeeds, the new object
    has one reference, the given number of empty entries, its own storage, and a
    link that points to itself. *)
Theorem snapshot_new_no_leak count s :
  wp (snapshot_new count) s (λ r s',
    match r with
    | Err e => e = - ENOMEM ∧ snaps s' = snaps s ∧ storages s' = storages s ∧ broken s' = broken s ∧
        ∀ t, memory_counter (w_mem (mkern s')) t = memory_counter (w_mem (mkern s)) t
    | Ok p =>
        p = next_ptr s + 1 ∧ links s' = <[p := (p, p)]> (links s) ∧ broken s' = broken s ∧
        ∃ id d, storages s' = <[next_ptr s := d]> (storages s) ∧
          snapshot_objs s' = <[p := new_snapshot id (next_ptr s) count]> (snapshot_objs s)
    end).
Proof. apply snapshot_new_spec. Qed.

(** An error of [tracker_create_or_get] is not zero. *)
Lemma tracker_new_err bdev s :
  wp (tracker_new bdev) s (λ r _, ∀ e, r = Some (Err e) → e ≠ 0).
Proof.
  unfold tracker_new. wp_step. apply wp_eq. intros ok s1 _. destruct ok; cbn [negb]; [|wp_steps; by intros ? [= <-]].
  wp_step. apply wp_eq. intros [] s2 _. wp_step. apply wp_eq. intros t s3 _.
  wp_step. apply wp_eq. intros [] s4 _. wp_step. apply wp_eq. intros s5 s6 _. wp_step. apply wp_eq.
  intros [[m|]|] s7 _; [|wp_step; apply wp_eq; intros [] s8 _; wp_steps; by intros ? [= <-]|by wp_steps].
  wp_step. apply wp_eq. intros p s8 _. wp_step. apply wp_eq. intros [] s9 _.
  wp_step. apply wp_eq. intros [] s10 _. wp_step. apply wp_eq. intros ret s11 _.
  destruct (Z.eqb_spec ret 0); cbn [negb]; [by wp_steps|]. wp_step. apply wp_eq. intros [] s12 _.
  wp_steps. by intros ? [= <-].
Qed.

Lemma open_bdev_err d s : wp (open_bdev d) s (λ r _, ∀ e, r = Err e → e ≠ 0).
Proof.
  unfold open_bdev, in_kern. wp_steps. apply wp_blkdev_get_by_dev; intros; wp_steps; intros e' [=]; lia.
Qed.

Lemma create_or_get_err d s :
  wp (tracker_create_or_get d) s (λ r _, ∀ e, r = Some (Err e) → e ≠ 0).
Proof.
  unfold tracker_create_or_get. wp_step. eapply wp_mono; [apply open_bdev_err|].
  intros [bdev|e] s1 He; [|wp_steps; intros ? [= <-]; by apply He].
  wp_step. apply wp_eq. intros t s2 _. wp_step.
  apply wp_mono with (P := λ r _, ∀ e, r = Some (Err e) → e ≠ 0).
  2:{ intros r s3 Hr. wp_step. apply wp_eq. intros [] s4 _. by wp_steps. }
  destruct t as [t|]; [by wp_steps|]. wp_step. apply wp_eq. intros ok s3 _.
  destruct ok; cbn [negb]; [|wp_steps; by intros ? [= <-]]. wp_step. apply wp_eq. intros [] s4 _.
  wp_step. eapply wp_mono; [apply tracker_new_err|]. intros r s5 Hr.
  destruct r as [[t|e]|]; [| |by wp_steps]; wp_step; apply wp_eq; intros [] s6 _; wp_steps; [done|].
  intros ? [= <-]. by apply Hr.
Qed.

Lemma add_trackers_spec p inx devs s x :
  snapshot_objs s !! p = Some x →
  wp (add_trackers p inx devs) s (λ r s',
    links s' = links s ∧ r ≠ Some (Some 0) ∧
    ∃ x', snapshot_objs s' !! p = Some x' ∧ snap_id x' = snap_id x ∧ snap_kref x' = snap_kref x).
Proof.
  revert inx s x. induction devs as [|d devs IH]; intros inx s x Hx; cbn [add_trackers].
  { wp_steps. split_and!; [done..|by exists x]. }
  wp_step. eapply wp_mono; [apply wp_and; [apply aside_create_or_get|apply create_or_get_err]|].
  intros r s1 [[= El Eo] Hr]. destruct r as [[t|e]|]; [| |wp_steps; rewrite El, Eo; split_and!; [done..|by exists x]].
  - unfold mod_snapshot. wp_run_steps. rewrite <- Eo in Hx.
    eapply wp_mono; [eapply IH; cbn; by rewrite lookup_alter_eq, Hx|]. intros r s2 (El2 & Hr2 & x' & Hx' & E1 & E2).
    rewrite El2. cbn in *. split_and!; [done..|by exists x'].
  - wp_steps. rewrite El, Eo. split_and!; [done| |by exists x]. intros [= ->]. by apply (Hr 0).
Qed.

Lemma find_none_id s id p :
  has_id s id p = true → ∀ id', id' ≠ id → has_id s id' p = false.
Proof. unfold has_id. destruct (snapshot_objs s !! p); [|done]. rewrite Z.eqb_eq. intros <- id' ?. by apply Z.eqb_neq. Qed.

(** Looking for an id that no snapshot of the ring has. *)
Lemma lookup_absent s xs id :
  ring_ok (links s) xs → find (has_id s id) xs = None →
  (snapshot_destroy id s) = (- ENODEV, s) ∧ (snapshot_take id s) = (Some (- ESRCH), s).
Proof.
  intros Hr Hf. destruct (ring_walk s xs Hr) as (_ & He & Hw).
  unfold snapshot_destroy, snapshot_take, snapshot_get_by_id, mbind, M_mbind, gets, mret, M_mret. cbn.
  rewrite Hw, Hf. by destruct (list_empty (links s)).
Qed.

(** C36: creating a snapshot drops all others. [snapshot_create] adds the new
    snapshot to the list of snapshots with the arguments of [list_add_tail]
    exchanged. Whatever the list was, after a successful call it holds the new
    snapshot and nothing else: a snapshot with another id can no longer be found,
    neither to be destroyed ([-ENODEV]) nor to be taken ([-ESRCH]), although its
    trackers, its storage and its copy-on-write are still there. *)
Theorem snapshot_create_forgets devs s :
  is_Some (links s !! SNAPSHOTS) → 0 ≤ next_ptr s →
  wp (snapshot_create devs) s (λ r s', ∀ id, r = Some (0, id) →
    ∃ p, snapshot_entries s' = Some [p] ∧ has_id s' id p = true ∧
      ∀ id', id' ≠ id →
        snapshot_destroy id' s' = (- ENODEV, s') ∧ snapshot_take id' s' = (Some (- ESRCH), s')).
Proof.
  intros H0 Hnp. unfold snapshot_create. destruct (Z.eqb_spec (check_same_devices devs) 0); cbn [negb].
  2:{ wp_steps. congruence. }
  wp_step. eapply wp_mono; [apply snapshot_new_spec|]. intros [p|err] s1 H1.
  2:{ destruct H1 as (-> & _). wp_steps. done. }
  destruct H1 as (-> & El & _ & id0 & d & _ & Eo). wp_step. set (p := next_ptr s + 1) in *.
  assert (Hp : SNAPSHOTS ≠ p) by (unfold SNAPSHOTS, p; lia).
  eapply wp_mono; [eapply add_trackers_spec; rewrite Eo; apply lookup_insert_eq|].
  intros r s2 (El2 & Hr2 & x & Hx & Hid & _). destruct r as [[err|]|]; [| |by wp_steps].
  { wp_step. apply wp_eq. intros [] s3 _. wp_steps. congruence. }
  destruct (list_add_swapped (links s2) p) as (l' & Ea & Hring); [rewrite El2, El; apply lookup_insert_eq| |done|].
  { rewrite El2, El, lookup_insert_ne by done. done. }
  unfold on_links, get_snapshot. wp_run_steps. rewrite Ea. wp_run_steps. rewrite Hx.
  intros id [= <-]. set (s3 := {| s2 with links := l' |}). exists p.
  assert (Hid' : has_id s3 (snap_id x) p = true) by (unfold has_id; cbn; by rewrite Hx, Z.eqb_refl).
  split_and!; [by apply (ring_walk s3 [p])|done|]. intros id' Hne. apply (lookup_absent s3 [p]); [done|]. cbn [find].
  by rewrite (find_none_id s3 _ _ Hid').
Qed.
End create.

(** ** Destroying a snapshot *)

Section destroy.
Context {P : ModuleParams}.

Lemma snapshot_release_spec p s x :
  snapshot_objs s !! p = Some x →
  wp (snapshot_release p) s (λ _ s',
    links s' = links s ∧ ∃ f, (∀ x, snap_storage (f x) = snap_storage x) ∧
      snapshot_objs s' = alter f p (snapshot_objs s)).
Proof.
  intros Hx. unfold snapshot_release, get_snapshot, mod_snapshot. wp_step. wp_step. rewrite Hx.
  wp_step. eapply wp_mono; [apply aside_each; intros [i|]; [apply aside_image_free|apply aside_skip]|].
  intros [] s1 [= El1 Eo1]. wp_step. eapply wp_mono; [apply aside_each, aside_release_tracker|].
  intros [] s2 [= El2 Eo2]. wp_step. eapply wp_mono; [apply aside_each, aside_drop_tracker|].
  intros [] s3 [= El3 Eo3]. wp_steps. cbn. split; [congruence|]. eexists. split; [|by rewrite Eo3, Eo2, Eo1].
  done.
Qed.

Lemma snapshot_free_spec p s x :
  snapshot_objs s !! p = Some x →
  wp (snapshot_free p) s (λ _ s',
    links s' = delete p (links s) ∧ snapshot_objs s' = delete p (snapshot_objs s)).
Proof.
  intros Hx. unfold snapshot_free, get_snapshot. wp_step. eapply wp_mono; [by eapply snapshot_release_spec|].
  intros [] s1 (El & f & _ & Eo). wp_step. wp_step. rewrite Eo, lookup_alter_eq, Hx. cbn [fmap option_fmap option_map].
  wp_step. eapply wp_mono; [apply aside_in_kern|]. intros [] s2 [= El2 Eo2].
  wp_step. eapply wp_mono; [apply aside_in_kern|]. intros [] s3 [= El3 Eo3].
  wp_step. eapply wp_mono; [apply aside_storage_put|]. intros [] s4 [= El4 Eo4]. wp_step. wp_step.
  eapply wp_mono; [apply aside_in_kern|]. intros [] s5 [= El5 Eo5]. rewrite El5, Eo5. cbn.
  rewrite El4, El3, El2, El, Eo4, Eo3, Eo2, Eo. split; [done|]. apply delete_alter_eq.
Qed.

Lemma snapshot_put_spec p s x :
  snapshot_objs s !! p = Some x →
  wp (snapshot_put (Some p)) s (λ _ s',
    if snap_kref x =? 1 then links s' = delete p (links s) ∧ snapshot_objs s' = delete p (snapshot_objs s)
    else s' = {| s with snapshot_objs := <[p := {| x with snap_kref := snap_kref x - 1 |}]> (snapshot_objs s) |}).
Proof.
  intros Hx. unfold snapshot_put, mod_snapshot, get_snapshot. wp_run_steps.
  rewrite (alter_lookup_Some _ _ _ _ Hx), lookup_insert_eq. cbn [snap_kref].
  replace (snap_kref x - 1 =? 0) with (snap_kref x =? 1) by (destruct (Z.eqb_spec (snap_kref x) 1), (Z.eqb_spec (snap_kref x - 1) 0); lia).
  destruct (Z.eqb_spec (snap_kref x) 1); cbn [when]; [|by wp_steps].
  eapply wp_mono; [eapply snapshot_free_spec; cbn; apply lookup_insert_eq|].
  intros [] s1 [El Eo]. rewrite El, Eo. cbn. split; [done|]. apply delete_insert_eq.
Qed.

Lemma filter_keep (p : Z) (l : list Z) : p ∉ l → filter (λ n, n ≠ p) l = l.
Proof.
  induction l as [|x l IH]; [done|]. intros H. apply not_elem_of_cons in H as [Hx H].
  rewrite filter_cons_True by (by intros ->). by rewrite IH.
Qed.

Lemma filter_out (p : Z) (l1 l2 : list Z) :
  NoDup (l1 ++ p :: l2) → filter (λ n, n ≠ p) (l1 ++ p :: l2) = l1 ++ l2.
Proof.
  intros H. apply NoDup_app in H as (_ & Hd & H2). apply NoDup_cons in H2 as [H2 _].
  rewrite filter_app, filter_cons_False by (by intros H). f_equal; apply filter_keep; [|done].
  intros Hn. apply (Hd p Hn), elem_of_cons. by left.
Qed.

(** C24: [snapshot_destroy] removes exactly the snapshot asked for. If the list links
    the snapshots [xs], the first of them with the given id leaves it, the others
    stay linked in their order, and the reference the list held is dropped: the
    object is gone if that was the last one, and else only its count changes, along
    with nothing of any other snapshot. If no snapshot of the list has the id, the
    answer is [-ENODEV] and nothing changes. *)
Theorem snapshot_destroy_refines id s xs :
  ring_ok (links s) xs → (∀ p, p ∈ xs → is_Some (snapshot_objs s !! p)) →
  wp (snapshot_destroy id) s (λ ret s',
    match find (has_id s id) xs with
    | None => ret = - ENODEV ∧ s' = s
    | Some p =>
        ret = 0 ∧ ring_ok (links s') (filter (λ n, n ≠ p) xs) ∧
        ∃ x, snapshot_objs s !! p = Some x ∧ snap_id x = id ∧
          snapshot_objs s' =
            if snap_kref x =? 1 then delete p (snapshot_objs s)
            else <[p := {| x with snap_kref := snap_kref x - 1 |}]> (snapshot_objs s)
    end).
Proof.
  intros Hr Hobj. destruct (ring_walk s xs Hr) as (_ & He & Hw).
  destruct (find (has_id s id) xs) as [p|] eqn:Hf.
  2:{ apply wp_eq. intros ret s' E. destruct (lookup_absent s xs id Hr Hf) as [E' _]. rewrite E' in E.
      by injection E as <- <-. }
  pose proof Hf as [Hp Hid]%find_some. apply list_elem_of_In in Hp.
  unfold snapshot_destroy. wp_step. wp_step. rewrite He, bool_decide_eq_false_2 by (intros ->; by apply not_elem_of_nil in Hp).
  rewrite Hw, Hf. destruct (list_elem_of_split xs p Hp) as (l1 & l2 & ->).
  destruct (list_del_ring _ _ _ _ Hr) as (l' & El & Hr'). unfold on_links. wp_steps. rewrite El. wp_steps.
  destruct (Hobj p Hp) as [x Hx]. eapply wp_mono; [eapply snapshot_put_spec; cbn; exact Hx|].
  intros [] s1 H1. wp_steps. destruct Hr as [_ [_ Hnd]%NoDup_cons]. rewrite (filter_out _ _ _ Hnd).
  assert (Hdel : l' !! p = None).
  { unfold list_del in El. destruct (links s !! p) as [[a b]|]; [|done]. injection El as <-. apply lookup_delete_eq. }
  split; [done|]. assert (snap_id x = id) by (unfold has_id in Hid; rewrite Hx in Hid; by apply Z.eqb_eq).
  destruct (snap_kref x =? 1) eqn:Ek.
  - destruct H1 as [-> Eo]. cbn. rewrite delete_id by done. split; [done|]. exists x. by rewrite Ek.
  - subst s1. cbn. split; [done|]. exists x. by rewrite Ek.
Qed.
End destroy.

(** ** The guards *)

Section guards.
Context {P : ModuleParams}.

Lemma dev_is_equal_spec a b : blk_snap_dev_is_equal a b = true ↔ a = b.
Proof.
  unfold blk_snap_dev_is_equal. rewrite andb_true_iff, !Z.eqb_eq. destruct a, b. cbn.
  split; [intros [-> ->]; done|by intros [= -> ->]].
Qed.

Lemma existsb_dev a l : existsb (blk_snap_dev_is_equal a) l = true ↔ a ∈ l.
Proof.
  rewrite existsb_exists. setoid_rewrite dev_is_equal_spec. setoid_rewrite <- list_elem_of_In.
  split; [by intros (? & ? & ->)|by exists a].
Qed.

Lemma check_same_devices_spec devs :
  check_same_devices devs = if bool_decide (NoDup devs) then 0 else - EINVAL.
Proof.
  induction devs as [|d devs IH]; cbn [check_same_devices]; [by rewrite bool_decide_eq_true_2 by constructor|].
  destruct (existsb (blk_snap_dev_is_equal d) devs) eqn:E.
  - apply existsb_dev in E. rewrite bool_decide_eq_false_2; [done|]. intros [? _]%NoDup_cons. done.
  - assert (d ∉ devs) by (intros H%existsb_dev; congruence). rewrite IH.
    case_bool_decide as H1; case_bool_decide as H2; try done.
    + by destruct H2; constructor.
    + by apply NoDup_cons in H2 as [_ ?].
Qed.

(** A snapshot never has the same device twice. [snapshot_create] goes on to
    create a snapshot only for devices that are all different; otherwise it answers
    [-EINVAL] and changes nothing at all. *)
Theorem snapshot_create_distinct devs :
  (check_same_devices devs = 0 ↔ NoDup devs) ∧
  (¬ NoDup devs → ∀ s, snapshot_create devs s = (Some (- EINVAL, 0), s)).
Proof.
  rewrite check_same_devices_spec. split; [case_bool_decide; done|]. intros Hn s.
  unfold snapshot_create. by rewrite check_same_devices_spec, bool_decide_eq_false_2.
Qed.

(** Finding a snapshot takes a reference, and putting it gives it back. *)
Lemma get_by_id_spec id s xs p x :
  ring_ok (links s) xs → find (has_id s id) xs = Some p → snapshot_objs s !! p = Some x →
  snapshot_get_by_id id s = (Some p,
    {| s with snapshot_objs := <[p := {| x with snap_kref := snap_kref x + 1 |}]> (snapshot_objs s) |}).
Proof.
  intros Hr Hf Hx. destruct (ring_walk s xs Hr) as (_ & He & Hw).
  unfold snapshot_get_by_id, snapshot_get, mod_snapshot, mbind, M_mbind, gets, mret, M_mret, modify. cbn.
  rewrite He, bool_decide_eq_false_2 by (by intros ->). rewrite Hw, Hf. cbn.
  by rewrite (alter_lookup_Some _ _ _ _ Hx).
Qed.

Lemma put_got p s x :
  snapshot_objs s !! p = Some x → 1 ≤ snap_kref x →
  wp (snapshot_put (Some p))
    {| s with snapshot_objs := <[p := {| x with snap_kref := snap_kref x + 1 |}]> (snapshot_objs s) |}
    (λ _ s', s' = s).
Proof.
  intros Hx Hk. eapply wp_mono; [eapply snapshot_put_spec; cbn; apply lookup_insert_eq|]. cbn.
  rewrite (proj2 (Z.eqb_neq _ _)) by lia. intros [] s' ->. rewrite insert_insert_eq.
  replace (snap_kref x + 1 - 1) with (snap_kref x) by lia. rewrite insert_id; [by destruct s|].
  rewrite Hx. by destruct x.
Qed.

(** The guards of [snapshot_take]. A snapshot that is not in the list answers
    [-ESRCH]; one that has been taken already, [-EALREADY]; one without devices,
    [-ENODEV]; in each case nothing changes, reference counts included. *)
Theorem snapshot_take_guards id s xs :
  ring_ok (links s) xs →
  (∀ p, p ∈ xs → ∃ x, snapshot_objs s !! p = Some x ∧ 1 ≤ snap_kref x) →
  match find (has_id s id) xs ≫= λ p, snapshot_objs s !! p with
  | None => snapshot_take id s = (Some (- ESRCH), s)
  | Some x =>
      (is_taken x = true → snapshot_take id s = (Some (- EALREADY), s)) ∧
      (is_taken x = false → snap_count x = 0 → snapshot_take id s = (Some (- ENODEV), s))
  end.
Proof.
  intros Hr Hobj. destruct (find (has_id s id) xs) as [p|] eqn:Hf; cbn.
  2:{ by apply (lookup_absent s xs id Hr Hf). }
  pose proof Hf as [Hp _]%find_some. apply list_elem_of_In in Hp. destruct (Hobj p Hp) as (x & Hx & Hk).
  rewrite Hx.
  assert (Hgo : ∀ ret, (is_taken x = true → ret = - EALREADY) → (is_taken x = false → snap_count x = 0 ∧ ret = - ENODEV) →
    wp (snapshot_take id) s (λ r s', r = Some ret ∧ s' = s)).
  { intros ret H1 H2. unfold snapshot_take. wp_step. unfold wp at 1. rewrite (get_by_id_spec _ _ _ _ _ Hr Hf Hx). cbn [fst snd].
    pose proof (put_got p s x Hx Hk) as Hput.
    set (x1 := {| x with snap_kref := snap_kref x + 1 |}) in *.
    set (s1 := {| s with snapshot_objs := <[p := x1]> (snapshot_objs s) |}) in *.
    assert (E1 : snapshot_objs s1 !! p = Some x1) by apply lookup_insert_eq.
    assert (E2 : is_taken x1 = is_taken x ∧ snap_count x1 = snap_count x) by done. destruct E2 as [E2 E3].
    clearbody s1 x1. unfold get_snapshot. wp_step. wp_step. rewrite E1, E2, E3.
    destruct (is_taken x); [rewrite H1 by done|destruct (H2 eq_refl) as [-> ->]; rewrite Z.eqb_refl]; wp_step;
      (eapply wp_mono; [exact Hput|]); intros [] s' ->; by wp_steps. }
  split; [intros Ht|intros Ht Hc].
  - destruct (Hgo (- EALREADY)) as [E1 E2]; [done|congruence|]. by rewrite (surjective_pairing (snapshot_take id s)), E1, E2.
  - destruct (Hgo (- ENODEV)) as [E1 E2]; [congruence|done|]. by rewrite (surjective_pairing (snapshot_take id s)), E1, E2.
Qed.
End guards.
