(* ===== verification/SnapshotTake.v ===== *)
(** * Properties of snapshots: taking is all or nothing

    [tracker_take_snapshot], [snapshot_take_trackers] and its undoing, for the default
    module parameters, with devices frozen one after the other. *)
From S2P Require Import Prelude MemoryChecker Kernel Uapi EventQueue CbtMap DiffBuffer DiffIo.
From S2P Require Import DiffStorage Chunk DiffArea ChunkSpecs CowInv Cow CowSteps CowImage.
From S2P Require Import CowSafety State BdevFilter SnapImage Tracker Snapshot SnapshotSpecs.

#[local] Existing Instance default_params.

(** A tracker that a snapshot can be taken of: its map is in order, its area is
    there, its queue is open, the device has a size. *)
Record can_take (s : modst) (t : Z) (tr : tracker) : Prop := {
  ct_tracker : trackers s !! t = Some tr;
  ct_lock : submit_lock tr = false;
  ct_taken : snapshot_is_taken tr = false;
  ct_cbt : ∃ p m, tr_cbt_map tr = Some p ∧ cbt_maps s !! p = Some m ∧ cbt_wf m;
  ct_area : ∃ a da st, tr_diff_area tr = Some a ∧ areas s !! a = Some (da, st) ∧
              0 < dev_sectors (devices s (orig_bdev da)) < 2 ^ 55;
}.

Definition set_taken (b : bool) (tr : tracker) : tracker := {| tr with snapshot_is_taken := b |}.
Definition set_lock (tr : tracker) : tracker := {| tr with submit_lock := true |}.

(** Nothing but the tracker [t] and its map has changed. *)
Record took (s s' : modst) (t : Z) (f : tracker → tracker) (p : option Z) : Prop := {
  tk_trackers : trackers s' = alter f t (trackers s);
  tk_areas : areas s' = areas s;
  tk_devices : devices s' = devices s;
  tk_frozen : fs_frozen s' = fs_frozen s;
  tk_broken : broken s' = broken s;
  tk_maps q : Some q ≠ p → cbt_maps s' !! q = cbt_maps s !! q;
}.

Lemma cbt_map_reset_spec m capacity w :
  0 < capacity < 2 ^ 55 →
  wp (cbt_map_reset m capacity) w (λ r _, ∃ ret m', r = Some (ret, m') ∧ (ret = 0 → cbt_wf m')).
Proof.
  intros Hc. unfold cbt_map_reset. wp_step. eapply wp_mono; [apply cbt_map_deallocate_spec|].
  intros m1 w1 (-> & _).
  match goal with |- context [cbt_map_calculate_block_size ?m0] =>
    destruct (calculate_block_size_spec m0) as (m2 & -> & Em & _ & Hg); [done|] end. wp_step.
  destruct Hg as [[Hs _] _]. eapply wp_mono; [apply cbt_map_allocate_spec; [done|by rewrite Em..]|].
  intros [ret m3] w3 (_ & H). wp_steps. exists ret, m3. split; [done|].
  destruct H as [(-> & _)|(-> & [Hwf _] & _)]; done.
Qed.

(** The map of a tracker is in order. *)
Definition map_in_order (s : modst) (tr : tracker) : Prop :=
  ∃ p m, tr_cbt_map tr = Some p ∧ cbt_maps s !! p = Some m ∧ cbt_wf m.

Lemma tracker_take_full t s tr :
  can_take s t tr →
  wp (tracker_take_snapshot t) s (λ ret s',
    took s s' t (if ret =? 0 then set_taken true else set_lock) (tr_cbt_map tr) ∧
    (ret = 0 → map_in_order s' tr)).
Proof.
  intros [Ht Hl _ (p & m & Hp & Hm & Hwf) (a & da & st & Ea & Eda & Hcap)].
  unfold tracker_take_snapshot. wp_steps. cbn [id]. rewrite Ht. cbn [mbind option_bind].
  rewrite Ea. cbn [mbind option_bind]. rewrite Eda. wp_step.
  eapply wp_mono; [by apply freeze_spec|]. intros [] s1 ->. unfold tracker_cbt. wp_run_steps.
  rewrite lookup_insert_eq. cbn [mbind option_bind tr_cbt_map]. rewrite Hp. cbn [mbind option_bind]. rewrite Hm.
  cbn [fmap option_fmap option_map]. unfold set_cbt, in_kern.
  set (capacity := dev_sectors _) in *. set (locked := <[t := _]> (trackers s)).
  assert (Elock : locked = alter set_lock t (trackers s)).
  { rewrite (alter_lookup_Some _ _ _ _ Ht). unfold locked. f_equal. destruct tr; cbn in *; by subst. }
  assert (Hret : ∀ w, wp (if is_corrupted m || negb (device_capacity m =? capacity)
      then zoom mkern (λ w s, {| s with mkern := w |}) (cbt_map_reset m capacity) else mret (Some (0, m)))
    {| s with mkern := w; trackers := locked |}
    (λ r s', ∃ ret m' w', r = Some (ret, m') ∧ (ret = 0 → cbt_wf m') ∧
       s' = {| s with mkern := w'; trackers := locked |})).
  { intros w. destruct (_ || _); [|wp_steps; eauto 10]. wp_run_steps.
    eapply wp_mono; [by apply cbt_map_reset_spec|]. intros r w' (ret & m' & -> & Hr). eauto 10. }
  wp_step. eapply wp_mono; [apply Hret|]. intros r s2 (ret & m' & w' & -> & Hwf' & ->). wp_run_steps.
  destruct (Z.eqb_spec ret 0) as [->|Hne]; cbn [negb]; wp_run_steps.
  2:{ rewrite (proj2 (Z.eqb_neq _ _) Hne). split; [|done]. split; try done. intros q Hq. cbn.
      by rewrite lookup_insert_ne by congruence. }
  eapply wp_mono; [by apply cbt_map_switch_spec, Hwf'|]. intros r w2 (_ & m2 & -> & Hwf2 & _).
  unfold mod_tracker, bdevfilter_unfreeze_queue, mod_tracker. wp_run_steps. cbn [Z.eqb].
  split; [|intros _; exists p, m2; split_and!; [done|apply lookup_insert_eq|done]].
  split; try done; cbn.
  - rewrite Elock. apply map_eq. intros k.
    destruct (decide (k = t)) as [->|Hk]; [|by rewrite !lookup_alter_ne].
    rewrite !lookup_alter_eq, Ht. cbn. f_equal. destruct tr; cbn in *; by subst.
  - intros q Hq. by rewrite !lookup_insert_ne by congruence.
Qed.

Lemma tracker_take_spec t s tr :
  can_take s t tr →
  wp (tracker_take_snapshot t) s (λ ret s',
    took s s' t (if ret =? 0 then set_taken true else set_lock) (tr_cbt_map tr)).
Proof. intros H. eapply wp_mono; [by apply tracker_take_full|]. by intros ret s' [? _]. Qed.

(** ** Freezing file systems touches nothing else *)

Record calm (s s' : modst) : Prop := {
  ca_trackers : trackers s' = trackers s;
  ca_areas : areas s' = areas s;
  ca_devices : devices s' = devices s;
  ca_maps : cbt_maps s' = cbt_maps s;
  ca_broken : broken s' = broken s;
}.

Lemma freeze_bdev_spec d s :
  wp (freeze_bdev d) s (λ err s', calm s s' ∧
    fs_frozen s' = if err =? 0 then upd (fs_frozen s) d (fs_frozen s d + 1) else fs_frozen s).
Proof.
  unfold freeze_bdev, in_kern. wp_run_steps. apply wp_oracle. intros v vs. modst_simpl.
  destruct (Z.eqb_spec v 0); wp_run_steps; [done|]. rewrite (proj2 (Z.eqb_neq _ _)) by lia. done.
Qed.

Lemma thaw_bdev_spec d s :
  wp (thaw_bdev d) s (λ _ s', calm s s' ∧
    (fs_frozen s d ≠ 0 → fs_frozen s' = upd (fs_frozen s) d (fs_frozen s d - 1))).
Proof. unfold thaw_bdev. wp_steps. destruct (Z.eqb_spec (fs_frozen s d) 0); wp_steps; done. Qed.

Lemma can_take_ext s s' t tr :
  trackers s' !! t = trackers s !! t → areas s' = areas s → devices s' = devices s →
  (∀ p, tr_cbt_map tr = Some p → cbt_maps s' !! p = cbt_maps s !! p) → can_take s t tr → can_take s' t tr.
Proof.
  intros Et Ea Ed Em [? ? ? (p & m & Hp & Hm & Hw) (a & da & st & ? & ? & ?)]. split; try congruence.
  - exists p, m. rewrite Em by done. done.
  - exists a, da, st. by rewrite Ea, Ed.
Qed.

(** ** Taking one tracker after the other *)

Definition marks (b : bool) (l : list (option Z)) (M : gmap Z tracker) : gmap Z tracker :=
  foldl (λ M o, match o with Some t => alter (set_taken b) t M | None => M end) M l.

Lemma marks_lookup b l M t :
  marks b l M !! t = if bool_decide (Some t ∈ l) then set_taken b <$> M !! t else M !! t.
Proof.
  revert M. induction l as [|o l IH]; intros M; [done|]. unfold marks. cbn [foldl]. fold (marks b l).
  change (foldl _ ?M0 l) with (marks b l M0). rewrite IH. destruct o as [u|].
  - destruct (decide (t = u)) as [->|Hne].
    + rewrite lookup_alter_eq. rewrite (bool_decide_eq_true_2 (Some u ∈ Some u :: l)) by (apply elem_of_cons; by left).
      destruct (M !! u) as [tr|]; case_bool_decide; done.
    + rewrite lookup_alter_ne by done. rewrite (bool_decide_ext (Some t ∈ Some u :: l) (Some t ∈ l)); [done|].
      rewrite elem_of_cons. naive_solver.
  - rewrite (bool_decide_ext (Some t ∈ None :: l) (Some t ∈ l)); [done|]. rewrite elem_of_cons. naive_solver.
Qed.

Lemma marks_app b l1 l2 M : marks b (l1 ++ l2) M = marks b l2 (marks b l1 M).
Proof. unfold marks. by rewrite foldl_app. Qed.

(** The trackers of a snapshot: each can be taken, none is there twice, and no two
    share a change tracking map. *)
Record all_ready (s : modst) (l : list (option Z)) : Prop := {
  ar_take t : Some t ∈ l → ∃ tr, can_take s t tr;
  ar_nodup : NoDup (omap id l);
  ar_maps t1 t2 tr1 tr2 : Some t1 ∈ l → Some t2 ∈ l → t1 ≠ t2 →
    trackers s !! t1 = Some tr1 → trackers s !! t2 = Some tr2 → tr_cbt_map tr1 ≠ tr_cbt_map tr2;
}.

Lemma all_ready_next s s' t tr l :
  all_ready s (Some t :: l) → trackers s !! t = Some tr →
  trackers s' = alter (set_taken true) t (trackers s) → areas s' = areas s → devices s' = devices s →
  (∀ q, Some q ≠ tr_cbt_map tr → cbt_maps s' !! q = cbt_maps s !! q) → all_ready s' l.
Proof.
  intros [Hc Hn Hm] Ht Et Ea Ed Em. cbn in Hn. apply NoDup_cons in Hn as [Hnt Hn].
  assert (Hne : ∀ t2, Some t2 ∈ l → t2 ≠ t).
  { intros t2 H2 ->. apply Hnt, list_elem_of_omap. by exists (Some t). }
  assert (Hs : ∀ t2, Some t2 ∈ l → trackers s' !! t2 = trackers s !! t2).
  { intros t2 H2. rewrite Et, lookup_alter_ne; [done|]. by apply not_eq_sym, Hne. }
  split; [|done|].
  - intros t2 H2. assert (H2' : Some t2 ∈ Some t :: l) by (apply elem_of_cons; by right).
    destruct (Hc t2 H2') as [tr2 Hc2]. exists tr2. eapply can_take_ext; [by apply Hs|done|done| |done].
    intros p Hp. apply Em. rewrite <- Hp. eapply (Hm t2 t); [done|apply elem_of_cons; by left|by apply Hne|apply Hc2|done].
  - intros t1 t2 tr1 tr2 H1 H2 H12. rewrite !Hs by done. apply Hm; [apply elem_of_cons; by right..|done].
Qed.

Lemma all_ready_calm s s' l : calm s s' → all_ready s l → all_ready s' l.
Proof.
  intros [Et Ea Ed Em _] [Hc Hn Hm]. split; [|done|by rewrite Et].
  intros t Ht. destruct (Hc t Ht) as [tr H]. exists tr. eapply can_take_ext; [by rewrite Et|done|done| |done].
  intros. by rewrite Em.
Qed.

Lemma tracker_orig_spec s t tr :
  can_take s t tr → ∃ d, tracker_orig t s = Some (Some d).
Proof.
  intros [Ht _ _ _ (a & da & st & Ea & Eda & _)]. exists (orig_bdev da). unfold tracker_orig.
  rewrite Ht. cbn. rewrite Ea, Eda. done.
Qed.

(** What the loop over the trackers has done when it stops. *)
Definition taken_until (s : modst) (l : list (option Z)) (done done' : list (option Z)) (ret : Z) (s' : modst)
    : Prop :=
  ∃ l1 l2, l = l1 ++ l2 ∧ done' = reverse l1 ++ done ∧ areas s' = areas s ∧ broken s' = broken s ∧
    match l2 with
    | [] => ret = 0 ∧ trackers s' = marks true l1 (trackers s) ∧ ∀ d, fs_frozen s' d = fs_frozen s d
    | None :: _ => False
    | Some t :: _ => ret ≠ 0 ∧ trackers s' = alter set_lock t (marks true l1 (trackers s))
    end.

Lemma taken_until_cons s s1 o l dn done' ret s' :
  areas s1 = areas s → broken s1 = broken s → trackers s1 = marks true [o] (trackers s) →
  (∀ d, fs_frozen s1 d = fs_frozen s d) →
  taken_until s1 l (o :: dn) done' ret s' → taken_until s (o :: l) dn done' ret s'.
Proof.
  intros Ea Eb Et Ef (l1 & l2 & -> & -> & Ea' & Eb' & H). exists (o :: l1), l2.
  split; [done|]. split; [by rewrite reverse_cons, <- app_assoc|]. split; [congruence|]. split; [congruence|].
  assert (Em : marks true (o :: l1) (trackers s) = marks true l1 (trackers s1)).
  { rewrite Et. by rewrite <- marks_app. }
  rewrite Em. destruct l2 as [|[t|] l2]; try done. destruct H as (-> & -> & H). split_and!; try done.
  intros d. by rewrite H, Ef.
Qed.

Lemma take_trackers_spec l done s :
  all_ready s l → (∀ d, 0 ≤ fs_frozen s d) →
  wp (take_trackers done l) s (λ '(done', ret) s', taken_until s l done done' ret s').
Proof.
  revert done s. induction l as [|o l IH]; intros dn s Hr Hf; cbn [take_trackers].
  { wp_steps. exists [], []. by split_and!. }
  destruct o as [t|].
  2:{ eapply wp_mono; [apply IH; [|done]|].
      - destruct Hr as [H1 H2 H3]. split; [|done|].
        + intros u Hu. apply H1, elem_of_cons. by right.
        + intros t1 t2 tr1 tr2 Ht1 Ht2. apply H3; apply elem_of_cons; by right.
      - intros [done' ret] s' H. by eapply taken_until_cons. }
  destruct (ar_take _ _ Hr t) as [tr Hc]; [apply elem_of_cons; by left|].
  destruct (tracker_orig_spec _ _ _ Hc) as [d Hd]. wp_step. wp_step. rewrite Hd. wp_step.
  eapply wp_mono; [apply freeze_bdev_spec|]. intros err s1 [Hcalm Hf1]. wp_step.
  pose proof (all_ready_calm _ _ _ Hcalm Hr) as Hr1. destruct Hcalm as [Et1 Ea1 Ed1 Em1 Eb1].
  assert (Hc1 : can_take s1 t tr) by (eapply can_take_ext; [..|exact Hc]; intros; congruence).
  eapply wp_mono; [by apply tracker_take_spec|]. intros ret s2 [Et2 Ea2 Ed2 Ef2 Eb2 Em2].
  destruct (Z.eqb_spec ret 0) as [->|Hne]; cbn [negb].
  2:{ wp_steps. exists [], (Some t :: l). split; [done|]. split; [done|]. split; [congruence|]. split; [congruence|].
      cbn. split; [done|]. by rewrite Et2, Et1. }
  wp_step. apply wp_mono with (P := λ _ s3, calm s2 s3 ∧ ∀ d, fs_frozen s3 d = fs_frozen s d).
  { destruct (err =? 0); cbn [when]; [|wp_steps; split; [done|]; intros; by rewrite Ef2, Hf1].
    wp_step. eapply wp_mono; [apply thaw_bdev_spec|]. intros r s3 [Hc3 Hf3]. wp_steps. split; [done|].
    rewrite Hf3; [|rewrite Ef2, Hf1, upd_eq; specialize (Hf d); lia]. rewrite Ef2, Hf1. intros d'.
    destruct (decide (d' = d)) as [->|Hne]; [rewrite !upd_eq; lia|by rewrite !upd_ne]. }
  intros [] s3 [[Et3 Ea3 Ed3 Em3 Eb3] Hf3]. eapply wp_mono; [apply IH|].
  - eapply all_ready_next; [exact Hr1|apply Hc1|..]; try congruence. intros q Hq. rewrite Em3. by apply Em2.
  - intros d'. by rewrite Hf3.
  - intros [done' ret] s' H. eapply taken_until_cons; [..|exact H]; try congruence. rewrite Et3, Et2, Et1. done.
Qed.

(** ** Undoing it *)

Definition can_untake (s : modst) (t : Z) : Prop :=
  ∃ tr a da st, trackers s !! t = Some tr ∧ submit_lock tr = false ∧ tr_diff_area tr = Some a ∧
    areas s !! a = Some (da, st).

Lemma tracker_release_spec t s tr :
  trackers s !! t = Some tr → submit_lock tr = false →
  wp (tracker_release_snapshot t) s (λ _ s',
    s' = {| s with trackers := alter (set_taken false) t (trackers s) |}).
Proof.
  intros Ht Hl. unfold tracker_release_snapshot. wp_step. eapply wp_mono; [by apply freeze_spec|].
  intros [] s1 ->. unfold mod_tracker, bdevfilter_unfreeze_queue, mod_tracker. wp_run_steps.
  f_equal. apply map_eq. intros k. destruct (decide (k = t)) as [->|Hk].
  - rewrite !lookup_alter_eq, lookup_insert_eq, Ht. cbn. f_equal. destruct tr; cbn in *; by subst.
  - by rewrite !lookup_alter_ne, lookup_insert_ne.
Qed.

Lemma untake_spec l s :
  (∀ t, Some t ∈ l → can_untake s t) →
  wp (each untake_tracker l) s (λ _ s',
    trackers s' = marks false l (trackers s) ∧ areas s' = areas s ∧ broken s' = broken s).
Proof.
  revert s. induction l as [|o l IH]; intros s Hu; cbn [each]; [by wp_steps|]. wp_step.
  apply wp_mono with (P := λ _ s', trackers s' = marks false [o] (trackers s) ∧ areas s' = areas s ∧ broken s' = broken s).
  { destruct o as [t|]; cbn [untake_tracker]; [|by wp_steps].
    destruct (Hu t) as (tr & a & da & st & Ht & Hl & Ea & Eda); [apply elem_of_cons; by left|].
    assert (Ho : tracker_orig t s = Some (Some (orig_bdev da))).
    { unfold tracker_orig. rewrite Ht. cbn. rewrite Ea, Eda. done. }
    wp_step. wp_step. rewrite Ho. wp_step. eapply wp_mono; [apply freeze_bdev_spec|].
    intros err s1 [[Et1 Ea1 _ _ Eb1] _]. wp_step. eapply wp_mono; [eapply tracker_release_spec; [by rewrite Et1|done]|].
    intros [] s2 ->. wp_step. eapply wp_mono; [apply thaw_bdev_spec|]. intros r s3 [[Et3 Ea3 _ _ Eb3] _]. wp_steps.
    rewrite Et3, Ea3, Eb3. cbn. rewrite Et1, Ea1, Eb1. done. }
  intros [] s1 (Et & Ea & Eb). eapply wp_mono; [apply IH|].
  - intros t Ht. destruct (Hu t) as (tr & a & da & st & Htr & Hl & Ha & Hda); [apply elem_of_cons; by right|].
    unfold can_untake. rewrite Et, Ea, marks_lookup, Htr. case_bool_decide; cbn; [|by eauto 10].
    by exists (set_taken false tr), a, da, st.
  - intros [] s2 (Et2 & Ea2 & Eb2). split_and!; try congruence. rewrite Et2, Et. by rewrite <- marks_app.
Qed.

Lemma marks_undone l1 t (M : gmap Z tracker) :
  Some t ∉ l1 → (∀ u tr, Some u ∈ l1 → M !! u = Some tr → snapshot_is_taken tr = false) →
  marks false (reverse l1) (alter set_lock t (marks true l1 M)) = alter set_lock t M.
Proof.
  intros Ht Hf. apply map_eq. intros k. rewrite marks_lookup.
  rewrite (bool_decide_ext (Some k ∈ reverse l1) (Some k ∈ l1)) by apply elem_of_reverse.
  destruct (decide (k = t)) as [->|Hk].
  - rewrite bool_decide_eq_false_2, !lookup_alter_eq, marks_lookup, bool_decide_eq_false_2 by done. done.
  - rewrite !lookup_alter_ne, marks_lookup by done. case_bool_decide as H; [|done].
    destruct (M !! k) as [tr|] eqn:Ek; [|done]. cbn. f_equal. specialize (Hf k tr H Ek). destruct tr; cbn in *; by subst.
Qed.

Lemma not_before (l1 l2 : list (option Z)) t : NoDup (omap id (l1 ++ Some t :: l2)) → Some t ∉ l1.
Proof.
  intros Hn Ht. rewrite omap_app in Hn. apply NoDup_app in Hn as (_ & Hd & _). eapply (Hd t).
  - apply list_elem_of_omap. by exists (Some t).
  - cbn. apply elem_of_cons. by left.
Qed.

Lemma can_untake_marked s s1 l1 t u :
  Some t ∉ l1 → Some u ∈ l1 → trackers s1 = alter set_lock t (marks true l1 (trackers s)) → areas s1 = areas s →
  (∃ tr, can_take s u tr) → can_untake s1 u.
Proof.
  intros Ht Hu Et Ea [tr [Hu1 Hl _ _ (a & da & st & Ha & Hda & _)]].
  exists (set_taken true tr), a, da, st. rewrite Et, Ea, lookup_alter_ne by (by intros ->).
  by rewrite marks_lookup, bool_decide_eq_true_2, Hu1.
Qed.

(** C11: taking a snapshot is all or nothing. Over devices whose trackers are ready,
    [snapshot_take_trackers] either returns 0, every tracker of the snapshot then
    filters for it, no file system is left frozen and the snapshot is marked as
    taken; or it returns an error and no tracker filters for the snapshot: those it
    had taken are released again. In that case the tracker that failed is left with
    its queue locked; every other tracker is as it was. In both cases the areas are as they
    were and no pointer has gone bad. Nothing is claimed of the rest after a failure: the
    change tracking maps of trackers that had been taken have been switched, and the file
    system of the device that failed stays frozen. *)
Theorem snapshot_take_all_or_nothing p x s :
  all_ready s (used x (tracker_array x)) → (∀ d, 0 ≤ fs_frozen s d) →
  wp (snapshot_take_trackers p x) s (λ ret s',
    areas s' = areas s ∧ broken s' = broken s ∧
    if ret =? 0 then
      (∀ t, trackers s' !! t = if bool_decide (Some t ∈ used x (tracker_array x))
                               then set_taken true <$> trackers s !! t else trackers s !! t) ∧
      (∀ d, fs_frozen s' d = fs_frozen s d) ∧
      (∀ x', snapshot_objs s' !! p = Some x' → is_taken x' = true)
    else
      ∃ t, Some t ∈ used x (tracker_array x) ∧ trackers s' = alter set_lock t (trackers s)).
Proof.
  intros Hr Hf. unfold snapshot_take_trackers. wp_step. eapply wp_mono; [by apply take_trackers_spec|].
  intros [done' ret] s1 (l1 & l2 & El & -> & Ea & Eb & H). rewrite app_nil_r.
  destruct l2 as [|[t|] l2]; [| |done].
  - destruct H as (-> & Et & Hfs). rewrite app_nil_r in El. unfold mod_snapshot. wp_run_steps. cbn [Z.eqb].
    split_and!; try done.
    + intros t. cbn. by rewrite Et, marks_lookup, El.
    + intros x'. cbn. rewrite lookup_alter_eq. destruct (snapshot_objs s1 !! p); [|done]. by intros [= <-].
  - destruct H as (Hne & Et). rewrite (proj2 (Z.eqb_neq _ _) Hne). destruct Hr as [Hc Hn _]. rewrite El in *.
    assert (Hin : ∀ u, Some u ∈ l1 → Some u ∈ l1 ++ Some t :: l2) by (intros; apply elem_of_app; by left).
    assert (Ht : Some t ∉ l1) by by eapply not_before.
    wp_step. eapply wp_mono; [apply untake_spec|].
    + intros u Hu. rewrite elem_of_reverse in Hu.
      eapply can_untake_marked; [exact Ht|exact Hu|exact Et|exact Ea|by apply Hc, Hin].
    + intros [] s2 (Et2 & Ea2 & Eb2). wp_steps. rewrite (proj2 (Z.eqb_neq _ _) Hne).
      split_and!; try congruence. exists t. split; [apply elem_of_app; right; apply elem_of_cons; by left|].
      rewrite Et2, Et. apply marks_undone; [done|]. intros u tr Hu Htr.
      destruct (Hc u (Hin u Hu)) as [tr' [Hu1 _ Hu2 _ _]]. congruence.
Qed.

(** ** Destroying a snapshot that others have taken the trackers of *)

Lemma release_tracker_spec o s :
  (∀ t, o = Some t → can_untake s t) →
  wp (release_tracker o) s (λ _ s', trackers s' = marks false [o] (trackers s) ∧ areas s' = areas s ∧ snapimages s' = snapimages s).
Proof.
  intros Hu. destruct o as [t|]; cbn [release_tracker]; [|by wp_steps].
  destruct (Hu t eq_refl) as (tr & a & da & st & Ht & Hl & Ea & Eda).
  assert (Ho : tracker_orig t s = Some (Some (orig_bdev da))).
  { unfold tracker_orig. rewrite Ht. cbn. by rewrite Ea, Eda. }
  wp_step. wp_step. rewrite Ho. wp_step.
  eapply wp_mono; [apply (wp_and _ _ _ (λ _ s', snapimages s' = snapimages s) (freeze_bdev_spec _ s))|].
  { unfold freeze_bdev, in_kern. wp_run_steps. apply wp_oracle. intros v vs. modst_simpl. by destruct (v =? 0); wp_run_steps. }
  intros err s1 [[[Et1 Ea1 _ _ _] _] Ei1]. wp_step. eapply wp_mono; [eapply tracker_release_spec; [by rewrite Et1|done]|].
  intros [] s2 ->. unfold when. destruct (err =? 0); [|wp_steps; cbn; by rewrite Et1, Ea1, Ei1].
  wp_step. unfold thaw_bdev. wp_run_steps. destruct (_ =? 0); wp_run_steps; cbn; by rewrite Et1, Ea1, Ei1.
Qed.

Lemma release_trackers_spec l s :
  (∀ t, Some t ∈ l → can_untake s t) →
  wp (each release_tracker l) s (λ _ s', trackers s' = marks false l (trackers s) ∧ snapimages s' = snapimages s).
Proof.
  revert s. induction l as [|o l IH]; intros s Hu; cbn [each]; [by wp_steps|]. wp_step.
  eapply wp_mono; [apply release_tracker_spec; intros t ->; apply Hu, elem_of_cons; by left|].
  intros [] s1 (Et & Ea & Ei). eapply wp_mono; [apply IH|].
  - intros t Ht. destruct (Hu t) as (tr & a & da & st & Htr & Hl & Ha & Hda); [apply elem_of_cons; by right|].
    unfold can_untake. rewrite Et, Ea, marks_lookup, Htr. case_bool_decide; cbn; [|by eauto 10].
    by exists (set_taken false tr), a, da, st.
  - intros [] s2 (Et2 & Ei2). split; [|congruence]. rewrite Et2, Et. by rewrite <- marks_app.
Qed.

(** No tracker filters that did not, and those of [l] have no area. *)
Definition dropped (l : list (option Z)) (s s' : modst) : Prop :=
  snapimages s' = snapimages s ∧
  ∀ t tr, trackers s !! t = Some tr → ∃ tr', trackers s' !! t = Some tr' ∧
    snapshot_is_taken tr' = snapshot_is_taken tr ∧ (tr_diff_area tr = None → tr_diff_area tr' = None) ∧
    (Some t ∈ l → tr_diff_area tr' = None).

Lemma dropped_trans l1 l2 s1 s2 s3 : dropped l1 s1 s2 → dropped l2 s2 s3 → dropped (l1 ++ l2) s1 s3.
Proof.
  intros [Ei1 H1] [Ei2 H2]. split; [congruence|]. intros t tr Ht.
  destruct (H1 t tr Ht) as (tr1 & Ht1 & E1 & D1 & A1). destruct (H2 t tr1 Ht1) as (tr2 & Ht2 & E2 & D2 & A2).
  exists tr2. split_and!; [done|congruence|auto|]. rewrite elem_of_app. intros [?|?]; auto.
Qed.

Lemma dropped_same s s' : trackers s' = trackers s → snapimages s' = snapimages s → dropped [] s s'.
Proof.
  intros Et Ei. split; [done|]. intros t tr Ht. exists tr. rewrite Et. split_and!; auto. by intros ?%elem_of_nil.
Qed.

Lemma area_put_trackers a s : wp (area_put a) s (λ _ s', dropped [] s s').
Proof.
  unfold area_put, broken_pointer. destruct a as [a|]; wp_run_steps; [|by apply dropped_same].
  cbn [id]. destruct (areas s !! a) as [[da st]|]; wp_run_steps; by apply dropped_same.
Qed.

Lemma mod_tracker_dropped t f l s :
  (∀ tr, snapshot_is_taken (f tr) = snapshot_is_taken tr ∧ (tr_diff_area tr = None → tr_diff_area (f tr) = None) ∧
         (Some t ∈ l → tr_diff_area (f tr) = None)) →
  (∀ u, Some u ∈ l → u = t) →
  wp (mod_tracker t f) s (λ _ s', dropped l s s').
Proof.
  intros Hf Hl. unfold mod_tracker. wp_run_steps. split; [done|]. intros u tr Hu. cbn. destruct (decide (u = t)) as [->|Hne].
  - exists (f tr). rewrite lookup_alter_eq, Hu. destruct (Hf tr) as (? & ? & ?). done.
  - exists tr. rewrite lookup_alter_ne by done. split_and!; auto. intros H. by destruct Hne; apply Hl.
Qed.

Lemma drop_tracker_spec o s : wp (drop_tracker o) s (λ _ s', dropped [o] s s').
Proof.
  destruct o as [t|]; cbn [drop_tracker].
  2:{ wp_steps. split; [done|]. intros t tr Ht. exists tr. split_and!; auto. by intros [?|?%elem_of_nil]%elem_of_cons. }
  unfold get_tracker. wp_run_steps. destruct (trackers s !! t) as [tr|] eqn:Et.
  2:{ unfold broken_pointer. wp_run_steps. split; [done|]. intros u tr Hu. exists tr. split_and!; auto.
      intros [[= ->]|?%elem_of_nil]%elem_of_cons; [congruence|done]. }
  wp_step. eapply wp_mono; [apply area_put_trackers|]. intros [] s1 D1. wp_step.
  eapply wp_mono; [apply (mod_tracker_dropped t _ [Some t])|].
  { done. }
  { by intros u [[= ->]|?%elem_of_nil]%elem_of_cons. }
  intros [] s2 D2. unfold tracker_put, bdev_filter_put. wp_step.
  eapply wp_mono; [apply (mod_tracker_dropped t _ [])|].
  { intros tr'. split_and!; auto. by intros ?%elem_of_nil. }
  { by intros u ?%elem_of_nil. }
  intros [] s3 D3. pose proof (dropped_trans _ _ _ _ _ (dropped_trans _ _ _ _ _ D1 D2) D3) as D. cbn in D.
  unfold get_tracker. wp_run_steps. destruct (trackers s3 !! t) as [tr3|]; [|by unfold broken_pointer; wp_run_steps; apply (dropped_trans _ [] _ _ _ D), dropped_same].
  unfold when, bdev_filter_free, tracker_release. destruct (_ =? 0); wp_run_steps; apply (dropped_trans _ [] _ _ _ D), dropped_same; done.
Qed.

Lemma drop_trackers_spec l s : wp (each drop_tracker l) s (λ _ s', dropped l s s').
Proof.
  revert s. induction l as [|o l IH]; intros s; cbn [each]; [wp_steps; by apply dropped_same|]. wp_step.
  eapply wp_mono; [apply drop_tracker_spec|]. intros [] s1 D1. eapply wp_mono; [apply IH|]. intros [] s2 D2.
  exact (dropped_trans [o] l _ _ _ D1 D2).
Qed.

Lemma no_images l s : Forall (λ i, i = None) l →
  wp (each (λ i, match i with None => skip | Some i => snapimage_free i end) l) s (λ _ s', s' = s).
Proof.
  intros H. revert s. induction H as [|i l -> _ IH]; intros s; cbn [each]; [by wp_steps|]. wp_steps. apply IH.
Qed.

(** The trackers of a snapshot without images stop filtering and lose their areas. *)
Definition unfiltered (x : snapshot) (s s' : modst) : Prop :=
  snapimages s' = snapimages s ∧
  ∀ t, Some t ∈ used x (tracker_array x) → ∃ tr, trackers s' !! t = Some tr ∧
    snapshot_is_taken tr = false ∧ tr_diff_area tr = None.

Lemma release_unfilters p s x :
  snapshot_objs s !! p = Some x → Forall (λ i, i = None) (used x (snapimage_array x)) →
  (∀ t, Some t ∈ used x (tracker_array x) → can_untake s t) →
  wp (snapshot_release p) s (λ _ s', unfiltered x s s').
Proof.
  intros Hx Hi Hu. unfold snapshot_release, get_snapshot, mod_snapshot, snapshot_release_trackers. wp_step. wp_step. rewrite Hx.
  wp_step. eapply wp_mono; [by apply no_images|]. intros [] s0 ->. wp_step.
  eapply wp_mono; [by apply release_trackers_spec|]. intros [] s1 (Et & Ei). wp_step.
  eapply wp_mono; [apply drop_trackers_spec|]. intros [] s2 [Ei2 D]. wp_run_steps. split; [cbn; congruence|].
  intros t Ht. destruct (Hu t Ht) as (tr & _ & _ & _ & Htr & _). cbn.
  destruct (D t (set_taken false tr)) as (tr' & Htr' & E & _ & A).
  { by rewrite Et, marks_lookup, bool_decide_eq_true_2, Htr. }
  exists tr'. split_and!; auto.
Qed.

Lemma free_unfilters p s x :
  snapshot_objs s !! p = Some x → Forall (λ i, i = None) (used x (snapimage_array x)) →
  (∀ t, Some t ∈ used x (tracker_array x) → can_untake s t) →
  wp (snapshot_free p) s (λ _ s', unfiltered x s s').
Proof.
  intros Hx Hi Hu. unfold snapshot_free, get_snapshot, in_kern. wp_step.
  eapply wp_mono; [by apply (release_unfilters p s x)|]. intros [] s1 H1.
  assert (Hs : ∀ s2, trackers s2 = trackers s1 → snapimages s2 = snapimages s1 → unfiltered x s s2).
  { intros s2 Et Ei. destruct H1 as [Ei1 H1]. split; [congruence|]. by rewrite Et. }
  wp_step. wp_step. destruct (snapshot_objs s1 !! p) as [y|]; [|unfold broken_pointer; wp_run_steps; by apply Hs].
  unfold storage_put, broken_pointer, in_kern. wp_run_steps. destruct (storages s1 !! snap_storage y); wp_run_steps; [|by apply Hs].
  apply wp_eq. intros r w _. modst_simpl. wp_run_steps. by apply Hs.
Qed.

(** A tracker that does not filter lets every bio through. *)
Lemma unfiltered_passes bio t s tr :
  trackers s !! t = Some tr → snapshot_is_taken tr = false → wp (tracker_submit_bio bio t) s (λ r _, r = ToDevice).
Proof.
  intros Ht Htk. unfold tracker_submit_bio, broken_pointer. destruct (b_own bio); [by wp_steps|].
  destruct (negb (b_write bio)); [by wp_steps|]. destruct (b_count bio =? 0); [by wp_steps|]. wp_steps. cbn [id]. rewrite Ht.
  destruct (_ ≫= _) as [[q m]|]; [|by wp_steps]. destruct (cbt_map_set _ _ _) as [[err m']|]; [|by wp_steps].
  wp_steps. rewrite Htk, orb_true_r. by wp_steps.
Qed.

(** C40: destroying a snapshot ends the copy-on-write of its devices, whoever has
    taken them. Take any snapshot of the list that nobody else refers to and that has no
    images, because it was never taken, say; its trackers have difference areas and open queues,
    which another, taken snapshot of the same devices may have given them. When it is
    destroyed, every one of its trackers stops filtering and loses its area, so that every
    write to the devices passes without being saved; the other snapshots and all
    images stay as they are and know nothing of it. The rule that a device belongs to one
    snapshot at a time (blksnap.h) is not enforced by the module. *)
Theorem snapshot_destroy_unfilters id s xs p x :
  ring_ok (links s) xs → find (has_id s id) xs = Some p → snapshot_objs s !! p = Some x → snap_kref x = 1 →
  Forall (λ i, i = None) (used x (snapimage_array x)) →
  (∀ t, Some t ∈ used x (tracker_array x) → can_untake s t) →
  wp (snapshot_destroy id) s (λ ret s',
    ret = 0 ∧ snapshot_objs s' = delete p (snapshot_objs s) ∧ snapimages s' = snapimages s ∧
    ∀ t, Some t ∈ used x (tracker_array x) → ∃ tr, trackers s' !! t = Some tr ∧
      snapshot_is_taken tr = false ∧ tr_diff_area tr = None ∧
      ∀ bio, wp (tracker_submit_bio bio t) s' (λ r _, r = ToDevice)).
Proof.
  intros Hr Hf Hx Hk Hi Hu. destruct (ring_walk s xs Hr) as (_ & He & Hw).
  pose proof Hf as [Hp _]%find_some. apply list_elem_of_In in Hp.
  unfold snapshot_destroy. wp_step. wp_step. rewrite He, bool_decide_eq_false_2 by (intros ->; by apply not_elem_of_nil in Hp).
  rewrite Hw, Hf. destruct (list_elem_of_split xs p Hp) as (l1 & l2 & ->).
  destruct (list_del_ring _ _ _ _ Hr) as (l' & El & _). unfold on_links. wp_steps. rewrite El. wp_steps.
  match goal with |- wp _ ?y _ => set (s1 := y) end.
  assert (Hx1 : snapshot_objs s1 !! p = Some x) by exact Hx.
  eapply wp_mono; [apply (wp_and _ _ _ (λ _ s', unfiltered x s s') (snapshot_put_spec p s1 x Hx1))|].
  { unfold snapshot_put, mod_snapshot, get_snapshot. wp_run_steps. rewrite lookup_alter_eq, Hx1.
    cbn [fmap option_fmap option_map snap_kref]. rewrite Hk. cbn [Z.sub Z.add Z.opp Z.pos_sub Z.eqb when].
    match goal with |- wp _ ?y _ => set (s2 := y) end.
    apply (free_unfilters p s2 {| x with snap_kref := snap_kref x - 1 |}); [|done|done].
    cbn. by rewrite lookup_alter_eq, Hx. }
  intros [] s2 [Hput [Ei Ht]]. rewrite Hk in Hput. cbn [Z.eqb] in Hput. destruct Hput as [_ Eo]. wp_steps.
  split_and!; [done|by rewrite Eo|done|]. intros t Hin. destruct (Ht t Hin) as (tr & Htr & Htk & Ha).
  exists tr. split_and!; try done. intros bio. by eapply unfiltered_passes.
Qed.
