(* ===== verification/SimFreeze.v ===== *)
(** * Snapshots without BLK_SNAP_SEQUENTALFREEZE

    The variants of [snapshot_release_trackers] and [snapshot_take_trackers] that
    freeze all file systems first, work on all trackers, and thaw all file systems
    last (snapshot.c, lines 79 to 138 and 553 to 637). *)
From S2P Require Import Prelude MemoryChecker Kernel Uapi EventQueue CbtMap DiffBuffer DiffIo.
From S2P Require Import DiffStorage Chunk DiffArea ChunkSpecs CowInv Cow CowSteps CowImage.
From S2P Require Import CowSafety State BdevFilter SnapImage Tracker Snapshot SnapshotSpecs.
From S2P Require Import SnapshotTake.

Module Simultaneous.

Definition set_frozen (b : bool) (tr : tracker) : tracker := {| tr with is_frozen := b |}.

(** The first loops. A tracker without an area is skipped only when the snapshot is
    released ([checked]). *)
Definition freeze_tracker (checked : bool) (t : option Z) : G unit :=
  match t with
  | None => skip
  | Some t =>
      o ← gets (tracker_orig t);
      match o with
      | None => broken_pointer
      | Some None => if checked then skip else broken_pointer
      | Some (Some bdev) =>
          err ← freeze_bdev bdev;
          when (err =? 0) (mod_tracker t (set_frozen true))
      end
  end.

(** The last loops. *)
Definition thaw_tracker (checked : bool) (t : option Z) : G unit :=
  match t with
  | None => skip
  | Some t =>
      tr ← get_tracker t;
      match tr with
      | None => broken_pointer
      | Some tr =>
          o ← gets (tracker_orig t);
          match o with
          | None => when (is_frozen tr) broken_pointer
          | Some None => when (negb checked && is_frozen tr) broken_pointer
          | Some (Some bdev) =>
              when (is_frozen tr) (_ ← thaw_bdev bdev; mod_tracker t (set_frozen false))
          end
      end
  end.

(** The second loop on release does not check for a null tracker. *)
Definition release_entry (t : option Z) : G unit :=
  match t with
  | None => broken_pointer
  | Some t => tracker_release_snapshot t
  end.

Definition snapshot_release_trackers (x : snapshot) : G unit :=
  let l := used x (tracker_array x) in
  each (freeze_tracker true) l;;
  each release_entry l;;
  each (thaw_tracker true) l.

Section params.
Context {P : ModuleParams}.

(** The second loop; the trackers it has been through are in [done], the last one
    first. *)
Fixpoint take_each (done l : list (option Z)) : G (list (option Z) * Z) :=
  match l with
  | [] => mret (done, 0)
  | None :: l => take_each (None :: done) l
  | Some t :: l =>
      ret ← tracker_take_snapshot t;
      if negb (ret =? 0) then mret (done, ret) else take_each (Some t :: done) l
  end.

(** The [while (inx--)] loop. *)
Definition untake_entry (t : option Z) : G unit :=
  match t with
  | None => skip
  | Some t => tracker_release_snapshot t
  end.

Definition snapshot_take_trackers (p : Z) (x : snapshot) : G Z :=
  let l := used x (tracker_array x) in
  each (freeze_tracker false) l;;
  '(done, ret) ← take_each [] l;
  (if negb (ret =? 0) then each untake_entry done
   else mod_snapshot p (λ x, {| x with is_taken := true |}));;
  each (thaw_tracker false) l;;
  mret ret.
End params.

(** ** Freezing and thawing all devices *)

#[local] Existing Instance default_params.

(** How often the trackers of [l] that [F] selects have frozen the device [d], when
    [O] gives the device of a tracker. *)
Fixpoint freezes (F : Z → bool) (O : Z → Z) (l : list (option Z)) (d : Z) : Z :=
  match l with
  | [] => 0
  | None :: l => freezes F O l d
  | Some t :: l => (if F t && (O t =? d) then 1 else 0) + freezes F O l d
  end.

Lemma freezes_nonneg F O l d : 0 ≤ freezes F O l d.
Proof. induction l as [|[t|] l IH]; cbn; [lia| |lia]. destruct (_ && _); lia. Qed.

Lemma freezes_ext F F' O l d :
  (∀ t, Some t ∈ l → F t = F' t) → freezes F O l d = freezes F' O l d.
Proof.
  induction l as [|[t|] l IH]; intros H; cbn; [done| |].
  - rewrite H by (apply elem_of_cons; by left). f_equal. apply IH. intros u Hu. apply H, elem_of_cons. by right.
  - apply IH. intros u Hu. apply H, elem_of_cons. by right.
Qed.

(** Everything but the trackers and the file systems is the same. *)
Record rest_same (s s' : modst) : Prop := {
  rs_areas : areas s' = areas s;
  rs_devices : devices s' = devices s;
  rs_maps : cbt_maps s' = cbt_maps s;
  rs_broken : broken s' = broken s;
}.

(** [O] is the device of every tracker of [l]. *)
Definition origs (s : modst) (O : Z → Z) (l : list (option Z)) : Prop :=
  ∀ t, Some t ∈ l → tracker_orig t s = Some (Some (O t)).

Lemma tracker_orig_flags s s' t (f : tracker → tracker) :
  (∀ tr, tr_diff_area (f tr) = tr_diff_area tr) → trackers s' !! t = f <$> trackers s !! t →
  areas s' = areas s → tracker_orig t s' = tracker_orig t s.
Proof. intros Hf Et Ea. unfold tracker_orig. rewrite Et, Ea. destruct (trackers s !! t) as [tr|]; cbn; [|done]. by rewrite Hf. Qed.

Definition frozen_by (F : Z → bool) (M M' : gmap Z tracker) : Prop :=
  ∀ t, M' !! t = (λ tr, if F t then set_frozen true tr else tr) <$> M !! t.

Lemma thaw_bdev_same d s :
  wp (thaw_bdev d) s (λ _ s', calm s s' ∧ snapshot_objs s' = snapshot_objs s ∧
    (fs_frozen s d ≠ 0 → fs_frozen s' = upd (fs_frozen s) d (fs_frozen s d - 1))).
Proof. unfold thaw_bdev. wp_steps. destruct (Z.eqb_spec (fs_frozen s d) 0); wp_steps; done. Qed.

Lemma freeze_all_spec c O l s :
  NoDup (omap id l) → origs s O l → (∀ t, Some t ∈ l → is_Some (trackers s !! t)) →
  wp (each (freeze_tracker c) l) s (λ _ s', rest_same s s' ∧
    ∃ F, (∀ t, F t = true → Some t ∈ l) ∧ frozen_by F (trackers s) (trackers s') ∧
      ∀ d, fs_frozen s' d = fs_frozen s d + freezes F O l d).
Proof.
  revert s. induction l as [|o l IH]; intros s Hn Ho Ht; cbn [each].
  { wp_steps. split; [done|]. exists (λ _, false). split_and!; [done| |intros; cbn; lia].
    intros t. by destruct (trackers s !! t). }
  assert (Ho' : origs s O l) by (intros t H; apply Ho, elem_of_cons; by right).
  assert (Ht' : ∀ t, Some t ∈ l → is_Some (trackers s !! t)) by (intros t H; apply Ht, elem_of_cons; by right).
  destruct o as [t|]; cbn [freeze_tracker].
  2:{ wp_step. wp_steps. eapply wp_mono; [by apply IH|]. intros _ s' (Hr & F & HF & HM & Hf). split; [done|].
      exists F. split_and!; [|done|done]. intros t H. apply elem_of_cons. by right; apply HF. }
  cbn in Hn. apply NoDup_cons in Hn as [Hnt Hn].
  assert (Hnl : Some t ∉ l) by (intros H; apply Hnt, list_elem_of_omap; by exists (Some t)).
  wp_step. wp_step. wp_step. rewrite (Ho t) by (apply elem_of_cons; by left). wp_step.
  eapply wp_mono; [apply freeze_bdev_spec|]. intros err s1 [[Et1 Ea1 Ed1 Em1 Eb1] Hf1].
  apply wp_mono with (P := λ _ s2, rest_same s s2 ∧ fs_frozen s2 = fs_frozen s1 ∧
    trackers s2 = if err =? 0 then alter (set_frozen true) t (trackers s) else trackers s).
  { destruct (err =? 0); cbn [when]; unfold mod_tracker; wp_run_steps; split_and!; try done; try (by split).
    cbn. by rewrite Et1. }
  intros [] s2 ([Ea2 Ed2 Em2 Eb2] & Hf2 & Et2).
  assert (Hl2 : ∀ u, u ≠ t → trackers s2 !! u = trackers s !! u).
  { intros u Hu. rewrite Et2. destruct (err =? 0); [by rewrite lookup_alter_ne|done]. }
  assert (Hne : ∀ u, Some u ∈ l → u ≠ t) by (by intros u Hu ->).
  eapply wp_mono; [apply IH; [done| |]|].
  - intros u Hu. rewrite (tracker_orig_flags s s2 u id); [by apply Ho'|done|by rewrite Hl2, option_fmap_id by auto|done].
  - intros u Hu. rewrite Hl2 by auto. by apply Ht'.
  - intros [] s3 ([Ea3 Ed3 Em3 Eb3] & F & HF & HM & Hf3). split; [split; congruence|].
    exists (λ u, if decide (u = t) then err =? 0 else F u). split_and!.
    + intros u. case_decide; [subst; intros _; apply elem_of_cons; by left|]. intros HFu.
      apply elem_of_cons. right. by apply HF.
    + intros u. rewrite HM. case_decide as Hu; [subst|by rewrite Hl2].
      assert (Ft : F t = false) by (destruct (F t) eqn:E; [by apply HF in E|done]).
      rewrite Ft, Et2. destruct (err =? 0); [rewrite lookup_alter_eq|]; by destruct (trackers s !! t).
    + intros d. rewrite Hf3, Hf2, Hf1. cbn [freezes]. rewrite decide_True by done.
      rewrite (freezes_ext (λ u, if decide (u = t) then err =? 0 else F u) F)
        by (intros u Hu; by rewrite decide_False by auto).
      destruct (err =? 0); cbn [andb]; [|lia]. destruct (Z.eqb_spec (O t) d) as [->|Hd].
      * rewrite upd_eq. lia.
      * rewrite upd_ne by done. lia.
Qed.

(** Thawing gives back what freezing has taken: [base] is how often the devices were
    frozen before. *)
Lemma thaw_all_spec c O F base l s :
  NoDup (omap id l) → origs s O l →
  (∀ t, Some t ∈ l → ∃ tr, trackers s !! t = Some tr ∧ is_frozen tr = F t) →
  (∀ d, 0 ≤ base d ∧ fs_frozen s d = base d + freezes F O l d) →
  wp (each (thaw_tracker c) l) s (λ _ s', rest_same s s' ∧ snapshot_objs s' = snapshot_objs s ∧
    (∀ d, fs_frozen s' d = base d) ∧
    ∀ t, trackers s' !! t =
      if bool_decide (Some t ∈ l) then set_frozen false <$> trackers s !! t else trackers s !! t).
Proof.
  revert s. induction l as [|o l IH]; intros s Hn Ho Ht Hf; cbn [each].
  { wp_steps. split_and!; try done. intros d. destruct (Hf d). cbn in *. lia. }
  assert (Ho' : origs s O l) by (intros t H; apply Ho, elem_of_cons; by right).
  assert (Ht' : ∀ t, Some t ∈ l → ∃ tr, trackers s !! t = Some tr ∧ is_frozen tr = F t)
    by (intros t H; apply Ht, elem_of_cons; by right).
  destruct o as [t|]; cbn [thaw_tracker].
  2:{ wp_step. wp_steps. eapply wp_mono; [by apply IH|]. intros _ s' (Hr & Hx & Hb & HM). split_and!; try done.
      intros t. rewrite HM, (bool_decide_ext (Some t ∈ None :: l) (Some t ∈ l)); [done|]. rewrite elem_of_cons. naive_solver. }
  cbn in Hn. apply NoDup_cons in Hn as [Hnt Hn].
  assert (Hnl : Some t ∉ l) by (intros H; apply Hnt, list_elem_of_omap; by exists (Some t)).
  assert (Hne : ∀ u, Some u ∈ l → u ≠ t) by (by intros u Hu ->).
  destruct (Ht t) as (tr & Etr & Efr); [apply elem_of_cons; by left|].
  unfold get_tracker. wp_step. wp_step. wp_step. rewrite Etr. wp_step. wp_step.
  rewrite (Ho t) by (apply elem_of_cons; by left).
  apply wp_mono with (P := λ _ s2, rest_same s s2 ∧ snapshot_objs s2 = snapshot_objs s ∧
    (∀ d, fs_frozen s2 d = base d + freezes F O l d) ∧ trackers s2 = alter (set_frozen false) t (trackers s)).
  { rewrite Efr. cbn [freezes] in Hf. destruct (F t) eqn:EF; cbn [when andb] in *.
    - wp_step. eapply wp_mono; [apply thaw_bdev_same|]. intros r s1 ([Et1 Ea1 Ed1 Em1 Eb1] & Ex1 & Hf1).
      unfold mod_tracker. wp_run_steps. split_and!; [by split|done| |cbn; by rewrite Et1].
      intros d. cbn. destruct (Hf (O t)) as [Hb Hft]. rewrite Z.eqb_refl in Hft.
      pose proof (freezes_nonneg F O l (O t)). rewrite Hf1 by lia. destruct (Hf d) as [Hbd Hfd].
      destruct (Z.eqb_spec (O t) d) as [->|Hd]; [rewrite upd_eq|rewrite upd_ne by done]; lia.
    - wp_steps. split_and!; try done; [intros d; destruct (Hf d); lia|].
      rewrite (alter_lookup_Some _ _ _ _ Etr). rewrite insert_id; [done|]. rewrite Etr. f_equal.
      destruct tr; cbn in *; by subst. }
  intros [] s2 ([Ea2 Ed2 Em2 Eb2] & Ex2 & Hf2 & Et2).
  assert (Hl2 : ∀ u, u ≠ t → trackers s2 !! u = trackers s !! u) by (intros u Hu; by rewrite Et2, lookup_alter_ne).
  eapply wp_mono; [apply IH; [done| | |]|].
  - intros u Hu. rewrite (tracker_orig_flags s s2 u id); [by apply Ho'|done|by rewrite Hl2, option_fmap_id by auto|done].
  - intros u Hu. rewrite Hl2 by auto. by apply Ht'.
  - intros d. split; [apply Hf|apply Hf2].
  - intros [] s3 ([Ea3 Ed3 Em3 Eb3] & Ex3 & Hb & HM). split_and!; [split; congruence|congruence|done|].
    intros u. rewrite HM. destruct (decide (u = t)) as [->|Hu].
    + rewrite bool_decide_eq_false_2, bool_decide_eq_true_2 by (done || (apply elem_of_cons; by left)).
      by rewrite Et2, lookup_alter_eq.
    + rewrite Hl2 by done. rewrite (bool_decide_ext (Some u ∈ Some t :: l) (Some u ∈ l)); [done|].
      rewrite elem_of_cons. naive_solver.
Qed.

(** ** Taking all trackers between *)

Lemma take_each_spec l dn s :
  all_ready s l →
  wp (take_each dn l) s (λ '(dn', ret) s', taken_until s l dn dn' ret s' ∧ fs_frozen s' = fs_frozen s).
Proof.
  revert dn s. induction l as [|o l IH]; intros dn s Hr; cbn [take_each].
  { wp_steps. split; [|done]. exists [], []. by split_and!. }
  destruct o as [t|].
  2:{ eapply wp_mono; [apply IH|].
      - destruct Hr as [H1 H2 H3]. split; [|done|].
        + intros u Hu. apply H1, elem_of_cons. by right.
        + intros t1 t2 tr1 tr2 Ht1 Ht2. apply H3; apply elem_of_cons; by right.
      - intros [dn' ret] s' [H Hf]. split; [by eapply taken_until_cons|done]. }
  destruct (ar_take _ _ Hr t) as [tr Hc]; [apply elem_of_cons; by left|].
  wp_step. eapply wp_mono; [by apply tracker_take_spec|]. intros ret s2 [Et2 Ea2 Ed2 Ef2 Eb2 Em2].
  destruct (Z.eqb_spec ret 0) as [->|Hne]; cbn [negb].
  2:{ wp_steps. split; [|done]. exists [], (Some t :: l). split_and!; try done. }
  eapply wp_mono; [apply IH|].
  - eapply all_ready_next; [exact Hr|apply Hc|done..].
  - intros [dn' ret] s' [H Hf]. split; [|congruence]. eapply taken_until_cons; [..|exact H]; try done.
    intros d. by rewrite Ef2.
Qed.

Lemma untake_each_spec l s :
  (∀ t, Some t ∈ l → can_untake s t) →
  wp (each untake_entry l) s (λ _ s', ∃ M, s' = {| s with trackers := M |} ∧ M = marks false l (trackers s)).
Proof.
  revert s. induction l as [|o l IH]; intros s Hu; cbn [each].
  { wp_steps. exists (trackers s). by destruct s. }
  wp_step. apply wp_mono with (P := λ _ s', ∃ M, s' = {| s with trackers := M |} ∧ M = marks false [o] (trackers s)).
  { destruct o as [t|]; cbn [untake_entry]; [|wp_steps; exists (trackers s); by destruct s].
    destruct (Hu t) as (tr & a & da & st & Ht & Hl & _); [apply elem_of_cons; by left|].
    eapply wp_mono; [by eapply tracker_release_spec|]. intros [] s1 ->. by eexists. }
  intros [] s1 (M & -> & EM). eapply wp_mono; [apply IH|].
  - intros t Ht. destruct (Hu t) as (tr & a & da & st & Htr & Hl & Ha & Hda); [apply elem_of_cons; by right|].
    unfold can_untake. cbn. rewrite EM, marks_lookup, Htr. case_bool_decide; cbn; [|by eauto 10].
    by exists (set_taken false tr), a, da, st.
  - intros [] s2 (M2 & -> & EM2). exists M2. split; [done|]. cbn in EM2. rewrite EM2, EM. by rewrite <- marks_app.
Qed.

Lemma all_ready_frozen s s1 F l :
  rest_same s s1 → frozen_by F (trackers s) (trackers s1) → all_ready s l → all_ready s1 l.
Proof.
  intros [Ea Ed Em _] HM [Hc Hn Hm]. split; [|done|].
  - intros t Ht. destruct (Hc t Ht) as [tr [H1 H2 H3 H4 H5]].
    exists (if F t then set_frozen true tr else tr).
    split; try (by destruct (F t)); [by rewrite HM, H1|rewrite Em|rewrite Ea, Ed]; by destruct (F t).
  - intros t1 t2 tr1 tr2 H1 H2 H12. rewrite !HM. destruct (trackers s !! t1) as [u1|] eqn:E1; [|done].
    destruct (trackers s !! t2) as [u2|] eqn:E2; [|done]. cbn. intros [= <-] [= <-].
    pose proof (Hm t1 t2 u1 u2 H1 H2 H12 E1 E2). by destruct (F t1), (F t2).
Qed.

(** The flags of a tracker that taking a snapshot changes. *)
Inductive flag_change : (tracker → tracker) → Prop :=
  | fc_none : flag_change id
  | fc_taken b : flag_change (set_taken b)
  | fc_lock : flag_change set_lock.

Lemma taken_trackers (M M1 M2 M3 : gmap Z tracker) F (f : Z → tracker → tracker) (l : list (option Z)) :
  (∀ t, F t = true → Some t ∈ l) → (∀ t, flag_change (f t)) →
  (∀ t tr, Some t ∈ l → M !! t = Some tr → is_frozen tr = false) →
  frozen_by F M M1 → (∀ t, M2 !! t = f t <$> M1 !! t) →
  (∀ t, M3 !! t = if bool_decide (Some t ∈ l) then set_frozen false <$> M2 !! t else M2 !! t) →
  ∀ t, M3 !! t = f t <$> M !! t.
Proof.
  intros HF Hf Hz H1 H2 H3 t. rewrite H3, H2, H1. destruct (M !! t) as [tr|] eqn:E; [|by case_bool_decide].
  case_bool_decide as Hin; cbn.
  - specialize (Hz t tr Hin E). f_equal. destruct (Hf t), (F t), tr; cbn in *; by subst.
  - destruct (F t) eqn:EF; [by apply HF in EF|done].
Qed.

Lemma release_each_spec l s :
  (∀ o, o ∈ l → ∃ t, o = Some t ∧ can_untake s t) →
  wp (each release_entry l) s (λ _ s', ∃ M, s' = {| s with trackers := M |} ∧ M = marks false l (trackers s)).
Proof.
  intros H. replace (each release_entry l) with (each untake_entry l).
  - apply untake_each_spec. intros t Ht. by destruct (H _ Ht) as (u & [= ->] & Hu).
  - induction l as [|o l IH]; [done|]. destruct (H o) as (t & -> & _); [apply elem_of_cons; by left|].
    cbn [each untake_entry release_entry]. rewrite IH; [done|]. intros o' Ho'. apply H, elem_of_cons. by right.
Qed.

(** Releasing all trackers at once restores the file systems. In this variant,
    [snapshot_release_trackers] over trackers that are there and not locked ends with
    none of them filtering for the snapshot, nothing else changed in any tracker, and
    every file system frozen exactly as often as before, whether or not each could be
    frozen. *)
Theorem simultaneous_release_restores x s :
  NoDup (omap id (used x (tracker_array x))) →
  (∀ o, o ∈ used x (tracker_array x) → ∃ t tr, o = Some t ∧ can_untake s t ∧
     trackers s !! t = Some tr ∧ is_frozen tr = false) →
  (∀ d, 0 ≤ fs_frozen s d) →
  wp (snapshot_release_trackers x) s (λ _ s',
    areas s' = areas s ∧ broken s' = broken s ∧ (∀ d, fs_frozen s' d = fs_frozen s d) ∧
    ∀ t, trackers s' !! t = if bool_decide (Some t ∈ used x (tracker_array x))
                            then set_taken false <$> trackers s !! t else trackers s !! t).
Proof.
  unfold snapshot_release_trackers. set (l := used x (tracker_array x)). clearbody l. intros Hn Hl Hf.
  set (O := λ t, match tracker_orig t s with Some (Some d) => d | _ => 0 end).
  assert (Hin : ∀ t, Some t ∈ l → ∃ tr, can_untake s t ∧ trackers s !! t = Some tr ∧ is_frozen tr = false).
  { intros t Ht. destruct (Hl _ Ht) as (u & tr & [= ->] & H). by exists tr. }
  assert (Ho : origs s O l).
  { intros t Ht. destruct (Hin t Ht) as (_ & (tr & a & da & st & Htr & _ & Ha & Hda) & _).
    unfold O, tracker_orig. rewrite Htr. cbn. by rewrite Ha, Hda. }
  wp_step. eapply wp_mono; [apply (freeze_all_spec _ O); [done|done|]|].
  { intros t Ht. destruct (Hin t Ht) as (tr & _ & Htr & _). by exists tr. }
  intros [] s1 ([Ea1 _ _ Eb1] & F & HF & HM1 & Hf1). wp_step. eapply wp_mono; [apply release_each_spec|].
  { intros o Ho'. destruct (Hl o Ho') as (t & _ & -> & (tr & a & da & st & Htr & Hlk & Ha & Hda) & _).
    exists t. split; [done|]. exists (if F t then set_frozen true tr else tr), a, da, st. rewrite HM1, Ea1, Htr.
    by destruct (F t). }
  intros [] s2 (M & -> & EM).
  set (f := λ t, if bool_decide (Some t ∈ l) then set_taken false else id).
  assert (HM2 : ∀ t, M !! t = f t <$> trackers s1 !! t).
  { intros t. rewrite EM, marks_lookup. unfold f. case_bool_decide; [done|by rewrite option_fmap_id]. }
  assert (Hfc : ∀ t, flag_change (f t)) by (intros t; unfold f; case_bool_decide; constructor).
  eapply wp_mono; [apply (thaw_all_spec _ O F (fs_frozen s)); [done| | |]|].
  - intros t Ht. rewrite <- (Ho t Ht). rewrite (tracker_orig_flags s1 _ t (f t)); [|by destruct (Hfc t)|apply HM2|done].
    apply tracker_orig_flags with (f := λ tr, if F t then set_frozen true tr else tr); [by destruct (F t)|done|done].
  - intros t Ht. cbn. rewrite HM2, HM1. destruct (Hin t Ht) as (tr & _ & H & Hz). rewrite H.
    cbn. eexists. split; [done|]. destruct (Hfc t), (F t), tr; cbn in *; by subst.
  - intros d. split; [apply Hf|]. apply Hf1.
  - intros [] s3 ([Ea3 _ _ Eb3] & _ & Hb3 & HM3). cbn in *. split_and!; [congruence..|done|]. intros t.
    rewrite (taken_trackers _ _ _ _ F f l HF Hfc) with (3 := HM2) (4 := HM3) (2 := HM1);
      [unfold f; case_bool_decide; [done|by rewrite option_fmap_id]|].
    intros u tr Hu Htr. destruct (Hin u Hu) as (tr' & _ & H & Hz). congruence.
Qed.

(** What the middle of [snapshot_take_trackers] does to the trackers, by result. *)
Definition take_effect (l : list (option Z)) (p ret : Z) (f : Z → tracker → tracker) (s' : modst) : Prop :=
  if ret =? 0 then
    (∀ t, f t = if bool_decide (Some t ∈ l) then set_taken true else id) ∧
    (∀ x', snapshot_objs s' !! p = Some x' → is_taken x' = true)
  else ∃ t, Some t ∈ l ∧ ∀ u, f u = if decide (u = t) then set_lock else id.

Lemma take_or_undo_spec p l s :
  all_ready s l →
  wp (take_each [] l) s (λ '(done, ret) s1,
    wp (if negb (ret =? 0) then each untake_entry done
        else mod_snapshot p (λ x, {| x with is_taken := true |})) s1 (λ _ s',
      areas s' = areas s ∧ broken s' = broken s ∧ fs_frozen s' = fs_frozen s ∧
      ∃ f, (∀ t, flag_change (f t)) ∧ (∀ t, trackers s' !! t = f t <$> trackers s !! t) ∧
        take_effect l p ret f s')).
Proof.
  intros Hr. eapply wp_mono; [by apply take_each_spec|].
  intros [dn ret] s1 [(l1 & l2 & El & -> & Ea & Eb & H) Hfs]. rewrite app_nil_r.
  destruct l2 as [|[t|] l2]; [| |done].
  - destruct H as (-> & Et & _). rewrite app_nil_r in El. subst l1. unfold mod_snapshot. wp_run_steps.
    split_and!; try done. exists (λ t, if bool_decide (Some t ∈ l) then set_taken true else id). split_and!.
    + intros t. case_bool_decide; constructor.
    + intros t. cbn. rewrite Et, marks_lookup. case_bool_decide; [done|]. by rewrite option_fmap_id.
    + split; [done|]. intros x'. cbn. rewrite lookup_alter_eq. destruct (snapshot_objs s1 !! p); [|done].
      by intros [= <-].
  - destruct H as (Hne & Et). rewrite (proj2 (Z.eqb_neq _ _) Hne). cbn [negb]. destruct Hr as [Hc Hn _]. rewrite El in *.
    assert (Hin : ∀ u, Some u ∈ l1 → Some u ∈ l1 ++ Some t :: l2) by (intros; apply elem_of_app; by left).
    assert (Ht : Some t ∉ l1) by by eapply not_before.
    eapply wp_mono; [apply untake_each_spec|].
    + intros u Hu. rewrite elem_of_reverse in Hu.
      eapply can_untake_marked; [exact Ht|exact Hu|exact Et|exact Ea|by apply Hc, Hin].
    + intros [] s2 (M & -> & EM). cbn. split_and!; try done.
      exists (λ u, if decide (u = t) then set_lock else id). split_and!.
      * intros u. case_decide; constructor.
      * intros u. rewrite EM, Et, marks_undone; [|done|].
        -- case_decide as Hu; [subst; by rewrite lookup_alter_eq|]. by rewrite lookup_alter_ne, option_fmap_id.
        -- intros u' tr Hu Htr. destruct (Hc u' (Hin u' Hu)) as [tr' [Hu1 _ Hu2 _ _]]. congruence.
      * unfold take_effect. rewrite (proj2 (Z.eqb_neq _ _) Hne). exists t. split; [|done].
        apply elem_of_app. right. apply elem_of_cons. by left.
Qed.

(** C12: freezing all file systems before a snapshot is taken is all or nothing, and
    never leaves a file system frozen. Over devices whose trackers are ready,
    [snapshot_take_trackers] in this variant either takes every tracker and marks the
    snapshot as taken, or releases those it had taken, and leaves only the lock of the
    tracker that failed; in both cases every file system is frozen exactly as often as
    before, and no tracker remembers a freeze. *)
Theorem simultaneous_take_all_or_nothing p x s :
  all_ready s (used x (tracker_array x)) →
  (∀ t tr, Some t ∈ used x (tracker_array x) → trackers s !! t = Some tr → is_frozen tr = false) →
  (∀ d, 0 ≤ fs_frozen s d) →
  wp (snapshot_take_trackers p x) s (λ ret s',
    areas s' = areas s ∧ broken s' = broken s ∧ (∀ d, fs_frozen s' d = fs_frozen s d) ∧
    if ret =? 0 then
      (∀ t, trackers s' !! t = if bool_decide (Some t ∈ used x (tracker_array x))
                               then set_taken true <$> trackers s !! t else trackers s !! t) ∧
      (∀ x', snapshot_objs s' !! p = Some x' → is_taken x' = true)
    else
      ∃ t, Some t ∈ used x (tracker_array x) ∧ trackers s' = alter set_lock t (trackers s)).
Proof.
  unfold snapshot_take_trackers. set (l := used x (tracker_array x)). clearbody l. intros Hr Hz Hf.
  set (O := λ t, match tracker_orig t s with Some (Some d) => d | _ => 0 end).
  assert (Ho : origs s O l).
  { intros t Ht. destruct (ar_take _ _ Hr t Ht) as [tr Hc]. destruct (tracker_orig_spec _ _ _ Hc) as [d Hd].
    unfold O. by rewrite Hd. }
  wp_step. eapply wp_mono; [apply (freeze_all_spec _ O); [apply Hr|done|]|].
  { intros t Ht. destruct (ar_take _ _ Hr t Ht) as [tr [H _ _ _ _]]. by exists tr. }
  intros [] s1 (Hs1 & F & HF & HM1 & Hf1). pose proof (all_ready_frozen _ _ _ _ Hs1 HM1 Hr) as Hr1.
  destruct Hs1 as [Ea1 _ _ Eb1].
  wp_step. eapply wp_mono; [by apply (take_or_undo_spec p)|]. intros [dn ret] s1' Hmid. wp_step.
  eapply wp_mono; [exact Hmid|]. intros _ s2 (Ea2 & Eb2 & Hf2 & f & Hfc & HM2 & He). wp_step.
  assert (Ho2 : origs s2 O l).
  { intros t Ht. rewrite <- (Ho t Ht). rewrite (tracker_orig_flags s1 s2 t (f t)); [|by destruct (Hfc t)|done|done].
    apply tracker_orig_flags with (f := λ tr, if F t then set_frozen true tr else tr); [by destruct (F t)|done|done]. }
  eapply wp_mono; [apply (thaw_all_spec _ O F (fs_frozen s)); [apply Hr|done| |]|].
  - intros t Ht. rewrite HM2, HM1. destruct (ar_take _ _ Hr t Ht) as [tr [H _ _ _ _]]. rewrite H.
    cbn. eexists. split; [done|]. specialize (Hz t tr Ht H). destruct (Hfc t), (F t), tr; cbn in *; by subst.
  - intros d. split; [apply Hf|]. by rewrite Hf2, Hf1.
  - intros [] s3 ([Ea3 _ _ Eb3] & Ex3 & Hb3 & HM3). wp_steps. split_and!; [congruence..|done|].
    pose proof (taken_trackers _ _ _ _ F f l HF Hfc Hz HM1 HM2 HM3) as HM. unfold take_effect in He.
    destruct (ret =? 0).
    + destruct He as [Hft Hx]. split; [|by rewrite Ex3]. intros t. rewrite HM, Hft.
      case_bool_decide; [done|by rewrite option_fmap_id].
    + destruct He as (t & Ht & Hft). exists t. split; [done|]. apply map_eq. intros u. rewrite HM, Hft.
      case_decide as Hu; [subst; by rewrite lookup_alter_eq|by rewrite lookup_alter_ne, option_fmap_id].
Qed.
End Simultaneous.
