(* ===== verification/Lifecycle.v ===== *)
(** * The components together: runs of the module through its operations

    Witnesses for the theorems on snapshots, and complete sequences of operations
    on a module with no objects, in which every device has 1024 sectors. *)
From S2P Require Import Prelude MemoryChecker Kernel Uapi EventQueue CbtMap DiffBuffer DiffIo.
From S2P Require Import DiffStorage Chunk DiffArea ChunkSpecs CowInv Cow CowSteps CowImage.
From S2P Require Import CowSafety State BdevFilter SnapImage Tracker Snapshot SnapshotSpecs.
From S2P Require Import SnapshotTake SimFreeze.

#[local] Existing Instance default_params.

Definition ex_module : modst :=
  {| mkern := world0;
     devices := λ d, {| dev_ptr := 50 + d; dev_sectors := 1024; dev_io_min := 512 |};
     bdev_extension_list := []; trackers := ∅; tracked_device_list := []; tracker_release_list := [];
     trackers_counter := 1; cbt_maps := ∅; areas := ∅; storages := ∅; snapimages := ∅;
     snapshot_objs := ∅; links := {[ SNAPSHOTS := (SNAPSHOTS, SNAPSHOTS) ]}; fs_frozen := λ _, 0;
     next_ptr := 1; broken := false; stuck := false |}.

Definition with_oracle (l : list Z) (s : modst) : modst :=
  {| s with mkern := let w := mkern s in {| w with w_oracle := l |} |}.
Definition ex_dev (n : Z) : blk_snap_dev := {| mj := 0; mn := n |}.

(** The seventh answer of the environment is the id. *)
Definition create (id : Z) (devs : list blk_snap_dev) (s : modst) : modst :=
  (snapshot_create devs (with_oracle [0; 0; 0; 0; 0; 0; id] s)).2.

(** Snapshot 77 of device 1: created, with 4096 sectors of storage on device 8, taken. *)
Definition ex_created : modst := create 77 [ex_dev 1] ex_module.
Definition ex_stored : modst :=
  (snapshot_append_storage 77 (ex_dev 8) [{| sector_offset := 0; sector_count := 4096 |}] ex_created).2.
Definition ex_taken : modst := (snapshot_take 77 ex_stored).2.
Definition ex_destroyed : modst := (snapshot_destroy 77 ex_taken).2.
Definition ex_removed : modst := (tracker_release_work (tracker_remove 1 ex_destroyed).2).2.

(** A whole life leaves nothing behind. A snapshot of a device is created,
    storage is added, it is taken and destroyed, the device is removed from tracking
    and the released tracker is freed: every call succeeds, no object of any kind is
    left, every allocation counter is zero, no block device is left open, nothing
    is frozen, and no freed pointer has been used. *)
Theorem lifecycle_leaves_nothing :
  (snapshot_append_storage 77 (ex_dev 8) [{| sector_offset := 0; sector_count := 4096 |}] ex_created).1 = 0 ∧
  (snapshot_take 77 ex_stored).1 = Some 0 ∧ (snapshot_destroy 77 ex_taken).1 = 0 ∧
  let s := ex_removed in
  trackers s = ∅ ∧ cbt_maps s = ∅ ∧ areas s = ∅ ∧ storages s = ∅ ∧ snapimages s = ∅ ∧
  snapshot_objs s = ∅ ∧ snapshot_entries s = Some [] ∧ tracked_device_list s = [] ∧
  trackers_counter s = 1 ∧ broken s = false ∧ stuck s = false ∧
  w_open (mkern s) 1 = 0 ∧ w_open (mkern s) 8 = 0 ∧ fs_frozen s 1 = 0 ∧
  ∀ t, memory_counter (w_mem (mkern s)) t = 0.
Proof.
  repeat (split; [vm_compute; reflexivity|]). intros t. destruct t; vm_compute; reflexivity.
Qed.

(** ** Witnesses for the theorems on snapshots *)
Lemma snapshot_create_forgets_witness :
  ∃ p, snapshot_entries (create 78 [ex_dev 2] ex_taken) = Some [p] ∧ p ≠ 2.
Proof.
  unfold create. set (s := with_oracle [0; 0; 0; 0; 0; 0; 78] ex_taken).
  assert (E : (snapshot_create [ex_dev 2] s).1 = Some (0, 78)) by (vm_compute; reflexivity).
  assert (Hl : is_Some (links s !! SNAPSHOTS)) by (vm_compute; eauto).
  assert (Hn : 0 ≤ next_ptr s) by (vm_compute; done).
  pose proof (snapshot_create_forgets [ex_dev 2] s Hl Hn) as H. unfold wp in H.
  destruct (H 78 E) as (p & Hp & Hid & _). exists p. split; [exact Hp|]. intros ->.
  vm_compute in Hid. discriminate Hid.
Defined.

(** Two snapshots in the list, 77 and 78, the first of them taken, both without devices. *)
Definition ex_two : modst :=
  {| ex_module with
     snapshot_objs := {[ 2 := (let x := new_snapshot 77 1 0 in {| x with is_taken := true |});
                         4 := new_snapshot 78 3 0 ]};
     links := {[ SNAPSHOTS := (4, 2); 2 := (SNAPSHOTS, 4); 4 := (2, SNAPSHOTS) ]};
     storages := {[ 1 := diff_storage_zero; 3 := diff_storage_zero ]} |}.

Lemma ex_two_ring : ring_ok (links ex_two) [2; 4].
Proof. split; [vm_compute; by split_and!|]. by apply (bool_decide_unpack _); vm_compute. Qed.

Lemma ex_two_live p : p ∈ [2; 4] → ∃ x, snapshot_objs ex_two !! p = Some x ∧ 1 ≤ snap_kref x.
Proof.
  intros [->| ->%list_elem_of_singleton]%elem_of_cons;
    eexists; (split; [vm_compute; reflexivity|cbn; lia]).
Qed.

Lemma snapshot_destroy_refines_witness :
  (snapshot_destroy 77 ex_two).1 = 0 ∧ ring_ok (links (snapshot_destroy 77 ex_two).2) [4].
Proof.
  assert (Hl : ∀ p, p ∈ [2; 4] → is_Some (snapshot_objs ex_two !! p)).
  { intros p (y & Hy & _)%ex_two_live. eauto. }
  pose proof (snapshot_destroy_refines 77 ex_two [2; 4] ex_two_ring Hl) as H.
  exact (conj (proj1 H) (proj1 (proj2 H))).
Defined.

Lemma snapshot_take_guards_witness :
  snapshot_take 77 ex_two = (Some (- EALREADY), ex_two) ∧
  snapshot_take 78 ex_two = (Some (- ENODEV), ex_two).
Proof.
  split.
  - exact (proj1 (snapshot_take_guards 77 ex_two [2; 4] ex_two_ring ex_two_live) eq_refl).
  - exact (proj2 (snapshot_take_guards 78 ex_two [2; 4] ex_two_ring ex_two_live) eq_refl eq_refl).
Defined.

(** A snapshot of the one tracked device of [ex_tracked]. *)
Definition ex_one : snapshot :=
  let x := new_snapshot 77 0 1 in {| x with snap_count := 1; tracker_array := [Some 100] |}.

Lemma ex_one_used t : Some t ∈ used ex_one (tracker_array ex_one) → t = 100.
Proof. intros Ht. apply list_elem_of_singleton in Ht. congruence. Qed.

Lemma ex_one_ready : all_ready (ex_tracked false ex_map1 500 []) (used ex_one (tracker_array ex_one)).
Proof.
  split.
  - intros t ->%ex_one_used. exists (ex_tracker1 false). split; [reflexivity..| |].
    + exists 101, ex_map1. split_and!; [reflexivity..|exact ex_map1_wf].
    + exists 102, ex_area1, 103. split_and!; [reflexivity..|cbn; lia|cbn; lia].
  - apply NoDup_singleton.
  - intros t1 t2 tr1 tr2 ->%ex_one_used ->%ex_one_used. done.
Qed.

Lemma snapshot_take_all_or_nothing_witness :
  let s := ex_tracked false ex_map1 500 [] in
  (snapshot_take_trackers 2 ex_one s).1 = 0 ∧
  trackers (snapshot_take_trackers 2 ex_one s).2 !! 100 = Some (ex_tracker1 true).
Proof.
  intros s. assert (E : (snapshot_take_trackers 2 ex_one s).1 = 0) by (vm_compute; reflexivity).
  pose proof (snapshot_take_all_or_nothing 2 ex_one s ex_one_ready ltac:(done)) as H. unfold wp in H.
  rewrite E in H. destruct H as (_ & _ & H & _). split; [exact E|]. specialize (H 100). exact H.
Defined.

Lemma simultaneous_take_all_or_nothing_witness :
  let s := ex_tracked false ex_map1 500 [] in
  (Simultaneous.snapshot_take_trackers 2 ex_one s).1 = 0 ∧
  trackers (Simultaneous.snapshot_take_trackers 2 ex_one s).2 !! 100 = Some (ex_tracker1 true).
Proof.
  intros s. assert (E : (Simultaneous.snapshot_take_trackers 2 ex_one s).1 = 0) by (vm_compute; reflexivity).
  assert (Hz : ∀ t tr, Some t ∈ used ex_one (tracker_array ex_one) → trackers s !! t = Some tr → is_frozen tr = false).
  { intros t tr ->%ex_one_used [= <-]. reflexivity. }
  pose proof (Simultaneous.simultaneous_take_all_or_nothing 2 ex_one s ex_one_ready Hz ltac:(done)) as H.
  unfold wp in H. rewrite E in H. destruct H as (_ & _ & _ & H & _). split; [exact E|]. specialize (H 100). exact H.
Defined.

Lemma simultaneous_release_restores_witness :
  let s := ex_tracked true ex_map1 500 [] in
  trackers (Simultaneous.snapshot_release_trackers ex_one s).2 !! 100 = Some (ex_tracker1 false).
Proof.
  intros s.
  assert (Hu : ∀ o, o ∈ used ex_one (tracker_array ex_one) → ∃ t tr, o = Some t ∧ can_untake s t ∧
     trackers s !! t = Some tr ∧ is_frozen tr = false).
  { intros o ->%list_elem_of_singleton. exists 100, (ex_tracker1 true). split_and!; try reflexivity.
    exists (ex_tracker1 true), 102, ex_area1, 103. split_and!; reflexivity. }
  pose proof (Simultaneous.simultaneous_release_restores ex_one s ltac:(apply NoDup_singleton) Hu ltac:(done)) as H.
  unfold wp in H. destruct H as (_ & _ & _ & H). specialize (H 100). exact H.
Defined.

(** What the filter does with a write to sector 8 of device 1. *)
Definition ex_write (s : modst) : bool :=
  match (submit_bio_noacct_handler (tracker_submit_bio (ex_bio 8 8)) (bdev_of s 1) false s).1 with
  | Held _ => true
  | _ => false
  end.

(** A second snapshot of device 1, which is never taken, beside the first. *)
Definition ex_second : modst := create 78 [ex_dev 1] ex_taken.
Definition ex_second_gone : modst := (snapshot_destroy 78 ex_second).2.

(** Writes to the device are held before the second snapshot is destroyed, and pass
    afterwards; the first snapshot is still taken and has its image and its area. *)
Lemma snapshot_destroy_unfilters_witness :
  ex_write ex_second = true ∧ ex_write ex_second_gone = false ∧
  (is_taken <$> snapshot_objs ex_second_gone !! 2) = Some true ∧
  (img_diff_area <$> snapimages ex_second_gone !! 6) = Some 5 ∧
  (corrupt_flag ∘ fst <$> areas ex_second_gone !! 5) = Some false ∧
  ∃ tr, trackers ex_second_gone !! 3 = Some tr ∧ snapshot_is_taken tr = false ∧ tr_diff_area tr = None.
Proof.
  do 5 (split; [vm_compute; reflexivity|]).
  assert (Hr : ring_ok (links ex_second) [8]).
  { split; [vm_compute; by split_and!|]. by apply (bool_decide_unpack _); vm_compute. }
  assert (Ex : (λ x, (used x (tracker_array x), used x (snapimage_array x), snap_kref x)) <$>
    snapshot_objs ex_second !! 8 = Some ([Some 3], [None], 1)) by (vm_compute; reflexivity).
  assert (Etr : (λ tr, (submit_lock tr, tr_diff_area tr)) <$> trackers ex_second !! 3 = Some (false, Some 5))
    by (vm_compute; reflexivity).
  assert (Ear : (λ a, orig_bdev a.1) <$> areas ex_second !! 5 = Some 1) by (vm_compute; reflexivity).
  destruct (snapshot_objs ex_second !! 8) as [x|] eqn:Hx; [|discriminate Ex].
  destruct (trackers ex_second !! 3) as [tr0|] eqn:Htr; [|discriminate Etr].
  destruct (areas ex_second !! 5) as [[da st]|] eqn:Ha; [|discriminate Ear].
  injection Ex as Et Ei Ek. injection Etr as El Ed.
  assert (Hi : Forall (λ i, i = None) (used x (snapimage_array x))) by (rewrite Ei; by constructor).
  assert (Hu : ∀ t, Some t ∈ used x (tracker_array x) → can_untake ex_second t).
  { intros t. rewrite Et. intros [= ->]%list_elem_of_singleton. exists tr0, 5, da, st.
    exact (conj Htr (conj El (conj Ed Ha))). }
  pose proof (snapshot_destroy_unfilters 78 ex_second [8] 8 x Hr ltac:(vm_compute; reflexivity) Hx Ek Hi Hu) as H.
  unfold wp in H. destruct H as (_ & _ & _ & H). destruct (H 3) as (tr & H1 & H2 & H3 & _).
  - rewrite Et. apply elem_of_cons. by left.
  - exists tr. split_and!; [exact H1|exact H2|exact H3].
Defined.

(** Snapshot 77 when its device has doubled since tracking began, and the twelfth
    allocation fails: the one for the new change tracking map. *)
Definition ex_resized : modst :=
  with_oracle (replicate 11 0 ++ [1]) {| ex_stored with devices := λ d,
    {| dev_ptr := 50 + d; dev_sectors := 2048; dev_io_min := 512 |} |}.

(** A snapshot that fails to be taken blocks its device and its caller. When
    the change tracking map of the device has to be made again, because the device
    has been resized, and there is no memory, [snapshot_take_trackers] returns the
    error with the device's file system frozen and the filter's lock held, so that
    every bio to the device sleeps; the cleanup of [snapshot_take] then waits for
    ever for the lock its own thread has left held. *)
Theorem snapshot_take_failure_blocks_device :
  let s1 := (new_areas 1 [Some 3] ex_resized).2 in
  (new_areas 1 [Some 3] ex_resized).1 = Some 0 ∧
  (λ x, let r := snapshot_take_trackers 2 x s1 in
        (r.1, fs_frozen r.2 1, submit_lock <$> trackers r.2 !! 3,
         (submit_bio_noacct_handler (tracker_submit_bio (ex_bio 8 8)) (bdev_of r.2 1) false r.2).1))
    <$> snapshot_objs s1 !! 2 = Some (- ENOMEM, 1, Some true, Asleep) ∧
  stuck s1 = false ∧ stuck (snapshot_take 77 ex_resized).2 = true.
Proof. vm_compute. split_and!; reflexivity. Qed.
