(* ===== verification/Fleet.v ===== *)
(** * All the areas of the module together

    The protocol of Cow.v for one difference area, inside the whole module: the areas
    of all devices of all snapshots, the storages they share, the filter through which
    bios reach them (bdevfilter.c, tracker.c), user space that extends a storage, and
    the control side, by what it leaves alone. The rest of the system, which Cow.v leaves
    open, is here what the code does. *)
From S2P Require Import Prelude MemoryChecker Kernel Uapi EventQueue CbtMap DiffBuffer DiffIo DiffStorage.
From S2P Require Import Effects Chunk DiffArea ChunkSpecs CowInv Cow CowSteps CowImage CowSafety.
From S2P Require Import State BdevFilter Tracker Snapshot.

(** ** The module and its tasks *)

(** The tasks on one area: the bios the filter holds, the image's worker and what the
    image should contain; [ts_filter] is the tracker the bios come through. *)
Record tasks := Tasks {
  ts_filter : Z;
  ts_writers : list writer;
  ts_ctx : diff_area_image_ctx;
  ts_img : Z → Z;
}.

Record fleet := Fleet {
  fl_mod : modst;
  fl_tasks : gmap Z tasks;
}.

(** An area with its storage, as [with_area] sees them. *)
Definition area_sys (s : modst) (a : Z) : option sys :=
  match areas s !! a with
  | None => None
  | Some (da, st) =>
      match storages s !! st with
      | None => None
      | Some d => Some {| area := da; storage := d; kern := mkern s; oops := false; hung := false |}
      end
  end.
Definition put_area (a : Z) (x : sys) (s : modst) : modst :=
  match areas s !! a with
  | None => s
  | Some (_, st) =>
      {| s with mkern := kern x; areas := <[a := (area x, st)]> (areas s);
                storages := <[st := storage x]> (storages s);
                broken := broken s || oops x; stuck := stuck s || hung x |}
  end.

Lemma with_area_put {A} a (m : AM A) s x :
  area_sys s a = Some x → with_area a m s = (Some (m x).1, put_area a (m x).2 s).
Proof.
  unfold area_sys, with_area, put_area, mbind, M_mbind, gets. cbn [fst snd id].
  destruct (areas s !! a) as [[da st]|] eqn:Ea; [|done]. destruct (storages s !! st) as [d|]; [|done].
  by intros [= <-].
Qed.

(** One area and its tasks as a system of Cow.v. *)
Definition view (σ : fleet) (a : Z) : option cow :=
  match area_sys (fl_mod σ) a, fl_tasks σ !! a with
  | Some s, Some t => Some (Cow s (ts_writers t) (ts_ctx t) (ts_img t))
  | _, _ => None
  end.

(** A task that leaves [tracker_submit_bio] gives the reference to the filter back
    ([bdev_filters_apply]). *)
Definition put_view (a : Z) (v v' : cow) (σ : fleet) : fleet :=
  let s := put_area a (cw_sys v') (fl_mod σ) in
  {| fl_mod := if (length (cw_writers v') <? length (cw_writers v))%nat
               then (bdev_filter_put (ts_filter <$> fl_tasks σ !! a) s).2 else s;
     fl_tasks := alter (λ t, {| t with ts_writers := cw_writers v'; ts_ctx := cw_ctx v'; ts_img := cw_img v' |})
                   a (fl_tasks σ) |}.

(** The bio goes to the device. *)
Definition disk_written (dev : Z) (bio : filter_bio) (s : modst) : modst :=
  {| s with mkern := let k := mkern s in
     {| k with w_disk := disk_write dev (bio_sector bio * SECTOR_SIZE) (b_count bio * SECTOR_SIZE)
                           (b_data bio) (w_disk k) |} |}.

(** A bio to [dev] that the filter has dealt with. *)
Definition put_bio (dev : Z) (bio : filter_bio) (r : filtered (Z * writer)) (s : modst) (σ : fleet) : fleet :=
  match r with
  | Held (a, w) =>
      {| fl_mod := s; fl_tasks := alter (λ t, {| t with ts_writers := ts_writers t ++ [w] |}) a (fl_tasks σ) |}
  | ToDevice =>
      {| fl_mod := if b_write bio then disk_written dev bio s else s; fl_tasks := fl_tasks σ |}
  | _ => {| fl_mod := s; fl_tasks := fl_tasks σ |}
  end.

(** What the rest of the module does when it touches neither areas nor storages nor the
    contents of devices: the trackers keep their place, their snapshots and their areas,
    and a change tracking map that is in order stays so; a corrupted one stays corrupted. *)
Definition tracker_core (tr : tracker) : bool * option Z * option Z :=
  (snapshot_is_taken tr, tr_cbt_map tr, tr_diff_area tr).

Record untouched (s s' : modst) : Prop := {
  un_areas : areas s' = areas s;
  un_storages : storages s' = storages s;
  un_devices : devices s' = devices s;
  un_exts : bdev_extension_list s' = bdev_extension_list s;
  un_disk : w_disk (mkern s') = w_disk (mkern s);
  un_trackers : tracker_core <$> trackers s' = tracker_core <$> trackers s;
  un_maps p m : cbt_maps s !! p = Some m → cbt_wf m → ∃ m', cbt_maps s' !! p = Some m' ∧ cbt_wf m' ∧
    (is_corrupted m = true → is_corrupted m' = true);
}.

#[global] Instance untouched_preorder : PreOrder untouched.
Proof.
  split.
  - intros s. split; try done. intros p m Hm Hwf. by exists m.
  - intros s1 s2 s3 [A1 S1 D1 E1 K1 T1 M1] [A2 S2 D2 E2 K2 T2 M2]. split; try congruence.
    intros p m Hm Hwf. destruct (M1 p m Hm Hwf) as (m1 & H1 & Hwf1 & C1).
    destruct (M2 p m1 H1 Hwf1) as (m2 & H2 & Hwf2 & C2). exists m2. auto.
Qed.

(** The sectors that user space adds do not belong to another storage, and are not on the
    original device of another snapshot. *)
Record new_ranges_ok (s : modst) (st : Z) (dev : Z) (ranges : list blk_snap_block_range) : Prop := {
  nr_ranges d : storages s !! st = Some d → ranges_ok d dev ranges;
  nr_apart st' d' bd x : st' ≠ st → storages s !! st' = Some d' →
    Exists (blk_has bd x) (new_block dev <$> ranges) → ¬ covered d' bd x;
  nr_clear a da st' : areas s !! a = Some (da, st') → st' ≠ st → orig_bdev da ≠ dev;
}.

(** How devices, storages and filters lie with respect to each other. *)
Record ground (s : modst) : Prop := {
  gd_devices a b da db st st' : a ≠ b → areas s !! a = Some (da, st) → areas s !! b = Some (db, st') →
    orig_bdev da ≠ orig_bdev db;
  gd_storages st st' d d' bd x : st ≠ st' → storages s !! st = Some d → storages s !! st' = Some d' →
    covered d bd x → covered d' bd x → False;
  gd_clear a da st st' d' x : areas s !! a = Some (da, st) → st' ≠ st → storages s !! st' = Some d' →
    ¬ covered d' (orig_bdev da) x;
  gd_wf st d : storages s !! st = Some d → storage_wf d ∧ bdevs_ok d;
  gd_filter dev e t tr a da st :
    bdev_extension_find_bdev (dev_ptr (devices s dev)) (bdev_extension_list s) = Some e →
    bd_filter e = Some t → trackers s !! t = Some tr → snapshot_is_taken tr = true →
    tr_diff_area tr = Some a → areas s !! a = Some (da, st) → orig_bdev da = dev;
}.

(** Writes to the original device of area [a] pass through the tracker [t], which has them
    saved. *)
Definition guarded (s : modst) (a t : Z) : Prop :=
  ∃ da st e tr p m, areas s !! a = Some (da, st) ∧
    bdev_extension_find_bdev (dev_ptr (devices s (orig_bdev da))) (bdev_extension_list s) = Some e ∧
    bd_filter e = Some t ∧ trackers s !! t = Some tr ∧ snapshot_is_taken tr = true ∧
    tr_diff_area tr = Some a ∧ tr_cbt_map tr = Some p ∧ cbt_maps s !! p = Some m ∧ cbt_wf m.

(** The tracker's map is corrupted: it no longer has writes saved. *)
Definition map_lost (s : modst) (t : Z) : bool :=
  match (tr ← trackers s !! t; p ← tr_cbt_map tr; cbt_maps s !! p) with
  | Some m => is_corrupted m
  | None => true
  end.

(** The start of an area: nothing has been copied and no task is at work. *)
Definition starts (σ : fleet) (a : Z) : Prop := ∃ v, view σ a = Some v ∧ cow_init v.

(** The tasks of an area that starts. *)
Definition start_tasks (s : modst) (t a : Z) : tasks :=
  {| ts_filter := t; ts_writers := []; ts_ctx := diff_area_image_ctx_init false;
     ts_img := match areas s !! a with Some (da, _) => w_disk (mkern s) (orig_bdev da) | None => λ _, 0 end |}.

(** An area that the control side has left alone. *)
Definition left_alone (σ σ' : fleet) (a : Z) : Prop :=
  ∃ x x' t, area_sys (fl_mod σ) a = Some x ∧ area_sys (fl_mod σ') a = Some x' ∧
    fl_tasks σ !! a = Some t ∧ fl_tasks σ' !! a = Some t ∧
    area x' = area x ∧ storage x' = storage x ∧ w_disk (kern x') = w_disk (kern x) ∧
    (map_lost (fl_mod σ) (ts_filter t) = true → map_lost (fl_mod σ') (ts_filter t) = true).

(** Snapshots are taken and destroyed: areas may go, the new ones start, the others are left
    alone, and afterwards no device is in two snapshots, no storage overlaps another or lies
    on the device of another snapshot, and every area has its filter. *)
Record control (σ σ' : fleet) : Prop := {
  ct_ground : ground (fl_mod σ');
  ct_guard a t : fl_tasks σ' !! a = Some t → guarded (fl_mod σ') a (ts_filter t);
  ct_areas a : is_Some (areas (fl_mod σ') !! a) → starts σ' a ∨ left_alone σ σ' a;
}.

Section steps.
Context {P : ModuleParams}.

Inductive fleet_step : fleet → fleet → Prop :=
  | fleet_task σ a v v' :
      view σ a = Some v → task_step false v v' → fleet_step σ (put_view a v v' σ)
  | fleet_submit σ dev bio r s' :
      b_own bio = false → 0 ≤ bio_sector bio → 0 ≤ b_count bio → bio_sector bio + b_count bio ≤ 2 ^ 64 →
      w_bio_list (mkern (fl_mod σ)) = None →
      submit_bio_noacct_handler (tracker_submit_bio bio) (bdev_of (fl_mod σ) dev) (b_nowait bio) (fl_mod σ) = (r, s') →
      r ≠ Asleep →
      (r = ToDevice → b_write bio = true → ∀ st d addr, storages (fl_mod σ) !! st = Some d →
         bio_sector bio * SECTOR_SIZE ≤ addr < (bio_sector bio + b_count bio) * SECTOR_SIZE →
         ¬ covered d dev (addr / SECTOR_SIZE)) →
      fleet_step σ (put_bio dev bio r s' σ)
  | fleet_append σ st dev ranges r s' :
      new_ranges_ok (fl_mod σ) st dev ranges →
      with_store st (diff_storage_append_block dev ranges) (fl_mod σ) = (r, s') →
      fleet_step σ {| σ with fl_mod := s' |}
  | fleet_rest σ s' :
      untouched (fl_mod σ) s' → fleet_step σ {| σ with fl_mod := s' |}
  | fleet_control σ σ' :
      control σ σ' → fleet_step σ σ'.
End steps.

(** Every area starts. *)
Record fleet_init (σ : fleet) : Prop := {
  fn_ground : ground (fl_mod σ);
  fn_guard a t : fl_tasks σ !! a = Some t → guarded (fl_mod σ) a (ts_filter t);
  fn_areas a : is_Some (areas (fl_mod σ) !! a) → starts σ a;
}.
