(* ===== verification/FleetInv.v ===== *)
(** * The areas do not disturb each other

    The invariant of the fleet: every area keeps to its own footprint, the footprints of
    different areas are disjoint, every device has its filter, and every area that is not lost
    satisfies the invariant of Cow.v. A step of one area, of user space or of the control side
    is, for the other areas, a step of the rest of the system as Cow.v allows it. *)
From S2P Require Import Prelude MemoryChecker Kernel Uapi EventQueue CbtMap DiffBuffer DiffIo DiffStorage.
From S2P Require Import Effects Chunk DiffArea ChunkSpecs CowInv Cow CowSteps CowImage CowSafety Footprint.
From S2P Require Import State BdevFilter Tracker Snapshot Fleet.

(** ** The tasks of one area *)

Section tasks.
Context {P : ModuleParams}.

(** Whatever the state of the area, its tasks keep to its footprint. *)
Lemma task_step_confined σ σ' R :
  task_step false σ σ' → owns R (cw_sys σ) →
  ∃ R', owns R' (cw_sys σ') ∧ keeps_to R R' (cw_sys σ) (cw_sys σ').
Proof.
  assert (Hrun : ∀ A (m : AM A) a s s', m s = (a, s') → confined m s → owns R s →
    ∃ R', owns R' s' ∧ keeps_to R R' s s') by (intros A m a s s' E Hm H; exact (wp_run _ _ _ _ _ (Hm R H) E)).
  intros H Hown. destruct H as [σ i w r ret s' Hi Hex Ht _|σ n k status c io s' _ _ _ Ht|σ n c io s' _ _ _ Ht
    |σ again s' Ht|σ wr _|σ v pos st ctx' v' pos' s' _ _ Ht|σ s' Ht]; cbn [cw_sys].
  - eapply Hrun; [exact Ht|by apply writer_turn_confined|done].
  - eapply Hrun; [exact Ht|apply bio_end_confined|done].
  - eapply Hrun; [exact Ht|apply tame_confined; tame|done].
  - eapply Hrun; [exact Ht|apply tame_confined; tame|done].
  - exists R. split; [done|apply grows_keeps_to, grows_refl].
  - eapply Hrun; [exact Ht|apply tame_confined; tame|done].
  - eapply Hrun; [exact Ht|apply tame_confined; tame|done].
Qed.
End tasks.

(** ** The invariant *)

Record fleet_inv (F : Z → footprint) (σ : fleet) : Prop := {
  fi_live a : is_Some (areas (fl_mod σ) !! a) → is_Some (view σ a);
  fi_owns a v : view σ a = Some v → owns (F a) (cw_sys v);
  fi_apart a b bd x : a ≠ b → is_Some (view σ a) → is_Some (view σ b) → F a bd x → F b bd x → False;
  fi_ground : ground (fl_mod σ);
  fi_guard a t : fl_tasks σ !! a = Some t → guarded (fl_mod σ) a (ts_filter t);
  fi_cow a v t : view σ a = Some v → fl_tasks σ !! a = Some t →
    map_lost (fl_mod σ) (ts_filter t) = true ∨ cow_inv v;
}.

(** *** Views *)

Lemma view_inv σ a v :
  view σ a = Some v → ∃ s t, area_sys (fl_mod σ) a = Some s ∧ fl_tasks σ !! a = Some t ∧
    v = Cow s (ts_writers t) (ts_ctx t) (ts_img t).
Proof.
  unfold view. destruct (area_sys _ _) as [s|]; [|done]. destruct (fl_tasks σ !! a) as [t|]; [|done].
  intros [= <-]. by exists s, t.
Qed.
Lemma area_sys_inv s a x :
  area_sys s a = Some x → ∃ da st d, areas s !! a = Some (da, st) ∧ storages s !! st = Some d ∧
    x = {| area := da; storage := d; kern := mkern s; oops := false; hung := false |}.
Proof.
  unfold area_sys. destruct (areas s !! a) as [[da st]|]; [|done]. destruct (storages s !! st) as [d|] eqn:E; [|done].
  intros [= <-]. by exists da, st, d.
Qed.

Lemma taken_covered d bd x : storage_wf d → taken d bd x → covered d bd x.
Proof.
  intros [Hb _ _ _ _] Ht. unfold taken, covered in *. rewrite Exists_exists in *. destruct Ht as (b & Hin & Hbd & Hx).
  exists b. split; [done|]. split; [done|]. pose proof (proj1 (Forall_forall _ _) Hb b Hin) as (_ & ? & _). lia.
Qed.

(** What the rest of the system may do to an area keeps its footprint. *)
Lemma owns_env R s s' : env_ok s s' → owns R s → owns R s'.
Proof.
  intros [Ea _ Hwf _ Htk _ _] [H1 H2 H3 H4 H5]. split; unfold at_chunk; rewrite ?Ea; try done. eauto.
Qed.
Lemma cow_inv_env s s' ws ctx img : env_ok s s' → cow_inv (Cow s ws ctx img) → cow_inv (Cow s' ws ctx img).
Proof.
  intros He [Hx|[C Hw]]; [left; cbn in *; by rewrite (ev_area _ _ He)|right].
  destruct (env_spec _ _ _ _ He C) as [C' E]. split; [done|]. by eapply Forall_writers_evolves.
Qed.

(** The flags are not part of the system. *)
Lemma env_flags s : oops s = false → storage_wf (storage s) → env_ok s {| s with oops := false; hung := false |}.
Proof. intros Ho Hwf. by split. Qed.

Lemma put_area_lookup b x s st :
  (∃ db, areas s !! b = Some (db, st)) →
  put_area b x s = {| s with mkern := kern x; areas := <[b := (area x, st)]> (areas s);
    storages := <[st := storage x]> (storages s); broken := broken s || oops x; stuck := stuck s || hung x |}.
Proof. intros [db E]. unfold put_area. by rewrite E. Qed.

(** The area whose task has taken the step. *)
Lemma area_sys_put b s xb x :
  area_sys s b = Some xb → area_sys (put_area b x s) b = Some {| x with oops := false; hung := false |}.
Proof.
  intros (db & st & d & Hb & Hd & ->)%area_sys_inv. rewrite (put_area_lookup b x s st) by eauto.
  unfold area_sys. cbn. by rewrite !lookup_insert_eq.
Qed.

(** The others: the step is one of the rest of the system. *)
Section others.
Context (s : modst) (a b : Z) (xa xb xb' : sys) (Fa Fb Fb' : footprint).
Context (da db : diff_area) (sta stb : Z) (d e : diff_storage).
Hypothesis G : ground s.
Hypothesis Hne : a ≠ b.
Hypothesis Ha : areas s !! a = Some (da, sta).
Hypothesis Hb : areas s !! b = Some (db, stb).
Hypothesis Hd : storages s !! sta = Some d.
Hypothesis He : storages s !! stb = Some e.
Hypothesis Exa : xa = {| area := da; storage := d; kern := mkern s; oops := false; hung := false |}.
Hypothesis Exb : xb = {| area := db; storage := e; kern := mkern s; oops := false; hung := false |}.
Hypothesis Ho : owns Fa xa.
Hypothesis Ho' : owns Fb' xb'.
Hypothesis K : keeps_to Fb Fb' xb xb'.
Hypothesis Hap : ∀ bd x, Fa bd x → Fb bd x → False.

Lemma mine_taken bd x : Fa bd x → taken d bd x ∧ covered d bd x.
Proof.
  pose proof Ho as [_ Hwf Ht _ _]. rewrite Exa in Hwf, Ht. cbn in *. intros Hx. split; [by apply Ht|].
  by apply taken_covered, Ht.
Qed.
Lemma theirs_covered bd x : Fb' bd x → covered e bd x.
Proof.
  intros Hx. pose proof (kt_covered _ _ _ _ K bd x) as E. rewrite Exb in E. apply E.
  apply taken_covered; [apply Ho'|by apply (ow_taken _ _ Ho')].
Qed.
Lemma same_storage : sta = stb → e = d.
Proof. intros E. rewrite <- E, Hd in He. by injection He. Qed.

Lemma still_apart bd x : Fa bd x → Fb' bd x → False.
Proof.
  intros HA HB. destruct (mine_taken bd x HA) as [Ht Hc].
  destruct (kt_fresh _ _ _ _ K bd x HB) as [H|H]; [by eapply Hap|]. rewrite Exb in H. cbn in H.
  destruct (decide (sta = stb)) as [Est|Hst]; [by rewrite (same_storage Est) in H|].
  eapply (gd_storages _ G sta stb); [done..|exact Hc|by apply theirs_covered].
Qed.

(** What concerns area [a] on the devices has not changed. *)
Lemma disk_kept bd addr :
  (bd = orig_bdev da ∧ ¬ covered d bd (addr / SECTOR_SIZE)) ∨ Fa bd (addr / SECTOR_SIZE) →
  w_disk (kern xb') bd addr = w_disk (mkern s) bd addr.
Proof.
  intros H. pose proof (kt_disk _ _ _ _ K bd addr) as Hk. unfold excluded in Hk. rewrite Exb in Hk. cbn in Hk.
  destruct Hk as [E|[HB|[-> Hx]]]; [done|exfalso..].
  - destruct H as [[-> Hn]|HA]; [|by eapply still_apart]. apply theirs_covered in HB.
    destruct (decide (sta = stb)) as [Est|Hst]; [by rewrite (same_storage Est) in HB|by eapply (gd_clear _ G a da sta stb)].
  - destruct H as [[E _]|HA]; [by eapply (gd_devices _ G a b)|]. destruct (mine_taken _ _ HA) as [_ Hc].
    destruct (decide (sta = stb)) as [Est|Hst]; [by rewrite (same_storage Est) in Hx|by eapply (gd_clear _ G b db stb sta)].
Qed.

Lemma others_stay : ∃ xa', area_sys (put_area b xb' s) a = Some xa' ∧ env_ok xa xa'.
Proof.
  set (d' := if decide (sta = stb) then storage xb' else d).
  exists {| area := da; storage := d'; kern := kern xb'; oops := false; hung := false |}.
  assert (storage_wf d' ∧ (∀ bd x, covered d' bd x ↔ covered d bd x) ∧ (∀ bd x, taken d bd x → taken d' bd x)) as (Hwf & Hcov & Htk).
  { unfold d'. destruct (decide (sta = stb)) as [Est|Hst].
    - split; [apply Ho'|]. rewrite <- (same_storage Est). pose proof K as [_ _ K1 K2 _ _ _]. by rewrite Exb in K1, K2.
    - split; [|done]. pose proof (ow_storage _ _ Ho) as H. by rewrite Exa in H. }
  split.
  - rewrite (put_area_lookup b xb' s stb) by eauto. unfold area_sys. cbn. rewrite lookup_insert_ne by done. rewrite Ha.
    unfold d'. destruct (decide (sta = stb)) as [->|Hst]; [by rewrite lookup_insert_eq|by rewrite lookup_insert_ne, Hd].
  - pose proof Ho as Ho1. rewrite Exa in Ho1 |- *. split; try done; cbn.
    + intros bd x. by apply Hcov.
    + intros addr Hx. apply disk_kept. left. split; [done|]. by rewrite <- Hcov.
    + intros n c r i Hc Hr Hi. unfold on_region. cbn. apply disk_kept. right.
      apply (ow_region _ _ Ho1 n c r Hc Hr). split; [done|]. by apply region_byte.
Qed.
End others.

Lemma others_env s a b xa xb xb' (Fa Fb Fb' : footprint) :
  ground s → a ≠ b → area_sys s a = Some xa → area_sys s b = Some xb →
  owns Fa xa → owns Fb' xb' → keeps_to Fb Fb' xb xb' → (∀ bd x, Fa bd x → Fb bd x → False) →
  ∃ xa', area_sys (put_area b xb' s) a = Some xa' ∧ env_ok xa xa' ∧ (∀ bd x, Fa bd x → Fb' bd x → False).
Proof.
  intros G Hne (da & sta & d & Ha & Hd & Exa)%area_sys_inv (db & stb & e & Hb & He & Exb)%area_sys_inv Ho Ho' K Hap.
  destruct (others_stay s a b xa xb xb' Fa Fb Fb' da db sta stb d e) as (x' & Hx & Henv); try done.
  exists x'. split_and!; try done. by apply (still_apart s xa xb xb' Fa Fb Fb' da db sta stb d e).
Qed.

(** *** A step of a task *)

Section put.
Context (s : modst) (b : Z) (xb x : sys) (R R' : footprint).
Hypothesis Hb : area_sys s b = Some xb.
Hypothesis HK : keeps_to R R' xb x.

Lemma put_area_areas a da st :
  areas (put_area b x s) !! a = Some (da, st) → ∃ da0, areas s !! a = Some (da0, st) ∧ orig_bdev da = orig_bdev da0.
Proof.
  destruct (area_sys_inv _ _ _ Hb) as (db & stb & d & Ea & Hd & E). rewrite (put_area_lookup b x s stb) by eauto. cbn.
  destruct (decide (a = b)) as [->|Hne]; [|rewrite lookup_insert_ne by done; eauto].
  rewrite lookup_insert_eq. intros [= <- <-]. exists db. split; [done|]. rewrite (kt_bdev _ _ _ _ HK). by rewrite E.
Qed.
Lemma put_area_storages st d' :
  storages (put_area b x s) !! st = Some d' →
  ∃ d, storages s !! st = Some d ∧ storage_bdevs d' = storage_bdevs d ∧ (∀ bd y, covered d' bd y ↔ covered d bd y) ∧
    (d' = d ∨ d' = storage x).
Proof.
  destruct (area_sys_inv _ _ _ Hb) as (db & stb & d & Ea & Hd & E). rewrite (put_area_lookup b x s stb) by eauto. cbn.
  destruct (decide (st = stb)) as [->|Hne].
  - rewrite lookup_insert_eq. intros [= <-]. exists d. split; [done|].
    split; [rewrite (kt_bdevs _ _ _ _ HK); by rewrite E|]. split; [|by right].
    intros bd y. rewrite (kt_covered _ _ _ _ HK). by rewrite E.
  - rewrite lookup_insert_ne by done. intros H. exists d'. auto.
Qed.
Lemma put_area_rest :
  trackers (put_area b x s) = trackers s ∧ cbt_maps (put_area b x s) = cbt_maps s ∧
  devices (put_area b x s) = devices s ∧ bdev_extension_list (put_area b x s) = bdev_extension_list s.
Proof. unfold put_area. destruct (areas s !! b) as [[? ?]|]; done. Qed.

Lemma ground_put : ground s → storage_wf (storage x) → ground (put_area b x s).
Proof.
  intros [G1 G2 G3 G4 G5] Hwf. destruct put_area_rest as (Et & _ & Ed & Ee). split.
  - intros a a' da db st st' Hne (da0 & H1 & ->)%put_area_areas (db0 & H2 & ->)%put_area_areas. by eapply G1.
  - intros st st' d d' bd y Hne (d0 & H1 & _ & C1 & _)%put_area_storages (d1 & H2 & _ & C2 & _)%put_area_storages.
    rewrite C1, C2. by eapply G2.
  - intros a da st st' d' y (da0 & H1 & ->)%put_area_areas Hne (d1 & H2 & _ & C2 & _)%put_area_storages.
    rewrite C2. by eapply G3.
  - intros st d (d0 & H & Eb & _ & Hd)%put_area_storages. destruct (G4 st d0 H) as [W B]. split.
    + by destruct Hd as [->| ->].
    + unfold bdevs_ok. by rewrite Eb.
  - rewrite Et, Ed, Ee. intros dev e t tr a da st He Hf Ht Hs Ha (da0 & H1 & ->)%put_area_areas. by eapply G5.
Qed.

Lemma guarded_put a t : guarded s a t → guarded (put_area b x s) a t.
Proof.
  intros (da & st & e & tr & p & m & Ha & He & Hrest). unfold guarded. destruct put_area_rest as (-> & -> & -> & ->).
  destruct (area_sys_inv _ _ _ Hb) as (db & stb & d & Ea & Hd & E). destruct (decide (a = b)) as [->|Hne].
  - exists (area x), st, e, tr, p, m. rewrite (put_area_lookup b x s st) by eauto. cbn. rewrite lookup_insert_eq.
    split; [done|]. rewrite (kt_bdev _ _ _ _ HK), E. cbn. rewrite Ha in Ea. by injection Ea as <- <-.
  - exists da, st, e, tr, p, m. rewrite (put_area_lookup b x s stb) by eauto. cbn. by rewrite lookup_insert_ne.
Qed.
Lemma map_lost_put t : map_lost (put_area b x s) t = map_lost s t.
Proof. unfold map_lost. by destruct put_area_rest as (-> & -> & _). Qed.
End put.

(** The tasks of [b] after a step. *)
Definition put_tasks (b : Z) (v' : cow) (T : gmap Z tasks) : gmap Z tasks :=
  alter (λ t, {| t with ts_writers := cw_writers v'; ts_ctx := cw_ctx v'; ts_img := cw_img v' |}) b T.

Lemma view_put σ b v v' :
  view σ b = Some v →
  view {| fl_mod := put_area b (cw_sys v') (fl_mod σ); fl_tasks := put_tasks b v' (fl_tasks σ) |} b =
    Some (let x := cw_sys v' in {| v' with cw_sys := {| x with oops := false; hung := false |} |}).
Proof.
  intros (s & t & Hs & Ht & ->)%view_inv. unfold view, put_tasks. cbn. rewrite (area_sys_put _ _ s) by done.
  by rewrite lookup_alter_eq, Ht.
Qed.

Lemma view_sys σ b v : view σ b = Some v → area_sys (fl_mod σ) b = Some (cw_sys v).
Proof. by intros (xb & tb & Hb & _ & ->)%view_inv. Qed.

(** The areas other than [b] after a step of [b]. *)
Section put_others.
Context (F : Z → footprint) (σ : fleet) (b : Z) (v v' : cow) (R' : footprint).
Hypothesis I : fleet_inv F σ.
Hypothesis Hv : view σ b = Some v.
Hypothesis Ho : owns R' (cw_sys v').
Hypothesis K : keeps_to (F b) R' (cw_sys v) (cw_sys v').

Definition stepped : fleet :=
  {| fl_mod := put_area b (cw_sys v') (fl_mod σ); fl_tasks := put_tasks b v' (fl_tasks σ) |}.

Lemma stepped_env a w :
  a ≠ b → view σ a = Some w →
  ∃ x', env_ok (cw_sys w) x' ∧ view stepped a = Some {| w with cw_sys := x' |} ∧ (∀ bd y, F a bd y → R' bd y → False).
Proof.
  intros Hne Hw. pose proof (fi_owns _ _ I a w Hw) as Hwo. destruct (view_inv _ _ _ Hw) as (xa & ta & Ha & Hta & ->).
  destruct (others_env (fl_mod σ) a b xa (cw_sys v) (cw_sys v') (F a) (F b) R') as (x' & H1 & H2 & H3);
    [apply I|done|done|by apply view_sys|done|done|done| |].
  - intros bd y. apply (fi_apart _ _ I a b); [done|by rewrite Hw|by rewrite Hv].
  - exists x'. split_and!; try done. unfold view, stepped, put_tasks. cbn [fl_mod fl_tasks].
    rewrite H1, lookup_alter_ne by done. by rewrite Hta.
Qed.
Lemma stepped_live a : a ≠ b → is_Some (areas (fl_mod stepped) !! a) → is_Some (view σ a).
Proof.
  intros Hne [[da st] H]. destruct (put_area_areas _ b _ _ _ _ (view_sys _ _ _ Hv) K a da st H) as (da0 & H0 & _).
  apply (fi_live _ _ I). eauto.
Qed.
Lemma stepped_other a w :
  a ≠ b → view stepped a = Some w → ∃ w0 x', view σ a = Some w0 ∧ env_ok (cw_sys w0) x' ∧ w = {| w0 with cw_sys := x' |} ∧
    (∀ bd y, F a bd y → R' bd y → False).
Proof.
  intros Hne Hw. destruct (view_inv _ _ _ Hw) as (x & t & (da & st & d & H & _)%area_sys_inv & _).
  destruct (stepped_live a Hne) as [w0 Hw0]; [by eauto|].
  destruct (stepped_env a w0 Hne Hw0) as (x' & He & Hw' & Hd). exists w0, x'. split_and!; try done. congruence.
Qed.
Lemma stepped_tasks a t :
  fl_tasks stepped !! a = Some t → ∃ t0, fl_tasks σ !! a = Some t0 ∧ ts_filter t = ts_filter t0.
Proof.
  unfold stepped, put_tasks. cbn. destruct (decide (a = b)) as [->|Hne]; [|rewrite lookup_alter_ne by done; eauto].
  rewrite lookup_alter_eq. destruct (fl_tasks σ !! b) as [t0|]; [|done]. intros [= <-]. by exists t0.
Qed.
End put_others.

Section put_inv.
Context {P : ModuleParams}.

Lemma inv_put F σ b v v' R' :
  fleet_inv F σ → view σ b = Some v → owns R' (cw_sys v') → keeps_to (F b) R' (cw_sys v) (cw_sys v') →
  (∀ t, fl_tasks σ !! b = Some t → map_lost (fl_mod σ) (ts_filter t) = true ∨
     cow_inv (let x := cw_sys v' in {| v' with cw_sys := {| x with oops := false; hung := false |} |})) →
  fleet_inv (λ a, if decide (a = b) then R' else F a) (stepped σ b v').
Proof.
  intros I Hv Ho K Hc. pose proof (view_put σ b v v' Hv) as Hvb. fold (stepped σ b v') in Hvb.
  pose proof (stepped_other F σ b v v' R' I Hv Ho K) as Hother.
  split.
  - intros a H. destruct (decide (a = b)) as [->|Hne]; [by rewrite Hvb|].
    destruct (stepped_live F σ b v v' R' I Hv K a Hne H) as [w Hw].
    destruct (stepped_env F σ b v v' R' I Hv Ho K a w Hne Hw) as (x' & _ & -> & _). done.
  - intros a w Hw. destruct (decide (a = b)) as [->|Hne].
    + rewrite Hvb in Hw. injection Hw as <-. by apply (owns_same R' (cw_sys v')).
    + destruct (Hother a w Hne Hw) as (w0 & x' & Hw0 & He & -> & _). eapply owns_env; [exact He|]. by apply I.
  - intros a a' bd y Hne [w1 H1] [w2 H2]. destruct (decide (a = b)) as [->|N1]; destruct (decide (a' = b)) as [->|N2]; try done.
    + destruct (Hother a' w2 N2 H2) as (_ & _ & _ & _ & _ & Hd). eauto.
    + destruct (Hother a w1 N1 H1) as (_ & _ & _ & _ & _ & Hd). eauto.
    + destruct (Hother a w1 N1 H1) as (u1 & _ & U1 & _), (Hother a' w2 N2 H2) as (u2 & _ & U2 & _).
      apply (fi_apart _ _ I); [done|by rewrite U1|by rewrite U2].
  - eapply ground_put; [by apply view_sys|exact K|apply I|apply Ho].
  - intros a t (t0 & Ht & ->)%stepped_tasks. eapply guarded_put; [by apply view_sys|exact K|]. by apply I.
  - intros a w t Hw (t0 & Ht & ->)%stepped_tasks. cbn [fl_mod stepped]. rewrite map_lost_put.
    destruct (decide (a = b)) as [->|Hne]; [rewrite Hvb in Hw; injection Hw as <-; by apply Hc|].
    destruct (Hother a w Hne Hw) as (w0 & x' & Hw0 & He & -> & _).
    destruct (fi_cow _ _ I a w0 t0 Hw0 Ht) as [?|H]; [by left|right]. destruct w0. by apply (cow_inv_env _ _ _ _ _ He).
Qed.
End put_inv.

(** *** Steps that leave the areas and storages alone *)

Lemma core_lookup s s' t tr :
  tracker_core <$> trackers s' = tracker_core <$> trackers s → trackers s !! t = Some tr →
  ∃ tr', trackers s' !! t = Some tr' ∧ tracker_core tr' = tracker_core tr.
Proof.
  intros E Ht. assert (H : (tracker_core <$> trackers s') !! t = Some (tracker_core tr)).
  { rewrite E, lookup_fmap, Ht. done. }
  rewrite lookup_fmap in H. destruct (trackers s' !! t) as [tr'|]; [|done]. injection H as H1 H2 H3.
  exists tr'. split; [done|]. unfold tracker_core. congruence.
Qed.

Section untouched.
Context (s s' : modst).
Hypothesis U : untouched s s'.

Lemma guarded_untouched a t : guarded s a t → guarded s' a t.
Proof.
  intros (da & st & e & tr & p & m & Ha & He & Hf & Ht & Hs & Hd & Hp & Hm & Hwf).
  destruct U as [Ua Us Ud Ue Uk Ut Um]. destruct (core_lookup s s' t tr Ut Ht) as (tr' & Ht' & [= E1 E2 E3]).
  destruct (Um p m Hm Hwf) as (m' & Hm' & Hwf' & _).
  exists da, st, e, tr', p, m'. rewrite Ua, Ud, Ue. split_and!; try done; congruence.
Qed.
Lemma map_lost_untouched a t : guarded s a t → map_lost s t = true → map_lost s' t = true.
Proof.
  intros (da & st & e & tr & p & m & Ha & He & Hf & Ht & Hs & Hd & Hp & Hm & Hwf). unfold map_lost.
  rewrite Ht. cbn. rewrite Hp. cbn. rewrite Hm. intros Hc.
  destruct U as [Ua Us Ud Ue Uk Ut Um]. destruct (core_lookup s s' t tr Ut Ht) as (tr' & -> & [= E1 E2 E3]).
  destruct (Um p m Hm Hwf) as (m' & Hm' & Hwf' & Hc'). cbn. rewrite E2, Hp. cbn. rewrite Hm'. auto.
Qed.
Lemma ground_untouched : ground s → ground s'.
Proof.
  destruct U as [Ua Us Ud Ue Uk Ut Um]. intros [G1 G2 G3 G4 G5].
  split; rewrite ?Ua, ?Us; try done; rewrite Ud, Ue.
  intros dev e t tr a da st He Hf Ht Hs Ha.
  destruct (core_lookup s' s t tr (eq_sym Ut) Ht) as (tr' & Ht' & [= E1 E2 E3]).
  eapply G5; [exact He|exact Hf|exact Ht'|congruence|congruence].
Qed.
Lemma area_sys_untouched a x :
  area_sys s a = Some x → area_sys s' a = Some {| x with kern := mkern s' |}.
Proof.
  intros (da & st & d & Ha & Hd & ->)%area_sys_inv. unfold area_sys. by rewrite (un_areas _ _ U), (un_storages _ _ U), Ha, Hd.
Qed.
Lemma area_sys_untouched_inv a x :
  area_sys s' a = Some x → ∃ x0, area_sys s a = Some x0 ∧ x = {| x0 with kern := mkern s' |}.
Proof.
  intros (da & st & d & Ha & Hd & ->)%area_sys_inv. rewrite (un_areas _ _ U) in Ha. rewrite (un_storages _ _ U) in Hd.
  unfold area_sys. rewrite Ha, Hd. by eexists.
Qed.
End untouched.

(** The kernel has changed, and so may have the contents of devices, where nobody looks. *)
Lemma env_kern x w :
  storage_wf (storage x) →
  (∀ addr, ¬ excluded x addr → w_disk w (orig_bdev (area x)) addr = w_disk (kern x) (orig_bdev (area x)) addr) →
  (∀ n c r i, at_chunk n c x → chunk_region c = Some r → 0 ≤ i < region_bytes r →
     on_region {| x with kern := w |} r i = on_region x r i) →
  env_ok x {| x with kern := w |}.
Proof. intros Hwf Ho Hr. by split. Qed.

Section steps.
Context {P : ModuleParams}.

(** The module is [s'] afterwards, in which every area is what the rest of the system may
    make of it. *)
Lemma inv_rest F σ s' :
  fleet_inv F σ → areas s' = areas (fl_mod σ) → ground s' →
  (∀ a t, fl_tasks σ !! a = Some t → guarded s' a (ts_filter t)) →
  (∀ a v t, view σ a = Some v → fl_tasks σ !! a = Some t → ∃ x', area_sys s' a = Some x' ∧ owns (F a) x' ∧
     (map_lost (fl_mod σ) (ts_filter t) = true ∨ cow_inv v →
      map_lost s' (ts_filter t) = true ∨ cow_inv {| v with cw_sys := x' |})) →
  fleet_inv F {| σ with fl_mod := s' |}.
Proof.
  intros I Ea G Hg Hx.
  assert (Hback : ∀ a w, view {| σ with fl_mod := s' |} a = Some w → ∃ v x', view σ a = Some v ∧
    area_sys s' a = Some x' ∧ w = {| v with cw_sys := x' |}).
  { intros a w (x & t & Hs & Ht & ->)%view_inv. cbn in Hs, Ht.
    destruct (area_sys_inv _ _ _ Hs) as (da & st & d & H & _). rewrite Ea in H.
    destruct (fi_live _ _ I a) as [v Hv]; [by eauto|]. exists v, x. split_and!; try done.
    destruct (view_inv _ _ _ Hv) as (y & t' & _ & Ht' & ->). rewrite Ht in Ht'. by injection Ht' as <-. }
  split; try done.
  - intros a H. cbn in H. rewrite Ea in H. destruct (fi_live _ _ I a H) as [v Hv].
    destruct (view_inv _ _ _ Hv) as (y & t & _ & Ht & _). destruct (Hx a v t Hv Ht) as (x' & E & _).
    unfold view. cbn. by rewrite E, Ht.
  - intros a w Hw. destruct (Hback a w Hw) as (v & x' & Hv & Hs & ->).
    destruct (view_inv _ _ _ Hv) as (y & t & _ & Ht & _). destruct (Hx a v t Hv Ht) as (x1 & E & Ho & _).
    rewrite Hs in E. by injection E as <-.
  - intros a b bd y Hne [w1 H1] [w2 H2]. destruct (Hback _ _ H1) as (v1 & _ & H3 & _).
    destruct (Hback _ _ H2) as (v2 & _ & H4 & _). apply (fi_apart _ _ I a b); [done|by rewrite H3|by rewrite H4].
  - intros a w t Hw Ht. cbn in Ht. destruct (Hback a w Hw) as (v & x' & Hv & Hs & ->).
    destruct (Hx a v t Hv Ht) as (x1 & E & _ & Hc). rewrite Hs in E. injection E as <-. apply Hc. by eapply fi_cow.
Qed.

Lemma inv_untouched F σ s' : fleet_inv F σ → untouched (fl_mod σ) s' → fleet_inv F {| σ with fl_mod := s' |}.
Proof.
  intros I U. apply inv_rest; [done|apply U|eapply ground_untouched; [exact U|apply I]| |].
  - intros a t Ht. eapply guarded_untouched; [exact U|]. by apply (fi_guard _ _ I).
  - intros a v t Hv Ht. pose proof (fi_owns _ _ I a v Hv) as Ho. destruct (view_inv _ _ _ Hv) as (x & t' & Hs & _ & ->).
    cbn in Ho. eexists. split; [eapply area_sys_untouched; [exact U|exact Hs]|].
    assert (He : env_ok x {| x with kern := mkern s' |}).
    { destruct (area_sys_inv _ _ _ Hs) as (da & st & d & _ & _ & ->). apply env_kern; [apply Ho|..].
      - intros addr _. cbn. by rewrite (un_disk _ _ U).
      - intros n c r i _ _ _. unfold on_region. cbn. by rewrite (un_disk _ _ U). }
    split; [by eapply owns_env|]. intros [Hl|Hc]; [left|right; by eapply cow_inv_env].
    eapply map_lost_untouched; [exact U|by apply (fi_guard _ _ I)|done].
Qed.
End steps.

(** *** Operations that leave the areas and storages alone *)

Definition aloof {A} (m : G A) : Prop := ∀ s, untouched s (m s).2.

Section aloof.
Lemma aloof_ret {A} (a : A) : aloof (mret a).
Proof. intros s. reflexivity. Qed.
Lemma aloof_gets {A} (f : modst → A) : aloof (gets f).
Proof. intros s. reflexivity. Qed.
Lemma aloof_skip : aloof skip.
Proof. intros s. reflexivity. Qed.
Lemma aloof_bind {A B} (m : G A) (f : A → G B) : aloof m → (∀ a, aloof (f a)) → aloof (m ≫= f).
Proof. intros Hm Hf s. unfold mbind, M_mbind. etrans; [apply Hm|apply Hf]. Qed.
Lemma aloof_when b m : aloof m → aloof (when b m).
Proof. destruct b; [done|]. intros _. apply aloof_skip. Qed.
Lemma aloof_kern {A} (m : K A) : same_view w_disk m → aloof (in_kern m).
Proof. intros Hm s. split; try done; [apply Hm|]. intros p mp Hp Hwf. by exists mp. Qed.
Lemma aloof_tracker t f : (∀ tr, tracker_core (f tr) = tracker_core tr) → aloof (mod_tracker t f).
Proof.
  intros Hf s. split; try done.
  - cbn. apply map_eq. intros k. rewrite !lookup_fmap. destruct (decide (k = t)) as [->|Hne].
    + rewrite lookup_alter_eq. destruct (trackers s !! t); [|done]. cbn. by rewrite Hf.
    + by rewrite lookup_alter_ne.
  - intros p mp Hp Hwf. by exists mp.
Qed.
(** The rest of the module's state. *)
Lemma aloof_modify f :
  (∀ s, areas (f s) = areas s ∧ storages (f s) = storages s ∧ devices (f s) = devices s ∧
        bdev_extension_list (f s) = bdev_extension_list s ∧ mkern (f s) = mkern s ∧
        trackers (f s) = trackers s ∧ cbt_maps (f s) = cbt_maps s) → aloof (modify f).
Proof.
  intros Hf s. destruct (Hf s) as (E1 & E2 & E3 & E4 & E5 & E6 & E7). split; cbn; try congruence.
  intros p mp Hp Hwf. exists mp. by rewrite E7.
Qed.
End aloof.

Create HintDb aloof discriminated.
Ltac aloof := repeat first
  [ progress intros
  | solve [auto 2 with aloof nocore]
  | simple apply aloof_bind | simple apply aloof_ret | simple apply aloof_gets
  | simple apply aloof_skip | simple apply aloof_when
  | simple apply aloof_kern; solve [same]
  | simple apply aloof_tracker; done
  | simple apply aloof_modify; done
  | match goal with
    | |- aloof (match ?x with _ => _ end) => destruct x
    | |- aloof (match ?x with _ => _ end _) => destruct x
    end ].

Lemma aloof_broken : aloof broken_pointer.
Proof. unfold broken_pointer. aloof. Qed.
#[export] Hint Resolve aloof_broken : aloof.
Lemma aloof_filter_put o : aloof (bdev_filter_put o).
Proof. unfold bdev_filter_put, bdev_filter_free, tracker_release, get_tracker. aloof. Qed.
Lemma aloof_filter_get o : aloof (bdev_filter_get o).
Proof. unfold bdev_filter_get. aloof. Qed.
#[export] Hint Resolve aloof_filter_put aloof_filter_get : aloof.

(** The requests of user space that only look: they run beside the tasks as steps of the rest
    of the module. *)
Lemma same_blkdev_get d : same_view w_disk (blkdev_get_by_dev d).
Proof. unfold blkdev_get_by_dev. same. Qed.
Lemma same_blkdev_put d : same_view w_disk (blkdev_put d).
Proof. unfold blkdev_put. same. Qed.
Lemma same_cbt_read m offset length : same_view w_disk (cbt_map_read_to_user m offset length).
Proof. unfold cbt_map_read_to_user, copy_user. same. Qed.
#[export] Hint Resolve same_blkdev_get same_blkdev_put same_cbt_read : same.
Lemma aloof_open d : aloof (open_bdev d).
Proof. unfold open_bdev. aloof. Qed.
Lemma aloof_close b : aloof (close_bdev b).
Proof. unfold close_bdev. aloof. Qed.
Lemma aloof_get_by_dev b : aloof (tracker_get_by_dev b).
Proof. unfold tracker_get_by_dev, bdev_filter_get_by_bdev. aloof. Qed.
#[export] Hint Resolve aloof_open aloof_close aloof_get_by_dev : aloof.
Lemma aloof_read_cbt d offset length : aloof (tracker_read_cbt_bitmap d offset length).
Proof. unfold tracker_read_cbt_bitmap, get_tracker, tracker_cbt, tracker_put. aloof. Qed.
Lemma aloof_collect_info d info : aloof (collect_cbt_info d info).
Proof. unfold collect_cbt_info, tracker_cbt, tracker_put. aloof. Qed.
#[export] Hint Resolve aloof_collect_info : aloof.
Lemma aloof_collect_infos l : aloof (collect_infos l).
Proof. induction l; cbn [collect_infos]; aloof. Qed.
#[export] Hint Resolve aloof_collect_infos : aloof.
Lemma aloof_collect max : aloof (tracker_collect max).
Proof. unfold tracker_collect. aloof. Qed.

(** ** Every step keeps the invariant *)

Section invariant.
Context {P : ModuleParams}.

Lemma cow_inv_flags v :
  cow_inv v → cow_inv (let x := cw_sys v in {| v with cw_sys := {| x with oops := false; hung := false |} |}).
Proof.
  destruct v as [x ws ctx img]. cbn. intros [Hx|[C Hw]]; [by left|].
  apply (cow_inv_env x); [|by right]. apply env_flags; [apply C|apply (ck_sys _ _ _ C)].
Qed.

Lemma inv_task F σ a v v' :
  fleet_inv F σ → view σ a = Some v → task_step false v v' → ∃ F', fleet_inv F' (put_view a v v' σ).
Proof.
  intros I Hv Hs. destruct (task_step_confined v v' (F a) Hs) as (R' & Ho & K); [by apply (fi_owns _ _ I)|].
  eexists. unfold put_view. fold (put_tasks a v' (fl_tasks σ)).
  set (s1 := put_area a (cw_sys v') (fl_mod σ)). set (T := put_tasks a v' (fl_tasks σ)).
  assert (I1 : fleet_inv (λ b, if decide (b = a) then R' else F b) {| fl_mod := s1; fl_tasks := T |}).
  { eapply inv_put; [done|exact Hv|done|done|]. intros t Ht. destruct (fi_cow _ _ I a v t Hv Ht) as [?|Hc]; [by left|right].
    apply cow_inv_flags. destruct (corrupt_flag (area (cw_sys v))) eqn:Ex.
    - left. by apply (kt_corrupt _ _ _ _ K).
    - eapply cow_step_inv; [exact Hc|]. by apply task_step_cow. }
  destruct (_ <? _)%nat; [|exact I1].
  apply (inv_untouched _ {| fl_mod := s1; fl_tasks := T |}); [exact I1|]. apply aloof_filter_put.
Qed.

(** User space extends the storage [st]. *)
Section append.
Context (s : modst) (st dev : Z) (ranges : list blk_snap_block_range) (d d' : diff_storage) (w' : world) (ret : Z).
Hypothesis Hd : storages s !! st = Some d.
Hypothesis Hn : new_ranges_ok s st dev ranges.
Hypothesis Hp : append_post d (mkern s) dev ranges ret (d', w').

Definition extended : modst := {| s with storages := <[st := d']> (storages s); mkern := w' |}.

Lemma extended_storages st1 d1 :
  storages extended !! st1 = Some d1 → ∃ d0, storages s !! st1 = Some d0 ∧
    (∀ bd x, covered d1 bd x → covered d0 bd x ∨ st1 = st ∧ Exists (blk_has bd x) (new_block dev <$> ranges)).
Proof.
  cbn. destruct (decide (st1 = st)) as [->|Hne].
  - rewrite lookup_insert_eq. intros [= <-]. exists d. split; [done|]. destruct Hp as (_ & _ & _ & _ & _ & _ & _ & _ & Hc).
    intros bd x Hx. destruct (Hc bd x Hx); auto.
  - rewrite lookup_insert_ne by done. intros H. exists d1. auto.
Qed.
Lemma extended_ground : ground s → ground extended.
Proof.
  intros [G1 G2 G3 G4 G5]. split; try done.
  - intros st1 st2 d1 d2 bd x Hne (e1 & H1 & C1)%extended_storages (e2 & H2 & C2)%extended_storages X1 X2.
    destruct (C1 _ _ X1) as [Y1|[-> Y1]], (C2 _ _ X2) as [Y2|[-> Y2]]; [by eapply (G2 st1 st2)| | |done].
    + by eapply (nr_apart _ _ _ _ Hn st1).
    + by eapply (nr_apart _ _ _ _ Hn st2).
  - intros a da st1 st2 d2 x Ha Hne (e2 & H2 & C2)%extended_storages X2.
    destruct (C2 _ _ X2) as [Y2|[-> (b & (rg & -> & _)%list_elem_of_fmap & [E _])%Exists_exists]]; [by eapply G3|].
    by eapply (nr_clear _ _ _ _ Hn a da st1).
  - intros st1 d1. cbn. destruct (decide (st1 = st)) as [->|Hne]; [|rewrite lookup_insert_ne by done; apply G4].
    rewrite lookup_insert_eq. intros [= <-]. by destruct Hp as (_ & ? & ? & _).
Qed.
Lemma extended_env a x :
  storage_wf (storage x) → area_sys s a = Some x → ∃ x', area_sys extended a = Some x' ∧ env_ok x x'.
Proof.
  intros Hwf (da & sta & e & Ha & He & ->)%area_sys_inv. destruct Hp as (Hk & Hwf' & _ & Hc & Ht & _). cbn in Hk, Hwf', Hc, Ht.
  unfold area_sys. cbn. rewrite Ha. destruct (decide (sta = st)) as [->|Hne].
  - rewrite lookup_insert_eq. rewrite Hd in He. injection He as <-. eexists. split; [done|].
    split; cbn; try done; unfold on_region; cbn; intros; by (apply Ht || rewrite Hk).
  - rewrite lookup_insert_ne by done. rewrite He. eexists. split; [done|].
    split; cbn; try done; unfold on_region; cbn; intros; by rewrite Hk.
Qed.
End append.

Lemma inv_append F σ st dev ranges r s' :
  fleet_inv F σ → new_ranges_ok (fl_mod σ) st dev ranges →
  with_store st (diff_storage_append_block dev ranges) (fl_mod σ) = (r, s') →
  fleet_inv F {| σ with fl_mod := s' |}.
Proof.
  intros I Hn. unfold with_store, mbind, M_mbind, gets. cbn [fst snd].
  destruct (storages (fl_mod σ) !! st) as [d|] eqn:Hd.
  2:{ intros [= _ <-]. apply inv_untouched; [done|]. apply (aloof_broken (fl_mod σ)). }
  destruct (diff_storage_append_block dev ranges (d, mkern (fl_mod σ))) as [ret [d' w']] eqn:E.
  intros [= _ <-]. destruct (gd_wf _ (fi_ground _ _ I) st d Hd) as [Hwf Hbd].
  pose proof (wp_run _ _ _ _ _ (diff_storage_append_block_spec dev ranges d _ Hwf Hbd (nr_ranges _ _ _ _ Hn d Hd)) E) as Hp.
  cbn [fst snd]. apply inv_rest; [done|done|eapply extended_ground; [exact Hd|exact Hn|exact Hp|apply I]|apply I|].
  intros a v t Hv Ht. pose proof (fi_owns _ _ I a v Hv) as Ho. destruct (view_inv _ _ _ Hv) as (x & t' & Hs & _ & ->).
  destruct (extended_env (fl_mod σ) st dev ranges d d' w' ret Hd Hp a x) as (x' & Hx' & He); [apply Ho|done|].
  exists x'. split; [done|]. split; [by eapply owns_env|]. intros [Hl|Hc]; [by left|right]. by eapply cow_inv_env.
Qed.

(** *** The control side *)

(** An area that starts has no regions and no requests. *)
Lemma starts_owns (R : footprint) v :
  cow_init v → (∀ bd x, R bd x → taken (storage (cw_sys v)) bd x) → owns R (cw_sys v).
Proof.
  intros [[Hwf _ Hs] [Hch _ _] _ _ _ _] Ht. split; try done.
  - intros n c r Hc Hr. by rewrite (cf_region _ _ _ (Hch n c Hc)) in Hr.
  - intros n c io Hc Hio. by rewrite (cf_io _ _ _ (Hch n c Hc)) in Hio.
Qed.
Lemma owns_ext (R R' : footprint) s : (∀ bd x, R bd x ↔ R' bd x) → owns R s → owns R' s.
Proof.
  intros E [H1 H2 H3 H4 H5]. split; try done.
  - intros bd x. rewrite <- E. apply H3.
  - intros n c r Hc Hr. destruct (H4 n c r Hc Hr) as [? H]. split; [done|]. intros. by apply E, H.
  - intros n c io Hc Hio. eapply list.Forall_impl; [by apply (H5 n c)|]. intros bi. apply bio_owned_mono. apply E.
Qed.

Lemma left_alone_env σ σ' a :
  left_alone σ σ' a → ∃ x x' t, view σ a = Some (Cow x (ts_writers t) (ts_ctx t) (ts_img t)) ∧
    view σ' a = Some (Cow x' (ts_writers t) (ts_ctx t) (ts_img t)) ∧ fl_tasks σ !! a = Some t ∧ fl_tasks σ' !! a = Some t ∧
    (storage_wf (storage x) → env_ok x x') ∧
    (map_lost (fl_mod σ) (ts_filter t) = true → map_lost (fl_mod σ') (ts_filter t) = true).
Proof.
  intros (x & x' & t & Hx & Hx' & Ht & Ht' & Ea & Es & Ek & Hl). exists x, x', t. unfold view. rewrite Hx, Hx', Ht, Ht'.
  split_and!; try done. intros Hwf. destruct (area_sys_inv _ _ _ Hx) as (da & st & d & _ & _ & ->).
  destruct (area_sys_inv _ _ _ Hx') as (da' & st' & d' & _ & _ & ->). cbn in Ea, Es, Ek. subst.
  split; try done; unfold on_region; cbn; intros; by rewrite Ek.
Qed.

Lemma inv_control F σ σ' : fleet_inv F σ → control σ σ' → ∃ F', fleet_inv F' σ'.
Proof.
  intros I [G Hg Ha]. exists (λ a bd x, left_alone σ σ' a ∧ F a bd x).
  assert (Hlive : ∀ a v, view σ' a = Some v → cow_init v ∨ left_alone σ σ' a).
  { intros a v Hv. destruct (view_inv _ _ _ Hv) as (x & t & Hx & _). destruct (area_sys_inv _ _ _ Hx) as (da & st & d & H & _).
    destruct (Ha a) as [(v0 & Hv0 & Hi)|]; [by eauto|left; congruence|by right]. }
  assert (Hsame : ∀ a, left_alone σ σ' a → ∃ v v', view σ a = Some v ∧ view σ' a = Some v' ∧ owns (F a) (cw_sys v') ∧
    (cow_inv v → cow_inv v') ∧ ∀ t, fl_tasks σ' !! a = Some t → fl_tasks σ !! a = Some t ∧
      (map_lost (fl_mod σ) (ts_filter t) = true → map_lost (fl_mod σ') (ts_filter t) = true)).
  { intros a (x & x' & t & Hv & Hv' & Ht & Ht' & He & Hl)%left_alone_env. pose proof (fi_owns _ _ I a _ Hv) as Ho.
    specialize (He (ow_storage _ _ Ho)). eexists _, _. split; [exact Hv|]. split; [exact Hv'|].
    split; [by eapply owns_env|]. split; [by apply cow_inv_env|]. intros t' Ht''. rewrite Ht' in Ht''. by injection Ht'' as <-. }
  split; try done.
  - intros a H. destruct (Ha a H) as [(v & -> & _)|(v & v' & _ & -> & _)%Hsame]; eauto.
  - intros a v Hv. destruct (Hlive a v Hv) as [Hi|Hl].
    + apply starts_owns; [done|]. intros bd x [Hl HF]. destruct (Hsame a Hl) as (v0 & v1 & _ & Hv1 & Ho & _).
      rewrite Hv in Hv1. injection Hv1 as <-. by apply (ow_taken _ _ Ho).
    + destruct (Hsame a Hl) as (v0 & v1 & _ & Hv1 & Ho & _). rewrite Hv in Hv1. injection Hv1 as <-.
      eapply owns_ext; [|exact Ho]. intros bd x. by split; [|intros [_ ?]].
  - intros a b bd x Hne _ _ [(v1 & _ & H1 & _)%Hsame Fa] [(v2 & _ & H2 & _)%Hsame Fb].
    apply (fi_apart _ _ I a b bd x); [done|by rewrite H1|by rewrite H2|done|done].
  - intros a v t Hv Ht. destruct (Hlive a v Hv) as [Hi|Hl]; [right; by apply cow_init_inv|].
    destruct (Hsame a Hl) as (v0 & v1 & Hv0 & Hv1 & _ & Hc & Hm). rewrite Hv in Hv1. injection Hv1 as <-.
    destruct (Hm t Ht) as [Ht0 Hlost]. destruct (fi_cow _ _ I a v0 t Hv0 Ht0); auto.
Qed.

Lemma fleet_init_inv σ : fleet_init σ → fleet_inv (λ _ _ _, False) σ.
Proof.
  intros [G Hg Ha].
  assert (Hlive : ∀ a v, view σ a = Some v → cow_init v).
  { intros a v Hv. destruct (view_inv _ _ _ Hv) as (x & t & Hx & _). destruct (area_sys_inv _ _ _ Hx) as (da & st & d & H & _).
    destruct (Ha a) as (v0 & Hv0 & Hi); [by eauto|congruence]. }
  split; try done.
  - intros a H. destruct (Ha a H) as (v & -> & _). eauto.
  - intros a v Hv. apply starts_owns; [by eapply Hlive|done].
  - intros a v t Hv _. right. by eapply cow_init_inv, Hlive.
Qed.
End invariant.
