(* ===== verification/FleetSafety.v ===== *)
(** * The filter guards the areas, and the images are frozen

    What becomes of a bio in the filter, that every step keeps the invariant of FleetInv.v,
    the theorems about the module as a whole, and runs of it. *)
From S2P Require Import Prelude MemoryChecker Kernel Uapi EventQueue CbtMap DiffBuffer DiffIo DiffStorage.
From S2P Require Import Effects Chunk DiffArea ChunkSpecs CowInv Cow CowSteps CowImage CowSafety Footprint.
From S2P Require Import State BdevFilter Tracker Snapshot Lifecycle Fleet FleetInv.

Section invariant.
Context {P : ModuleParams}.

(** ** Bios *)

Definition bio_fits (bio : filter_bio) : Prop :=
  b_own bio = false ∧ 0 ≤ bio_sector bio ∧ 0 ≤ b_count bio ∧ bio_sector bio + b_count bio ≤ 2 ^ 64.

(** The filter holds the bio for area [a], whose tracker on the device is [t]. *)
Definition holds_for (s : modst) (bio : filter_bio) (t a : Z) (w : writer) : Prop :=
  0 < b_count bio ∧ ∃ tr da st, trackers s !! t = Some tr ∧ snapshot_is_taken tr = true ∧
    tr_diff_area tr = Some a ∧ areas s !! a = Some (da, st) ∧
    w = {| wr_sector := bio_sector bio; wr_count := b_count bio; wr_nowait := b_nowait bio; wr_data := b_data bio;
           wr_phase := PCopy (round_down (bio_sector bio) (diff_area_chunk_sectors da)); wr_plug := [] |}.
(** It lets a write pass although area [a] is guarded by [t]: the area is lost already. *)
Definition passes_lost (s s' : modst) (t a : Z) : Prop :=
  guarded s a t → map_lost s' t = true ∨ ∃ da st, areas s !! a = Some (da, st) ∧ corrupt_flag da = true.

Definition submit_post (s : modst) (bio : filter_bio) (t : Z) (r : filtered (Z * writer)) (s' : modst) : Prop :=
  untouched s s' ∧
  match r with
  | Held (a, w) => holds_for s bio t a w
  | ToDevice => b_write bio = true → 0 < b_count bio → ∀ a, passes_lost s s' t a
  | _ => False
  end.

Lemma cbt_set_kept bio m err m' :
  bio_fits bio → b_count bio ≠ 0 → cbt_map_set m (bio_sector bio) (b_count bio) = Some (err, m') → cbt_wf m →
  cbt_wf m' ∧ (is_corrupted m = true → is_corrupted m' = true) ∧ (err ≠ 0 → is_corrupted m' = true).
Proof.
  intros (_ & H0 & H1 & H2) Hc E Hwf. destruct (is_corrupted m) eqn:Ec.
  - unfold cbt_map_set in E. rewrite Ec in E. by injection E as <- <-.
  - destruct (cbt_map_set_spec m (bio_sector bio) (b_count bio)) as (m1 & E1 & Hwf1 & _); [done..|lia|done|].
    rewrite E1 in E. injection E as <- <-. split; [done|]. split; [done|]. by destruct (is_corrupted m1).
Qed.

Lemma untouched_set_cbt (s : modst) p m m' :
  cbt_maps s !! p = Some m → (cbt_wf m → cbt_wf m' ∧ (is_corrupted m = true → is_corrupted m' = true)) →
  untouched s {| s with cbt_maps := <[p := m']> (cbt_maps s) |}.
Proof.
  intros Hm Hm'. split; try done. cbn. intros q mq Hq Hwf. destruct (decide (q = p)) as [->|Hne].
  - rewrite Hm in Hq. injection Hq as <-. exists m'. rewrite lookup_insert_eq. by destruct (Hm' Hwf).
  - exists mq. by rewrite lookup_insert_ne.
Qed.

(** A way out of [tracker_submit_bio] with a pointer that points nowhere. *)
Lemma submit_broken (s : modst) bio t :
  (∀ a, guarded s a t → False) → wp (broken_pointer;; mret ToDevice) s (submit_post s bio t).
Proof. intros H. split; [apply (aloof_broken s)|]. intros _ _ a Hg. by destruct (H a). Qed.

Lemma tracker_submit_guards bio t s :
  bio_fits bio → wp (tracker_submit_bio bio t) s (submit_post s bio t).
Proof.
  intros Hb. pose proof Hb as (Hown & H0 & H1 & H2). unfold tracker_submit_bio. rewrite Hown.
  destruct (b_write bio) eqn:Hw; cbn [negb]; [|wp_steps; split; [reflexivity|congruence]].
  destruct (Z.eqb_spec (b_count bio) 0) as [Hz|Hz]; [wp_steps; split; [reflexivity|lia]|].
  wp_step. wp_step. cbn [id]. destruct (trackers s !! t) as [tr|] eqn:Ht.
  2:{ apply submit_broken. intros a (? & ? & ? & ? & ? & ? & ? & ? & ? & Ht' & _). congruence. }
  destruct (tr_cbt_map tr) as [p|] eqn:Hp; cbn [mbind option_bind].
  2:{ apply submit_broken. intros a (? & ? & ? & ? & ? & ? & ? & ? & ? & Ht' & ? & ? & ? & _). congruence. }
  destruct (cbt_maps s !! p) as [m|] eqn:Hm; cbn [fmap option_fmap option_map].
  2:{ apply submit_broken. intros a (? & ? & ? & ? & ? & ? & ? & ? & ? & Ht' & ? & ? & ? & ? & _). congruence. }
  assert (Hg : ∀ a, guarded s a t → ∃ da st, areas s !! a = Some (da, st) ∧ snapshot_is_taken tr = true ∧
    tr_diff_area tr = Some a ∧ cbt_wf m).
  { intros a (da & st & e & tr' & p' & m' & Ha & _ & _ & Ht' & Hs & Hd & Hp' & Hm' & Hwf). rewrite Ht in Ht'.
    injection Ht' as <-. exists da, st. split_and!; try done. congruence. }
  destruct (cbt_map_set m _ _) as [[err m']|] eqn:Es.
  2:{ apply submit_broken. intros a (da & st & _ & _ & _ & Hwf)%Hg. destruct (is_corrupted m) eqn:Ec.
      - unfold cbt_map_set in Es. by rewrite Ec in Es.
      - destruct (cbt_map_set_spec m (bio_sector bio) (b_count bio)) as (m1 & E1 & _); [done..|lia|done|congruence]. }
  wp_step. wp_step. set (s1 := {| s with cbt_maps := <[p := m']> (cbt_maps s) |}).
  assert (U : untouched s s1).
  { eapply untouched_set_cbt; [exact Hm|]. intros Hwf. by destruct (cbt_set_kept bio m err m' Hb Hz Es Hwf) as (? & ? & _). }
  destruct (Z.eqb_spec err 0) as [He|He]; cbn [negb orb].
  2:{ wp_steps. split; [done|]. intros _ _ a (da & st & _ & _ & _ & Hwf)%Hg. left. unfold map_lost, s1. cbn.
      rewrite Ht. cbn. rewrite Hp. cbn. rewrite lookup_insert_eq.
      by apply (cbt_set_kept bio m err m' Hb Hz Es Hwf). }
  destruct (snapshot_is_taken tr) eqn:Htk; cbn [negb].
  2:{ wp_steps. split; [done|]. intros _ _ a (da & st & _ & Hs & _)%Hg. done. }
  assert (Hbr : (∀ a, guarded s a t → False) → wp (broken_pointer;; mret ToDevice) s1 (submit_post s bio t)).
  { intros H. split; [etrans; [exact U|apply (aloof_broken s1)]|]. intros _ _ a Hga. by destruct (H a). }
  destruct (tr_diff_area tr) as [a|] eqn:Ed; cbn [mbind option_bind].
  2:{ apply Hbr. by intros a (? & ? & _ & _ & ? & _)%Hg. }
  destruct (areas s !! a) as [[da st]|] eqn:Ea; cbn [fmap option_fmap option_map].
  2:{ apply Hbr. intros b (? & ? & Hb' & _ & [= ->] & _)%Hg. congruence. }
  unfold diff_area_is_corrupted. destruct (corrupt_flag da) eqn:Ecf; wp_steps; (split; [done|]).
  - intros _ _ b (? & ? & Hb' & _ & [= ->] & _)%Hg. right. by exists da, st.
  - split; [lia|]. exists tr, da, st. by split_and!.
Qed.

Definition filter_on (s : modst) (dev t : Z) : Prop :=
  ∃ e, bdev_extension_find_bdev (dev_ptr (devices s dev)) (bdev_extension_list s) = Some e ∧ bd_filter e = Some t.

Definition handler_post (s : modst) (bio : filter_bio) (dev : Z) (r : filtered (Z * writer)) (s' : modst) : Prop :=
  untouched s s' ∧
  match r with
  | Held (a, w) => ∃ t, filter_on s dev t ∧ holds_for s bio t a w
  | ToDevice => b_write bio = true → 0 < b_count bio → ∀ t a, filter_on s dev t → passes_lost s s' t a
  | _ => True
  end.

(** What the tracker does after the reference to it was taken is what it would have done
    before, and giving the reference back changes nothing of it. *)
Lemma submit_post_within s s1 s2 s3 bio t r :
  untouched s s1 → submit_post s1 bio t r s2 → untouched s2 s3 →
  match r with Held _ => s3 = s2 | _ => True end → submit_post s bio t r s3.
Proof.
  intros U1 [U2 H] U3 E. split; [by rewrite U1, U2|]. destruct r as [| | |[a w]]; try done.
  - intros Hw Hc a Hg. pose proof (guarded_untouched _ _ U1 _ _ Hg) as Hg1.
    destruct (H Hw Hc a Hg1) as [Hl|(da & st & Ha & Hx)]; [left|right; exists da, st; by rewrite <- (un_areas _ _ U1)].
    eapply map_lost_untouched; [exact U3|by eapply guarded_untouched|done].
  - destruct H as (Hc & tr & da & st & Ht & Hs & Hd & Ha & ->). split; [done|].
    destruct (core_lookup s1 s t tr (eq_sym (un_trackers _ _ U1)) Ht) as (tr' & Ht' & [= E1 E2 E3]).
    exists tr', da, st. rewrite <- (un_areas _ _ U1). split_and!; try done; congruence.
Qed.

Lemma handler_guards bio dev s :
  bio_fits bio → w_bio_list (mkern s) = None →
  wp (submit_bio_noacct_handler (tracker_submit_bio bio) (bdev_of s dev) (b_nowait bio)) s (handler_post s bio dev).
Proof.
  intros Hb Hl. unfold submit_bio_noacct_handler. wp_step. wp_step. rewrite Hl.
  unfold bdev_filters_apply, bdev_filter_get_by_bdev. cbn [bdev_of bd_ptr]. wp_steps.
  destruct (bdev_extension_find_bdev _ _) as [e|] eqn:He; wp_steps.
  2:{ split; [reflexivity|]. intros _ _ t a (e & He' & _). congruence. }
  destruct (bd_filter e) as [t|] eqn:Hf; wp_steps.
  2:{ split; [reflexivity|]. intros _ _ t a (e' & He' & Hf'). congruence. }
  assert (Hfo : ∀ t', filter_on s dev t' → t' = t) by (intros t' (e' & He' & Hf'); congruence).
  apply wp_eq. intros [] s1 E1. pose proof (aloof_filter_get t s) as U1. rewrite E1 in U1. cbn in U1. wp_step.
  wp_step. apply wp_eq. intros o s1' E. apply pair_eq in E as [E <-]. rewrite <- E. clear E o.
  destruct (trackers s1 !! t) as [tr|] eqn:Ht; wp_steps.
  2:{ split; [etrans; [exact U1|apply (aloof_broken s1)]|]. intros _ _ t' a ->%Hfo Hg.
      destruct (guarded_untouched _ _ U1 _ _ Hg) as (? & ? & ? & ? & ? & ? & ? & ? & ? & Ht' & _). congruence. }
  destruct (submit_lock tr).
  { destruct (b_nowait bio); [|by wp_steps]. wp_step. apply wp_eq. intros [] s2 E2. wp_steps. split; [|done].
    pose proof (aloof_filter_put (Some t) s1) as U2. rewrite E2 in U2. by etrans. }
  wp_step. eapply wp_mono; [by apply tracker_submit_guards|]. intros r s2 H2.
  assert (Hend : ∀ s3, untouched s2 s3 → match r with Held _ => s3 = s2 | _ => True end → handler_post s bio dev r s3).
  { intros s3 U3 E3. destruct (submit_post_within s s1 s2 s3 bio t r U1 H2 U3 E3) as [U H]. split; [done|].
    destruct r as [| | |[a w]]; try done; [|exists t; split; [by exists e|done]].
    intros Hw Hc t' a ->%Hfo. by apply H. }
  destruct r as [| | |[a w]]; [| | |wp_steps; by apply Hend];
    (wp_step; apply wp_eq; intros [] s3 E3; wp_steps; apply Hend; [|done];
     pose proof (aloof_filter_put (Some t) s2) as U3; by rewrite E3 in U3).
Qed.

Lemma put_area_id s a x : area_sys s a = Some x → put_area a x s = s.
Proof.
  intros (da & st & d & Ha & Hd & ->)%area_sys_inv. rewrite (put_area_lookup a _ s st) by eauto. cbn.
  rewrite !insert_id, !orb_false_r by done. by destruct s.
Qed.

(** The bio becomes a task of area [a]. *)
Lemma inv_held F σ bio t a w :
  fleet_inv F σ → bio_fits bio → holds_for (fl_mod σ) bio t a w →
  ∃ F', fleet_inv F' {| σ with fl_tasks := alter (λ t, {| t with ts_writers := ts_writers t ++ [w] |}) a (fl_tasks σ) |}.
Proof.
  intros I (_ & H0 & _ & _) (Hc & tr & da & st & Ht & Hs & Hd & Ha & Ew).
  destruct (fi_live _ _ I a) as [v Hv]; [by eauto|]. destruct (view_inv _ _ _ Hv) as (x & tk & Hx & Htk & Ev).
  set (v' := {| v with cw_writers := cw_writers v ++ [w] |}).
  assert (K : keeps_to (F a) (F a) (cw_sys v) (cw_sys v')) by apply grows_keeps_to, grows_refl.
  eexists. cut (fleet_inv (λ b, if decide (b = a) then F a else F b)
    {| fl_mod := put_area a (cw_sys v') (fl_mod σ); fl_tasks := put_tasks a v' (fl_tasks σ) |}).
  - unfold v'. cbn [cw_sys]. rewrite put_area_id by (by rewrite Ev). unfold put_tasks.
    assert (Ea : alter (λ t, {| t with ts_writers := ts_writers t ++ [w] |}) a (fl_tasks σ) =
      alter (λ t, {| t with ts_writers := cw_writers v'; ts_ctx := cw_ctx v'; ts_img := cw_img v' |}) a (fl_tasks σ)).
    { apply map_eq. intros b. destruct (decide (b = a)) as [->|Hne]; [|by rewrite !lookup_alter_ne].
      rewrite !lookup_alter_eq, Htk. cbn. by rewrite Ev. }
    rewrite Ea. intros H. exact H.
  - eapply inv_put; [done|exact Hv|by apply (fi_owns _ _ I a v)|exact K|]. intros t' Ht'.
    destruct (fi_cow _ _ I a v t' Hv Ht') as [?|Hi]; [by left|right]. apply cow_inv_flags.
    eapply cow_step_inv; [exact Hi|]. apply step_submit; rewrite Ew; cbn; try done.
    rewrite Ev. cbn. destruct (area_sys_inv _ _ _ Hx) as (da' & st' & d & Ha' & _ & ->). cbn. congruence.
Qed.

Lemma inv_passes F σ bio dev :
  fleet_inv F σ →
  (∀ st d addr, storages (fl_mod σ) !! st = Some d →
     bio_sector bio * SECTOR_SIZE ≤ addr < (bio_sector bio + b_count bio) * SECTOR_SIZE →
     ¬ covered d dev (addr / SECTOR_SIZE)) →
  (0 < b_count bio → ∀ a t da st, fl_tasks σ !! a = Some t → areas (fl_mod σ) !! a = Some (da, st) → orig_bdev da = dev →
     map_lost (fl_mod σ) (ts_filter t) = true ∨ corrupt_flag da = true) →
  fleet_inv F {| σ with fl_mod := disk_written dev bio (fl_mod σ) |}.
Proof.
  intros I Hst Hlost. apply inv_rest; [done|done|by destruct (fi_ground _ _ I); split|apply I|].
  intros a v t Hv Ht. pose proof (fi_owns _ _ I a v Hv) as Ho. destruct (view_inv _ _ _ Hv) as (x & t' & Hx & _ & ->).
  destruct (area_sys_inv _ _ _ Hx) as (da & st & d & Ha & Hd & ->). cbn in Ho.
  set (x' := {| area := da; storage := d; kern := mkern (disk_written dev bio (fl_mod σ)); oops := false; hung := false |}).
  exists x'. split; [unfold area_sys, x'; cbn; by rewrite Ha, Hd|]. split; [by apply (owns_same (F a) _ x') in Ho|].
  intros Hor. change (map_lost (disk_written dev bio (fl_mod σ))) with (map_lost (fl_mod σ)).
  destruct (decide (0 < b_count bio ∧ orig_bdev da = dev)) as [[Hc E]|Hn].
  { destruct (Hlost Hc a t da st Ht Ha E); [by left|right]. by left. }
  destruct Hor as [?|Hi]; [by left|right]. eapply cow_inv_env; [|exact Hi].
  apply (env_kern {| area := da; storage := d; kern := mkern (fl_mod σ); oops := false; hung := false |});
    [apply Ho|..]; cbn.
  - intros addr _. apply disk_write_out. destruct (decide (orig_bdev da = dev)); [right|by left]. unfold SECTOR_SIZE. lia.
  - intros n c r i Hc Hr Hi'. unfold on_region. cbn. apply disk_write_out.
    destruct (decide (dr_bdev r = dev)) as [<-|]; [right|by left].
    destruct (decide (bio_sector bio * SECTOR_SIZE ≤ region_base r + i <
      (bio_sector bio + b_count bio) * SECTOR_SIZE)) as [Hin|Hout]; [|unfold SECTOR_SIZE in *; lia].
    exfalso. apply (Hst st d _ Hd Hin). apply taken_covered; [apply Ho|]. apply (ow_taken _ _ Ho).
    apply (ow_region _ _ Ho n c r Hc Hr). split; [done|]. by apply region_byte.
Qed.

Lemma inv_submit F σ dev bio r s' :
  fleet_inv F σ → bio_fits bio → handler_post (fl_mod σ) bio dev r s' →
  (r = ToDevice → b_write bio = true → ∀ st d addr, storages (fl_mod σ) !! st = Some d →
     bio_sector bio * SECTOR_SIZE ≤ addr < (bio_sector bio + b_count bio) * SECTOR_SIZE →
     ¬ covered d dev (addr / SECTOR_SIZE)) →
  ∃ F', fleet_inv F' (put_bio dev bio r s' σ).
Proof.
  intros I Hb [U H] Hst. pose proof (inv_untouched _ _ _ I U) as I1.
  destruct r as [| | |[a w]]; cbn [put_bio]; [|by exists F..|].
  - exists F. destruct (b_write bio) eqn:Hw; [|exact I1].
    apply (inv_passes F {| σ with fl_mod := s' |} bio dev I1); cbn.
    + rewrite (un_storages _ _ U). by apply Hst.
    + intros Hc a t da st Ht Ha <-. rewrite (un_areas _ _ U) in Ha. pose proof (fi_guard _ _ I a t Ht) as Hg.
      pose proof Hg as (da' & st' & e & tr & p & m & Ha' & He & Hf & _). rewrite Ha in Ha'. injection Ha' as <- <-.
      destruct (H eq_refl Hc (ts_filter t) a) as [?|(da' & st' & Ha' & Hx)]; [by exists e|done|by left|right].
      rewrite Ha in Ha'. by injection Ha' as <- <-.
  - destruct H as (t & _ & Hh). destruct Hh as (Hc & tr & da & st & Ht & Hs & Hd & Ha & Ew).
    destruct (core_lookup _ s' t tr (un_trackers _ _ U) Ht) as (tr' & Ht' & [= E1 E2 E3]).
    apply (inv_held F {| σ with fl_mod := s' |} bio t a w I1 Hb). split; [done|]. exists tr', da, st. cbn.
    rewrite (un_areas _ _ U). split_and!; try done; congruence.
Qed.

(** ** Every step keeps the invariant *)

Lemma fleet_step_inv F σ σ' : fleet_inv F σ → fleet_step σ σ' → ∃ F', fleet_inv F' σ'.
Proof.
  intros I Hs. destruct Hs as [σ a v v' Hv Hs|σ dev bio r s' H1 H2 H3 H4 Hl E _ Hst|σ st dev ranges r s' Hn E|σ s' U|σ σ' C].
  - by eapply inv_task.
  - eapply inv_submit; [done|by split|exact (wp_run _ _ _ _ _ (handler_guards bio dev _ (conj H1 (conj H2 (conj H3 H4))) Hl) E)|done].
  - eexists. by eapply inv_append.
  - eexists. by eapply inv_untouched.
  - by eapply inv_control.
Qed.

Lemma fleet_reach_inv σ0 σ : fleet_init σ0 → rtc fleet_step σ0 σ → ∃ F, fleet_inv F σ.
Proof.
  intros H0%fleet_init_inv H. revert H0. generalize (λ _ _ _ : Z, False) as F.
  induction H as [σ|σ σ1 σ2 Hs _ IH]; intros F I; [by exists F|].
  destruct (fleet_step_inv F σ σ1 I Hs) as [F1 I1]. by apply (IH F1).
Qed.
End invariant.

(** ** Properties *)

Section properties.
Context {P : ModuleParams}.


(** C6: no area touches what another has saved. In every state reached as above, no sector of
    the difference storages is in the regions of chunks of two areas, and no bio that an area
    has in flight writes into a region of another area; corrupted areas are no exception. *)
Theorem fleet_areas_apart σ0 σ a b va vb n n' c c' r' :
  fleet_init σ0 → rtc fleet_step σ0 σ → a ≠ b → view σ a = Some va → view σ b = Some vb →
  at_chunk n c (cw_sys va) → at_chunk n' c' (cw_sys vb) → chunk_region c' = Some r' →
  (∀ r bd x, chunk_region c = Some r → region_has r bd x → ¬ region_has r' bd x) ∧
  (∀ io bi addr, chunk_io c = Some io → bi ∈ io_bios io → bi_write bi = true →
     bi_sector bi * SECTOR_SIZE ≤ addr < bi_sector bi * SECTOR_SIZE + vec_bytes (bi_io_vec bi) →
     ¬ region_has r' (bi_bdev bi) (addr / SECTOR_SIZE)).
Proof.
  intros H0 Hr Hne Ha Hb Hc Hc' Hr'. destruct (fleet_reach_inv _ _ H0 Hr) as [F I].
  pose proof (fi_owns _ _ I a va Ha) as Oa. pose proof (fi_owns _ _ I b vb Hb) as Ob.
  destruct (ow_region _ _ Ob n' c' r' Hc' Hr') as [_ HB].
  assert (Hap : ∀ bd x, F a bd x → ¬ region_has r' bd x).
  { intros bd x HA H%HB. apply (fi_apart _ _ I a b bd x); [done|by rewrite Ha|by rewrite Hb|done|done]. }
  split.
  - intros r bd x Hrg Hx. apply Hap. by apply (ow_region _ _ Oa n c r).
  - intros io bi addr Hio Hbi Hw Haddr. apply Hap.
    destruct (proj1 (Forall_forall _ _) (ow_io _ _ Oa n c io Hc Hio) bi Hbi Hw) as [_ H]. by apply H.
Qed.

(** C7: the filter lets no write to a snapshotted device past the area. In every state
    reached as above, a write bio that the handler of [submit_bio_noacct] does not let through
    at once is held for the area of the very device it was sent to; if it is let through,
    every area of the device has been marked corrupted, or the device's change tracking map
    has. *)
Theorem fleet_filter_guards σ0 σ dev bio r s' :
  fleet_init σ0 → rtc fleet_step σ0 σ → bio_fits bio → b_write bio = true → 0 < b_count bio →
  w_bio_list (mkern (fl_mod σ)) = None →
  submit_bio_noacct_handler (tracker_submit_bio bio) (bdev_of (fl_mod σ) dev) (b_nowait bio) (fl_mod σ) = (r, s') →
  match r with
  | Held (a, w) => ∃ v, view σ a = Some v ∧ orig_bdev (area (cw_sys v)) = dev ∧
      wr_sector w = bio_sector bio ∧ wr_count w = b_count bio ∧
      wr_phase w = PCopy (round_down (bio_sector bio) (sectors (cw_sys v)))
  | ToDevice => ∀ a v t, view σ a = Some v → fl_tasks σ !! a = Some t → orig_bdev (area (cw_sys v)) = dev →
      map_lost s' (ts_filter t) = true ∨ corrupt_flag (area (cw_sys v)) = true
  | _ => True
  end.
Proof.
  intros H0 Hr Hb Hw Hc Hl E. destruct (fleet_reach_inv _ _ H0 Hr) as [F I].
  destruct (wp_run _ _ _ _ _ (handler_guards bio dev _ Hb Hl) E) as [U H]. destruct r as [| | |[a w]]; try done.
  - intros a v t Hv Ht <-. pose proof (fi_guard _ _ I a t Ht) as Hg.
    destruct (view_inv _ _ _ Hv) as (x & t' & Hx & _ & ->). destruct (area_sys_inv _ _ _ Hx) as (da & st & d & Ha & _ & ->).
    pose proof Hg as (da' & st' & e & tr & p & m & Ha' & He & Hf & _). cbn in *. rewrite Ha in Ha'. injection Ha' as <- <-.
    destruct (H Hw Hc (ts_filter t) a) as [?|(da' & st' & Ha' & Hx')]; [by exists e|done|by left|right].
    rewrite Ha in Ha'. by injection Ha' as <- <-.
  - destruct H as (t & (e & He & Hf) & _ & tr & da & st & Ht & Hs & Hd & Ha & ->).
    destruct (fi_live _ _ I a) as [v Hv]; [by eauto|]. exists v. split; [done|].
    destruct (view_inv _ _ _ Hv) as (x & t' & Hx & _ & ->). destruct (area_sys_inv _ _ _ Hx) as (da' & st' & d & Ha' & _ & ->).
    rewrite Ha in Ha'. injection Ha' as <- <-. cbn. split_and!; try done. by eapply (gd_filter _ (fi_ground _ _ I) dev e t tr a).
Qed.
End properties.
