(* ===== verification/FleetTake.v ===== *)
(** * Taking a snapshot is a step of the fleet

    [snapshot_take] of Snapshot.v, from a state of Fleet.v to the next: the areas it makes
    start, their devices are guarded by their trackers, and the areas of other snapshots are
    left alone. *)
From S2P Require Import Prelude MemoryChecker Kernel Uapi EventQueue CbtMap DiffBuffer DiffIo DiffStorage.
From S2P Require Import Effects Chunk DiffArea ChunkSpecs CowInv Cow CowSteps CowImage CowSafety Footprint AreaNew.
From S2P Require Import State BdevFilter SnapImage Tracker Snapshot SnapshotSpecs SnapshotTake.
From S2P Require Import Fleet FleetInv FleetSafety.

#[local] Existing Instance default_params.

(** ** What taking a snapshot leaves alone *)

Definition grounds (s : modst) := (devices s, bdev_extension_list s, storages s, w_disk (mkern s)).
(** The pointers and areas too. *)
Definition layout (s : modst) := (grounds s, areas s, next_ptr s).

Lemma same_kern {A} (m : K A) : same_view w_disk m → same_view layout (in_kern m).
Proof. intros H s. unfold layout, grounds, in_kern, zoom. cbn. by rewrite H. Qed.
Lemma same_layout_tracker t f : same_view layout (mod_tracker t f).
Proof. by intros s. Qed.
Lemma same_layout_snapshot p f : same_view layout (mod_snapshot p f).
Proof. by intros s. Qed.
#[local] Hint Resolve same_kern same_layout_tracker same_layout_snapshot : same.

Lemma same_cbt_reset m c : same_view w_disk (cbt_map_reset m c).
Proof. unfold cbt_map_reset, cbt_map_deallocate, cbt_map_allocate, vzalloc. same. Qed.
Lemma same_cbt_switch m : same_view w_disk (cbt_map_switch m).
Proof. unfold cbt_map_switch. same. Qed.
#[local] Hint Resolve same_cbt_reset same_cbt_switch : same.
Lemma same_take t : same_view layout (tracker_take_snapshot t).
Proof.
  unfold tracker_take_snapshot, bdevfilter_freeze_queue, bdevfilter_unfreeze_queue, get_tracker, tracker_cbt, set_cbt,
    broken_pointer. same.
Qed.
#[local] Hint Resolve same_take : same.
Lemma same_take_trackers dn l : same_view layout (take_trackers dn l).
Proof.
  revert dn. induction l as [|[t|] l IH]; intros dn; cbn [take_trackers]; unfold freeze_bdev, thaw_bdev, broken_pointer; same.
Qed.

(** ** The areas *)

(** A device for which an area can be made. *)
Record device_fits (d : device) : Prop := {
  df_limits : new_limits (dev_sectors d) (dev_io_min d);
  df_chunks : dev_sectors d ≤ chunk_maximum_count * 2 ^ 18;
  df_io : dev_io_min d ≤ 2 ^ 27;
}.

(** The area of a device on which nothing has happened yet. *)
Record area_starts (dev : Z) (da : diff_area) : Prop := {
  as_fresh : area_fresh da;
  as_dev : orig_bdev da = dev;
  as_pool : pool_wf (diff_area_chunk_sectors da) (pool da);
  as_shift : 9 ≤ chunk_shift da ≤ 27;
}.

Lemma area_new_starts dev d w x :
  device_fits d →
  wp (diff_area_new dev (dev_sectors d) (dev_io_min d)) (x, w) (λ r p,
    p.1 = x ∧ w_disk p.2 = w_disk w ∧
    match r with Some (Ok da) => area_starts dev da | Some (Err e) => e < 0 | None => True end).
Proof.
  intros [Hl Hc Hi]. eapply wp_mono; [by apply diff_area_new_spec|]. intros r [x' w'] (E1 & E2 & H). split_and!; [done..|].
  destruct r as [[da|e]|]; [|apply H|done]. destruct H as (Hf & _ & Hb & _ & Hp & count & Hcs). split; [done|done| |].
  - rewrite Hp. split; [done|constructor].
  - pose proof (chunk_size_small _ _ _ _ Hl ltac:(done) Hc Hi Hcs).
    destruct (chunk_size_found _ _ Hl) as (s & n & Hcs' & Hs & _). rewrite Hcs in Hcs'. injection Hcs' as E3 E4. lia.
Qed.

(** Pointers that have not been given out. *)
Definition fresh_ptrs (s : modst) : Prop := ∀ a, next_ptr s ≤ a → areas s !! a = None.

(** Every tracker of [l] has an area of its own, with the storage [st]; nothing else has
    changed. *)
Record areas_added (st : Z) (l : list (option Z)) (s s' : modst) : Prop := {
  aa_grounds : grounds s' = grounds s;
  aa_maps : cbt_maps s' = cbt_maps s;
  aa_frozen : fs_frozen s' = fs_frozen s;
  aa_snaps : snaps s' = snaps s;
  aa_other t : Some t ∉ l → trackers s' !! t = trackers s !! t;
  aa_own t tr : Some t ∈ l → trackers s !! t = Some tr → ∃ a da,
    trackers s' !! t = Some {| tr with tr_diff_area := Some a |} ∧ next_ptr s ≤ a ∧
    areas s' !! a = Some (da, st) ∧ area_starts (tr_dev_id tr) da;
  aa_old a : a < next_ptr s → areas s' !! a = areas s !! a;
  aa_new a x : next_ptr s ≤ a → areas s' !! a = Some x → ∃ t tr,
    Some t ∈ l ∧ trackers s' !! t = Some tr ∧ tr_diff_area tr = Some a;
  aa_fresh : fresh_ptrs s';
  aa_next : next_ptr s ≤ next_ptr s';
}.

Definition area_made (st t : Z) (da : diff_area) (s s1 : modst) : Prop :=
  grounds s1 = grounds s ∧ cbt_maps s1 = cbt_maps s ∧ fs_frozen s1 = fs_frozen s ∧ snaps s1 = snaps s ∧
  trackers s1 = alter (λ tr, {| tr with tr_diff_area := Some (next_ptr s) |}) t (trackers s) ∧
  areas s1 = <[next_ptr s := (da, st)]> (areas s) ∧ next_ptr s1 = next_ptr s + 1.

Lemma area_made_fresh st t da s s1 : area_made st t da s s1 → fresh_ptrs s → fresh_ptrs s1.
Proof.
  intros (_ & _ & _ & _ & _ & Ea & En) Hf a Ha. rewrite En in Ha. rewrite Ea, lookup_insert_ne by lia. apply Hf. lia.
Qed.

Lemma areas_added_cons st t tr da l s s1 s' :
  trackers s !! t = Some tr → Some t ∉ l → fresh_ptrs s → area_starts (tr_dev_id tr) da →
  area_made st t da s s1 → areas_added st l s1 s' → areas_added st (Some t :: l) s s'.
Proof.
  intros Ht Hn Hf Hda (Eg & Em & Efr & Esn & Et & Ea & En) [Hg Hm Hfr Hsn Ho Hw Hold Hnew Hfs Hnx].
  assert (Etr : trackers s1 !! t = Some {| tr with tr_diff_area := Some (next_ptr s) |}) by (by rewrite Et, lookup_alter_eq, Ht).
  split; try assumption; try congruence; try lia.
  - intros u [Hu Hl]%not_elem_of_cons. rewrite Ho by done. rewrite Et. apply lookup_alter_ne. congruence.
  - intros u tu Hu Htu. apply elem_of_cons in Hu as [[= ->]|Hu].
    + replace tu with tr by congruence. exists (next_ptr s), da. split_and!; try done.
      * by rewrite Ho.
      * rewrite Hold by lia. rewrite Ea. apply lookup_insert_eq.
    + destruct (decide (u = t)) as [->|Hne]; [done|].
      destruct (Hw u tu Hu) as (a & da' & H1 & H2 & H3 & H4); [by rewrite Et, lookup_alter_ne|].
      exists a, da'. split_and!; try done. lia.
  - intros a Ha. rewrite Hold by lia. rewrite Ea. apply lookup_insert_ne. lia.
  - intros a x Ha Hx. destruct (decide (a = next_ptr s)) as [->|Hne].
    + exists t, {| tr with tr_diff_area := Some (next_ptr s) |}. split_and!; [apply elem_of_cons; by left|by rewrite Ho|done].
    + destruct (Hnew a x) as (u & tu & H1 & H2 & H3); [lia|done|]. exists u, tu. split_and!; try done.
      apply elem_of_cons. by right.
Qed.

(** The loop over the trackers. *)
Lemma new_areas_spec st l s :
  fresh_ptrs s → NoDup (omap id l) → is_Some (storages s !! st) →
  (∀ t, Some t ∈ l → ∃ tr, trackers s !! t = Some tr ∧ device_fits (devices s (tr_dev_id tr))) →
  wp (new_areas st l) s (λ r s', r = Some 0 → areas_added st l s s').
Proof.
  revert s. induction l as [|[t|] l IH]; intros s Hf Hnd [d Hd] Htr; cbn [new_areas].
  - wp_steps. intros _. split; try done; [|intros a x Ha Hx; by rewrite Hf in Hx].
    intros t tr Hin. by apply elem_of_nil in Hin.
  - destruct (Htr t) as (tr & Ht & Hfit); [apply elem_of_cons; by left|]. cbn in Hnd. apply NoDup_cons in Hnd as [Hn Hnd].
    wp_step. wp_step. rewrite Ht. wp_step. unfold with_store. wp_step. wp_step. rewrite Hd.
    pose proof (area_new_starts (tr_dev_id tr) _ (mkern s) d Hfit) as H. unfold wp in H.
    destruct (diff_area_new _ _ _ _) as [r [d' w']]. cbn [fst snd] in H. destruct H as (E1 & E2 & H). subst d'. wp_steps.
    cbn [fst snd]. destruct r as [[da|e]|]; wp_steps; try done.
    2:{ intros [= ->]. lia. }
    unfold new_ptr, mod_tracker. wp_run_steps. match goal with |- wp _ ?x _ => set (s1 := x) end.
    assert (Hmade : area_made st t da s s1).
    { unfold area_made, grounds. cbn. rewrite E2, insert_id by done. split_and!; done. }
    clearbody s1. pose proof Hmade as (Eg & _ & _ & _ & Et & _). injection Eg as Ed _ Es _.
    assert (Hl : Some t ∉ l) by (intros Hin; apply Hn, list_elem_of_omap; by exists (Some t)).
    eapply wp_mono; [apply IH; [by eapply area_made_fresh|done|by rewrite Es, Hd|]|].
    + intros u Hu. destruct (Htr u) as (tu & Hu1 & Hu2); [apply elem_of_cons; by right|]. exists tu.
      rewrite Et, Ed, lookup_alter_ne by (intros ->; done). done.
    + intros r s' Hr Hz. eapply areas_added_cons; eauto.
  - eapply wp_mono; [apply IH; [done..|by rewrite Hd|]|].
    + intros u Hu. apply Htr, elem_of_cons. by right.
    + intros r s' Hr Hz. destruct (Hr Hz) as [Hg Hm Hfr Hsn Ho Hw Hold Hnew Hfs Hnx]. split; try done.
      * intros u Hu. apply Ho. intros Hu'. apply Hu, elem_of_cons. by right.
      * intros u tu Hu. apply Hw. by apply elem_of_cons in Hu as [?|?].
      * intros a x Ha Hx. destruct (Hnew a x Ha Hx) as (u & tu & H1 & H2). exists u, tu. split; [|done].
        apply elem_of_cons. by right.
Qed.

(** ** The maps *)

(** The maps of the trackers of [l] are in order, the others are as they were. *)
Definition not_of (s : modst) (l : list (option Z)) (q : Z) : Prop :=
  ∀ t tr, Some t ∈ l → trackers s !! t = Some tr → tr_cbt_map tr ≠ Some q.
Record maps_taken (s : modst) (l : list (option Z)) (s' : modst) : Prop := {
  mt_own t tr : Some t ∈ l → trackers s !! t = Some tr → map_in_order s' tr;
  mt_other q : not_of s l q → cbt_maps s' !! q = cbt_maps s !! q;
}.

Lemma all_ready_tail s o l : all_ready s (o :: l) → all_ready s l.
Proof.
  intros [H1 H2 H3]. split.
  - intros t Ht. apply H1, elem_of_cons. by right.
  - destruct o; [|done]. by apply NoDup_cons in H2 as [_ H2].
  - intros t1 t2 tr1 tr2 Ht1 Ht2. apply H3; apply elem_of_cons; by right.
Qed.

Lemma maps_taken_cons s s1 t tr l s' :
  all_ready s (Some t :: l) → trackers s !! t = Some tr →
  (∀ u, u ≠ t → trackers s1 !! u = trackers s !! u) → map_in_order s1 tr →
  (∀ q, Some q ≠ tr_cbt_map tr → cbt_maps s1 !! q = cbt_maps s !! q) →
  maps_taken s1 l s' → maps_taken s (Some t :: l) s'.
Proof.
  intros [_ Hn Hm] Ht Et (p & m & Hp & Hpm & Hwf) Em [Hown Hoth]. cbn in Hn. apply NoDup_cons in Hn as [Hn _].
  assert (Hne : ∀ u, Some u ∈ l → u ≠ t).
  { intros u Hu ->. apply Hn, list_elem_of_omap. by exists (Some t). }
  split.
  - intros u tu Hu Htu. apply elem_of_cons in Hu as [[= ->]|Hu].
    + replace tu with tr by congruence. exists p, m. split_and!; [done| |done]. rewrite Hoth; [done|].
      intros v tv Hv Htv. rewrite Et in Htv by by apply Hne. rewrite <- Hp.
      apply (Hm v t); [apply elem_of_cons; by right|apply elem_of_cons; by left|by apply Hne|done..].
    + apply (Hown u); [done|]. by rewrite Et by by apply Hne.
  - intros q Hq. rewrite Hoth, Em; [done| |].
    + intros E. eapply (Hq t tr); [apply elem_of_cons; by left|done..].
    + intros v tv Hv Htv. rewrite Et in Htv by by apply Hne. apply (Hq v); [apply elem_of_cons; by right|done].
Qed.

Lemma take_trackers_maps l dn s :
  all_ready s l → wp (take_trackers dn l) s (λ '(_, ret) s', ret = 0 → maps_taken s l s').
Proof.
  revert dn s. induction l as [|[t|] l IH]; intros dn s Hr; cbn [take_trackers].
  { wp_steps. intros _. split; [|done]. intros t tr Hin. by apply elem_of_nil in Hin. }
  2:{ eapply wp_mono; [apply IH; by eapply all_ready_tail|]. intros [dn' ret] s' H Hz. destruct (H Hz) as [H1 H2]. split.
      - intros t tr Hin. apply H1. by apply elem_of_cons in Hin as [?|?].
      - intros q Hq. apply H2. intros t tr Hin. apply Hq, elem_of_cons. by right. }
  destruct (ar_take _ _ Hr t) as [tr Hc]; [apply elem_of_cons; by left|].
  destruct (tracker_orig_spec _ _ _ Hc) as [d Hd]. wp_step. wp_step. rewrite Hd. wp_step.
  eapply wp_mono; [apply freeze_bdev_spec|]. intros err s1 [Hcalm _]. wp_step.
  pose proof (all_ready_calm _ _ _ Hcalm Hr) as Hr1. destruct Hcalm as [Et1 Ea1 Ed1 Em1 Eb1].
  assert (Hc1 : can_take s1 t tr) by (eapply can_take_ext; [..|exact Hc]; intros; congruence).
  eapply wp_mono; [by apply tracker_take_full|]. intros ret s2 [[Et2 Ea2 Ed2 Ef2 Eb2 Em2] Hmap].
  destruct (Z.eqb_spec ret 0) as [->|Hne]; cbn [negb]; [|wp_steps; congruence].
  wp_step. apply wp_mono with (P := λ _ s3, calm s2 s3).
  { destruct (err =? 0); cbn [when]; [|by wp_steps]. wp_step. eapply wp_mono; [apply thaw_bdev_spec|].
    intros r s3 [Hc3 _]. by wp_steps. }
  intros [] s3 [Et3 Ea3 Ed3 Em3 Eb3]. eapply wp_mono; [apply IH|].
  - eapply all_ready_next; [exact Hr1|apply Hc1|..]; try congruence. intros q Hq. rewrite Em3. by apply Em2.
  - intros [dn' ret] s' H Hz. eapply (maps_taken_cons s s3 t tr); [done|apply Hc| | | |by apply H].
    + intros u Hu. rewrite Et3, Et2, lookup_alter_ne by done. by rewrite Et1.
    + destruct (Hmap eq_refl) as (p & m & H1 & H2 & H3). exists p, m. by rewrite Em3.
    + intros q Hq. rewrite Em3, Em2 by done. by rewrite Em1.
Qed.

(** ** The images *)

Definition area_no_kref (x : diff_area * Z) : diff_area * Z := let da := x.1 in ({| da with area_kref := 0 |}, x.2).
Definition cbt_no_kref (m : cbt_map) : cbt_map := {| m with kref := 0 |}.
(** Everything but reference counts and images. *)
Definition but_krefs (s : modst) :=
  (grounds s, trackers s, area_no_kref <$> areas s, cbt_no_kref <$> cbt_maps s, snap_kref <$> snapshot_objs s).

Lemma same_krefs_kern {A} (m : K A) : same_view w_disk m → same_view but_krefs (in_kern m).
Proof. intros H s. unfold but_krefs, grounds, in_kern, zoom. cbn. by rewrite H. Qed.
Lemma same_krefs_area a : same_view but_krefs (area_get a).
Proof.
  intros s. unfold but_krefs, grounds, area_get, modify. cbn. do 2 f_equal. f_equal. apply map_eq. intros k.
  rewrite !lookup_fmap. destruct (decide (k = a)) as [->|Hk]; [|by rewrite lookup_alter_ne].
  rewrite lookup_alter_eq. by destruct (areas s !! a) as [[da st]|].
Qed.
Lemma same_krefs_cbt c : same_view but_krefs (cbt_get c).
Proof.
  intros s. unfold but_krefs, grounds, cbt_get, modify. cbn. do 2 f_equal. apply map_eq. intros k.
  rewrite !lookup_fmap. destruct (decide (k = c)) as [->|Hk]; [|by rewrite lookup_alter_ne].
  rewrite lookup_alter_eq. by destruct (cbt_maps s !! c).
Qed.
Lemma same_krefs_snapshot p f : (∀ x, snap_kref (f x) = snap_kref x) → same_view but_krefs (mod_snapshot p f).
Proof.
  intros Hf s. unfold but_krefs, grounds, mod_snapshot, modify. cbn. f_equal. apply map_eq. intros k.
  rewrite !lookup_fmap. destruct (decide (k = p)) as [->|Hk]; [|by rewrite lookup_alter_ne].
  rewrite lookup_alter_eq. destruct (snapshot_objs s !! p); [|done]. cbn. by rewrite Hf.
Qed.
Lemma same_krefs_image a c : same_view but_krefs (snapimage_create a c).
Proof.
  pose proof @same_krefs_kern as H. unfold snapimage_create, new_ptr, broken_pointer. same; apply same_krefs_area || apply same_krefs_cbt.
Qed.
Lemma new_images_krefs p inx l : same_view but_krefs (new_images p inx l).
Proof.
  revert inx. induction l as [|t l IH]; intros inx; cbn [new_images]; unfold broken_pointer; same.
  - apply same_krefs_image.
  - by apply same_krefs_snapshot.
Qed.

(** An area that no tracker of [l] has. *)
Definition no_area_of (s : modst) (l : list (option Z)) (a : Z) : Prop :=
  ∀ t tr, Some t ∈ l → trackers s !! t = Some tr → tr_diff_area tr ≠ Some a.

Lemma image_areas a c b : b ≠ a → same_view (λ s, areas s !! b) (snapimage_create a c).
Proof.
  intros Hb. assert (Hk : ∀ A (m : K A), same_view (λ s, areas s !! b) (in_kern m)) by by intros A m s.
  assert (Ha : same_view (λ s, areas s !! b) (area_get a)) by (intros s; by apply lookup_alter_ne).
  assert (Hc : same_view (λ s, areas s !! b) (cbt_get c)) by by intros s.
  unfold snapimage_create, new_ptr, broken_pointer. same.
Qed.
Lemma new_images_areas p inx l s b :
  no_area_of s l b → wp (new_images p inx l) s (λ _ s', areas s' !! b = areas s !! b).
Proof.
  revert inx s. induction l as [|o l IH]; intros inx s Hb; cbn [new_images]; [by wp_steps|]. wp_step. wp_step.
  destruct o as [t|]; cbn [mbind option_bind]; [|by wp_steps].
  destruct (trackers s !! t) as [tr|] eqn:Ht; cbn [mbind option_bind]; [|by wp_steps].
  destruct (tr_diff_area tr) as [a|] eqn:Ea; cbn [mbind option_bind]; [|by wp_steps].
  destruct (tr_cbt_map tr) as [c|]; cbn [mbind option_bind]; [|by wp_steps].
  assert (Hne : b ≠ a) by (intros ->; eapply (Hb t tr); [apply elem_of_cons; by left|done..]).
  wp_step. apply wp_eq. intros r s1 E. pose proof (image_areas a c b Hne s) as H1. pose proof (same_krefs_image a c s) as H2.
  rewrite E in H1, H2. cbn [snd] in H1, H2. destruct r as [i|e]; [|by wp_steps]. unfold mod_snapshot. wp_step. wp_step.
  eapply wp_mono; [apply IH|].
  - intros u tu Hu Htu. apply (Hb u); [apply elem_of_cons; by right|]. cbn in Htu. injection H2 as _ _ _ _ H2 _ _ _. congruence.
  - intros r s' ->. exact H1.
Qed.

(** ** Taking *)

(** What a snapshot needs to be taken beside the others: its storage is there; its trackers
    have their filters on their devices, open queues and maps of their own that are in order;
    the devices have sizes for which an area can be made, are in no other snapshot, and carry
    no storage of another one. *)
Record joinable (s : modst) (x : snapshot) (l : list (option Z)) : Prop := {
  jn_storage : is_Some (storages s !! snap_storage x);
  jn_kref : 1 ≤ snap_kref x;
  jn_fresh : fresh_ptrs s;
  jn_ptrs t tr a : trackers s !! t = Some tr → tr_diff_area tr = Some a → a < next_ptr s;
  jn_frozen d : 0 ≤ fs_frozen s d;
  jn_nodup : NoDup (omap id l);
  jn_tracker t : Some t ∈ l → ∃ tr, trackers s !! t = Some tr ∧ submit_lock tr = false ∧
    snapshot_is_taken tr = false ∧ map_in_order s tr ∧ device_fits (devices s (tr_dev_id tr));
  jn_maps t u tr tu : Some t ∈ l → t ≠ u → trackers s !! t = Some tr → trackers s !! u = Some tu →
    tr_cbt_map tr ≠ tr_cbt_map tu;
  jn_filter t tr : Some t ∈ l → trackers s !! t = Some tr → ∃ e,
    bdev_extension_find_bdev (dev_ptr (devices s (tr_dev_id tr))) (bdev_extension_list s) = Some e ∧ bd_filter e = Some t;
  jn_only t tr dev e : Some t ∈ l → trackers s !! t = Some tr →
    bdev_extension_find_bdev (dev_ptr (devices s dev)) (bdev_extension_list s) = Some e → bd_filter e = Some t →
    dev = tr_dev_id tr;
  jn_clear t tr st d y : Some t ∈ l → trackers s !! t = Some tr → st ≠ snap_storage x → storages s !! st = Some d →
    ¬ covered d (tr_dev_id tr) y;
}.

(** What a successful [snapshot_take] has done. *)
Record taken_all (st : Z) (l : list (option Z)) (s s' : modst) : Prop := {
  ta_grounds : grounds s' = grounds s;
  ta_other t : Some t ∉ l → trackers s' !! t = trackers s !! t;
  ta_own t tr : Some t ∈ l → trackers s !! t = Some tr → ∃ a da,
    trackers s' !! t = Some {| tr with snapshot_is_taken := true; tr_diff_area := Some a |} ∧ next_ptr s ≤ a ∧
    areas s' !! a = Some (da, st) ∧ area_starts (tr_dev_id tr) da ∧ map_in_order s' tr;
  ta_old a : a < next_ptr s → areas s' !! a = areas s !! a;
  ta_new a x : next_ptr s ≤ a → areas s' !! a = Some x → ∃ t tr,
    Some t ∈ l ∧ trackers s' !! t = Some tr ∧ tr_diff_area tr = Some a;
  ta_maps q m : cbt_maps s !! q = Some m → not_of s l q → ∃ m',
    cbt_maps s' !! q = Some m' ∧ (cbt_wf m → cbt_wf m') ∧ is_corrupted m' = is_corrupted m;
}.

Lemma no_kref_wf m m' : cbt_no_kref m' = cbt_no_kref m → (cbt_wf m → cbt_wf m') ∧ is_corrupted m' = is_corrupted m.
Proof.
  intros E. destruct m, m'. unfold cbt_no_kref in E. cbn in E. injection E as -> -> -> -> -> -> -> -> ->. split; [|done].
  intros []. by split.
Qed.
Lemma no_kref_starts dev da da' st st' :
  area_no_kref (da', st') = area_no_kref (da, st) → area_starts dev da → area_starts dev da' ∧ st' = st.
Proof.
  unfold area_no_kref. cbn. destruct da, da'. cbn. intros [= ]. subst. intros [[Hch ? ?] ? ? ?].
  split; [|done]. split; try done. split; try done. intros n c Hc. by destruct (Hch n c Hc).
Qed.

Lemma wp_any {A B} (m : G A) (f : A → G B) s Q : (∀ a s', wp (f a) s' Q) → wp (m ≫= f) s Q.
Proof. intros H. apply wp_bind, wp_eq. intros a s' _. apply H. Qed.

(** The trackers with their areas can be taken. *)
Lemma joinable_ready s x l s1 :
  joinable s x l → areas_added (snap_storage x) l s s1 → all_ready s1 l.
Proof.
  intros J A. assert (Eg := aa_grounds _ _ _ _ A). injection Eg as Ed _ _ _. split.
  - intros t Ht. destruct (jn_tracker _ _ _ J t Ht) as (tr & Htr & Hl & Hk & (p & m & Hp & Hm & Hwf) & Hfit).
    destruct (aa_own _ _ _ _ A t tr Ht Htr) as (a & da & H1 & _ & H2 & Hs). eexists. split; [exact H1|done|done| |].
    + exists p, m. by rewrite (aa_maps _ _ _ _ A).
    + exists a, da, (snap_storage x). split_and!; try done; rewrite Ed, (as_dev _ _ Hs);
        destruct (df_limits _ Hfit) as [[] _ _ _]; lia.
  - apply J.
  - intros t1 t2 tr1 tr2 H1 H2 Hne. destruct (jn_tracker _ _ _ J t1 H1) as (u1 & Hu1 & _).
    destruct (jn_tracker _ _ _ J t2 H2) as (u2 & Hu2 & _).
    destruct (aa_own _ _ _ _ A t1 u1 H1 Hu1) as (a1 & da1 & -> & _). destruct (aa_own _ _ _ _ A t2 u2 H2 Hu2) as (a2 & da2 & -> & _).
    intros [= <-] [= <-]. cbn. by apply (jn_maps _ _ _ J t1 t2).
Qed.

Lemma joinable_ext s s1 x l :
  grounds s1 = grounds s → trackers s1 = trackers s → areas s1 = areas s → cbt_maps s1 = cbt_maps s →
  next_ptr s1 = next_ptr s → fs_frozen s1 = fs_frozen s → joinable s x l → joinable s1 x l.
Proof.
  intros Eg Et Ea Em En Ef [Hst Hk Hf Hp Hfr Hnd Ht Hm Hfl Ho Hc]. injection Eg as Ed Ee Es _.
  split; unfold fresh_ptrs, map_in_order; rewrite ?Et, ?Ea, ?Em, ?En, ?Ed, ?Ee, ?Es, ?Ef; try done.
Qed.

Lemma get_by_id_state id s p s1 :
  snapshot_get_by_id id s = (Some p, s1) →
  s1 = {| s with snapshot_objs := alter (λ x, {| x with snap_kref := snap_kref x + 1 |}) p (snapshot_objs s) |}.
Proof.
  unfold snapshot_get_by_id, mbind, M_mbind, gets. cbn. destruct (list_empty _); [done|].
  destruct (snapshot_find _ _); cbn; [|done..]. by intros [= -> <-].
Qed.

(** The four parts of [snapshot_take] together. *)
Section parts.
Context (st : Z) (l : list (option Z)) (s s2 s3 s4 : modst).
Hypothesis Hareas : areas_added st l s s2.
Hypothesis Htrackers : trackers s3 = marks true l (trackers s2).
Hypothesis Hmaps : maps_taken s2 l s3.
Hypothesis Hlayout : layout s3 = layout s2.
Hypothesis Hkrefs : but_krefs s4 = but_krefs s3.
Hypothesis Holds : ∀ b, no_area_of s3 l b → areas s4 !! b = areas s3 !! b.
Hypothesis Hall : ∀ t, Some t ∈ l → is_Some (trackers s !! t).

Lemma parts_grounds : grounds s4 = grounds s ∧ trackers s4 = trackers s3 ∧ areas s3 = areas s2.
Proof.
  apply (f_equal (λ v, v.1.1.1.1)) in Hkrefs as E1. apply (f_equal (λ v, v.1.1.1.2)) in Hkrefs as E2.
  apply (f_equal (λ v, v.1.1)) in Hlayout as E3. apply (f_equal (λ v, v.1.2)) in Hlayout as E4. cbn in E1, E2, E3, E4.
  split_and!; [|done..]. rewrite E1, E3. by apply aa_grounds in Hareas.
Qed.
Lemma parts_own t tr : Some t ∈ l → trackers s !! t = Some tr → ∃ a da,
  trackers s2 !! t = Some {| tr with tr_diff_area := Some a |} ∧
  trackers s3 !! t = Some {| tr with snapshot_is_taken := true; tr_diff_area := Some a |} ∧ next_ptr s ≤ a ∧
  areas s2 !! a = Some (da, st) ∧ area_starts (tr_dev_id tr) da.
Proof.
  intros Ht Htr. destruct (aa_own _ _ _ _ Hareas t tr Ht Htr) as (a & da & H1 & H2 & H3 & H4). exists a, da.
  split_and!; try done. by rewrite Htrackers, marks_lookup, bool_decide_eq_true_2, H1.
Qed.
Lemma parts_map tr : map_in_order s3 tr → map_in_order s4 tr.
Proof.
  intros (p & m & Hp & Hm & Hwf). apply (f_equal (λ v, v.1.2 !! p)) in Hkrefs as E. cbn in E.
  rewrite !lookup_fmap, Hm in E. destruct (cbt_maps s4 !! p) as [m'|] eqn:Em; [|done]. apply (inj Some) in E.
  exists p, m'. split_and!; [done..|]. by apply (no_kref_wf m).
Qed.
Lemma parts_owner a : next_ptr s ≤ a → is_Some (areas s2 !! a) → ∃ t tr,
  Some t ∈ l ∧ trackers s4 !! t = Some tr ∧ tr_diff_area tr = Some a.
Proof.
  intros Ha [x Hx]. destruct (aa_new _ _ _ _ Hareas a x Ha Hx) as (t & tr & Ht & Htr & Ea).
  destruct (Hall t Ht) as [tr0 Htr0]. destruct (parts_own t tr0 Ht Htr0) as (a0 & da & H2 & H3 & _).
  destruct parts_grounds as (_ & -> & _). exists t. rewrite H3. eexists. split_and!; [done..|]. cbn. rewrite Htr in H2.
  injection H2 as ->. done.
Qed.

Lemma parts_taken : taken_all st l s s4.
Proof.
  destruct parts_grounds as (Eg & Et & Ea3).
  apply (f_equal (λ v, v.1.1.2)) in Hkrefs as Ek. apply (f_equal (λ v, v.1.2)) in Hkrefs as Em. cbn in Ek, Em. split.
  - exact Eg.
  - intros t Ht. rewrite Et, Htrackers, marks_lookup, bool_decide_eq_false_2 by done. by apply (aa_other _ _ _ _ Hareas).
  - intros t tr Ht Htr. destruct (parts_own t tr Ht Htr) as (a & da & H2 & H3 & H4 & H5 & H6).
    apply (f_equal (lookup a)) in Ek. rewrite !lookup_fmap, Ea3, H5 in Ek.
    destruct (areas s4 !! a) as [[da' st']|] eqn:Ea4; [|done]. apply (inj Some) in Ek.
    destruct (no_kref_starts (tr_dev_id tr) da da' st st' Ek) as [Hs ->]; [done|].
    exists a, da'. split_and!; [by rewrite Et|done..|]. apply parts_map. exact (mt_own _ _ _ Hmaps t _ Ht H2).
  - intros a Ha. rewrite Holds, Ea3; [by apply (aa_old _ _ _ _ Hareas)|]. intros t tr Ht Htr.
    destruct (Hall t Ht) as [tr0 Htr0]. destruct (parts_own t tr0 Ht Htr0) as (a0 & da & _ & H3 & H4 & _).
    rewrite Htr in H3. injection H3 as ->. cbn. intros [= ->]. lia.
  - intros a x Ha Hx. apply parts_owner; [done|]. apply (f_equal (lookup a)) in Ek. rewrite !lookup_fmap, Ea3, Hx in Ek.
    by destruct (areas s2 !! a).
  - intros q m Hq Hn. assert (E3 : cbt_maps s3 !! q = Some m).
    { rewrite (mt_other _ _ _ Hmaps q), (aa_maps _ _ _ _ Hareas); [done|]. intros t tr2 Ht Htr2.
      destruct (Hall t Ht) as [tr0 Htr0]. destruct (parts_own t tr0 Ht Htr0) as (a0 & da & H2 & _).
      rewrite Htr2 in H2. injection H2 as ->. cbn. exact (Hn t tr0 Ht Htr0). }
    apply (f_equal (lookup q)) in Em. rewrite !lookup_fmap, E3 in Em.
    destruct (cbt_maps s4 !! q) as [m'|]; [|done]. apply (inj Some) in Em. exists m'. split; [done|]. by apply no_kref_wf.
Qed.
End parts.

Lemma same_snaps dn l s : snaps (take_trackers dn l s).2 = snaps s.
Proof.
  assert (H : aside (take_trackers dn l)); [|exact (H s)]. revert dn. clear s.
  induction l as [|[t|] l IH]; intros dn; cbn [take_trackers]; aside.
Qed.

(** Every tracker taken, and what that has changed. *)
Lemma trackers_taken p x s :
  all_ready s (used x (tracker_array x)) → (∀ d, 0 ≤ fs_frozen s d) →
  wp (snapshot_take_trackers p x) s (λ ret s', ret = 0 →
    trackers s' = marks true (used x (tracker_array x)) (trackers s) ∧
    maps_taken s (used x (tracker_array x)) s' ∧ layout s' = layout s ∧
    snap_kref <$> snapshot_objs s' = snap_kref <$> snapshot_objs s).
Proof.
  intros Hr Hf. unfold snapshot_take_trackers. wp_step.
  pose proof (take_trackers_spec _ [] s Hr Hf) as H1. pose proof (take_trackers_maps _ [] s Hr) as H2.
  pose proof (same_take_trackers [] (used x (tracker_array x)) s) as H3.
  pose proof (same_snaps [] (used x (tracker_array x)) s) as H4.
  apply wp_eq. intros [dn ret] s1 E. unfold wp in H1, H2. rewrite E in H1, H2, H3, H4. cbn [fst snd] in H1, H2, H3, H4.
  destruct (Z.eqb_spec ret 0) as [->|Hne]; [|apply wp_any; intros; wp_steps; done].
  pose proof (same_krefs_snapshot p (λ x, {| x with is_taken := true |}) ltac:(done) s1) as H5.
  unfold mod_snapshot in *. wp_steps. intros _. destruct H1 as (l1 & l2 & El & _ & _ & _ & H1).
  destruct l2 as [|[t|] l2]; [|by destruct H1 as [? _]|done]. rewrite app_nil_r in El.
  split_and!; [cbn; by rewrite El; apply H1|destruct (H2 eq_refl) as [? ?]; by split|exact H3|].
  apply (f_equal (λ v, v.2)) in H5. cbn in H5. etrans; [exact H5|]. by injection H4 as _ ->.
Qed.

(** A last reference to the snapshot is not given back. *)
Lemma put_keeps p s s' :
  snap_kref <$> (snapshot_objs s !! p) = Some s' → 2 ≤ s' →
  wp (snapshot_put (Some p)) s (λ _ s1, ∃ o, s1 = {| s with snapshot_objs := o |}).
Proof.
  destruct (snapshot_objs s !! p) as [x|] eqn:Hx; [|done]. intros [= <-] Hk.
  eapply wp_mono; [by eapply snapshot_put_spec|]. rewrite (proj2 (Z.eqb_neq _ _)) by lia. intros [] s1 ->. eauto.
Qed.

Lemma taken_all_ext st l s s' o o' :
  taken_all st l {| s with snapshot_objs := o |} s' → taken_all st l s {| s' with snapshot_objs := o' |}.
Proof. intros [H1 H2 H3 H4 H5 H6]. by split. Qed.

Lemma snapshot_take_spec id s p x :
  (snapshot_get_by_id id s).1 = Some p → snapshot_objs s !! p = Some x → joinable s x (used x (tracker_array x)) →
  wp (snapshot_take id) s (λ r s', r = Some 0 → taken_all (snap_storage x) (used x (tracker_array x)) s s').
Proof.
  intros Hid Hx J. unfold snapshot_take. wp_step. apply wp_eq. intros r s1 E. rewrite E in Hid. cbn in Hid. subst r.
  apply get_by_id_state in E. set (l := used x (tracker_array x)) in *.
  assert (∃ x1, snapshot_objs s1 !! p = Some x1 ∧ snap_storage x1 = snap_storage x ∧ used x1 (tracker_array x1) = l ∧
    snap_kref x1 = snap_kref x + 1) as (x1 & Ex1 & Est & El & Ek).
  { eexists. split_and!; [by rewrite E; cbn; rewrite lookup_alter_eq, Hx|done..]. }
  assert (J1 : joinable s1 x l) by (by apply (joinable_ext s); subst s1).
  assert (Hend : ∀ s', taken_all (snap_storage x) l s1 s' → ∀ o,
    taken_all (snap_storage x) l s {| s' with snapshot_objs := o |}).
  { intros s' H o. rewrite E in H. by eapply taken_all_ext. }
  clearbody l. clear E. unfold get_snapshot. wp_step. wp_step. rewrite Ex1.
  destruct (is_taken x1); [apply wp_any; intros; wp_steps; done|].
  destruct (snap_count x1 =? 0); [apply wp_any; intros; wp_steps; done|]. rewrite Est.
  wp_step. rewrite El. eapply wp_mono; [apply new_areas_spec; [apply J1|apply J1|apply J1|]|].
  { intros t Ht. destruct (jn_tracker _ _ _ J1 t Ht) as (tr & ? & _ & _ & _ & ?). by exists tr. }
  intros [ret|] s2 Ha; [|by wp_steps].
  destruct (Z.eqb_spec ret 0) as [->|Hne]; cbn [negb].
  2:{ do 3 (apply wp_any; intros ? ?). wp_steps. congruence. }
  specialize (Ha eq_refl). rewrite <- El in Ha, J1 |- *. wp_step.
  eapply wp_mono; [apply trackers_taken; [by eapply joinable_ready|]|].
  { intros d. rewrite (aa_frozen _ _ _ _ Ha). apply J1. }
  intros ret s3 H. destruct (Z.eqb_spec ret 0) as [->|Hne]; cbn [negb].
  2:{ do 3 (apply wp_any; intros ? ?). wp_steps. congruence. }
  destruct (H eq_refl) as (Ht & Hm & Hl & Hk). clear H. wp_step. wp_step. rewrite El in *.
  assert (Hall : ∀ t, Some t ∈ l → is_Some (trackers s1 !! t)).
  { intros t Hin. destruct (jn_tracker _ _ _ J1 t Hin) as (tr & -> & _). done. }
  destruct (any_corrupted s3 l) as [[|]|].
  - do 3 (apply wp_any; intros ? ?). wp_steps. done.
  - wp_step. apply wp_eq. intros ret s4 E4.
    pose proof (new_images_krefs p 0 l s3) as H4. rewrite E4 in H4. cbn [snd] in H4. wp_step.
    eapply wp_mono; [eapply (put_keeps p s4 (snap_kref x + 1))|].
    + apply (f_equal (λ v, v.2 !! p)) in H4. cbn in H4. rewrite !lookup_fmap in H4. rewrite H4, <- lookup_fmap, Hk.
      rewrite lookup_fmap. assert (Es := aa_snaps _ _ _ _ Ha). injection Es as _ ->. by rewrite Ex1, <- Ek.
    + pose proof (jn_kref _ _ _ J). lia.
    + intros [] s5 [o ->]. wp_steps. intros _. apply Hend. eapply parts_taken; try done.
      intros b Hb. pose proof (new_images_areas p 0 l s3 b Hb) as Hn. unfold wp in Hn. by rewrite E4 in Hn.
  - unfold broken_pointer. wp_steps. intros _.
    match goal with |- taken_all _ _ _ ?s' => replace s' with (let s3 := s' in {| s3 with snapshot_objs := snapshot_objs s' |}) by by destruct s3 end.
    apply (Hend _). eapply parts_taken; try done.
Qed.

(** ** The step of the fleet *)

(** The tracker of [l] that has the area [a]. *)
Definition owner (s : modst) (l : list (option Z)) (a : Z) : option Z :=
  find (λ t, bool_decide ((tr ← trackers s !! t; tr_diff_area tr) = Some a)) (omap id l).
(** The module after the snapshot has been taken: no task is at work on the new areas. *)
Definition joined (σ : fleet) (l : list (option Z)) (s : modst) : fleet :=
  {| fl_mod := s;
     fl_tasks := map_imap (λ a _, match owner s l a with
                                  | Some t => Some (start_tasks s t a)
                                  | None => fl_tasks σ !! a
                                  end) (areas s) |}.

Lemma owner_Some s l a t : owner s l a = Some t →
  Some t ∈ l ∧ ∃ tr, trackers s !! t = Some tr ∧ tr_diff_area tr = Some a.
Proof.
  unfold owner. intros [Hin H]%find_some. apply bool_decide_eq_true in H. apply list_elem_of_In, list_elem_of_omap in Hin
    as (o & Ho & E). cbn in E. subst o. split; [done|]. destruct (trackers s !! t) as [tr|]; [|done]. by exists tr.
Qed.
Lemma owner_None s l a t tr : owner s l a = None → Some t ∈ l → trackers s !! t = Some tr → tr_diff_area tr ≠ Some a.
Proof.
  unfold owner. intros H Ht Htr Ea. assert (Hin : In t (omap id l)) by (apply list_elem_of_In, list_elem_of_omap; by exists (Some t)).
  pose proof (find_none _ _ H t Hin) as Hf. cbn in Hf. rewrite Htr in Hf. cbn in Hf. by apply bool_decide_eq_false in Hf.
Qed.

Section join.
Context (F : Z → footprint) (σ : fleet) (x : snapshot) (l : list (option Z)) (s' : modst).
Hypothesis I : fleet_inv F σ.
Hypothesis J : joinable (fl_mod σ) x l.
Hypothesis T : taken_all (snap_storage x) l (fl_mod σ) s'.
#[local] Notation s := (fl_mod σ).

Lemma join_ground_eq : devices s' = devices s ∧ bdev_extension_list s' = bdev_extension_list s ∧
  storages s' = storages s ∧ w_disk (mkern s') = w_disk (mkern s).
Proof. pose proof (ta_grounds _ _ _ _ T) as E. by injection E. Qed.

(** A new area, with its tracker. *)
Lemma join_new a t tr : Some t ∈ l → trackers s' !! t = Some tr → tr_diff_area tr = Some a → ∃ da,
  next_ptr s ≤ a ∧ areas s' !! a = Some (da, snap_storage x) ∧ area_starts (tr_dev_id tr) da ∧
  snapshot_is_taken tr = true ∧ map_in_order s' tr ∧ ∃ tr0, trackers s !! t = Some tr0 ∧ tr_dev_id tr0 = tr_dev_id tr.
Proof.
  intros Ht Htr Ea. destruct (jn_tracker _ _ _ J t Ht) as (tr0 & Htr0 & _).
  destruct (ta_own _ _ _ _ T t tr0 Ht Htr0) as (a0 & da & H1 & H2 & H3 & H4 & H5). rewrite Htr in H1. injection H1 as ->.
  cbn in Ea. injection Ea as ->. exists da. split_and!; try done. by exists tr0.
Qed.

Lemma join_area a da st : areas s' !! a = Some (da, st) →
  (areas s !! a = Some (da, st) ∧ a < next_ptr s) ∨
  (∃ t tr, Some t ∈ l ∧ trackers s' !! t = Some tr ∧ tr_diff_area tr = Some a ∧ area_starts (tr_dev_id tr) da ∧
    st = snap_storage x ∧ next_ptr s ≤ a).
Proof.
  intros Ha. destruct (Z.lt_ge_cases a (next_ptr s)) as [Hlt|Hge].
  - left. split; [|done]. by rewrite <- (ta_old _ _ _ _ T a Hlt).
  - right. destruct (ta_new _ _ _ _ T a _ Hge Ha) as (t & tr & Ht & Htr & Ea). exists t, tr.
    destruct (join_new a t tr Ht Htr Ea) as (da0 & H1 & H2 & H3 & _). rewrite Ha in H2. by injection H2 as -> ->.
Qed.

(** An area of the fleet is on no device of the snapshot. *)
Lemma join_elsewhere a da st t tr : areas s !! a = Some (da, st) → Some t ∈ l → trackers s !! t = Some tr →
  orig_bdev da ≠ tr_dev_id tr.
Proof.
  intros Ha Ht Htr E. destruct (fi_live _ _ I a) as [v Hv]; [by rewrite Ha|].
  destruct (view_inv _ _ _ Hv) as (y & tk & _ & Htk & _).
  destruct (fi_guard _ _ I a tk Htk) as (da' & st' & e & u & p & m & Ha' & He & Hf & Hu & Hk & _).
  rewrite Ha in Ha'. injection Ha' as <- <-. rewrite E in He.
  destruct (jn_filter _ _ _ J t tr Ht Htr) as (e' & He' & Hf'). rewrite He in He'. injection He' as <-.
  rewrite Hf in Hf'. injection Hf' as E'. rewrite E' in Hu. destruct (jn_tracker _ _ _ J t Ht) as (tr0 & H0 & _ & Hn & _).
  rewrite Hu in H0. injection H0 as ->. congruence.
Qed.

Lemma join_ground : ground s'.
Proof.
  pose proof (fi_ground _ _ I) as [G1 G2 G3 G4 G5]. destruct join_ground_eq as (Ed & Ee & Es & _). split.
  - intros a b da db st st' Hne Ha Hb.
    destruct (join_area a da st Ha) as [[Ha0 _]|(t & tr & Ht & Htr & Ea & Hsa & _)],
             (join_area b db st' Hb) as [[Hb0 _]|(u & tu & Hu & Htu & Eb & Hsb & _)]; [by eapply G1|..].
    + destruct (join_new b u tu Hu Htu Eb) as (_ & _ & _ & _ & _ & _ & tr0 & H0 & E0).
      rewrite (as_dev _ _ Hsb), <- E0. by eapply join_elsewhere.
    + destruct (join_new a t tr Ht Htr Ea) as (_ & _ & _ & _ & _ & _ & tr0 & H0 & E0).
      rewrite (as_dev _ _ Hsa), <- E0. apply not_eq_sym. by eapply join_elsewhere.
    + rewrite (as_dev _ _ Hsa), (as_dev _ _ Hsb). intros E.
      destruct (join_new a t tr Ht Htr Ea) as (_ & _ & _ & _ & _ & _ & tr0 & H0 & E0).
      destruct (join_new b u tu Hu Htu Eb) as (_ & _ & _ & _ & _ & _ & tu0 & H1 & E1).
      destruct (jn_filter _ _ _ J t tr0 Ht H0) as (e & He & Hf). destruct (jn_filter _ _ _ J u tu0 Hu H1) as (e' & He' & Hf').
      rewrite E0, E, <- E1 in He. rewrite He in He'. injection He' as <-. rewrite Hf in Hf'. injection Hf' as ->.
      rewrite Htr in Htu. injection Htu as ->. congruence.
  - rewrite Es. exact G2.
  - rewrite Es. intros a da st st' d' y Ha Hne Hd'.
    destruct (join_area a da st Ha) as [[Ha0 _]|(t & tr & Ht & Htr & Ea & Hsa & -> & _)]; [by eapply G3|].
    destruct (join_new a t tr Ht Htr Ea) as (_ & _ & _ & _ & _ & _ & tr0 & H0 & E0).
    rewrite (as_dev _ _ Hsa), <- E0. by eapply (jn_clear _ _ _ J).
  - rewrite Es. exact G4.
  - rewrite Ed, Ee. intros dev e t tr a da st He Hf Htr Hk Ea Ha. destruct (decide (Some t ∈ l)) as [Hin|Hout].
    + destruct (join_new a t tr Hin Htr Ea) as (da0 & _ & H2 & H3 & _ & _ & tr0 & H0 & E0). rewrite Ha in H2.
      injection H2 as -> ->. rewrite (as_dev _ _ H3), <- E0. symmetry. by eapply (jn_only _ _ _ J).
    + rewrite (ta_other _ _ _ _ T t Hout) in Htr. pose proof (jn_ptrs _ _ _ J t tr a Htr Ea) as Hlt.
      rewrite (ta_old _ _ _ _ T a Hlt) in Ha. by eapply G5.
Qed.

(** A tracker of another snapshot is not one of [l]. *)
Lemma join_other t tr : trackers s !! t = Some tr → snapshot_is_taken tr = true → Some t ∉ l.
Proof. intros Htr Hk Hin. destruct (jn_tracker _ _ _ J t Hin) as (tr0 & H0 & _ & Hn & _). congruence. Qed.
Lemma join_map t tr p : trackers s !! t = Some tr → snapshot_is_taken tr = true → tr_cbt_map tr = Some p → not_of s l p.
Proof.
  intros Htr Hk Hp u tu Hu Htu E. apply (jn_maps _ _ _ J u t tu tr); try done; [|congruence].
  intros ->. by apply (join_other t tr).
Qed.

Lemma join_guarded a t : guarded s a t → guarded s' a t ∧ (map_lost s t = true → map_lost s' t = true).
Proof.
  intros (da & st & e & tr & p & m & Ha & He & Hf & Htr & Hk & Ea & Hp & Hm & Hwf).
  destruct join_ground_eq as (Ed & Ee & _ & _). pose proof (join_other t tr Htr Hk) as Hout.
  destruct (ta_maps _ _ _ _ T p m Hm (join_map t tr p Htr Hk Hp)) as (m' & Hm' & Hwf' & Hc).
  pose proof (ta_other _ _ _ _ T t Hout) as Et. rewrite Htr in Et. split.
  - exists da, st, e, tr, p, m'. rewrite Ed, Ee, Et, (ta_old _ _ _ _ T a); [by split_and!; auto|]. by eapply (jn_ptrs _ _ _ J).
  - unfold map_lost. rewrite Htr, Et. cbn. rewrite Hp. cbn. rewrite Hm, Hm', Hc. done.
Qed.

Lemma join_tasks a tk : fl_tasks (joined σ l s') !! a = Some tk →
  (∃ t tr, Some t ∈ l ∧ trackers s' !! t = Some tr ∧ tr_diff_area tr = Some a ∧ tk = start_tasks s' t a) ∨
  fl_tasks σ !! a = Some tk.
Proof.
  cbn. rewrite map_lookup_imap. destruct (areas s' !! a); [|done]. cbn. destruct (owner s' l a) as [t|] eqn:E; [|by right].
  intros [= <-]. destruct (owner_Some _ _ _ _ E) as (Ht & tr & Htr & Ea). left. by exists t, tr.
Qed.

Lemma join_guard a tk : fl_tasks (joined σ l s') !! a = Some tk → guarded s' a (ts_filter tk).
Proof.
  intros [(t & tr & Ht & Htr & Ea & ->)|Hold]%join_tasks; [|by apply join_guarded, (fi_guard _ _ I)].
  destruct (join_new a t tr Ht Htr Ea) as (da & _ & Ha & Hs & Hk & (p & m & Hp & Hm & Hwf) & tr0 & H0 & E0).
  destruct (jn_filter _ _ _ J t tr0 Ht H0) as (e & He & Hf). destruct join_ground_eq as (Ed & Ee & _).
  exists da, (snap_storage x), e, tr, p, m. rewrite Ed, Ee, (as_dev _ _ Hs), <- E0. by split_and!.
Qed.

Lemma join_starts a : next_ptr s ≤ a → is_Some (areas s' !! a) → starts (joined σ l s') a.
Proof.
  intros Hge [[da st] Ha]. destruct (join_area a da st Ha) as [[_ ?]|(t & tr & Ht & Htr & Ea & Hs & -> & _)]; [lia|].
  destruct join_ground_eq as (_ & _ & Es & _). destruct (jn_storage _ _ _ J) as [d Hd].
  destruct (owner s' l a) as [u|] eqn:Eo; [|by destruct (owner_None _ _ _ t tr Eo Ht Htr)].
  eexists. split.
  - unfold view, area_sys. cbn [joined fl_mod fl_tasks]. rewrite map_lookup_imap, Ha, Es, Hd. cbn. by rewrite Eo.
  - destruct Hs as [Hf _ Hp Hsh]. split; cbn; try done.
    + split; [|done..]. by apply (gd_wf _ (fi_ground _ _ I) (snap_storage x) d).
    + intros y. by rewrite Ha.
Qed.

Lemma join_left a : a < next_ptr s → is_Some (areas s' !! a) → left_alone σ (joined σ l s') a.
Proof.
  intros Hlt Ha. rewrite (ta_old _ _ _ _ T a Hlt) in Ha. destruct (fi_live _ _ I a Ha) as [v Hv].
  destruct (view_inv _ _ _ Hv) as (y & tk & Hy & Htk & _). destruct join_ground_eq as (_ & _ & Es & Ew).
  pose proof (fi_guard _ _ I a tk Htk) as Hg. destruct (join_guarded a (ts_filter tk) Hg) as [_ Hl].
  exists y, {| area := area y; storage := storage y; kern := mkern s'; oops := false; hung := false |}, tk.
  unfold area_sys in Hy |- *. cbn [joined fl_mod fl_tasks]. rewrite map_lookup_imap, Es, (ta_old _ _ _ _ T a Hlt).
  destruct (areas s !! a) as [[da st]|]; [|done]. cbn. destruct (storages s !! st); [|done]. injection Hy as <-. cbn.
  destruct (owner s' l a) as [t|] eqn:Eo; [|by split_and!].
  destruct (owner_Some _ _ _ _ Eo) as (Ht & tr & Htr & Ea). destruct (join_new a t tr Ht Htr Ea) as (_ & ? & _). lia.
Qed.

(** An area has one tracker only. *)
Lemma join_owner a t tr : Some t ∈ l → trackers s' !! t = Some tr → tr_diff_area tr = Some a → owner s' l a = Some t.
Proof.
  intros Ht Htr Ea. destruct (owner s' l a) as [u|] eqn:Eo; [|by destruct (owner_None _ _ _ t tr Eo Ht Htr)].
  destruct (owner_Some _ _ _ _ Eo) as (Hu & tu & Htu & Eu).
  destruct (join_new a t tr Ht Htr Ea) as (da & _ & H2 & H3 & _ & _ & tr0 & H0 & E0).
  destruct (join_new a u tu Hu Htu Eu) as (da' & _ & H2' & H3' & _ & _ & tu0 & H0' & E0').
  rewrite H2 in H2'. injection H2' as <-.
  destruct (jn_filter _ _ _ J t tr0 Ht H0) as (e & He & Hf). destruct (jn_filter _ _ _ J u tu0 Hu H0') as (e' & He' & Hf').
  rewrite E0, <- (as_dev _ _ H3), (as_dev _ _ H3'), <- E0' in He. rewrite He in He'. injection He' as <-. congruence.
Qed.

Lemma join_kept a tk : fl_tasks σ !! a = Some tk → fl_tasks (joined σ l s') !! a = Some tk.
Proof.
  intros Htk. destruct (fi_guard _ _ I a tk Htk) as (da & st & _ & _ & _ & _ & Ha & _).
  destruct (Z.lt_ge_cases a (next_ptr s)) as [Hlt|Hge]; [|by rewrite (jn_fresh _ _ _ J a Hge) in Ha].
  destruct (join_left a Hlt) as (_ & _ & tk' & _ & _ & H1 & H2 & _); [by rewrite (ta_old _ _ _ _ T a Hlt), Ha|]. congruence.
Qed.
Lemma join_image t tr : Some t ∈ l → trackers s !! t = Some tr → ∃ a tk,
  fl_tasks σ !! a = None ∧ fl_tasks (joined σ l s') !! a = Some tk ∧ ts_filter tk = t ∧
  ∀ y, ts_img tk y = w_disk (mkern s) (tr_dev_id tr) y.
Proof.
  intros Ht Htr. destruct (ta_own _ _ _ _ T t tr Ht Htr) as (a & da & H1 & Hge & H3 & H4 & _).
  destruct join_ground_eq as (_ & _ & _ & Ew). exists a, (start_tasks s' t a). split_and!.
  - destruct (fl_tasks σ !! a) as [tk|] eqn:E; [|done]. destruct (fi_guard _ _ I a tk E) as (? & ? & _ & _ & _ & _ & Ha & _).
    by rewrite (jn_fresh _ _ _ J a Hge) in Ha.
  - cbn. rewrite map_lookup_imap, H3. cbn. by rewrite (join_owner a t _ Ht H1 eq_refl).
  - done.
  - intros y. cbn. by rewrite H3, Ew, (as_dev _ _ H4).
Qed.

Lemma join_control : control σ (joined σ l s').
Proof.
  split; [exact join_ground|exact join_guard|]. intros a Ha. cbn in Ha.
  destruct (Z.lt_ge_cases a (next_ptr s)); [right; by apply join_left|left; by apply join_starts].
Qed.
End join.

(** C8: taking a snapshot joins its devices to the fleet. With the default module
    parameters, from any state that the fleet can reach, when [snapshot_take] of a snapshot that can be taken beside the others returns 0,
    that is a step of the fleet: the areas, images, change tracking and filters of the other
    snapshots go on undisturbed, and every device of the snapshot has a new area, guarded by
    its tracker, whose image is the device as it was before the call. So everything shown of
    reachable states holds from there on for the old images and for the new ones. *)
Theorem snapshot_take_joins_fleet σ0 σ id p x s' :
  fleet_init σ0 → rtc fleet_step σ0 σ →
  (snapshot_get_by_id id (fl_mod σ)).1 = Some p → snapshot_objs (fl_mod σ) !! p = Some x →
  joinable (fl_mod σ) x (used x (tracker_array x)) →
  snapshot_take id (fl_mod σ) = (Some 0, s') →
  let σ' := joined σ (used x (tracker_array x)) s' in
  fl_mod σ' = s' ∧ fleet_step σ σ' ∧
  (∀ a tk, fl_tasks σ !! a = Some tk → fl_tasks σ' !! a = Some tk) ∧
  (∀ t tr, Some t ∈ used x (tracker_array x) → trackers (fl_mod σ) !! t = Some tr → ∃ a tk,
     fl_tasks σ !! a = None ∧ fl_tasks σ' !! a = Some tk ∧ ts_filter tk = t ∧
     ∀ y, ts_img tk y = w_disk (mkern (fl_mod σ)) (tr_dev_id tr) y).
Proof.
  intros H0 Hr Hid Hx J E σ'. destruct (fleet_reach_inv _ _ H0 Hr) as [F I].
  pose proof (wp_run _ _ _ _ _ (snapshot_take_spec id _ p x Hid Hx J) E eq_refl) as T. set (l := used x (tracker_array x)) in *.
  split; [done|]. split; [apply fleet_control; by eapply join_control|].
  split; [intros; by eapply join_kept|intros; by eapply join_image].
Qed.
