(* ===== verification/FleetRuns.v ===== *)
(** * Runs of the whole module

    An executable form of the steps of the fleet, a check that the areas of a module have just
    started, and runs from states that the module's own operations lead to: the witnesses for
    the theorems of FleetSafety.v, and a run in which one snapshot destroys the image of
    another. *)
From S2P Require Import Prelude MemoryChecker Kernel Uapi EventQueue CbtMap DiffBuffer DiffIo DiffStorage.
From S2P Require Import Effects Chunk DiffArea ChunkSpecs CowInv Cow CowSteps CowImage CowSafety Footprint.
From S2P Require Import AreaNew State BdevFilter Tracker Snapshot SnapshotTake Lifecycle.
From S2P Require Import Fleet FleetInv FleetSafety FleetTake.

(** ** Runs *)

Definition map_all {A} (f : Z → A → bool) (m : gmap Z A) : bool := forallb (λ p, f p.1 p.2) (map_to_list m).

Lemma map_all_spec {A} (f : Z → A → bool) m k x : map_all f m = true → m !! k = Some x → f k x = true.
Proof.
  unfold map_all. rewrite forallb_forall. intros H Hk. apply (H (k, x)). by apply list_elem_of_In, elem_of_map_to_list.
Qed.

Definition off_device (dev : Z) (d : diff_storage) : bool := forallb (λ b, negb (sk_bdev b =? dev)) (blocks d).

Lemma off_device_spec dev d x : off_device dev d = true → ¬ covered d dev x.
Proof.
  unfold off_device, covered. rewrite forallb_forall, Exists_exists. intros H (b & Hb & E & _).
  apply list_elem_of_In, H, negb_true_iff, Z.eqb_neq in Hb. congruence.
Qed.

Inductive fleet_action : Type :=
  | FTask (a : Z) (act : action)
  | FSubmit (dev : Z) (bio : filter_bio).

Definition bio_fits_b (bio : filter_bio) : bool :=
  negb (b_own bio) && (0 <=? bio_sector bio) && (0 <=? b_count bio) && (bio_sector bio + b_count bio <=? 2 ^ 64).

Section exec.
Context {P : ModuleParams}.

Definition fexec (act : fleet_action) (σ : fleet) : option fleet :=
  match act with
  | FTask a act =>
      match view σ a with
      | None => None
      | Some v => if is_submit act then None else (λ v', put_view a v v' σ) <$> exec false act v
      end
  | FSubmit dev bio =>
      let s := fl_mod σ in
      let '(r, s') := submit_bio_noacct_handler (tracker_submit_bio bio) (bdev_of s dev) (b_nowait bio) s in
      guard_opt (bio_fits_b bio && negb (is_some (w_bio_list (mkern s))) &&
                 match r with Asleep => false | _ => true end && map_all (λ _, off_device dev) (storages s))
        (put_bio dev bio r s' σ)
  end.

Lemma fexec_step act σ σ' : fexec act σ = Some σ' → fleet_step σ σ'.
Proof.
  destruct act as [a act|dev bio]; cbn [fexec].
  - destruct (view σ a) as [v|] eqn:Hv; [|done]. destruct (is_submit act) eqn:Ha; [done|].
    destruct (exec false act v) as [v'|] eqn:E; [|done]. intros [= <-]. apply fleet_task; [done|].
    by destruct (exec_task false act v v' E Ha).
  - destruct (submit_bio_noacct_handler _ _ _ _) as [r s'] eqn:E. intros [Hg <-]%guard_opt_Some. unfold bio_fits_b in Hg.
    bool_hyps. eapply fleet_submit; try done; try lia.
    + by destruct (w_bio_list _).
    + by destruct r.
    + intros _ _ st d addr Hd _. apply off_device_spec.
      by eapply (map_all_spec (λ _, off_device dev) _ st d).
Qed.

Fixpoint frun (acts : list fleet_action) (σ : fleet) : option fleet :=
  match acts with
  | [] => Some σ
  | a :: acts => match fexec a σ with Some σ' => frun acts σ' | None => None end
  end.

Lemma frun_reach acts σ σ' : frun acts σ = Some σ' → rtc fleet_step σ σ'.
Proof.
  revert σ. induction acts as [|a acts IH]; intros σ; simpl; [by intros [= <-]|].
  destruct (fexec a σ) as [σ1|] eqn:E; [|done]. intros H. eapply rtc_l; [by eapply fexec_step|eauto].
Qed.

(** The state a run ends in. *)
Definition fleet_after (acts : list fleet_action) (σ : fleet) : fleet := default σ (frun acts σ).

Lemma fleet_after_reach acts σ : is_some (frun acts σ) = true → rtc fleet_step σ (fleet_after acts σ).
Proof. unfold fleet_after. destruct (frun acts σ) as [σ'|] eqn:E; [|done]. intros _. by eapply frun_reach. Qed.
End exec.

(** ** A check that all areas start *)

Definition is_none {A} (o : option A) : bool := negb (is_some o).
Lemma is_none_spec {A} (o : option A) : is_none o = true → o = None.
Proof. by destruct o. Qed.
Definition is_nil {A} (l : list A) : bool := match l with [] => true | _ => false end.
Lemma is_nil_spec {A} (l : list A) : is_nil l = true → l = [].
Proof. by destruct l. Qed.

Definition chunk_fresh_b (a : diff_area) (n : Z) (c : chunk) : bool :=
  (number c =? n) && (0 <? chunk_sector_count c) && (chunk_sector_count c <=? diff_area_chunk_sectors a) &&
  (0 <=? n) && ((n + 1) * diff_area_chunk_sectors a <=? 2 ^ 54) && (state c =? 0) && negb (lock c) &&
  is_none (chunk_buffer c) && is_none (chunk_region c) && is_none (chunk_io c).
Definition area_fresh_b (a : diff_area) : bool :=
  map_all (chunk_fresh_b a) (chunk_map a) && is_nil (read_cache_queue a) && is_nil (write_cache_queue a) &&
  (9 <=? chunk_shift a) && (chunk_shift a <=? 27) && is_nil (free_diff_buffers (pool a)) &&
  (free_diff_buffers_count (pool a) =? 0).

Lemma area_fresh_b_spec a :
  area_fresh_b a = true →
  area_fresh a ∧ 9 ≤ chunk_shift a ≤ 27 ∧ pool_wf (diff_area_chunk_sectors a) (pool a).
Proof.
  unfold area_fresh_b. intros H. bool_hyps. split; [|split; [lia|]].
  - split; [|by apply is_nil_spec..]. intros n c Hc.
    match goal with Hm : map_all _ _ = true |- _ => pose proof (map_all_spec _ _ _ _ Hm Hc) as Hb end.
    unfold chunk_fresh_b in Hb. bool_hyps. split; try (by apply is_none_spec); try lia; done.
  - unfold pool_wf. match goal with Hp : is_nil (free_diff_buffers _) = true |- _ => apply is_nil_spec in Hp as -> end.
    split; [done|constructor].
Qed.

(** A storage with one range, or none. *)
Definition storage_wf_b (d : diff_storage) : bool :=
  match blocks d with
  | [] => (capacity d =? 0) && (filled d =? 0)
  | [b] => (0 <=? sk_sector b) && (0 <=? sk_used b) && (sk_used b <? sk_count b) && (sk_sector b + sk_count b <? 2 ^ 64) &&
           (capacity d =? sk_count b) && (filled d =? sk_used b) && is_nil (filled_blocks d)
  | _ => false
  end && forallb (λ sb, sb_bdev sb =? sb_dev_id sb) (storage_bdevs d).

Lemma storage_wf_b_spec d : storage_wf_b d = true → storage_wf d ∧ bdevs_ok d.
Proof.
  unfold storage_wf_b. intros [H Hb]%andb_true_iff. split.
  2:{ unfold bdevs_ok. apply Forall_forall. intros sb Hsb. rewrite forallb_forall in Hb.
      apply Z.eqb_eq, Hb. by apply list_elem_of_In. }
  unfold blocks in H. destruct (empty_blocks d) as [|b l] eqn:Ee; destruct (filled_blocks d) as [|b' l'] eqn:Ef; cbn in H.
  - bool_hyps. split; unfold blocks; rewrite ?Ee, ?Ef; cbn; try lia; [constructor|]. intros bd s. cbn. lia.
  - destruct l'; [|done]. bool_hyps. done.
  - destruct l; [|done]. cbn in H. bool_hyps. split; unfold blocks; rewrite ?Ee, ?Ef; cbn; try lia.
    + apply Forall_singleton. unfold block_ok. lia.
    + intros bd s. cbn. destruct (decide _); cbn; lia.
  - by destruct l.
Qed.

Definition cbt_wf_b (m : cbt_map) : bool :=
  (SECTOR_SHIFT <=? blk_size_shift m) && (0 <? blk_count m) && (1 <=? snap_number_active m) &&
  (snap_number_active m <=? 255) && (snap_number_previous m =? snap_number_active m - 1) &&
  match read_map m, write_map m with
  | Some rm, Some wm => (lenZ rm =? blk_count m) && boundedb 255 rm && (lenZ wm =? blk_count m) &&
                        boundedb (snap_number_active m) wm
  | _, _ => false
  end.

Lemma cbt_wf_b_spec m : cbt_wf_b m = true → cbt_wf m.
Proof.
  unfold cbt_wf_b. destruct (read_map m) as [rm|] eqn:Er, (write_map m) as [wm|] eqn:Ew; intros H; bool_hyps; try done.
  split; try lia.
  - exists rm. split_and!; [done|lia|by apply boundedb_spec].
  - exists wm. split_and!; [done|lia|by apply boundedb_spec].
Qed.

(** No sector is in blocks of both storages. *)
Definition blocks_apart_b (d d' : diff_storage) : bool :=
  forallb (λ b, forallb (λ b', negb (sk_bdev b =? sk_bdev b') || (sk_sector b + sk_count b <=? sk_sector b') ||
    (sk_sector b' + sk_count b' <=? sk_sector b)) (blocks d')) (blocks d).

Lemma blocks_apart_b_spec d d' bd x : blocks_apart_b d d' = true → covered d bd x → covered d' bd x → False.
Proof.
  unfold blocks_apart_b, covered. rewrite !Exists_exists, forallb_forall.
  intros H (b & Hb & Eb & Hx) (b' & Hb' & Eb' & Hx'). apply list_elem_of_In, H in Hb. rewrite forallb_forall in Hb.
  apply list_elem_of_In, Hb in Hb'. subst bd. rewrite Eb', Z.eqb_refl in Hb'. cbn in Hb'.
  apply orb_true_iff in Hb' as [?|?]; lia.
Qed.

(** The parts of [ground]; [clear] says whether the storages have to be off the devices of
    other snapshots. *)
Definition ground_b (clear : bool) (s : modst) : bool :=
  map_all (λ a x, map_all (λ b y, (a =? b) || negb (orig_bdev x.1 =? orig_bdev y.1)) (areas s)) (areas s) &&
  map_all (λ st d, map_all (λ st' d', (st =? st') || blocks_apart_b d d') (storages s)) (storages s) &&
  (negb clear || map_all (λ a x, map_all (λ st d, (st =? x.2) || off_device (orig_bdev x.1) d) (storages s)) (areas s)) &&
  map_all (λ _ d, storage_wf_b d) (storages s) &&
  forallb (λ e, match (t ← bd_filter e; tr ← trackers s !! t; a ← tr_diff_area tr; areas s !! a) with
                | Some (da, _) => dev_ptr (devices s (orig_bdev da)) =? ext_bdev e
                | None => true
                end) (bdev_extension_list s).

Lemma ground_b_spec s :
  (∀ d d', dev_ptr (devices s d) = dev_ptr (devices s d') → d = d') → ground_b true s = true → ground s.
Proof.
  unfold ground_b. intros Hinj [[[[H1 H2]%andb_true_iff H3]%andb_true_iff H4]%andb_true_iff H5]%andb_true_iff.
  cbn [negb orb] in H3. split.
  - intros a b da db st st' Hne Ha Hb. pose proof (map_all_spec _ _ _ _ (map_all_spec _ _ _ _ H1 Ha) Hb) as E. cbn in E.
    apply orb_true_iff in E as [E|E]; [lia|]. by apply negb_true_iff, Z.eqb_neq in E.
  - intros st st' d d' bd x Hne Hd Hd'. pose proof (map_all_spec _ _ _ _ (map_all_spec _ _ _ _ H2 Hd) Hd') as E. cbn in E.
    apply orb_true_iff in E as [E|E]; [lia|]. by apply blocks_apart_b_spec.
  - intros a da st st' d' x Ha Hne Hd'. pose proof (map_all_spec _ _ _ _ (map_all_spec _ _ _ _ H3 Ha) Hd') as E. cbn in E.
    apply orb_true_iff in E as [E|E]; [lia|]. by apply off_device_spec.
  - intros st d Hd. apply storage_wf_b_spec. exact (map_all_spec _ _ st d H4 Hd).
  - intros dev e t tr a da st He Hf Ht _ Ha Hda. apply Hinj. apply find_some in He as [Hin He].
    rewrite forallb_forall in H5. specialize (H5 e Hin). cbn in H5. rewrite Hf in H5. cbn in H5. rewrite Ht in H5.
    cbn in H5. rewrite Ha in H5. cbn in H5. rewrite Hda in H5. lia.
Qed.

(** The areas start; [l] gives the trackers and areas. *)
Definition fleet_of (s : modst) (l : list (Z * Z)) : fleet :=
  {| fl_mod := s; fl_tasks := list_to_map ((λ p, (p.2, start_tasks s p.1 p.2)) <$> l) |}.

Definition guarded_b (s : modst) (t a : Z) : bool :=
  match areas s !! a with
  | None => false
  | Some (da, _) =>
      match bdev_extension_find_bdev (dev_ptr (devices s (orig_bdev da))) (bdev_extension_list s) ≫= bd_filter,
            trackers s !! t with
      | Some t', Some tr =>
          (t' =? t) && snapshot_is_taken tr && bool_decide (tr_diff_area tr = Some a) &&
          match tr_cbt_map tr ≫= λ p, cbt_maps s !! p with Some m => cbt_wf_b m | None => false end
      | _, _ => false
      end
  end.

Definition starts_b (s : modst) (l : list (Z * Z)) : bool :=
  forallb (λ p, guarded_b s p.1 p.2) l &&
  map_all (λ a x, area_fresh_b x.1 && is_some (storages s !! x.2) && bool_decide (a ∈ l.*2)) (areas s).

Lemma guarded_b_spec s t a : guarded_b s t a = true → guarded s a t.
Proof.
  unfold guarded_b. destruct (areas s !! a) as [[da st]|] eqn:Ha; [|done].
  destruct (bdev_extension_find_bdev _ _) as [e|] eqn:He; [|done]. cbn.
  destruct (bd_filter e) as [t'|] eqn:Hf; [|done]. destruct (trackers s !! t) as [tr|] eqn:Ht; [|done].
  destruct (tr_cbt_map tr) as [p|] eqn:Hp; [|by rewrite andb_false_r]. cbn.
  destruct (cbt_maps s !! p) as [m|] eqn:Hm; [|by rewrite andb_false_r].
  intros [[[H1 H2]%andb_true_iff H3]%andb_true_iff H4]%andb_true_iff. apply bool_decide_eq_true in H3. apply Z.eqb_eq in H1.
  exists da, st, e, tr, p, m. split_and!; try done; [congruence|by apply cbt_wf_b_spec].
Qed.

Lemma starts_b_spec s l :
  starts_b s l = true →
  map_all (λ _ d, storage_wf_b d) (storages s) = true →
  (∀ a t, fl_tasks (fleet_of s l) !! a = Some t → guarded s a (ts_filter t)) ∧
  (∀ a, is_Some (areas s !! a) → starts (fleet_of s l) a).
Proof.
  unfold starts_b. intros [H1 H2]%andb_true_iff Hwf. split.
  - intros a tk Ht. cbn in Ht. apply elem_of_list_to_map_2 in Ht. apply list_elem_of_fmap in Ht as ([t a'] & [= -> ->] & Hin).
    rewrite forallb_forall in H1. apply guarded_b_spec. by apply (H1 (t, a')), list_elem_of_In.
  - intros a [[da st] Ha]. pose proof (map_all_spec _ _ _ _ H2 Ha) as H. cbn in H.
    apply andb_true_iff in H as [[Hf Hs]%andb_true_iff Hin]. apply bool_decide_eq_true in Hin.
    destruct (storages s !! st) as [d|] eqn:Hd; [|done]. destruct (area_fresh_b_spec da Hf) as (Hfr & Hsh & Hp).
    destruct (fl_tasks (fleet_of s l) !! a) as [tk|] eqn:Ht.
    2:{ exfalso. cbn in Ht. apply not_elem_of_list_to_map_2 in Ht. apply Ht. rewrite <- list_fmap_compose. cbn.
        apply list_elem_of_fmap in Hin as (p & -> & Hp'). apply list_elem_of_fmap. by exists p. }
    eexists. split; [unfold view, area_sys; cbn [fleet_of fl_mod]; rewrite Ha, Hd; by rewrite Ht|].
    cbn in Ht. apply elem_of_list_to_map_2, list_elem_of_fmap in Ht as ([t a'] & [= <- ->] & _). cbn [fst snd].
    split; cbn; try done.
    + split; [|done|done]. exact (proj1 (storage_wf_b_spec d (map_all_spec _ _ st d Hwf Hd))).
    + intros x. by rewrite Ha.
Qed.

(** ** One snapshot of two devices

    The module after its own operations: snapshot 77 of devices 1 and 2, with 4096 sectors of
    storage on device 8. The byte [a] of device [d] is [(a + d) mod 251]. *)
#[local] Existing Instance default_params.

Definition ex_disks : modst :=
  let s := ex_module in {| s with mkern := {| world0 with w_disk := λ d a, (a + d) mod 251 |} |}.
Definition ex_range (sector count : Z) : blk_snap_block_range := {| sector_offset := sector; sector_count := count |}.

Definition ex_two : modst :=
  (snapshot_take 77 (snapshot_append_storage 77 (ex_dev 8) [ex_range 0 4096]
    (create 77 [ex_dev 1; ex_dev 2] ex_disks)).2).2.
Definition ex_fleet : fleet := fleet_of ex_two [(3, 7); (5, 8)].

Lemma ex_fleet_init : fleet_init ex_fleet.
Proof.
  destruct (starts_b_spec ex_two [(3, 7); (5, 8)]) as [Hg Hs]; [vm_compute; reflexivity..|].
  split; [|exact Hg|exact Hs]. apply ground_b_spec; [|vm_compute; reflexivity].
  assert (E : ∀ d, dev_ptr (devices (fl_mod ex_fleet) d) = 50 + d) by (intros d; vm_compute; reflexivity).
  intros d d'. rewrite !E. lia.
Qed.

(** A bio of sevens. *)
Definition ex_sevens (sector count : Z) : filter_bio :=
  {| b_own := false; b_write := true; b_remapped := false; b_start := 0; b_sector := sector; b_count := count;
     b_nowait := false; b_data := λ _, 7 |}.

(** Two writes, one to each device, with their steps interleaved. *)
Definition ex_both : list fleet_action :=
  [FSubmit 1 (ex_sevens 2 4); FTask 7 (AWriter 0); FSubmit 2 (ex_sevens 600 4); FTask 8 (AWriter 0);
   FTask 7 (AWriter 0); FTask 8 (AWriter 0); FTask 8 (ABioEnd 1 0 0); FTask 7 (ABioEnd 0 0 0); FTask 7 (ANotify 0);
   FTask 8 (ANotify 1); FTask 7 (ABioEnd 0 0 0); FTask 8 (ABioEnd 1 0 0); FTask 7 (ANotify 0); FTask 8 (ANotify 1);
   FTask 7 (AWriter 0); FTask 8 (AWriter 0); FTask 8 (AWriter 0); FTask 7 (AWriter 0); FTask 8 (AWriter 0);
   FTask 7 (AWriter 0)].
Definition ex_written : fleet := fleet_after ex_both ex_fleet.

Lemma ex_written_reach : rtc fleet_step ex_fleet ex_written.
Proof. apply fleet_after_reach. vm_compute. reflexivity. Qed.

(** The view and the tasks of an area. *)
Definition the_view (σ : fleet) (a : Z) : cow := default (ex_cow []) (view σ a).
Definition the_tasks (σ : fleet) (a : Z) : tasks := default (start_tasks ex_module 0 0) (fl_tasks σ !! a).
Lemma the_view_spec σ a : is_some (view σ a) = true → view σ a = Some (the_view σ a).
Proof. unfold the_view. by destruct (view σ a). Qed.
Lemma the_tasks_spec σ a : is_some (fl_tasks σ !! a) = true → fl_tasks σ !! a = Some (the_tasks σ a).
Proof. unfold the_tasks. by destruct (fl_tasks σ !! a). Qed.


(** The chunk saved for device 1 and the one saved for device 2 are in regions of the same
    storage. *)
Lemma fleet_areas_apart_witness :
  let c := chunk_at (area (cw_sys (the_view ex_written 7))) 0 in
  let c' := chunk_at (area (cw_sys (the_view ex_written 8))) 1 in
  ∃ r r', chunk_region c = Some r ∧ chunk_region c' = Some r' ∧ dr_bdev r = dr_bdev r' ∧
    region_has r 8 100 ∧ ¬ region_has r' 8 100.
Proof.
  intros c c'. exists {| dr_bdev := 8; dr_sector := 0; dr_count := 512 |}, {| dr_bdev := 8; dr_sector := 512; dr_count := 512 |}.
  assert (Hr : chunk_region c = Some {| dr_bdev := 8; dr_sector := 0; dr_count := 512 |}) by (vm_compute; reflexivity).
  assert (Hr' : chunk_region c' = Some {| dr_bdev := 8; dr_sector := 512; dr_count := 512 |}) by (vm_compute; reflexivity).
  assert (Hh : region_has {| dr_bdev := 8; dr_sector := 0; dr_count := 512 |} 8 100) by (unfold region_has; cbn; lia).
  split; [exact Hr|]. split; [exact Hr'|]. split; [reflexivity|]. split; [exact Hh|].
  refine (proj1 (fleet_areas_apart ex_fleet ex_written 7 8 (the_view ex_written 7) (the_view ex_written 8) 0 1 c c' _
    ex_fleet_init ex_written_reach _ _ _ _ _ Hr') _ 8 100 Hr Hh).
  - lia.
  - apply the_view_spec. vm_compute. reflexivity.
  - apply the_view_spec. vm_compute. reflexivity.
  - apply chunk_at_spec. vm_compute. reflexivity.
  - apply chunk_at_spec. vm_compute. reflexivity.
Defined.

(** A third write, to device 2, is held for the area of device 2. *)
Lemma fleet_filter_guards_witness :
  ∃ v w s', view ex_written 8 = Some v ∧ orig_bdev (area (cw_sys v)) = 2 ∧
    submit_bio_noacct_handler (tracker_submit_bio (ex_sevens 0 8)) (bdev_of (fl_mod ex_written) 2) false
      (fl_mod ex_written) = (Held (8, w), s').
Proof.
  set (m := submit_bio_noacct_handler (tracker_submit_bio (ex_sevens 0 8)) (bdev_of (fl_mod ex_written) 2) false).
  assert (E : ∃ w, (m (fl_mod ex_written)).1 = Held (8, w)) by (eexists; vm_compute; reflexivity).
  destruct E as [w E]. assert (Em : m (fl_mod ex_written) = (Held (8, w), (m (fl_mod ex_written)).2))
    by (destruct (m (fl_mod ex_written)); cbn in *; congruence).
  assert (Hb : bio_fits (ex_sevens 0 8)) by (unfold bio_fits; cbn; lia).
  assert (Hl : w_bio_list (mkern (fl_mod ex_written)) = None) by (vm_compute; reflexivity).
  destruct (fleet_filter_guards ex_fleet ex_written 2 (ex_sevens 0 8) _ _ ex_fleet_init ex_written_reach Hb
    eq_refl eq_refl Hl Em) as (v & Hv & Hd & _).
  exists v, w, (m (fl_mod ex_written)).2. split; [exact Hv|]. split; [exact Hd|exact Em].
Defined.

(** ** Another snapshot is taken

    A check that a snapshot can be taken beside the others. *)

Definition map_in_order_b (s : modst) (tr : tracker) : bool :=
  match tr_cbt_map tr ≫= λ p, cbt_maps s !! p with Some m => cbt_wf_b m | None => false end.
Definition device_fits_b (d : device) : bool :=
  (0 <? dev_sectors d) && (dev_sectors d <=? 2 ^ 53) && (0 <=? dev_io_min d) && (dev_io_min d <=? 2 ^ 27) &&
  (dev_sectors d <=? chunk_maximum_count * 2 ^ 18).
Definition tracker_joins_b (s : modst) (st t : Z) : bool :=
  match trackers s !! t with
  | None => false
  | Some tr =>
      negb (submit_lock tr) && negb (snapshot_is_taken tr) && map_in_order_b s tr &&
      device_fits_b (devices s (tr_dev_id tr)) &&
      map_all (λ u tu, (t =? u) || bool_decide (tr_cbt_map tr ≠ tr_cbt_map tu)) (trackers s) &&
      bool_decide (bdev_extension_find_bdev (dev_ptr (devices s (tr_dev_id tr))) (bdev_extension_list s) ≫= bd_filter = Some t) &&
      forallb (λ e, negb (bool_decide (bd_filter e = Some t)) || (dev_ptr (devices s (tr_dev_id tr)) =? ext_bdev e))
        (bdev_extension_list s) &&
      map_all (λ st' d, (st' =? st) || off_device (tr_dev_id tr) d) (storages s)
  end.
Definition joinable_b (s : modst) (x : snapshot) (l : list (option Z)) : bool :=
  is_some (storages s !! snap_storage x) && (1 <=? snap_kref x) &&
  map_all (λ a _, a <? next_ptr s) (areas s) &&
  map_all (λ _ tr, match tr_diff_area tr with Some a => a <? next_ptr s | None => true end) (trackers s) &&
  bool_decide (NoDup (omap id l)) && forallb (tracker_joins_b s (snap_storage x)) (omap id l).

Lemma map_in_order_b_spec s tr : map_in_order_b s tr = true → map_in_order s tr.
Proof.
  unfold map_in_order_b. destruct (tr_cbt_map tr) as [p|] eqn:Hp; [|done]. cbn.
  destruct (cbt_maps s !! p) as [m|] eqn:Hm; [|done]. intros H. exists p, m. by split_and!; [..|apply cbt_wf_b_spec].
Qed.
Lemma device_fits_b_spec d : device_fits_b d = true → device_fits d.
Proof. unfold device_fits_b. intros H. bool_hyps. split; [split; cbn; lia|lia..]. Qed.

Record tracker_joins (s : modst) (st t : Z) (tr : tracker) : Prop := {
  tj_lock : submit_lock tr = false;
  tj_taken : snapshot_is_taken tr = false;
  tj_map : map_in_order s tr;
  tj_fits : device_fits (devices s (tr_dev_id tr));
  tj_maps u tu : t ≠ u → trackers s !! u = Some tu → tr_cbt_map tr ≠ tr_cbt_map tu;
  tj_filter : ∃ e, bdev_extension_find_bdev (dev_ptr (devices s (tr_dev_id tr))) (bdev_extension_list s) = Some e ∧
    bd_filter e = Some t;
  tj_only e : In e (bdev_extension_list s) → bd_filter e = Some t → dev_ptr (devices s (tr_dev_id tr)) = ext_bdev e;
  tj_clear st' d y : st' ≠ st → storages s !! st' = Some d → ¬ covered d (tr_dev_id tr) y;
}.

Lemma tracker_joins_b_spec s st t :
  tracker_joins_b s st t = true → ∃ tr, trackers s !! t = Some tr ∧ tracker_joins s st t tr.
Proof.
  unfold tracker_joins_b. destruct (trackers s !! t) as [tr|] eqn:Ht; [|done].
  intros [[[[[[[H1 H2]%andb_true_iff H3]%andb_true_iff H4]%andb_true_iff H5]%andb_true_iff H6]%andb_true_iff
    H7]%andb_true_iff H8]%andb_true_iff. exists tr. split; [done|].
  apply bool_decide_eq_true in H6. split.
  - by apply negb_true_iff.
  - by apply negb_true_iff.
  - by apply map_in_order_b_spec.
  - by apply device_fits_b_spec.
  - intros u tu Hne Hu. pose proof (map_all_spec _ _ _ _ H5 Hu) as H. cbn in H. apply orb_true_iff in H as [H|H]; [lia|].
    by apply bool_decide_eq_true in H.
  - destruct (bdev_extension_find_bdev _ _) as [e|]; [|done]. by exists e.
  - intros e He Hf. rewrite forallb_forall in H7. specialize (H7 e He). rewrite bool_decide_eq_true_2 in H7 by done.
    cbn in H7. lia.
  - intros st' d y Hne Hd. pose proof (map_all_spec _ _ _ _ H8 Hd) as H. cbn in H. apply orb_true_iff in H as [H|H]; [lia|].
    by apply off_device_spec.
Qed.

Lemma joinable_b_spec s x l :
  (∀ d d', dev_ptr (devices s d) = dev_ptr (devices s d') → d = d') → (∀ d, 0 ≤ fs_frozen s d) →
  joinable_b s x l = true → joinable s x l.
Proof.
  unfold joinable_b. intros Hinj Hfr [[[[[H1 H2]%andb_true_iff H3]%andb_true_iff H4]%andb_true_iff H5]%andb_true_iff
    H6]%andb_true_iff. apply bool_decide_eq_true in H5. rewrite forallb_forall in H6.
  assert (Ht : ∀ t, Some t ∈ l → ∃ tr, trackers s !! t = Some tr ∧ tracker_joins s (snap_storage x) t tr).
  { intros t Hin. apply tracker_joins_b_spec, H6, list_elem_of_In, list_elem_of_omap. by exists (Some t). }
  assert (Ht' : ∀ t tr, Some t ∈ l → trackers s !! t = Some tr → tracker_joins s (snap_storage x) t tr).
  { intros t tr Hin Htr. destruct (Ht t Hin) as (tr' & H & ?). congruence. }
  split; try done.
  - by destruct (storages s !! snap_storage x).
  - lia.
  - intros a Ha. destruct (areas s !! a) as [y|] eqn:E; [|done]. pose proof (map_all_spec _ _ _ _ H3 E) as H. cbn in H. lia.
  - intros t tr a Htr Ea. pose proof (map_all_spec _ _ _ _ H4 Htr) as H. cbn in H. rewrite Ea in H. lia.
  - intros t Hin. destruct (Ht t Hin) as (tr & Htr & []). by exists tr.
  - intros t u tr tu Hin Hne Htr. by apply (tj_maps _ _ _ _ (Ht' t tr Hin Htr)).
  - intros t tr Hin Htr. apply (Ht' t tr Hin Htr).
  - intros t tr dev e Hin Htr He Hf. apply Hinj. apply find_some in He as [Hine He].
    rewrite (tj_only _ _ _ _ (Ht' t tr Hin Htr) e Hine Hf). lia.
  - intros t tr st d y Hin Htr. by apply (tj_clear _ _ _ _ (Ht' t tr Hin Htr)).
Qed.

(** While snapshot 77 is at work as above, snapshot 79 of device 3 waits to be taken, with its
    storage on device 9. *)
Definition ex_later : modst :=
  (snapshot_append_storage 79 (ex_dev 9) [ex_range 0 4096] (create 79 [ex_dev 3] ex_two)).2.
Definition ex_later_fleet : fleet := fleet_of ex_later [(3, 7); (5, 8)].
Definition ex_later_written : fleet := fleet_after ex_both ex_later_fleet.
Definition ex_waiting : snapshot :=
  {| snap_kref := 1; snap_id := 79; is_taken := false; snap_storage := 11; snap_count := 1;
     tracker_array := [Some 13]; snapimage_array := [None] |}.

Lemma ex_later_ptrs σ : devices (fl_mod σ) = devices ex_module → ∀ d d',
  dev_ptr (devices (fl_mod σ) d) = dev_ptr (devices (fl_mod σ) d') → d = d'.
Proof. intros -> d d'. cbn. lia. Qed.
Lemma ex_later_init : fleet_init ex_later_fleet.
Proof.
  destruct (starts_b_spec ex_later [(3, 7); (5, 8)]) as [Hg Hs]; [vm_compute; reflexivity..|].
  split; [|exact Hg|exact Hs]. apply ground_b_spec; [|vm_compute; reflexivity].
  apply ex_later_ptrs. vm_compute. reflexivity.
Qed.
Lemma ex_later_reach : rtc fleet_step ex_later_fleet ex_later_written.
Proof. apply fleet_after_reach. vm_compute. reflexivity. Qed.

(** The snapshot is taken: the tasks of device 1 go on, and the image of device 3 starts. *)
Lemma snapshot_take_joins_fleet_witness :
  let σ' := joined ex_later_written [Some 13] (snapshot_take 79 (fl_mod ex_later_written)).2 in
  rtc fleet_step ex_later_fleet σ' ∧ fl_tasks σ' !! 7 = Some (the_tasks ex_later_written 7) ∧
  ∃ a tk, fl_tasks σ' !! a = Some tk ∧ ts_filter tk = 13 ∧ ts_img tk 1030 = (1030 + 3) mod 251.
Proof.
  set (s' := (snapshot_take 79 (fl_mod ex_later_written)).2).
  assert (J : joinable (fl_mod ex_later_written) ex_waiting [Some 13]).
  { apply joinable_b_spec; [apply ex_later_ptrs; vm_compute; reflexivity| |vm_compute; reflexivity].
    intros d. vm_compute. repeat case_match; done. }
  assert (E : snapshot_take 79 (fl_mod ex_later_written) = (Some 0, s')).
  { assert (E1 : (snapshot_take 79 (fl_mod ex_later_written)).1 = Some 0) by (vm_compute; reflexivity).
    unfold s'. rewrite <- E1. apply surjective_pairing. }
  assert (H1 : (snapshot_get_by_id 79 (fl_mod ex_later_written)).1 = Some 12) by (vm_compute; reflexivity).
  assert (H2 : snapshot_objs (fl_mod ex_later_written) !! 12 = Some ex_waiting) by (vm_compute; reflexivity).
  destruct (snapshot_take_joins_fleet ex_later_fleet ex_later_written 79 12 ex_waiting s' ex_later_init ex_later_reach
    H1 H2 J E) as (_ & Hstep & Hkept & Hnew).
  split; [eapply rtc_r; [exact ex_later_reach|exact Hstep]|]. split.
  - apply Hkept. apply the_tasks_spec. vm_compute. reflexivity.
  - assert (Hm : tr_dev_id <$> trackers (fl_mod ex_later_written) !! 13 = Some 3) by (vm_compute; reflexivity).
    apply fmap_Some in Hm as (tr & Htr & Hd).
    destruct (Hnew 13 tr) as (a & tk & _ & Ha & Hf & Hi); [by apply list_elem_of_singleton|exact Htr|].
    exists a, tk. split; [exact Ha|]. split; [exact Hf|]. rewrite Hi, <- Hd. vm_compute. reflexivity.
Defined.

(** ** A storage on the device of another snapshot *)

(** Snapshot 77 of device 1 with its storage on device 8; then snapshot 78 of device 2, whose
    storage is 512 sectors of device 1. *)
Definition ex_foreign : modst :=
  let s := (snapshot_take 77 (snapshot_append_storage 77 (ex_dev 8) [ex_range 0 4096]
              (create 77 [ex_dev 1] ex_disks)).2).2 in
  (snapshot_take 78 (snapshot_append_storage 78 (ex_dev 1) [ex_range 0 512] (create 78 [ex_dev 2] s)).2).2.

(** A write to device 2. *)
Definition ex_foreign_acts : list fleet_action :=
  [FSubmit 2 (ex_sevens 2 4); FTask 11 (AWriter 0); FTask 11 (AWriter 0); FTask 11 (ABioEnd 0 0 0);
   FTask 11 (ANotify 0); FTask 11 (ABioEnd 0 0 0)].

(** C39: one snapshot can destroy the image of another. User space gives snapshot 78 of device
    2 sectors of device 1, of which snapshot 77 has been taken, and the module accepts them.
    Every area starts and has its filter, and everything else of [ground] holds. A single
    write to device 2 then makes the module store a chunk of device 2 on device 1, past the
    filter, since [tracker_submit_bio] lets the module's own bios through: with nothing
    written to device 1 or to the image by anybody else, and nothing marked corrupted, the
    image of device 1 has changed. *)
Theorem fleet_foreign_storage_corrupts :
  let σ0 := fleet_of ex_foreign [(3, 5); (9, 11)] in
  ground_b false ex_foreign = true ∧
  (∀ a t, fl_tasks σ0 !! a = Some t → guarded (fl_mod σ0) a (ts_filter t)) ∧
  (∀ a, is_Some (areas (fl_mod σ0) !! a) → starts σ0 a) ∧
  ∃ σ v t bv' s', rtc fleet_step σ0 σ ∧ view σ 5 = Some v ∧ fl_tasks σ !! 5 = Some t ∧
    orig_bdev (area (cw_sys v)) = 1 ∧ corrupt_flag (area (cw_sys v)) = false ∧
    map_lost (fl_mod σ) (ts_filter t) = false ∧ cw_img v 0 = w_disk (mkern ex_foreign) 1 0 ∧
    (∃ ctx', image_turn (cw_ctx v) ex_bvec 0 (cw_sys v) = ((None, ctx', bv', 8), s')) ∧
    corrupt_flag (area s') = false ∧ ¬ excluded s' 0 ∧ in_area s' 0 ∧ bv_data bv' 0 ≠ cw_img v 0.
Proof.
  intros σ0. split; [vm_compute; reflexivity|].
  destruct (starts_b_spec ex_foreign [(3, 5); (9, 11)]) as [Hg Hs]; [vm_compute; reflexivity..|].
  split; [exact Hg|]. split; [exact Hs|].
  set (σ := fleet_after ex_foreign_acts σ0). set (v := the_view σ 5).
  exists σ, v, (the_tasks σ 5), (ex_read v).1.1.2, (ex_read v).2.
  split; [apply fleet_after_reach; vm_compute; reflexivity|].
  split; [apply the_view_spec; vm_compute; reflexivity|]. split; [apply the_tasks_spec; vm_compute; reflexivity|].
  do 4 (split; [vm_compute; reflexivity|]).
  split; [exists (ex_read v).1.1.1.2; rewrite ex_read_eq; f_equal|].
  split; [vm_compute; reflexivity|]. split; [apply storage_elsewhere_spec; vm_compute; reflexivity|].
  split; [eexists 0, _; split; [apply chunk_at_spec; vm_compute; reflexivity|]; vm_compute; split; congruence|].
  vm_compute. congruence.
Qed.
