(* ===== verification/SuperFreeze.v ===== *)
(** * Freezing through a super block

    The code for kernels in which [freeze_bdev] returns a super block that [thaw_bdev]
    takes back (HAVE_SUPER_BLOCK_FREEZE): [_freeze_bdev] and [_thaw_bdev] of tracker.h,
    the attaching and detaching of tracker.c, and the trackers of snapshot.c with and
    without BLK_SNAP_SEQUENTALFREEZE. The kernel's two functions are operations of the
    class [SuperKernel], and [SuperKernelOk] has what is relied on of them. *)
From S2P Require Import Prelude MemoryChecker Kernel Uapi EventQueue CbtMap DiffBuffer DiffIo.
From S2P Require Import DiffStorage Chunk DiffArea ChunkSpecs CowInv Cow CowSteps CowImage.
From S2P Require Import CowSafety State BdevFilter SnapImage Tracker Snapshot SnapshotSpecs.
From S2P Require Import SnapshotTake SimFreeze Lifecycle.

(** [bd_super]: whether a file system is mounted on the device. [sb_freeze] is the
    kernel's [freeze_bdev]: an error pointer, null, or a super block. *)
Class SuperKernel := {
  bd_super : Z → bool;
  sb_freeze : Z → G (result (option Z));
  sb_thaw : Z → Z → G Z;
}.

(** Nothing but the kernel and the counts of freezes has changed. *)
Definition froze (s s' : modst) : Prop := ∃ w f, s' = {| s with mkern := w; fs_frozen := f |}.

(** Nothing but the count of freezes is touched: a device that has a super block is
    frozen once more, or an error is returned and it is not; a device that is frozen is
    thawed once. *)
Class SuperKernelOk (K : SuperKernel) : Prop := {
  sb_freeze_ok d s : bd_super d = true →
    wp (sb_freeze d) s (λ r s', froze s s' ∧
      match r with
      | Ok (Some _) => fs_frozen s' = upd (fs_frozen s) d (fs_frozen s d + 1)
      | Ok None => False
      | Err e => e < 0 ∧ fs_frozen s' = fs_frozen s
      end);
  sb_thaw_ok d z s :
    wp (sb_thaw d z) s (λ _ s', froze s s' ∧
      (fs_frozen s d ≠ 0 → fs_frozen s' = upd (fs_frozen s) d (fs_frozen s d - 1)));
}.

(** A variable that holds a pointer to a super block; one that was declared without a
    value has none until it is assigned. *)
Inductive sbptr := SbUnset | SbNull | SbAt (superblock : Z).

Section super.
Context {K : SuperKernel}.

(** The code to return, and what [*psuperblock] holds afterwards. *)
Definition _freeze_bdev (bdev : Z) (psuperblock : sbptr) : G (Z * sbptr) :=
  if negb (bd_super bdev) then mret (0, psuperblock)
  else
    superblock ← sb_freeze bdev;
    match superblock with
    | Ok None => mret (- ENODEV, psuperblock)
    | Err e => mret (e, psuperblock)
    | Ok (Some superblock) => mret (0, SbAt superblock)
    end.

(** Reading a variable that has no value is recorded like a broken pointer. *)
Definition _thaw_bdev (bdev : Z) (superblock : sbptr) : G unit :=
  match superblock with
  | SbUnset => broken_pointer
  | SbNull => skip
  | SbAt superblock => _ ← sb_thaw bdev superblock; skip
  end.

(** ** The variants of the trackers *)

Definition sb_tracker_filter_attach (bdev : block_device) (t : Z) : G Z :=
  '(_, superblock) ← _freeze_bdev (bd_dev bdev) SbNull;
  ret ← bdev_filter_attach bdev t;
  _thaw_bdev (bd_dev bdev) superblock;;
  mret ret.

Definition sb_tracker_filter_detach (bdev : block_device) : G unit :=
  '(_, superblock) ← _freeze_bdev (bd_dev bdev) SbNull;
  bdev_filter_detach bdev;;
  _thaw_bdev (bd_dev bdev) superblock.

Context {P : ModuleParams}.

(** ** One device after the other *)

Definition sb_release_tracker (t : option Z) : G unit :=
  match t with
  | None => skip
  | Some t =>
      o ← gets (tracker_orig t);
      match o with
      | None => broken_pointer
      | Some None => skip
      | Some (Some bdev) =>
          '(_, sb) ← _freeze_bdev bdev SbNull;
          tracker_release_snapshot t;;
          _thaw_bdev bdev sb
      end
  end.

Definition sb_release_trackers (x : snapshot) : G unit :=
  each sb_release_tracker (used x (tracker_array x)).

(** Here [sb] is declared without a value. *)
Fixpoint sb_take_loop (done l : list (option Z)) : G (list (option Z) * Z) :=
  match l with
  | [] => mret (done, 0)
  | None :: l => sb_take_loop (None :: done) l
  | Some t :: l =>
      o ← gets (tracker_orig t);
      match o with
      | Some (Some orig_bdev) =>
          '(_, sb) ← _freeze_bdev orig_bdev SbUnset;
          ret ← tracker_take_snapshot t;
          if negb (ret =? 0) then mret (done, ret)
          else _thaw_bdev orig_bdev sb;; sb_take_loop (Some t :: done) l
      | _ => broken_pointer;; mret (done, 0)
      end
  end.

Definition sb_untake_tracker (t : option Z) : G unit :=
  match t with
  | None => skip
  | Some t =>
      o ← gets (tracker_orig t);
      match o with
      | Some (Some bdev) =>
          '(_, sb) ← _freeze_bdev bdev SbUnset;
          tracker_release_snapshot t;;
          _thaw_bdev bdev sb
      | _ => broken_pointer
      end
  end.

Definition sb_take_trackers (p : Z) (x : snapshot) : G Z :=
  '(done, ret) ← sb_take_loop [] (used x (tracker_array x));
  if ret =? 0 then mod_snapshot p (λ x, {| x with is_taken := true |});; mret 0
  else each sb_untake_tracker done;; mret ret.

(** ** All devices at once: the super blocks are in the snapshot's [superblock_array],
    which is passed along. An entry is [SbNull] in a new snapshot. *)

Definition simsb_freeze_tracker (checked : bool) (t : option Z) (sb : sbptr) : G sbptr :=
  match t with
  | None => mret sb
  | Some t =>
      o ← gets (tracker_orig t);
      match o with
      | None => broken_pointer;; mret sb
      | Some None => if checked then mret sb else broken_pointer;; mret sb
      | Some (Some bdev) => '(_, sb) ← _freeze_bdev bdev sb; mret sb
      end
  end.

(** The loop over the array; an index outside of it would be a broken pointer. *)
Fixpoint simsb_freeze (checked : bool) (l : list (option Z)) (sbs : list sbptr) : G (list sbptr) :=
  match l, sbs with
  | [], _ => mret sbs
  | _ :: _, [] => broken_pointer;; mret []
  | t :: l, sb :: sbs =>
      sb ← simsb_freeze_tracker checked t sb;
      sbs ← simsb_freeze checked l sbs;
      mret (sb :: sbs)
  end.

Definition simsb_thaw_tracker (checked : bool) (t : option Z) (sb : sbptr) : G unit :=
  match t with
  | None => skip
  | Some t =>
      tr ← get_tracker t;
      match tr with
      | None => broken_pointer
      | Some tr =>
          o ← gets (tracker_orig t);
          match o with
          | None => when (is_frozen tr) broken_pointer
          | Some None => when (negb checked && is_frozen tr) broken_pointer
          | Some (Some bdev) =>
              when (is_frozen tr)
                (_thaw_bdev bdev sb;; mod_tracker t (Simultaneous.set_frozen false))
          end
      end
  end.

Fixpoint simsb_thaw (checked : bool) (l : list (option Z)) (sbs : list sbptr) : G unit :=
  match l, sbs with
  | [], _ => skip
  | _ :: _, [] => broken_pointer
  | t :: l, sb :: sbs => simsb_thaw_tracker checked t sb;; simsb_thaw checked l sbs
  end.

Definition simsb_release_trackers (x : snapshot) (sbs : list sbptr) : G (list sbptr) :=
  let l := used x (tracker_array x) in
  sbs ← simsb_freeze true l sbs;
  each Simultaneous.release_entry l;;
  simsb_thaw true l sbs;;
  mret sbs.

Definition simsb_take_trackers (p : Z) (x : snapshot) (sbs : list sbptr) : G (Z * list sbptr) :=
  let l := used x (tracker_array x) in
  sbs ← simsb_freeze false l sbs;
  '(done, ret) ← Simultaneous.take_each [] l;
  (if negb (ret =? 0) then each Simultaneous.untake_entry done
   else mod_snapshot p (λ x, {| x with is_taken := true |}));;
  simsb_thaw false l sbs;;
  mret (ret, sbs).

(** A new snapshot has the array, or there is no memory for it. *)
Definition simsb_snapshot_new (count : Z) : G (result (Z * list sbptr)) :=
  ok ← in_kern alloc;
  if negb ok then mret (Err (- ENOMEM))
  else
    in_kern (memory_object_inc memory_object_snapshot);;
    let fail_free_snapshot : G (result (Z * list sbptr)) :=
      in_kern (memory_object_dec memory_object_snapshot);; mret (Err (- ENOMEM)) in
    let fail_free_trackers : G (result (Z * list sbptr)) :=
      in_kern (memory_object_dec memory_object_tracker_array);; fail_free_snapshot in
    let fail_free_snapimage (superblock_array : bool) : G (result (Z * list sbptr)) :=
      when superblock_array (in_kern (memory_object_dec memory_object_superblock_array));;
      in_kern (memory_object_dec memory_object_snapimage_array);; fail_free_trackers in
    ok ← in_kern alloc;
    if negb ok then fail_free_snapshot
    else
      in_kern (memory_object_inc memory_object_tracker_array);;
      ok ← in_kern alloc;
      if negb ok then fail_free_trackers
      else
        in_kern (memory_object_inc memory_object_snapimage_array);;
        ok ← in_kern alloc;
        if negb ok then fail_free_snapimage false
        else
          in_kern (memory_object_inc memory_object_superblock_array);;
          d ← in_kern diff_storage_new;
          match d with
          | None => fail_free_snapimage true
          | Some d =>
              st ← new_ptr;
              p ← new_ptr;
              id ← in_kern oracle;
              modify (λ s, {| s with storages := <[st := d]> (storages s);
                links := INIT_LIST_HEAD p (links s);
                snapshot_objs := <[p := new_snapshot id st count]> (snapshot_objs s) |});;
              mret (Ok (p, replicate (Z.to_nat count) SbNull))
          end.

Definition simsb_snapshot_release (p : Z) (sbs : list sbptr) : G unit :=
  x ← get_snapshot p;
  match x with
  | None => broken_pointer
  | Some x =>
      each (λ i, match i with None => skip | Some i => snapimage_free i end)
        (used x (snapimage_array x));;
      _ ← simsb_release_trackers x sbs;
      each drop_tracker (used x (tracker_array x));;
      mod_snapshot p (λ x, {| x with tracker_array :=
        replicate (length (used x (tracker_array x))) None ++
        drop (Z.to_nat (snap_count x)) (tracker_array x) |})
  end.

Definition simsb_snapshot_free (p : Z) (sbs : list sbptr) : G unit :=
  simsb_snapshot_release p sbs;;
  x ← get_snapshot p;
  match x with
  | None => broken_pointer
  | Some x =>
      in_kern (memory_object_dec memory_object_snapimage_array);;
      in_kern (memory_object_dec memory_object_tracker_array);;
      in_kern (memory_object_dec memory_object_superblock_array);;
      storage_put (snap_storage x);;
      modify (λ s, {| s with snapshot_objs := delete p (snapshot_objs s);
                             links := delete p (links s) |});;
      in_kern (memory_object_dec memory_object_snapshot)
  end.
End super.

(** ** What freezing and thawing do *)

#[local] Existing Instance default_params.

Lemma froze_refl s : froze s s.
Proof. exists (mkern s), (fs_frozen s). by destruct s. Qed.
Lemma froze_calm s s' : froze s s' → calm s s'.
Proof. by intros (w & f & ->). Qed.
Lemma froze_trans s1 s2 s3 : froze s1 s2 → froze s2 s3 → froze s1 s3.
Proof. intros (w & f & ->) (w' & f' & ->). by exists w', f'. Qed.

Section proofs.
Context {K : SuperKernel} {HK : SuperKernelOk K}.

(** How often a device is frozen while [sb] is held of the device [d]. *)
Definition held (sb : sbptr) (d : Z) (f : Z → Z) : Z → Z :=
  match sb with SbAt _ => upd f d (f d + 1) | _ => f end.

(** The kernel never fails to freeze a file system. *)
Definition sure : Prop :=
  ∀ d s, bd_super d = true → wp (sb_freeze d) s (λ r _, ∃ z, r = Ok (Some z)).

(** Either the variable is as it was and nothing is frozen, or it has the super block
    of a device that is frozen once more. *)
Lemma freeze_super d sb s :
  wp (_freeze_bdev d sb) s (λ '(ret, sb') s', froze s s' ∧
    ∃ b : bool, (b = true → bd_super d = true) ∧ (sure → b = bd_super d) ∧
      (ret = 0 ↔ b = true ∨ bd_super d = false) ∧
      if b then (∃ z, sb' = SbAt z) ∧ fs_frozen s' = upd (fs_frozen s) d (fs_frozen s d + 1)
      else sb' = sb ∧ fs_frozen s' = fs_frozen s).
Proof.
  unfold _freeze_bdev. destruct (bd_super d) eqn:Ed; cbn [negb].
  2:{ wp_steps. split; [apply froze_refl|]. exists false. naive_solver. }
  apply wp_bind, wp_eq. intros r s1 E. pose proof (sb_freeze_ok d s Ed) as H. unfold wp in H. rewrite E in H.
  destruct H as (Hc & H).
  assert (Hs : sure → ∃ z, r = Ok (Some z)).
  { intros Hs. specialize (Hs d s Ed). unfold wp in Hs. by rewrite E in Hs. }
  destruct r as [[z|]|e]; [|done|]; wp_steps; (split; [done|]).
  - exists true. split_and!; naive_solver.
  - exists false. destruct H as [He H]. split_and!; try done; [by intros [z ?]%Hs|].
    split; [lia|by intros [?|?]].
Qed.

(** A variable that is null at first can be thawed afterwards. *)
Lemma freeze_from_null {B} d (k : sbptr → G B) s Q :
  (∀ sb s1, sb ≠ SbUnset → froze s s1 → fs_frozen s1 = held sb d (fs_frozen s) → wp (k sb) s1 Q) →
  wp ('(_, sb) ← _freeze_bdev d SbNull; k sb) s Q.
Proof.
  intros H. apply wp_bind. eapply wp_mono; [apply freeze_super|].
  intros [ret sb] s1 (Hc & b & _ & _ & _ & Hf). apply H; [..|].
  - destruct b; [by destruct Hf as [[z ->] _]|by destruct Hf as [-> _]].
  - done.
  - destruct b; [destruct Hf as [[z ->] ->]|destruct Hf as [-> ->]]; done.
Qed.

Lemma thaw_super d sb f s :
  sb ≠ SbUnset → fs_frozen s = held sb d f → (∀ d, 0 ≤ f d) →
  wp (_thaw_bdev d sb) s (λ _ s', froze s s' ∧ ∀ d, fs_frozen s' d = f d).
Proof.
  intros Hs Hf Hp. destruct sb as [| |z]; [done| |]; cbn [_thaw_bdev held] in *.
  { wp_steps. split; [apply froze_refl|]. intros d'. by rewrite Hf. }
  wp_step. eapply wp_mono; [apply sb_thaw_ok|]. intros r s1 (Hc & Ht). wp_steps. split; [done|].
  intros d'. rewrite Ht, Hf by (rewrite Hf, upd_eq; specialize (Hp d); lia).
  destruct (decide (d' = d)) as [->|Hne]; [rewrite !upd_eq; lia|by rewrite !upd_ne].
Qed.

(** ** Attaching and detaching *)

(** [m] leaves the file systems alone. *)
Definition unfrozen {A} (m : G A) : Prop := ∀ s, wp m s (λ _ s', fs_frozen s' = fs_frozen s).

Lemma unfrozen_bind {A B} (m : G A) (f : A → G B) :
  unfrozen m → (∀ a, unfrozen (f a)) → unfrozen (a ← m; f a).
Proof.
  intros Hm Hf s. apply wp_bind. eapply wp_mono; [apply Hm|]. intros a s1 H1.
  eapply wp_mono; [apply Hf|]. intros b s2 H2. congruence.
Qed.
Lemma unfrozen_ret {A} (a : A) : unfrozen (mret a).
Proof. done. Qed.
Lemma unfrozen_gets {A} (f : modst → A) : unfrozen (gets f).
Proof. done. Qed.
Lemma unfrozen_in_kern {A} (m : Kernel.K A) : unfrozen (in_kern m).
Proof. intros s. unfold in_kern. apply wp_zoom. apply wp_eq. by intros a w _. Qed.
Lemma unfrozen_when b m : unfrozen m → unfrozen (when b m).
Proof. by destruct b. Qed.
Lemma unfrozen_modify f : (∀ s, fs_frozen (f s) = fs_frozen s) → unfrozen (modify f).
Proof. intros H s. by apply wp_modify. Qed.

Ltac unfrozen := repeat first
  [ progress intros
  | simple apply unfrozen_bind | simple apply unfrozen_ret | simple apply unfrozen_gets
  | simple apply unfrozen_in_kern | simple apply unfrozen_when
  | simple apply unfrozen_modify; done
  | done
  | match goal with |- unfrozen (match ?x with _ => _ end) => destruct x end ].

Lemma unfrozen_attach bdev t : unfrozen (bdev_filter_attach bdev t).
Proof.
  unfold bdev_filter_attach, bdev_extension_append, add_extension, del_extension, set_filter,
    bdev_filter_put, bdev_filter_free, tracker_release, mod_tracker, get_tracker. unfrozen.
Qed.
Lemma unfrozen_detach bdev : unfrozen (bdev_filter_detach bdev).
Proof.
  unfold bdev_filter_detach, lp_bdev_filter_detach, set_filter,
    bdev_filter_put, bdev_filter_free, tracker_release, mod_tracker, get_tracker. unfrozen.
Qed.

Lemma unfrozen_run {A} (m : G A) s a s' : unfrozen m → m s = (a, s') → fs_frozen s' = fs_frozen s.
Proof. intros H E. specialize (H s). unfold wp in H. by rewrite E in H. Qed.

Lemma super_attach_restores bdev t s :
  (∀ d, 0 ≤ fs_frozen s d) →
  wp (sb_tracker_filter_attach bdev t) s (λ ret s', (∀ d, fs_frozen s' d = fs_frozen s d) ∧
    ∃ s1 s2, froze s s1 ∧ bdev_filter_attach bdev t s1 = (ret, s2) ∧ froze s2 s').
Proof.
  intros Hp. unfold sb_tracker_filter_attach. apply freeze_from_null. intros sb s1 Hs Hc Hf.
  apply wp_bind, wp_eq. intros ret s2 E. pose proof (unfrozen_run _ _ _ _ (unfrozen_attach bdev t) E) as Hu. apply wp_bind. eapply wp_mono; [apply (thaw_super _ sb (fs_frozen s)); [done|congruence|done]|].
  intros [] s3 [Hc3 Hf3]. wp_steps. split; [done|]. by exists s1, s2.
Qed.

Lemma super_detach_restores bdev s :
  (∀ d, 0 ≤ fs_frozen s d) →
  wp (sb_tracker_filter_detach bdev) s (λ _ s', (∀ d, fs_frozen s' d = fs_frozen s d) ∧
    ∃ s1 s2, froze s s1 ∧ (bdev_filter_detach bdev s1).2 = s2 ∧ froze s2 s').
Proof.
  intros Hp. unfold sb_tracker_filter_detach. apply freeze_from_null. intros sb s1 Hs Hc Hf.
  apply wp_bind, wp_eq. intros [] s2 E. pose proof (unfrozen_run _ _ _ _ (unfrozen_detach bdev) E) as Hu. eapply wp_mono; [apply (thaw_super _ sb (fs_frozen s)); [done|congruence|done]|].
  intros [] s3 [Hc3 Hf3]. split; [done|]. exists s1, s2. by rewrite E.
Qed.

(** ** One device after the other *)

Lemma can_untake_orig s t :
  can_untake s t → ∃ tr d, trackers s !! t = Some tr ∧ submit_lock tr = false ∧ tracker_orig t s = Some (Some d).
Proof.
  intros (tr & a & da & st & Ht & Hl & Ea & Eda). exists tr, (orig_bdev da). split_and!; try done.
  unfold tracker_orig. rewrite Ht. cbn. by rewrite Ea, Eda.
Qed.

Lemma can_untake_marks s s' l t :
  trackers s' = marks false l (trackers s) → areas s' = areas s → can_untake s t → can_untake s' t.
Proof.
  intros Et Ea (tr & a & da & st & Htr & Hl & Ha & Hda). unfold can_untake. rewrite Et, Ea, marks_lookup, Htr.
  case_bool_decide; cbn; [|by eauto 10]. by exists (set_taken false tr), a, da, st.
Qed.

(** Releasing the trackers one after the other leaves every file system as it was,
    whether it could be frozen or not, and no tracker filters for the snapshot. *)
Theorem super_release_restores x s :
  (∀ t, Some t ∈ used x (tracker_array x) → can_untake s t) → (∀ d, 0 ≤ fs_frozen s d) →
  wp (sb_release_trackers x) s (λ _ s',
    trackers s' = marks false (used x (tracker_array x)) (trackers s) ∧ areas s' = areas s ∧
    broken s' = broken s ∧ ∀ d, fs_frozen s' d = fs_frozen s d).
Proof.
  unfold sb_release_trackers. generalize (used x (tracker_array x)) as l. intros l. revert s.
  induction l as [|o l IH]; intros s Hu Hp; cbn [each]; [by wp_steps|]. wp_step.
  apply wp_mono with (P := λ _ s', trackers s' = marks false [o] (trackers s) ∧ areas s' = areas s ∧
    broken s' = broken s ∧ ∀ d, fs_frozen s' d = fs_frozen s d).
  { destruct o as [t|]; cbn [sb_release_tracker]; [|by wp_steps].
    destruct (can_untake_orig s t) as (tr & d & Ht & Hl & Ho); [apply Hu, elem_of_cons; by left|].
    wp_step. wp_step. rewrite Ho. apply freeze_from_null. intros sb s1 Hs (w & f & ->) Hf. wp_step.
    eapply wp_mono; [by eapply tracker_release_spec|]. intros [] s2 ->.
    eapply wp_mono; [apply (thaw_super _ sb (fs_frozen s)); done|]. intros [] s3 [(w3 & f3 & ->) Hf3]. done. }
  intros [] s1 (Et & Ea & Eb & Ef). eapply wp_mono; [apply IH|].
  - intros t Ht. eapply can_untake_marks; [done..|]. apply Hu, elem_of_cons. by right.
  - intros d. by rewrite Ef.
  - intros [] s2 (Et2 & Ea2 & Eb2 & Ef2). split_and!; [by rewrite Et2, Et, <- marks_app|congruence..|].
    intros d. by rewrite Ef2.
Qed.

(** What is read without a value ([u]) when the trackers of [l] are taken. *)
Definition unset_read (O : Z → Z) (l : list (option Z)) (u : bool) : Prop :=
  (∀ t, Some t ∈ l → bd_super (O t) = false → u = true) ∧
  (sure → (∀ t, Some t ∈ l → bd_super (O t) = true) → u = false).

Lemma unset_read_nil O : unset_read O [] false.
Proof. split; [|done]. intros t H. by apply elem_of_nil in H. Qed.

Lemma unset_read_cons O t l b u :
  (b = true → bd_super (O t) = true) → (sure → b = bd_super (O t)) → unset_read O l u →
  unset_read O (Some t :: l) (negb b || u).
Proof.
  intros Hb Hs [H1 H2]. split.
  - intros t' [[= ->]|Ht]%elem_of_cons E; [|by rewrite (H1 t' Ht E), orb_true_r].
    destruct b; [rewrite Hb in E by done; done|done].
  - intros Hsure Hall. rewrite (Hs Hsure), (Hall t), H2; [done|done| |apply elem_of_cons; by left].
    intros t' Ht. apply Hall, elem_of_cons. by right.
Qed.

Lemma unset_read_none O l u : unset_read O l u → unset_read O (None :: l) u.
Proof.
  intros [H1 H2]. split.
  - intros t [[=]|Ht]%elem_of_cons. by apply H1.
  - intros Hs Hall. apply H2; [done|]. intros t Ht. apply Hall, elem_of_cons. by right.
Qed.

(** The loop that takes the trackers: [l1] are those taken. *)
Definition sb_taken_until (O : Z → Z) (s : modst) (l dn dn' : list (option Z)) (ret : Z) (s' : modst) : Prop :=
  ∃ l1 l2 u, l = l1 ++ l2 ∧ dn' = reverse l1 ++ dn ∧ areas s' = areas s ∧ unset_read O l1 u ∧
    broken s' = broken s || u ∧
    match l2 with
    | [] => ret = 0 ∧ trackers s' = marks true l1 (trackers s) ∧ ∀ d, fs_frozen s' d = fs_frozen s d
    | None :: _ => False
    | Some t :: _ => ret ≠ 0 ∧ trackers s' = alter set_lock t (marks true l1 (trackers s))
    end.

Lemma sb_taken_until_cons O s s1 o l dn done' ret s' u1 :
  areas s1 = areas s → broken s1 = broken s || u1 → trackers s1 = marks true [o] (trackers s) →
  (∀ d, fs_frozen s1 d = fs_frozen s d) → (∀ l1 u, unset_read O l1 u → unset_read O (o :: l1) (u1 || u)) →
  sb_taken_until O s1 l (o :: dn) done' ret s' → sb_taken_until O s (o :: l) dn done' ret s'.
Proof.
  intros Ea Eb Et Ef Hu (l1 & l2 & u & -> & -> & Ea' & Hu1 & Eb' & H). exists (o :: l1), l2, (u1 || u).
  split; [done|]. split; [by rewrite reverse_cons, <- app_assoc|]. split; [congruence|]. split; [by apply Hu|].
  split; [by rewrite Eb', Eb, orb_assoc|].
  assert (Em : marks true (o :: l1) (trackers s) = marks true l1 (trackers s1)) by by rewrite Et, <- marks_app.
  rewrite Em. destruct l2 as [|[t|] l2]; try done. destruct H as (-> & -> & H). split_and!; try done.
  intros d. by rewrite H, Ef.
Qed.

(** Thawing with a variable that has no value unless [b] froze the device. *)
Lemma thaw_maybe_unset d sb (b : bool) f s :
  (if b then (∃ z, sb = SbAt z) ∧ fs_frozen s = upd f d (f d + 1) else sb = SbUnset ∧ fs_frozen s = f) →
  (∀ d, 0 ≤ f d) →
  wp (_thaw_bdev d sb) s (λ _ s', trackers s' = trackers s ∧ areas s' = areas s ∧ devices s' = devices s ∧
    cbt_maps s' = cbt_maps s ∧ broken s' = broken s || negb b ∧ ∀ d, fs_frozen s' d = f d).
Proof.
  intros Hb Hp. destruct b.
  - destruct Hb as [[z ->] Hf]. eapply wp_mono; [by apply (thaw_super d (SbAt z) f)|].
    intros [] s' [(w & g & ->) Hf']. cbn. by rewrite orb_false_r.
  - destruct Hb as [-> Hf]. cbn [_thaw_bdev]. unfold broken_pointer. wp_steps. cbn. rewrite orb_true_r.
    split_and!; try done. intros d'. by rewrite Hf.
Qed.

Lemma all_ready_none s l : all_ready s (None :: l) → all_ready s l.
Proof.
  intros [H1 H2 H3]. split; [|done|].
  - intros u Hu. apply H1, elem_of_cons. by right.
  - intros t1 t2 tr1 tr2 Ht1 Ht2. apply H3; apply elem_of_cons; by right.
Qed.

Lemma origs_tail s O o l : Simultaneous.origs s O (o :: l) → Simultaneous.origs s O l.
Proof. intros H t Ht. apply H, elem_of_cons. by right. Qed.

Lemma origs_marked s s' O b l0 l :
  trackers s' = marks b l0 (trackers s) → areas s' = areas s → Simultaneous.origs s O l → Simultaneous.origs s' O l.
Proof.
  intros Et Ea Ho t Ht. rewrite <- (Ho t Ht). unfold tracker_orig. rewrite Et, Ea, marks_lookup.
  case_bool_decide; [|done]. by destruct (trackers s !! t).
Qed.

Lemma sb_take_loop_spec O l dn s :
  all_ready s l → Simultaneous.origs s O l → (∀ d, 0 ≤ fs_frozen s d) →
  wp (sb_take_loop dn l) s (λ '(dn', ret) s', sb_taken_until O s l dn dn' ret s').
Proof.
  revert dn s. induction l as [|o l IH]; intros dn s Hr Ho Hp; cbn [sb_take_loop].
  { wp_steps. exists [], [], false. rewrite orb_false_r. split_and!; try done. apply unset_read_nil. }
  destruct o as [t|].
  2:{ eapply wp_mono; [apply IH; [by apply all_ready_none|by eapply origs_tail|done]|].
      intros [dn' ret] s' H. eapply (sb_taken_until_cons _ _ _ _ _ _ _ _ _ false); [..|exact H]; try done.
      - by rewrite orb_false_r.
      - intros l1 u. apply unset_read_none. }
  destruct (ar_take _ _ Hr t) as [tr Hc]; [apply elem_of_cons; by left|].
  wp_step. wp_step. rewrite (Ho t) by (apply elem_of_cons; by left). wp_step.
  eapply wp_mono; [apply freeze_super|]. intros [r sb] s1 (Hf1%froze_calm & b & Hb & Hsure & _ & Hsb).
  pose proof (all_ready_calm _ _ _ Hf1 Hr) as Hr1. destruct Hf1 as [Et1 Ea1 Ed1 Em1 Eb1]. wp_step.
  assert (Hc1 : can_take s1 t tr) by (eapply can_take_ext; [..|exact Hc]; intros; congruence).
  eapply wp_mono; [by apply tracker_take_spec|]. intros ret s2 [Et2 Ea2 Ed2 Ef2 Eb2 Em2].
  destruct (Z.eqb_spec ret 0) as [->|Hne]; cbn [negb].
  2:{ wp_steps. exists [], (Some t :: l), false. rewrite orb_false_r. split_and!; try done; try congruence.
      - apply unset_read_nil.
      - by rewrite Et2, Et1. }
  wp_step. eapply wp_mono; [apply (thaw_maybe_unset _ sb b (fs_frozen s)); [by rewrite Ef2|done]|].
  intros [] s3 (Et3 & Ea3 & Ed3 & Em3 & Eb3 & Ef3).
  assert (Et : trackers s3 = marks true [Some t] (trackers s)) by by rewrite Et3, Et2, Et1.
  eapply wp_mono; [apply IH|].
  - eapply all_ready_next; [exact Hr1|apply Hc1|..]; try congruence. intros q Hq. rewrite Em3. by apply Em2.
  - eapply origs_marked; [exact Et|congruence|by eapply origs_tail].
  - intros d. by rewrite Ef3.
  - intros [dn' ret] s' H. eapply (sb_taken_until_cons _ _ _ _ _ _ _ _ _ (negb b)); [..|exact H]; try done; try congruence.
    intros l1 u. by apply unset_read_cons.
Qed.

Lemma sb_untake_spec l s :
  (∀ t, Some t ∈ l → can_untake s t) →
  wp (each sb_untake_tracker l) s (λ _ s', trackers s' = marks false l (trackers s) ∧ areas s' = areas s).
Proof.
  revert s. induction l as [|o l IH]; intros s Hu; cbn [each]; [by wp_steps|]. wp_step.
  apply wp_mono with (P := λ _ s', trackers s' = marks false [o] (trackers s) ∧ areas s' = areas s).
  { destruct o as [t|]; cbn [sb_untake_tracker]; [|by wp_steps].
    destruct (can_untake_orig s t) as (tr & d & Ht & Hl & Ho); [apply Hu, elem_of_cons; by left|].
    wp_step. wp_step. rewrite Ho. wp_step. eapply wp_mono; [apply freeze_super|].
    intros [r sb] s1 ((w & f & ->) & _). wp_step. eapply wp_mono; [by eapply tracker_release_spec|].
    intros [] s2 ->. destruct sb; cbn [_thaw_bdev]; [by unfold broken_pointer; wp_steps|by wp_steps|].
    wp_step. eapply wp_mono; [apply sb_thaw_ok|]. intros r' s3 ((w3 & f3 & ->) & _). by wp_steps. }
  intros [] s1 (Et & Ea). eapply wp_mono; [apply IH|].
  - intros t Ht. eapply can_untake_marks; [done..|]. apply Hu, elem_of_cons. by right.
  - intros [] s2 (Et2 & Ea2). split; [by rewrite Et2, Et, <- marks_app|congruence].
Qed.

(** With super blocks, a snapshot of a device without a mounted file system is
    taken by reading a variable that has no value. Over devices whose trackers are
    ready, [snapshot_take_trackers] (one device after the other) still takes every
    tracker or none, and a success leaves no file system frozen; but when it succeeds
    and one of the devices has no super block, [_thaw_bdev] has been given the [sb]
    that [_freeze_bdev] did not set. When every device has one and none fails to freeze,
    every variable that is read has a value. *)
Theorem super_take_reads_unset O p x s :
  all_ready s (used x (tracker_array x)) → Simultaneous.origs s O (used x (tracker_array x)) →
  (∀ d, 0 ≤ fs_frozen s d) →
  wp (sb_take_trackers p x) s (λ ret s', areas s' = areas s ∧
    if ret =? 0 then
      trackers s' = marks true (used x (tracker_array x)) (trackers s) ∧
      (∀ d, fs_frozen s' d = fs_frozen s d) ∧
      (∀ x', snapshot_objs s' !! p = Some x' → is_taken x' = true) ∧
      (∀ t, Some t ∈ used x (tracker_array x) → bd_super (O t) = false → broken s' = true) ∧
      (sure → (∀ t, Some t ∈ used x (tracker_array x) → bd_super (O t) = true) → broken s' = broken s)
    else ∃ t, Some t ∈ used x (tracker_array x) ∧ trackers s' = alter set_lock t (trackers s)).
Proof.
  unfold sb_take_trackers. generalize (used x (tracker_array x)) as l. intros l Hr Ho Hp. wp_step.
  eapply wp_mono; [by apply (sb_take_loop_spec O)|].
  intros [dn ret] s1 (l1 & l2 & u & El & -> & Ea & [Hu1 Hu2] & Eb & H). rewrite app_nil_r.
  destruct l2 as [|[t|] l2]; [| |done].
  - destruct H as (-> & Et & Ef). rewrite app_nil_r in El. subst l1. cbn [Z.eqb]. unfold mod_snapshot.
    wp_run_steps. cbn [Z.eqb]. split_and!; try done.
    + intros x'. rewrite lookup_alter_eq. destruct (snapshot_objs s1 !! p); [|done]. by intros [= <-].
    + intros t Ht Hb. rewrite Eb, (Hu1 t Ht Hb). apply orb_true_r.
    + intros Hs Hall. by rewrite Eb, Hu2, orb_false_r.
  - destruct H as (Hne & Et). rewrite (proj2 (Z.eqb_neq _ _) Hne). destruct Hr as [Hc Hn _]. rewrite El in *.
    assert (Hin : ∀ u, Some u ∈ l1 → Some u ∈ l1 ++ Some t :: l2) by (intros; apply elem_of_app; by left).
    assert (Ht : Some t ∉ l1) by by eapply not_before.
    wp_step. eapply wp_mono; [apply sb_untake_spec|].
    + intros v Hv. rewrite elem_of_reverse in Hv.
      eapply can_untake_marked; [exact Ht|exact Hv|exact Et|exact Ea|by apply Hc, Hin].
    + intros [] s2 (Et2 & Ea2). wp_steps. rewrite (proj2 (Z.eqb_neq _ _) Hne). split; [congruence|].
      exists t. split; [apply elem_of_app; right; apply elem_of_cons; by left|].
      rewrite Et2, Et. apply marks_undone; [done|]. intros u' tr Hv Htr.
      destruct (Hc u' (Hin u' Hv)) as [tr' [Hv1 _ Hv2 _ _]]. congruence.
Qed.

(** ** All devices at once *)

Lemma origs_froze s s' O l : froze s s' → Simultaneous.origs s O l → Simultaneous.origs s' O l.
Proof. intros (w & f & ->) H. exact H. Qed.

(** The first loop freezes the device of every tracker that [F] selects. *)
Lemma simsb_freeze_spec c O l sbs s :
  (length l ≤ length sbs)%nat → NoDup (omap id l) → Simultaneous.origs s O l →
  wp (simsb_freeze c l sbs) s (λ sbs' s', froze s s' ∧ length sbs' = length sbs ∧
    ∃ F, (∀ t, Some t ∈ l → bd_super (O t) = false → F t = false) ∧
      (sure → ∀ t, Some t ∈ l → F t = bd_super (O t)) ∧
      ∀ d, fs_frozen s' d = fs_frozen s d + Simultaneous.freezes F O l d).
Proof.
  revert sbs s. induction l as [|o l IH]; intros sbs s Hl Hn Ho; cbn [simsb_freeze].
  { wp_steps. split; [apply froze_refl|]. split; [done|]. exists (λ _, false). split_and!; try done.
    - intros _ t H. by apply elem_of_nil in H.
    - intros d. cbn. lia. }
  destruct sbs as [|sb sbs]; [cbn in Hl; lia|]. pose proof (origs_tail _ _ _ _ Ho) as Ho'. cbn in Hl. wp_step.
  apply wp_mono with (P := λ _ s1, froze s s1 ∧ ∃ F1, (∀ t, o = Some t → bd_super (O t) = false → F1 = false) ∧
    (sure → ∀ t, o = Some t → F1 = bd_super (O t)) ∧
    ∀ d, fs_frozen s1 d = fs_frozen s d + Simultaneous.freezes (λ _, F1) O [o] d).
  { destruct o as [t|]; cbn [simsb_freeze_tracker].
    2:{ wp_steps. split; [apply froze_refl|]. exists false. split_and!; try done. intros d. cbn. lia. }
    wp_step. wp_step. rewrite (Ho t) by (apply elem_of_cons; by left). wp_step.
    eapply wp_mono; [apply freeze_super|]. intros [r sb'] s1 (Hf1 & b & Hb & Hs & _ & Hsb). wp_steps.
    split; [done|]. exists b. split_and!.
    - intros t' [= <-] E. destruct b; [by rewrite Hb in E|done].
    - by intros H t' [= <-]; apply Hs.
    - intros d. cbn. destruct b; cbn [andb]; destruct Hsb as [_ ->]; [|lia].
      destruct (Z.eqb_spec (O t) d) as [->|Hd]; [rewrite upd_eq; lia|rewrite upd_ne by done; lia]. }
  intros sb' s1 (Hf1 & F1 & HF1 & HS1 & Hd1). wp_step. eapply wp_mono; [apply IH|].
  - lia.
  - destruct o; [by apply NoDup_cons in Hn as [_ Hn]|done].
  - by eapply origs_froze.
  - intros sbs' s2 (Hf2 & Hl2 & F & HF & HS & Hd2). wp_steps. split; [by eapply froze_trans|].
    split; [cbn; lia|]. destruct o as [t|].
    2:{ exists F. split_and!.
        - intros t [[=]|Ht]%elem_of_cons. by apply HF.
        - intros Hs t [[=]|Ht]%elem_of_cons. by apply HS.
        - intros d. rewrite Hd2, Hd1. cbn. lia. }
    cbn in Hn. apply NoDup_cons in Hn as [Hnt _].
    assert (Hne : ∀ u, Some u ∈ l → u ≠ t).
    { intros u Hu ->. apply Hnt, list_elem_of_omap. by exists (Some t). }
    exists (λ u, if decide (u = t) then F1 else F u). split_and!.
    + intros u Hu. case_decide as E; [subst; by apply HF1|]. apply elem_of_cons in Hu as [[=]|Hu]; [done|]. by apply HF.
    + intros Hs u Hu. case_decide as E; [subst; by apply HS1|]. apply elem_of_cons in Hu as [[=]|Hu]; [done|]. by apply HS.
    + intros d. rewrite Hd2, Hd1. cbn [Simultaneous.freezes]. rewrite decide_True by done.
      rewrite (Simultaneous.freezes_ext (λ u, if decide (u = t) then F1 else F u) F)
        by (intros u Hu; by rewrite decide_False by auto). cbn. lia.
Qed.

(** The last loop does nothing: nobody has set [is_frozen]. *)
Lemma simsb_thaw_skips c O l sbs s :
  (length l ≤ length sbs)%nat → Simultaneous.origs s O l →
  (∀ t, Some t ∈ l → ∃ tr, trackers s !! t = Some tr ∧ is_frozen tr = false) →
  wp (simsb_thaw c l sbs) s (λ _ s', s' = s).
Proof.
  revert sbs. induction l as [|o l IH]; intros sbs Hl Ho Ht; cbn [simsb_thaw]; [by wp_steps|].
  destruct sbs as [|sb sbs]; cbn in Hl; [lia|]. wp_step. apply wp_mono with (P := λ _ s', s' = s).
  - destruct o as [t|]; cbn [simsb_thaw_tracker]; [|by wp_steps].
    destruct (Ht t) as (tr & Etr & Ef); [apply elem_of_cons; by left|].
    unfold get_tracker. wp_step. wp_step. rewrite Etr. wp_step. wp_step.
    rewrite (Ho t) by (apply elem_of_cons; by left). rewrite Ef. by wp_steps.
  - intros [] s' ->. apply IH; [lia|by eapply origs_tail|]. intros t H. apply Ht, elem_of_cons. by right.
Qed.

(** With super blocks, freezing all devices at once leaves the file systems frozen.
    Over devices whose trackers are ready, on a kernel that never fails to freeze,
    [snapshot_take_trackers] (without BLK_SNAP_SEQUENTALFREEZE) takes every tracker or
    none; in both cases the file system of every tracker whose device has a super block
    is frozen once more than before: the thaw loop asks for [is_frozen], which only the
    other kind of [freeze_bdev] sets. *)
Theorem super_simultaneous_stays_frozen O p x sbs s :
  all_ready s (used x (tracker_array x)) → Simultaneous.origs s O (used x (tracker_array x)) →
  (∀ t tr, Some t ∈ used x (tracker_array x) → trackers s !! t = Some tr → is_frozen tr = false) →
  (length (used x (tracker_array x)) ≤ length sbs)%nat → sure →
  wp (simsb_take_trackers p x sbs) s (λ '(ret, _) s', broken s' = broken s ∧
    (∀ d, fs_frozen s' d = fs_frozen s d +
       Simultaneous.freezes (λ t, bd_super (O t)) O (used x (tracker_array x)) d) ∧
    if ret =? 0 then ∀ t, Some t ∈ used x (tracker_array x) → trackers s' !! t = set_taken true <$> trackers s !! t
    else ∃ t, Some t ∈ used x (tracker_array x) ∧ ∀ u, trackers s' !! u = alter set_lock t (trackers s) !! u).
Proof.
  unfold simsb_take_trackers. set (l := used x (tracker_array x)). clearbody l. intros Hr Ho Hz Hl Hsure.
  wp_step. eapply wp_mono; [apply (simsb_freeze_spec _ O); [done|apply Hr|done]|].
  intros sbs' s1 (Hf1 & Hl1 & F & _ & HF & Hd1). pose proof (froze_calm _ _ Hf1) as Hc1.
  pose proof (all_ready_calm _ _ _ Hc1 Hr) as Hr1. wp_step.
  eapply wp_mono; [by apply (Simultaneous.take_or_undo_spec p)|]. intros [dn ret] s1' Hmid. wp_step.
  eapply wp_mono; [exact Hmid|]. intros _ s2 (Ea2 & Eb2 & Hd2 & f & Hfc & HM2 & He). wp_step.
  rewrite (ca_trackers _ _ Hc1) in HM2. eapply wp_mono; [apply (simsb_thaw_skips _ O)|].
  - lia.
  - intros t Ht. rewrite <- (Ho t Ht). apply Simultaneous.tracker_orig_flags with (f := f t);
      [by destruct (Hfc t)|done|]. by rewrite Ea2, (ca_areas _ _ Hc1).
  - intros t Ht. rewrite HM2. destruct (ar_take _ _ Hr t Ht) as [tr [H _ _ _ _]]. rewrite H. cbn.
    eexists. split; [done|]. specialize (Hz t tr Ht H). destruct (Hfc t), tr; cbn in *; by subst.
  - intros [] s3 ->. wp_steps. split; [by rewrite Eb2, (ca_broken _ _ Hc1)|]. split.
    { intros d. rewrite Hd2, Hd1. f_equal. apply Simultaneous.freezes_ext. by apply HF. }
    unfold Simultaneous.take_effect in He. destruct (ret =? 0).
    + destruct He as [Hft _]. intros t Ht. by rewrite HM2, Hft, bool_decide_eq_true_2.
    + destruct He as (t & Ht & Hft). exists t. split; [done|]. intros u. rewrite HM2, Hft.
      case_decide as Hu; [subst; by rewrite lookup_alter_eq|by rewrite lookup_alter_ne, option_fmap_id].
Qed.

(** Releasing the trackers of a snapshot in this variant freezes their file systems
    once more, too. *)
Lemma super_simultaneous_release_freezes O x sbs s :
  NoDup (omap id (used x (tracker_array x))) → Simultaneous.origs s O (used x (tracker_array x)) →
  (∀ o, o ∈ used x (tracker_array x) → ∃ t tr, o = Some t ∧ can_untake s t ∧
     trackers s !! t = Some tr ∧ is_frozen tr = false) →
  (length (used x (tracker_array x)) ≤ length sbs)%nat → sure →
  wp (simsb_release_trackers x sbs) s (λ _ s',
    trackers s' = marks false (used x (tracker_array x)) (trackers s) ∧ broken s' = broken s ∧
    ∀ d, fs_frozen s' d = fs_frozen s d +
      Simultaneous.freezes (λ t, bd_super (O t)) O (used x (tracker_array x)) d).
Proof.
  unfold simsb_release_trackers. set (l := used x (tracker_array x)). clearbody l. intros Hn Ho Hu Hl Hsure.
  wp_step. eapply wp_mono; [by apply (simsb_freeze_spec _ O)|].
  intros sbs' s1 ((w & g & ->) & Hl1 & F & _ & HF & Hd1). wp_step.
  eapply wp_mono; [apply Simultaneous.release_each_spec|].
  { intros o Hin. destruct (Hu o Hin) as (t & tr & -> & Hcu & _). by exists t. }
  intros [] s2 (M & -> & EM). wp_step. eapply wp_mono; [apply (simsb_thaw_skips _ O)|].
  - lia.
  - by eapply origs_marked with (s := s) (b := false) (l0 := l).
  - intros t Ht. destruct (Hu _ Ht) as (t' & tr & [= <-] & _ & Htr & Hz). cbn. rewrite EM, marks_lookup.
    rewrite bool_decide_eq_true_2 by done. cbn. rewrite Htr. cbn. by eexists.
  - intros [] s3 ->. wp_steps. cbn in *. split_and!; [done..|]. intros d. rewrite Hd1. f_equal.
    apply Simultaneous.freezes_ext. by apply HF.
Qed.
End proofs.

(** A snapshot that cannot be created leaves nothing behind in this variant either, and
    a new one has an empty super block for each of its entries. *)
Lemma simsb_snapshot_new_no_leak count s :
  wp (simsb_snapshot_new count) s (λ r s',
    match r with
    | Err e => e = - ENOMEM ∧ snaps s' = snaps s ∧ storages s' = storages s ∧ broken s' = broken s ∧
        ∀ t, memory_counter (w_mem (mkern s')) t = memory_counter (w_mem (mkern s)) t
    | Ok (p, sbs) =>
        p = next_ptr s + 1 ∧ sbs = replicate (Z.to_nat count) SbNull ∧ links s' = <[p := (p, p)]> (links s) ∧
        broken s' = broken s ∧ ∃ id d, storages s' = <[next_ptr s := d]> (storages s) ∧
          snapshot_objs s' = <[p := new_snapshot id (next_ptr s) count]> (snapshot_objs s)
    end).
Proof.
  unfold simsb_snapshot_new, in_kern. wp_run_steps. apply wp_alloc. intros ok vs.
  destruct ok; cbn [negb]; wp_run_steps; [|by split_and!].
  do 3 (apply wp_alloc; intros ok ?; destruct ok; cbn [negb when]; wp_run_steps; [|split_and!; try done; balanced]).
  eapply wp_mono; [apply diff_storage_new_Some|]. intros d w Hd.
  destruct d as [d|]; cbn [when]; wp_run_steps; [|split_and!; try done; rewrite ?Hd; balanced].
  unfold new_ptr, INIT_LIST_HEAD. wp_run_steps. apply wp_oracle. intros id ?. wp_run_steps.
  split_and!; try done. by exists id, d.
Qed.

(** ** Kernels that keep the promise *)

(** File systems are mounted on the devices that [mounted] selects, and can be frozen. *)
Definition mounted_kernel (mounted : Z → bool) : SuperKernel := {|
  bd_super := mounted;
  sb_freeze d :=
    modify (λ s, {| s with fs_frozen := upd (fs_frozen s) d (fs_frozen s d + 1) |});; mret (Ok (Some d));
  sb_thaw d _ := thaw_bdev d;
|}.

#[export] Instance mounted_kernel_ok mounted : SuperKernelOk (mounted_kernel mounted).
Proof.
  split.
  - intros d s _. cbn. wp_run_steps. split; [|done]. by eexists _, _.
  - intros d z s. cbn. unfold thaw_bdev. wp_steps. destruct (Z.eqb_spec (fs_frozen s d) 0); wp_steps.
    + split; [apply froze_refl|done].
    + split; [|done]. by eexists (mkern s), _.
Qed.

Lemma mounted_kernel_sure mounted : sure (K := mounted_kernel mounted).
Proof. intros d s _. cbn. wp_run_steps. by exists d. Qed.

Lemma ex_one_origs : Simultaneous.origs (ex_tracked false ex_map1 500 []) (λ _, 1) (used ex_one (tracker_array ex_one)).
Proof. intros t ->%ex_one_used. reflexivity. Qed.

(** A device without a file system. *)
Lemma super_take_reads_unset_witness :
  let s := ex_tracked false ex_map1 500 [] in
  let K := mounted_kernel (λ _, false) in
  (sb_take_trackers 2 ex_one s).1 = 0 ∧ broken s = false ∧ broken (sb_take_trackers 2 ex_one s).2 = true.
Proof.
  intros s K. assert (E : (sb_take_trackers 2 ex_one s).1 = 0) by (vm_compute; reflexivity).
  pose proof (super_take_reads_unset (K := K) (λ _, 1) 2 ex_one s ex_one_ready ex_one_origs ltac:(done)) as H.
  unfold wp in H. rewrite E in H. destruct H as (_ & _ & _ & _ & H & _). split; [exact E|]. split; [reflexivity|].
  apply (H 100); [by apply list_elem_of_singleton|reflexivity].
Defined.

(** A device with one. *)
Lemma super_simultaneous_stays_frozen_witness :
  let s := ex_tracked false ex_map1 500 [] in
  let K := mounted_kernel (λ _, true) in
  (simsb_take_trackers 2 ex_one [SbNull] s).1.1 = 0 ∧ fs_frozen s 1 = 0 ∧
  fs_frozen (simsb_take_trackers 2 ex_one [SbNull] s).2 1 = 1.
Proof.
  intros s K. assert (E : (simsb_take_trackers 2 ex_one [SbNull] s).1.1 = 0) by (vm_compute; reflexivity).
  assert (Hz : ∀ t tr, Some t ∈ used ex_one (tracker_array ex_one) → trackers s !! t = Some tr → is_frozen tr = false).
  { intros t tr ->%ex_one_used [= <-]. reflexivity. }
  pose proof (super_simultaneous_stays_frozen (K := K) (λ _, 1) 2 ex_one [SbNull] s ex_one_ready ex_one_origs Hz
    (le_n 1) (mounted_kernel_sure _)) as H.
  unfold wp in H. split; [exact E|]. split; [reflexivity|]. destruct (simsb_take_trackers _ _ _ _) as [[ret l] s'].
  destruct H as (_ & H & _). exact (H 1).
Defined.
