(* ===== verification/Main.v ===== *)
(** * The control device (main.c)

    The ioctls of [/dev/blksnap-control], their dispatch, and the module's
    initialisation and exit. The memory at the argument is given as the structure
    each command reads there. The configuration has BLK_SNAP_MODIFICATION and
    BLK_SNAP_FILELOG, and not BLK_SNAP_DEBUG_SECTOR_STATE. *)
From S2P Require Import Prelude MemoryChecker Kernel Log Uapi EventQueue CbtMap DiffBuffer DiffIo.
From S2P Require Import DiffStorage Chunk DiffArea ChunkSpecs CowInv Cow CowSteps CowImage.
From S2P Require Import CowSafety State BdevFilter SnapImage Tracker Snapshot.

(** The module: its objects, the log, [diff_io_bioset] and the control device. *)
Record module := Module {
  md_mod : modst;
  md_log : logst;
  md_bioset : bool;
  md_misc : bool;
}.

Notation IO := (M module).

Definition on_mod {A} (m : G A) : IO A := zoom md_mod (λ x s, {| s with md_mod := x |}) m.
Definition on_log {A} (m : L A) : IO A := zoom md_log (λ x s, {| s with md_log := x |}) m.
Definition on_k {A} (m : K A) : IO A := on_mod (in_kern m).

(** The memory at [arg], as every structure that may be read from there. *)
Record user_arg := UserArg {
  u_tracker_remove : blk_snap_tracker_remove;
  u_tracker_collect : blk_snap_tracker_collect;
  u_read_cbt_bitmap : blk_snap_tracker_read_cbt_bitmap;
  u_mark_dirty_blocks : blk_snap_tracker_mark_dirty_blocks;
  u_create : blk_snap_snapshot_create;
  u_destroy : blk_snap_snapshot_destroy;
  u_append_storage : blk_snap_snapshot_append_storage;
  u_take : blk_snap_snapshot_take;
  u_collect : blk_snap_snapshot_collect;
  u_collect_images : blk_snap_snapshot_collect_images;
  u_event : blk_snap_snapshot_event;
  u_setlog : blk_snap_setlog;
}.

(** What a command copies back to user space. *)
Inductive reply : Type :=
  | NoReply
  | RVersion (v : blk_snap_version)
  | RCbtInfo (count : Z) (infos : list blk_snap_cbt_info)
  | RBitmap (bytes : list Z)
  | RSnapshotId (id : Z)
  | RSnapshotIds (count : Z) (ids : list Z)
  | RImages (count : Z) (infos : list blk_snap_image_info)
  | REvent (e : blk_snap_snapshot_event)
  | RModification (compatibility_flags : Z).

(** [copy_from_user] and [copy_to_user] of [size] bytes, when they must be whole. *)
Definition copy_whole (size : Z) : IO bool := left ← on_k (copy_user size); mret (left =? 0).

Section params.
Context {P : ModuleParams}.
Context (text_start text_stop : list Z).

(** A code and a reply; no code when the value returned is undefined. *)
Definition answer : Type := option Z * reply.
Definition code (ret : Z) : answer := (Some ret, NoReply).

Definition version : blk_snap_version := {| v_major := 1; v_minor := 0; v_revision := 0; v_build := 0 |}.

Definition ioctl_version (arg : user_arg) : IO answer :=
  ok ← copy_whole 8;
  mret (if (ok : bool) then (Some 0, RVersion version) else code (- ENODATA)).

Definition ioctl_tracker_remove (arg : user_arg) : IO answer :=
  ok ← copy_whole 8;
  if negb ok then mret (code (- ENODATA))
  else
    let d := tr_remove_dev_id (u_tracker_remove arg) in
    ret ← on_mod (tracker_remove (MKDEV (mj d) (mn d)));
    mret (ret, NoReply).

Definition ioctl_tracker_collect (arg : user_arg) : IO answer :=
  ok ← copy_whole 16;
  if negb ok then mret (code (- ENODATA))
  else
    let karg := u_tracker_collect arg in
    if negb (tc_cbt_info_array karg) then
      '(res, count, _) ← on_mod (tracker_collect None);
      if negb (res =? 0) then mret (code res)
      else
        ok ← copy_whole 16;
        mret (if (ok : bool) then (Some 0, RCbtInfo (default (tc_count karg) count) []) else code (- ENODATA))
    else
      ok ← on_k alloc;
      if negb ok then mret (code (- ENOMEM))
      else
        on_k (memory_object_inc memory_object_blk_snap_cbt_info);;
        '(res, count, infos) ← on_mod (tracker_collect (Some (tc_count karg)));
        let count := default (tc_count karg) count in
        r ← (if negb (res =? 0) then mret (code res)
             else
               ok ← copy_whole (count * 48);
               if negb ok then mret (code (- ENODATA))
               else
                 ok ← copy_whole 16;
                 mret (if (ok : bool) then (Some 0, RCbtInfo count infos) else code (- ENODATA)));
        on_k (memory_object_dec memory_object_blk_snap_cbt_info);;
        mret r.

Definition ioctl_tracker_read_cbt_map (arg : user_arg) : IO answer :=
  ok ← copy_whole 24;
  if negb ok then mret (code (- ENODATA))
  else
    let karg := u_read_cbt_bitmap arg in
    r ← on_mod (tracker_read_cbt_bitmap (MKDEV (mj (rc_dev_id karg)) (mn (rc_dev_id karg)))
                  (rc_offset karg) (rc_length karg));
    mret (match r with Some (ret, bytes) => (Some ret, RBitmap bytes) | None => (None, NoReply) end).

Definition mark_dirty_blocks (dev_id : Z) (dirty_blks : list blk_snap_block_range) : G (option Z) :=
  ret ← snapshot_mark_dirty_blocks dev_id dirty_blks;
  if ret =? - ENODEV then tracker_mark_dirty_blocks dev_id dirty_blks else mret (Some ret).

Definition ioctl_tracker_mark_dirty_blocks (arg : user_arg) : IO answer :=
  ok ← copy_whole 24;
  if negb ok then mret (code (- ENODATA))
  else
    let karg := u_mark_dirty_blocks arg in
    ok ← on_k alloc;
    if negb ok then mret (code (- ENOMEM))
    else
      on_k (memory_object_inc memory_object_blk_snap_block_range);;
      ok ← copy_whole (lenZ (dirty_blocks_array karg) * 16);
      ret ← (if (ok : bool)
             then on_mod (mark_dirty_blocks (MKDEV (mj (md_dev_id karg)) (mn (md_dev_id karg)))
                            (dirty_blocks_array karg))
             else mret (Some (- ENODATA)));
      on_k (memory_object_dec memory_object_blk_snap_block_range);;
      mret (ret, NoReply).

Definition ioctl_snapshot_create (arg : user_arg) : IO answer :=
  ok ← copy_whole 32;
  if negb ok then mret (code (- ENODATA))
  else
    let devs := dev_id_array (u_create arg) in
    ok ← on_k alloc;
    if negb ok then mret (code (- ENOMEM))
    else
      on_k (memory_object_inc memory_object_blk_snap_dev);;
      ok ← copy_whole (lenZ devs * 8);
      r ← (if negb ok then mret (code (- ENODATA))
           else
             c ← on_mod (snapshot_create devs);
             match c with
             | None => mret (None, NoReply)
             | Some (ret, id) =>
                 if negb (ret =? 0) then mret (code ret)
                 else
                   ok ← copy_whole 32;
                   mret (if (ok : bool) then (Some 0, RSnapshotId id) else code (- ENODATA))
             end);
      on_k (memory_object_dec memory_object_blk_snap_dev);;
      mret r.

Definition ioctl_snapshot_destroy (arg : user_arg) : IO answer :=
  ok ← copy_whole 16;
  if negb ok then mret (code (- ENODATA))
  else ret ← on_mod (snapshot_destroy (sd_id (u_destroy arg))); mret (code ret).

Definition ioctl_snapshot_append_storage (arg : user_arg) : IO answer :=
  ok ← copy_whole 40;
  if negb ok then mret (code (- EINVAL))
  else
    let karg := u_append_storage arg in
    ret ← on_mod (snapshot_append_storage (as_id karg) (as_dev_id karg) (as_ranges karg));
    mret (code ret).

Definition ioctl_snapshot_take (arg : user_arg) : IO answer :=
  ok ← copy_whole 16;
  if negb ok then mret (code (- ENODATA))
  else ret ← on_mod (snapshot_take (sk_id (u_take arg))); mret (ret, NoReply).

(** The event and its copy to user space. An event that is larger than the array is
    copied beyond its end ([broken]). *)
Definition send_event (id : Z) (e : event) : IO answer :=
  let too_big := EVENT_DATA_SIZE <? ev_data_size e in
  when too_big (on_mod broken_pointer);;
  on_k (event_free (Some e));;
  ok ← copy_whole 4096;
  mret (if (ok : bool)
        then (Some (if too_big then - ENOSPC else 0),
              REvent {| se_id := id; timeout_ms := 0; se_code := ev_code e;
                        time_label := ev_time e; se_data := Some (ev_data e) |}) : answer
        else code (- EINVAL)).

(** Only the id is copied from user space. *)
Definition ioctl_snapshot_wait_event (arg : user_arg) : IO answer :=
  ok ← on_k alloc;
  if negb ok then mret (code (- ENOMEM))
  else
    on_k (memory_object_inc memory_object_blk_snap_snapshot_event);;
    ok ← copy_whole 16;
    r ← (if negb ok then mret (code (- EINVAL))
         else
           e ← on_mod (snapshot_wait_event (se_id (u_event arg)));
           match e with
           | Err e => mret (code e)
           | Ok e => send_event (se_id (u_event arg)) e
           end);
    on_k (memory_object_dec memory_object_blk_snap_snapshot_event);;
    mret r.

Definition ioctl_snapshot_collect (arg : user_arg) : IO answer :=
  ok ← copy_whole 16;
  if negb ok then mret (code (- ENODATA))
  else
    let karg := u_collect arg in
    '(ret, count, ids) ← on_mod (snapshot_collect (sc_count karg) (sc_ids karg));
    ok ← copy_whole 16;
    mret (if (ok : bool) then (Some ret, RSnapshotIds count ids) else code (- ENODATA)).

Definition ioctl_snapshot_collect_images (arg : user_arg) : IO answer :=
  ok ← copy_whole 32;
  if negb ok then mret (code (- ENODATA))
  else
    let karg := u_collect_images arg in
    '(ret, count, infos) ← on_mod (snapshot_collect_images (sci_id karg) (sci_count karg)
                                     (sci_image_info_array karg));
    ok ← copy_whole 32;
    mret (if (ok : bool) then (Some ret, RImages (default (sci_count karg) count) infos)
          else code (- ENODATA)).

Definition blk_snap_ioctl_table : list (user_arg → IO answer) :=
  [ ioctl_version; ioctl_tracker_remove; ioctl_tracker_collect; ioctl_tracker_read_cbt_map;
    ioctl_tracker_mark_dirty_blocks; ioctl_snapshot_create; ioctl_snapshot_destroy;
    ioctl_snapshot_append_storage; ioctl_snapshot_take; ioctl_snapshot_collect;
    ioctl_snapshot_collect_images; ioctl_snapshot_wait_event ].

(** ** The commands of the standalone modification *)

Definition ioctl_mod (arg : user_arg) : IO answer :=
  ok ← copy_whole 40;
  mret (if (ok : bool) then (Some 0, RModification (Z.shiftl 1 blk_snap_compat_flag_setlog))
        else code (- ENODATA)).

(** The level is unsigned, so that the comparison with 0 never holds; it is then
    converted to [int]. *)
Definition s32 (x : Z) : Z := if x <? 2 ^ 31 then x else x - 2 ^ 32.
Definition ioctl_setlog (arg : user_arg) : IO answer :=
  ok ← copy_whole 24;
  if negb ok then mret (code (- ENODATA))
  else
    let karg := u_setlog arg in
    match sl_filepath karg with
    | None => ret ← on_log (log_restart text_start text_stop (-1) None 0); mret (code ret)
    | Some path =>
        if lenZ path =? 0 then mret (code (- EINVAL))
        else
          ok ← on_log (lg_on alloc);
          if negb ok then mret (code (- ENOMEM))
          else
            on_log (lg_on (memory_object_inc memory_object_log_filepath));;
            ok ← copy_whole (lenZ path);
            if negb ok then
              on_log (lg_on (memory_object_dec memory_object_log_filepath));;
              mret (code (- ENODATA))
            else
              ret ← on_log (log_restart text_start text_stop (s32 (sl_level karg)) (Some path)
                              (tz_minuteswest karg));
              mret (code ret)
    end.

Definition ioctl_get_sector_state (arg : user_arg) : IO answer := mret (code (- ENOTTY)).

Definition blk_snap_ioctl_table_mod : list (user_arg → IO answer) :=
  [ ioctl_mod; ioctl_setlog; ioctl_get_sector_state ].

(** [ctrl_unlocked_ioctl] for the command number [nr]; [None]: the function pointer
    is read from behind the table. *)
Definition ctrl_unlocked_ioctl (nr : Z) (arg : user_arg) : IO (option answer) :=
  if lenZ blk_snap_ioctl_table <? nr then
    if (IOCTL_MOD <=? nr) && (nr <? IOCTL_MOD + lenZ blk_snap_ioctl_table_mod) then
      match nthZ blk_snap_ioctl_table_mod (nr - IOCTL_MOD) with
      | Some f => r ← f arg; mret (Some r)
      | None => mret None
      end
    else mret (Some (code (- ENOTTY)))
  else
    match nthZ blk_snap_ioctl_table nr with
    | Some f => r ← f arg; mret (Some r)
    | None => mret None
    end.

(** ** Loading and unloading *)

Definition diff_io_init : IO Z :=
  v ← on_k oracle;
  if v =? 0 then modify (λ s, {| s with md_bioset := true |});; mret 0 else mret (- Z.abs v).
Definition diff_io_done : IO unit := modify (λ s, {| s with md_bioset := false |}).

Definition blk_snap_init : IO Z :=
  on_log log_init;;
  ret ← diff_io_init;
  if negb (ret =? 0) then on_log (log_done text_stop);; mret ret
  else
    ret ← on_mod tracker_init;
    if negb (ret =? 0) then diff_io_done;; on_log (log_done text_stop);; mret ret
    else
      v ← on_k oracle;
      if negb (v =? 0) then
        on_mod tracker_done;; diff_io_done;; on_log (log_done text_stop);; mret (- Z.abs v)
      else modify (λ s, {| s with md_misc := true |});; mret 0.

Definition blk_snap_exit : IO unit :=
  modify (λ s, {| s with md_misc := false |});;
  diff_io_done;;
  on_mod snapshot_done;;
  on_mod tracker_done;;
  on_log (log_done text_stop).
End params.

(** ** Dispatch *)

Section dispatch.
Context {P : ModuleParams} (text_start text_stop : list Z).

(** What each command of the interface means, and its number. *)
Definition handler (c : blk_snap_ioctl) : user_arg → IO answer :=
  match c with
  | blk_snap_ioctl_version => ioctl_version
  | blk_snap_ioctl_tracker_remove => ioctl_tracker_remove
  | blk_snap_ioctl_tracker_collect => ioctl_tracker_collect
  | blk_snap_ioctl_tracker_read_cbt_map => ioctl_tracker_read_cbt_map
  | blk_snap_ioctl_tracker_mark_dirty_blocks => ioctl_tracker_mark_dirty_blocks
  | blk_snap_ioctl_snapshot_create => ioctl_snapshot_create
  | blk_snap_ioctl_snapshot_destroy => ioctl_snapshot_destroy
  | blk_snap_ioctl_snapshot_append_storage => ioctl_snapshot_append_storage
  | blk_snap_ioctl_snapshot_take => ioctl_snapshot_take
  | blk_snap_ioctl_snapshot_collect => ioctl_snapshot_collect
  | blk_snap_ioctl_snapshot_collect_images => ioctl_snapshot_collect_images
  | blk_snap_ioctl_snapshot_wait_event => ioctl_snapshot_wait_event
  end.
Definition commands : list blk_snap_ioctl :=
  [ blk_snap_ioctl_version; blk_snap_ioctl_tracker_remove; blk_snap_ioctl_tracker_collect;
    blk_snap_ioctl_tracker_read_cbt_map; blk_snap_ioctl_tracker_mark_dirty_blocks;
    blk_snap_ioctl_snapshot_create; blk_snap_ioctl_snapshot_destroy;
    blk_snap_ioctl_snapshot_append_storage; blk_snap_ioctl_snapshot_take;
    blk_snap_ioctl_snapshot_collect; blk_snap_ioctl_snapshot_collect_images;
    blk_snap_ioctl_snapshot_wait_event ].
(** The commands of the modification have numbers of their own, from [IOCTL_MOD]. *)
Definition mod_handlers : list (user_arg → IO answer) :=
  [ ioctl_mod; ioctl_setlog text_start text_stop; ioctl_get_sector_state ].

Definition run_command (f : user_arg → IO answer) (arg : user_arg) : IO (option answer) :=
  r ← f arg; mret (Some r).

(** The numbers that mean a command. *)
Definition meaning (nr : Z) : option (user_arg → IO answer) :=
  if nr <? IOCTL_MOD then handler <$> nthZ commands nr else nthZ mod_handlers (nr - IOCTL_MOD).

(** C26: every command reaches its own handler. For every number an ioctl can
    carry but 12, [ctrl_unlocked_ioctl] runs the handler that the number means in
    [enum blk_snap_ioctl] (and in the enumeration of the modification), or, when it
    means none, returns -ENOTTY and changes nothing. The number 12, one past the
    end of the table, passes the check of the bound: the function pointer is read
    from behind the table. *)
Theorem ctrl_dispatch nr arg s :
  0 ≤ nr < 256 →
  ctrl_unlocked_ioctl text_start text_stop nr arg s =
    if nr =? lenZ commands then (None, s)
    else match meaning nr with
         | Some f => run_command f arg s
         | None => (Some (code (- ENOTTY)), s)
         end.
Proof.
  intros Hnr. unfold ctrl_unlocked_ioctl, meaning.
  assert (E : nr ∈ seqZ 0 35 ∨ 35 ≤ nr) by (rewrite elem_of_seqZ; lia). destruct E as [E|E].
  - vm_compute seqZ in E. repeat (apply elem_of_cons in E as [->|E]; [reflexivity|]).
    by apply elem_of_nil in E.
  - change (lenZ blk_snap_ioctl_table) with 12. change (lenZ commands) with 12.
    change (IOCTL_MOD + lenZ (blk_snap_ioctl_table_mod text_start text_stop)) with 35. unfold IOCTL_MOD.
    destruct (Z.ltb_spec 12 nr); [|lia]. destruct (Z.ltb_spec nr 35); [lia|]. rewrite andb_false_r.
    destruct (Z.eqb_spec nr 12); [lia|]. destruct (Z.ltb_spec nr 32); [lia|].
    assert (N : nthZ mod_handlers (nr - 32) = None).
    { unfold nthZ. destruct (Z.ltb_spec (nr - 32) 0); [lia|]. apply lookup_ge_None. cbn. lia. }
    by rewrite N.
Qed.

(** The module after the environment's next answer. *)
Definition next_answer (s : module) : module := (on_k oracle s).2.

Lemma copy_whole_fault size s v vs :
  w_oracle (mkern (md_mod s)) = v :: vs → 1 ≤ v → 1 ≤ size → copy_whole size s = (false, next_answer s).
Proof.
  intros E Hv Hs. unfold next_answer, copy_whole, copy_user, on_k, on_mod, in_kern, zoom, oracle,
    mbind, M_mbind, mret, M_mret.
  cbn. rewrite E. cbn. f_equal. apply Z.eqb_neq. lia.
Qed.

(** A command whose argument cannot be read or written does nothing. If the
    first copy between user space and the kernel fails, each command except the
    wait for an event, which allocates first, returns an error and leaves the
    whole module as it was. *)
Theorem ioctl_fault_changes_nothing c arg s v vs :
  w_oracle (mkern (md_mod s)) = v :: vs → 1 ≤ v → c ≠ blk_snap_ioctl_snapshot_wait_event →
  handler c arg s =
    (code (if decide (c = blk_snap_ioctl_snapshot_append_storage) then - EINVAL else - ENODATA), next_answer s).
Proof.
  intros E Hv Hc. destruct c; cbn [handler]; try done;
    unfold ioctl_version, ioctl_tracker_remove, ioctl_tracker_collect, ioctl_tracker_read_cbt_map,
      ioctl_tracker_mark_dirty_blocks, ioctl_snapshot_create, ioctl_snapshot_destroy,
      ioctl_snapshot_append_storage, ioctl_snapshot_take, ioctl_snapshot_collect,
      ioctl_snapshot_collect_images, mbind, M_mbind;
    rewrite (copy_whole_fault _ s v vs) by (done || lia); reflexivity.
Qed.

(** Without a snapshot, dirty blocks are not recorded. When the list of
    snapshots is empty, marking blocks of a tracked device as dirty reports success
    and changes nothing: the map of the device's tracker, which [mark_dirty_blocks]
    turns to when no image has the number, is never reached. *)
Theorem mark_dirty_blocks_lost dev_id ranges s :
  list_empty (links s) = true →
  mark_dirty_blocks dev_id ranges s = (Some 0, s).
Proof.
  intros H. unfold mark_dirty_blocks, snapshot_mark_dirty_blocks, mbind, M_mbind, gets.
  cbn. by rewrite H.
Qed.
End dispatch.

(** ** Witnesses *)

(** A module with device 1 tracked and no snapshot; every argument is zero. *)
Definition ex_loaded (oracle : list Z) : module :=
  let s := ex_tracked false ex_map1 500 oracle in
  {| md_mod := {| s with links := {[ SNAPSHOTS := (SNAPSHOTS, SNAPSHOTS) ]} |};
     md_log := ex_log; md_bioset := true; md_misc := true |}.
Definition ex_arg : user_arg :=
  {| u_tracker_remove := {| tr_remove_dev_id := no_dev |};
     u_tracker_collect := {| tc_count := 0; tc_cbt_info_array := false |};
     u_read_cbt_bitmap := {| rc_dev_id := no_dev; rc_offset := 0; rc_length := 0 |};
     u_mark_dirty_blocks := {| md_dev_id := no_dev; dirty_blocks_array := [] |};
     u_create := {| dev_id_array := [] |};
     u_destroy := {| sd_id := 0 |};
     u_append_storage := {| as_id := 0; as_dev_id := no_dev; as_ranges := [] |};
     u_take := {| sk_id := 0 |};
     u_collect := {| sc_count := 0; sc_ids := false |};
     u_collect_images := {| sci_id := 0; sci_count := 0; sci_image_info_array := false |};
     u_event := {| se_id := 0; timeout_ms := 0; se_code := 0; time_label := 0; se_data := None |};
     u_setlog := {| tz_minuteswest := 0; sl_level := 0; sl_filepath := None |} |}.

#[local] Existing Instance default_params.

Lemma ctrl_dispatch_witness :
  (ctrl_unlocked_ioctl [] [] 13 ex_arg (ex_loaded [])).1 = Some (code (- ENOTTY)) ∧
  (ctrl_unlocked_ioctl [] [] 12 ex_arg (ex_loaded [])).1 = None ∧
  (ctrl_unlocked_ioctl [] [] 0 ex_arg (ex_loaded [])).1 = Some (Some 0, RVersion version).
Proof.
  rewrite !(ctrl_dispatch [] []) by lia. split_and!; reflexivity.
Defined.

Lemma ioctl_fault_changes_nothing_witness :
  handler blk_snap_ioctl_snapshot_create ex_arg (ex_loaded [1]) =
    (code (- ENODATA), next_answer (ex_loaded [1])).
Proof.
  exact (ioctl_fault_changes_nothing blk_snap_ioctl_snapshot_create ex_arg (ex_loaded [1]) 1 []
    eq_refl ltac:(lia) ltac:(discriminate)).
Defined.

Lemma mark_dirty_blocks_lost_witness :
  let s := md_mod (ex_loaded []) in
  let ranges := [{| sector_offset := 128; sector_count := 8 |}] in
  mark_dirty_blocks 1 ranges s = (Some 0, s) ∧
  cbt_maps (tracker_mark_dirty_blocks 1 ranges s).2 !! 101 ≠ cbt_maps s !! 101.
Proof.
  intros s ranges. split; [exact (mark_dirty_blocks_lost 1 ranges s eq_refl)|].
  vm_compute. discriminate.
Defined.
