(* ===== verification/DebugState.v ===== *)
(** * The state of a sector, for debugging (BLK_SNAP_DEBUG_SECTOR_STATE)

    [snapimage_get_chunk_state], [snapshot_get_chunk_state] and the ioctl that calls
    them, in the configuration that has them. *)
From S2P Require Import Prelude MemoryChecker Kernel Log Uapi EventQueue CbtMap DiffBuffer DiffIo.
From S2P Require Import DiffStorage Chunk DiffArea ChunkSpecs CowInv Cow CowSteps CowImage.
From S2P Require Import CowSafety State BdevFilter SnapImage Tracker Snapshot Main.

(** [struct blk_snap_sector_state]. *)
Record blk_snap_sector_state := SectorState {
  snap_number_prev : Z;
  snap_number_curr : Z;
  chunk_state : Z;
}.

(** [struct blk_snap_get_sector_state]. *)
Record blk_snap_get_sector_state := GetSectorState {
  gs_image_dev_id : blk_snap_dev;
  gs_sector : Z;
  gs_state : blk_snap_sector_state;
}.

Section params.
Context {P : ModuleParams}.

(** The code and the state, of which an error leaves the rest as it was; [None]: the
    task sleeps for ever or a pointer is bad. *)
Definition snapimage_get_chunk_state (img : snapimage) (sector : Z) (st : blk_snap_sector_state)
    : G (option (Z * blk_snap_sector_state)) :=
  r ← with_area (img_diff_area img) (diff_area_get_sector_state sector);
  match r with
  | None => mret None
  | Some (Err e) => mret (Some (e, st))
  | Some (Ok cs) =>
      let st := {| st with chunk_state := cs |} in
      s ← gets (λ s, s);
      match cbt_maps s !! img_cbt_map img ≫= λ m, cbt_map_get_sector_state m sector with
      | None => broken_pointer;; mret None
      | Some (Err e) => mret (Some (e, st))
      | Some (Ok (prev, curr)) =>
          let st := {| st with snap_number_prev := prev; snap_number_curr := curr |} in
          r ← with_area (img_diff_area img) (diff_area_get_sector_image sector);
          mret (match r with
                | Some (GotChunk _, _) => Some (0, st)
                | Some (GotError e, _) => Some (e, st)
                | Some (GotSleep, _) | None => None
                end)
      end
  end.

(** The search of [snapshot_get_chunk_state]: the last image with the number wins;
    [None]: an entry without an image is dereferenced. *)
Fixpoint find_entry (s : modst) (dev : Z) (l : list (option Z)) : option (option snapimage) :=
  match l with
  | [] => Some None
  | i :: l =>
      img ← i ≫= λ i, snapimages s !! i;
      if img_disk img =? dev then Some (Some img) else find_entry s dev l
  end.
Fixpoint find_entries (s : modst) (dev : Z) (found : option snapimage) (l : list Z)
    : option (option snapimage) :=
  match l with
  | [] => Some found
  | p :: l =>
      x ← snapshot_objs s !! p;
      i ← find_entry s dev (used x (snapimage_array x));
      find_entries s dev (match i with Some i => Some i | None => found end) l
  end.

Definition snapshot_get_chunk_state (image_dev_id sector : Z) (st : blk_snap_sector_state)
    : G (option (Z * blk_snap_sector_state)) :=
  s ← gets (λ s, s);
  if list_empty (links s) then mret (Some (0, st))
  else
    match l ← snapshot_entries s; find_entries s image_dev_id None l with
    | None => broken_pointer;; mret None
    | Some None => mret (Some (- ENODEV, st))
    | Some (Some img) => snapimage_get_chunk_state img sector st
    end.

(** The code and the argument as it is copied back. *)
Definition ioctl_get_sector_state (karg : blk_snap_get_sector_state)
    : IO (option (Z * option blk_snap_get_sector_state)) :=
  ok ← copy_whole 24;
  if negb ok then mret (Some (- ENODATA, None))
  else
    let d := gs_image_dev_id karg in
    r ← on_mod (snapshot_get_chunk_state (MKDEV (mj d) (mn d)) (gs_sector karg) (gs_state karg));
    match r with
    | None => mret None
    | Some (ret, st) =>
        if negb (ret =? 0) then mret (Some (ret, None))
        else
          ok ← copy_whole 24;
          mret (if (ok : bool) then Some (0, Some {| karg with gs_state := st |}) else Some (- ENODATA, None))
    end.
End params.

(** ** The search *)

(** The search finds an image with the number if and only if one is in the arrays of
    the snapshots, when every entry is an image. *)
Lemma find_entry_spec s dev l :
  (∀ o, o ∈ l → ∃ i img, o = Some i ∧ snapimages s !! i = Some img) →
  ∃ r, find_entry s dev l = Some r ∧
    match r with
    | Some img => img_disk img = dev ∧ ∃ i, Some i ∈ l ∧ snapimages s !! i = Some img
    | None => ∀ i img, Some i ∈ l → snapimages s !! i = Some img → img_disk img ≠ dev
    end.
Proof.
  induction l as [|o l IH]; intros H; cbn.
  { exists None. split; [done|]. intros i img Hi. by apply elem_of_nil in Hi. }
  destruct (H o) as (i & img & -> & Hi); [apply elem_of_cons; by left|]. cbn. rewrite Hi. cbn.
  destruct (Z.eqb_spec (img_disk img) dev) as [Hd|Hd].
  { exists (Some img). split; [done|]. split; [done|]. exists i. split; [apply elem_of_cons; by left|done]. }
  destruct IH as (r & -> & Hr); [intros o Ho; apply H, elem_of_cons; by right|]. exists r. split; [done|].
  destruct r as [img'|].
  - destruct Hr as (Hd' & j & Hj & Hj'). split; [done|]. exists j. split; [apply elem_of_cons; by right|done].
  - intros j img' [[= ->]|Hj]%elem_of_cons Hj'; [congruence|by eapply Hr].
Qed.
