(* ===== verification/UserSpace.v ===== *)
(** * A user-space process over the module

    What the library (src/lib/blksnap) and the command line tool (src/tools/blksnap)
    need of C++ and of the operating system: exceptions, [errno], the control
    device, block devices and files by name, and the two output streams. The
    control device is the module of Main.v; the file system is a parameter. *)
From stdpp Require Export strings pretty.
From S2P Require Import Prelude MemoryChecker Kernel Log Uapi EventQueue CbtMap DiffBuffer DiffIo.
From S2P Require Import DiffStorage Chunk DiffArea ChunkSpecs CowInv Cow CowSteps CowImage.
From S2P Require Import CowSafety State BdevFilter SnapImage Tracker Snapshot Main.

Delimit Scope stdpp_scope with S.
Global Open Scope Z_scope.

(** ** Exceptions *)

Inductive exn : Type :=
  | system_error (code : Z) (what : string)
  | runtime_error (what : string)
  | invalid_argument (what : string)
  | out_of_range (what : string).

(** A computation returns, throws, or never comes back: a loop or a system call that
    does not end, a value the code or the kernel leaves undefined, or the process
    ended by [std::terminate]. *)
Variant halt : Set := Endless | Undefined | Terminated.
Inductive outcome (A : Type) : Type :=
  | Ret (a : A)
  | Throw (e : exn)
  | Halt (h : halt).
Arguments Ret {A} a.
Arguments Throw {A} e.
Arguments Halt {A} h.

(** ** The operating system *)

(** [struct stat], as much as the code reads; [struct fiemap_extent]. *)
Record stat_t := Stat { st_dev : blk_snap_dev; st_rdev : blk_snap_dev; st_size : Z }.
Record fiemap_extent := FiemapExtent { fe_logical : Z; fe_physical : Z; fe_length : Z }.

(** The file system, on a state [W]. A call that can fail returns 0 or an error
    number, or a [result]. *)
Class Os (W : Type) := {
  os_open_ctl : M W Z;
  os_stat : string → M W (result stat_t);
  os_exists : string → M W (result bool);
  os_create : string → M W Z;
  os_open : string → M W Z;
  os_fallocate : string → Z → M W Z;
  os_fiemap : string → Z → Z → Z → M W (result (list fiemap_extent));
  os_malloc : M W bool;
  os_remove : string → M W Z;
  os_strerror : Z → string;
}.

(** A process: the module behind the control device, what the rest of the system does
    to the module before each of the process's ioctls, the file system, [errno], the
    number of open descriptors, the lines written, and the objects [X] of the program
    that outlive a call. *)
Record proc (W X : Type) := Proc {
  p_mod : module;
  p_env : list (module → module);
  p_os : W;
  p_errno : Z;
  p_fds : Z;
  p_stdout : list string;
  p_stderr : list string;
  p_mem : X;
}.
Arguments Proc {W X} _ _ _ _ _ _ _ _.
Arguments p_mod {W X} _.
Arguments p_env {W X} _.
Arguments p_os {W X} _.
Arguments p_errno {W X} _.
Arguments p_fds {W X} _.
Arguments p_stdout {W X} _.
Arguments p_stderr {W X} _.
Arguments p_mem {W X} _.

Definition U (W X A : Type) : Type := proc W X → outcome A * proc W X.

#[global] Instance U_mret W X : MRet (U W X) := λ A a p, (Ret a, p).
#[global] Instance U_mbind W X : MBind (U W X) := λ A B f m p,
  match m p with
  | (Ret a, p) => f a p
  | (Throw e, p) => (Throw e, p)
  | (Halt h, p) => (Halt h, p)
  end.

Lemma s32_u32 r : - 2 ^ 31 ≤ r < 2 ^ 31 → s32 (u32 r) = r.
Proof.
  intros Hr. unfold s32, u32. destruct (Z.ltb_spec r 0).
  - rewrite (Z.mod_eq r (2 ^ 32)) by lia. replace (r / 2 ^ 32) with (-1) by (apply Z.div_unique with (r + 2 ^ 32); lia).
    destruct (Z.ltb_spec (r - 2 ^ 32 * -1) (2 ^ 31)); lia.
  - rewrite Z.mod_small by lia. destruct (Z.ltb_spec r (2 ^ 31)); lia.
Qed.

Section process.
Context {W X : Type}.

Definition throw {A} (e : exn) : U W X A := λ p, (Throw e, p).
Definition halted {A} (h : halt) : U W X A := λ p, (Halt h, p).
Definition try {A} (m : U W X A) (catch : exn → U W X A) : U W X A := λ p,
  match m p with
  | (Throw e, p) => catch e p
  | r => r
  end.
(** The destructor of a local object, which also runs when an exception passes. *)
Definition finally {A} (m : U W X A) (release : proc W X → proc W X) : U W X A := λ p,
  match m p with
  | (Halt h, p) => (Halt h, p)
  | (o, p) => (o, release p)
  end.
Definition uget {A} (f : proc W X → A) : U W X A := λ p, (Ret (f p), p).
Definition uset (f : proc W X → proc W X) : U W X unit := λ p, (Ret tt, f p).
Definition ignore {A} (m : U W X A) : U W X unit := m ≫= λ _, mret tt.
Definition uwhen (b : bool) (m : U W X unit) : U W X unit := if b then m else mret tt.

Fixpoint for_each {A} (f : A → U W X unit) (l : list A) : U W X unit :=
  match l with
  | [] => mret tt
  | x :: l => f x ≫= λ _, for_each f l
  end.

(** [std::cout << line << std::endl], and the same on [std::cerr]. *)
Definition cout (line : string) : U W X unit := uset (λ p, {| p with p_stdout := p_stdout p ++ [line] |}).
Definition cerr (line : string) : U W X unit := uset (λ p, {| p with p_stderr := p_stderr p ++ [line] |}).

Definition errno : U W X Z := uget p_errno.
Definition throw_errno {A} (what : string) : U W X A := e ← errno; throw (system_error e what).

Context {OS : Os W}.

(** [ex.what()]. *)
Definition what (e : exn) : string :=
  match e with
  | system_error code w => w +:+ ": " +:+ os_strerror code
  | runtime_error w | invalid_argument w | out_of_range w => w
  end.

Definition on_os {A} (m : M W A) : U W X A := λ p,
  let r := m (p_os p) in (Ret r.1, {| p with p_os := r.2 |}).
(** A call that returns 0, or -1 with [errno] set. *)
Definition syscall (m : M W Z) : U W X Z :=
  e ← on_os m;
  if e =? 0 then mret 0 else uset (λ p, {| p with p_errno := e |}) ≫= λ _, mret (-1).
(** A call that opens a descriptor. *)
Definition open_call (m : M W Z) : U W X Z :=
  r ← syscall m;
  if r =? 0 then uset (λ p, {| p with p_fds := p_fds p + 1 |}) ≫= λ _, mret 0 else mret r.
Definition close_fd (p : proc W X) : proc W X := {| p with p_fds := p_fds p - 1 |}.
Definition close : U W X unit := uset close_fd.

(** ** The control device *)
Context {P : ModuleParams}.
Context (text_start text_stop : list Z).

(** The module as the next ioctl finds it. *)
Definition others (p : proc W X) : module :=
  match p_env p with [] => p_mod p | f :: _ => f (p_mod p) end.

(** [::ioctl] on the control device: the [int] returned, -1 with [errno] for an error
    code, and what the kernel has written into the argument. The call does not come
    back when the task sleeps for ever. *)
Definition ioctl (nr : Z) (arg : user_arg) : U W X (Z * reply) := λ p,
  let m := others p in
  let r := ctrl_unlocked_ioctl text_start text_stop nr arg m in
  let p := {| p with p_mod := r.2; p_env := tail (p_env p) |} in
  if stuck (md_mod r.2) && negb (stuck (md_mod m)) then (Halt Endless, p)
  else if broken (md_mod r.2) && negb (broken (md_mod m)) then (Halt Undefined, p)
  else
    match r.1 with
    | Some (Some ret, reply) =>
        let ret := s32 (u32 ret) in
        if (-4095 <=? ret) && (ret <? 0) then (Ret (-1, reply), {| p with p_errno := - ret |})
        else (Ret (ret, reply), p)
    | _ => (Halt Undefined, p)
    end.
End process.

(** The numbers in the IOCTL_BLK_SNAP_ macros. *)
Definition ioctl_nr (c : blk_snap_ioctl) : Z :=
  match c with
  | blk_snap_ioctl_version => 0
  | blk_snap_ioctl_tracker_remove => 1
  | blk_snap_ioctl_tracker_collect => 2
  | blk_snap_ioctl_tracker_read_cbt_map => 3
  | blk_snap_ioctl_tracker_mark_dirty_blocks => 4
  | blk_snap_ioctl_snapshot_create => 5
  | blk_snap_ioctl_snapshot_destroy => 6
  | blk_snap_ioctl_snapshot_append_storage => 7
  | blk_snap_ioctl_snapshot_take => 8
  | blk_snap_ioctl_snapshot_collect => 9
  | blk_snap_ioctl_snapshot_collect_images => 10
  | blk_snap_ioctl_snapshot_wait_event => 11
  end.
Definition blk_snap_ioctl_mod : Z := IOCTL_MOD.
Definition blk_snap_ioctl_setlog : Z := IOCTL_MOD + 1.
Definition blk_snap_ioctl_get_sector_state : Z := IOCTL_MOD + 2.

(** ** Reasoning about a process

    [run m p Q]: [m] from [p] ends with an outcome and a process that satisfy [Q]. *)
Definition run {W X A} (m : U W X A) (p : proc W X) (Q : outcome A → proc W X → Prop) : Prop := Q (m p).1 (m p).2.

Section run_rules.
Context {W X : Type}.

Lemma run_ret {A} (a : A) (p : proc W X) Q : run (mret a) p Q ↔ Q (Ret a) p.
Proof. done. Qed.

Lemma run_bind {A B} (m : U W X A) (f : A → U W X B) p Q :
  run (m ≫= f) p Q ↔
  run m p (λ o p, match o with
                  | Ret a => run (f a) p Q | Throw e => Q (Throw e) p | Halt h => Q (Halt h) p end).
Proof. unfold run, mbind, U_mbind. destruct (m p) as [[] ?]; done. Qed.

Lemma run_mono {A} (m : U W X A) p (Q R : outcome A → proc W X → Prop) :
  run m p Q → (∀ o p', Q o p' → R o p') → run m p R.
Proof. unfold run. auto. Qed.

Lemma run_eq {A} (m : U W X A) p (Q : outcome A → proc W X → Prop) :
  (∀ o p', m p = (o, p') → Q o p') → run m p Q.
Proof. unfold run. destruct (m p) eqn:?; eauto. Qed.

(** One step of a computation whose result is known. *)
Lemma bind_ret {A B} (m : U W X A) (f : A → U W X B) p a p' :
  m p = (Ret a, p') → (m ≫= f) p = f a p'.
Proof. intros E. unfold mbind, U_mbind. by rewrite E. Qed.

Lemma bind_throw {A B} (m : U W X A) (f : A → U W X B) p e p' :
  m p = (Throw e, p') → (m ≫= f) p = (Throw e, p').
Proof. intros E. unfold mbind, U_mbind. by rewrite E. Qed.

Lemma bind_halt {A B} (m : U W X A) (f : A → U W X B) p h p' :
  m p = (Halt h, p') → (m ≫= f) p = (Halt h, p').
Proof. intros E. unfold mbind, U_mbind. by rewrite E. Qed.

Lemma on_os_same {A} (m : M W A) (p : proc W X) a :
  m (p_os p) = (a, p_os p) → on_os m p = (Ret a, p).
Proof. intros E. unfold on_os. rewrite E. by destruct p. Qed.

(** A computation that leaves some view of the process as it is. *)
Definition keeps {V A} (view : proc W X → V) (m : U W X A) : Prop := ∀ p, view (m p).2 = view p.

Context {V : Type} (view : proc W X → V).

Lemma keeps_ret {A} (a : A) : keeps view (mret a).
Proof. done. Qed.
Lemma keeps_bind {A B} (m : U W X A) (f : A → U W X B) :
  keeps view m → (∀ a, keeps view (f a)) → keeps view (m ≫= f).
Proof.
  intros Hm Hf p. specialize (Hm p). unfold mbind, U_mbind.
  destruct (m p) as [[a| |] p1]; simpl in *; [rewrite Hf|..]; done.
Qed.
Lemma keeps_throw {A} e : keeps view (throw e : U W X A).
Proof. done. Qed.
Lemma keeps_halted {A} h : keeps view (halted h : U W X A).
Proof. done. Qed.
Lemma keeps_uget {A} (f : proc W X → A) : keeps view (uget f).
Proof. done. Qed.
Lemma keeps_uset f : (∀ p, view (f p) = view p) → keeps view (uset f).
Proof. intros H p. apply H. Qed.
Lemma keeps_try {A} (m : U W X A) h : keeps view m → (∀ e, keeps view (h e)) → keeps view (try m h).
Proof.
  intros Hm Hh p. specialize (Hm p). unfold try. destruct (m p) as [[a|e|] p1]; simpl in *; try done.
  by rewrite Hh.
Qed.
Lemma keeps_for_each {A} (f : A → U W X unit) l : (∀ a, keeps view (f a)) → keeps view (for_each f l).
Proof. intros H. induction l; simpl; [done|]. apply keeps_bind; auto. Qed.
End run_rules.

Create HintDb keeps.
#[export] Hint Resolve keeps_ret keeps_bind keeps_throw keeps_halted keeps_uget keeps_try keeps_for_each : keeps.
