(* ===== verification/LibBlksnap.v ===== *)
(** * The library's layer over the ioctls (lib/blksnap/Blksnap.cpp, Cbt.cpp, Service.cpp)

    [CBlksnap] has one method for each command of the control device. [CCbt] reads
    the change tracking map of a device, and Service.cpp has the version and the state
    of a sector. *)
From S2P Require Import Prelude MemoryChecker Kernel Log Uapi EventQueue CbtMap DiffBuffer DiffIo.
From S2P Require Import DiffStorage Chunk DiffArea ChunkSpecs CowInv Cow CowSteps CowImage.
From S2P Require Import CowSafety State BdevFilter SnapImage Tracker Snapshot Main UserSpace.

(** An argument in which every field is zero. *)
Definition no_arg : user_arg :=
  {| u_tracker_remove := {| tr_remove_dev_id := no_dev |};
     u_tracker_collect := {| tc_count := 0; tc_cbt_info_array := false |};
     u_read_cbt_bitmap := {| rc_dev_id := no_dev; rc_offset := 0; rc_length := 0 |};
     u_mark_dirty_blocks := {| md_dev_id := no_dev; dirty_blocks_array := [] |};
     u_create := {| dev_id_array := [] |};
     u_destroy := {| sd_id := 0 |};
     u_append_storage := {| as_id := 0; as_dev_id := no_dev; as_ranges := [] |};
     u_take := {| sk_id := 0 |};
     u_collect := {| sc_count := 0; sc_ids := false |};
     u_collect_images := {| sci_id := 0; sci_count := 0; sci_image_info_array := false |};
     u_event := {| se_id := 0; timeout_ms := 0; se_code := 0; time_label := 0; se_data := None |};
     u_setlog := {| tz_minuteswest := 0; sl_level := 0; sl_filepath := None |} |}.

(** [struct SBlksnapEvent]; the union has the member of the event's code, and no
    defined member for another code. *)
Variant event_union : Type :=
  | lowFreeSpace (requestedSectors : Z)
  | corruptedEvent (origDevId : blk_snap_dev) (errorCode : Z)
  | noMember.
Record SBlksnapEvent := BlksnapEvent { bev_code : Z; bev_time : Z; bev_data : event_union }.

(** [struct blk_snap_mod]. *)
Record blk_snap_mod := BlkSnapMod { compatibility_flags : Z; mod_name : string }.
Definition MOD_NAME : string := "standalone".
Definition BLK_SNAP_MOD_NAME_LIMIT : nat := 32.

(** A vector of [n] zeroed elements after the kernel has written [l] to its start. *)
Definition filled_vector {A} (zero : A) (n : Z) (l : list A) : list A :=
  l ++ replicate (Z.to_nat n - length l) zero.
Definition no_cbt_info : blk_snap_cbt_info :=
  {| ci_dev_id := no_dev; ci_blk_size := 0; ci_device_capacity := 0; ci_blk_count := 0;
     ci_generation_id := 0; ci_snap_number := 0 |}.
Definition no_image_info : blk_snap_image_info := {| orig_dev_id := no_dev; image_dev_id := no_dev |}.

Section library.
Context {W X : Type} {OS : Os W} {P : ModuleParams} (text_start text_stop : list Z).
Notation U := (U W X).
Notation ioctl := (ioctl (W:=W) (X:=X) text_start text_stop).

(** ** CBlksnap *)

Definition CBlksnap_open : U unit :=
  r ← open_call os_open_ctl;
  if r <? 0 then throw_errno "/dev/blksnap-control" else mret tt.
Definition CBlksnap_close : proc W X → proc W X := close_fd.

Definition Version : U blk_snap_version :=
  '(r, rep) ← ioctl (ioctl_nr blk_snap_ioctl_version) no_arg;
  if negb (r =? 0) then throw_errno "Failed to get version."
  else mret (match rep with RVersion v => v
             | _ => {| v_major := 0; v_minor := 0; v_revision := 0; v_build := 0 |} end).

Definition Modification : U (option blk_snap_mod) :=
  '(r, rep) ← ioctl blk_snap_ioctl_mod no_arg;
  if negb (r =? 0) then
    e ← errno;
    if e =? ENOTTY then mret None else throw_errno "Failed to get modification."
  else mret (Some (match rep with
                   | RModification f => {| compatibility_flags := f; mod_name := MOD_NAME |}
                   | _ => {| compatibility_flags := 0; mod_name := "" |} end)).

Definition CollectTrackers : U (list blk_snap_cbt_info) :=
  let failed : string := "[TBD]Failed to collect block devices with change tracking." in
  '(r, rep) ← ioctl (ioctl_nr blk_snap_ioctl_tracker_collect) no_arg;
  if negb (r =? 0) then throw_errno failed
  else
    let count := match rep with RCbtInfo n _ => n | _ => 0 end in
    (** [data()] of an empty vector is a null pointer. *)
    let arg := {| no_arg with u_tracker_collect :=
                 {| tc_count := count; tc_cbt_info_array := 0 <? count |} |} in
    '(r, rep) ← ioctl (ioctl_nr blk_snap_ioctl_tracker_collect) arg;
    if negb (r =? 0) then throw_errno failed
    else mret (filled_vector no_cbt_info count (match rep with RCbtInfo _ l => l | _ => [] end)).

(** [length] is an [unsigned int], with which the [int] returned is compared. *)
Definition ReadCbtMap (dev_id : blk_snap_dev) (offset length : Z) : U (list Z) :=
  let arg := {| no_arg with u_read_cbt_bitmap :=
               {| rc_dev_id := dev_id; rc_offset := offset; rc_length := length |} |} in
  '(r, rep) ← ioctl (ioctl_nr blk_snap_ioctl_tracker_read_cbt_map) arg;
  if r <? 0 then throw_errno "[TBD]Failed to read difference map from change tracking."
  else if negb (u32 r =? length) then
    throw (runtime_error "[TBD]Cannot read required bytes of difference map from change tracking.")
  else mret (match rep with RBitmap l => l | _ => [] end).

Definition Create (devices : list blk_snap_dev) : U Z :=
  let arg := {| no_arg with u_create := {| dev_id_array := devices |} |} in
  '(r, rep) ← ioctl (ioctl_nr blk_snap_ioctl_snapshot_create) arg;
  if negb (r =? 0) then throw_errno "[TBD]Failed to create snapshot object."
  else mret (match rep with RSnapshotId id => id | _ => 0 end).

Definition Destroy (id : Z) : U unit :=
  let arg := {| no_arg with u_destroy := {| sd_id := id |} |} in
  '(r, _) ← ioctl (ioctl_nr blk_snap_ioctl_snapshot_destroy) arg;
  if negb (r =? 0) then throw_errno "[TBD]Failed to destroy snapshot." else mret tt.

(** The images; [images] keeps its elements when there is none. *)
Definition Collect (id : Z) (images : list blk_snap_image_info) : U (list blk_snap_image_info) :=
  let failed : string := "[TBD]Failed to get device collection for snapshot images." in
  let arg := {| no_arg with u_collect_images :=
               {| sci_id := id; sci_count := 0; sci_image_info_array := false |} |} in
  '(r, rep) ← ioctl (ioctl_nr blk_snap_ioctl_snapshot_collect_images) arg;
  if negb (r =? 0) then throw_errno failed
  else
    let count := match rep with RImages n _ => n | _ => 0 end in
    if count =? 0 then mret images
    else
      let arg := {| no_arg with u_collect_images :=
                   {| sci_id := id; sci_count := count; sci_image_info_array := true |} |} in
      '(r, rep) ← ioctl (ioctl_nr blk_snap_ioctl_snapshot_collect_images) arg;
      if negb (r =? 0) then throw_errno failed
      else mret (filled_vector no_image_info count (match rep with RImages _ l => l | _ => [] end)).

Definition AppendDiffStorage (id : Z) (dev_id : blk_snap_dev) (ranges : list blk_snap_block_range) : U unit :=
  let arg := {| no_arg with u_append_storage :=
               {| as_id := id; as_dev_id := dev_id; as_ranges := ranges |} |} in
  '(r, _) ← ioctl (ioctl_nr blk_snap_ioctl_snapshot_append_storage) arg;
  if negb (r =? 0) then throw_errno "[TBD]Failed to append storage for snapshot." else mret tt.

Definition Take (id : Z) : U unit :=
  let arg := {| no_arg with u_take := {| sk_id := id |} |} in
  '(r, _) ← ioctl (ioctl_nr blk_snap_ioctl_snapshot_take) arg;
  if negb (r =? 0) then throw_errno "[TBD]Failed to take snapshot." else mret tt.

(** The cast of [param.data] to the structure of the event's code. *)
Definition event_member (code : Z) (data : option event_data) : event_union :=
  if code =? blk_snap_event_code_low_free_space then
    match data with Some (low_free_space n) => lowFreeSpace (u64 n) | _ => noMember end
  else if code =? blk_snap_event_code_corrupted then
    match data with Some (corrupted d e) => corruptedEvent d e | _ => noMember end
  else noMember.

Definition WaitEvent (id timeoutMs : Z) : U (option SBlksnapEvent) :=
  let arg := {| no_arg with u_event :=
               {| se_id := id; timeout_ms := timeoutMs; se_code := 0; time_label := 0; se_data := None |} |} in
  '(r, rep) ← ioctl (ioctl_nr blk_snap_ioctl_snapshot_wait_event) arg;
  if negb (r =? 0) then
    e ← errno;
    if (e =? ENOENT) || (e =? EINTR) then mret None
    else throw_errno "[TBD]Failed to get event from snapshot."
  else match rep with
       | REvent ev => mret (Some {| bev_code := se_code ev; bev_time := time_label ev;
                                    bev_data := event_member (se_code ev) (se_data ev) |})
       | _ => halted Undefined
       end.

(** [st.snap_number_prev], [st.snap_number_curr] and [st.chunk_state], which the module
    of Main.v, built without the debug query, never writes. *)
Definition CBlksnap_GetSectorState (image_dev_id : blk_snap_dev) (offset : Z) : U (Z * Z * Z) :=
  '(r, _) ← ioctl blk_snap_ioctl_get_sector_state no_arg;
  if negb (r =? 0) then throw_errno "[TBD]Failed to get sectors state." else mret (0, 0, 0).

(** ** CCbt *)

Definition deviceByName (name : string) : U blk_snap_dev :=
  s ← on_os (os_stat name);
  match s with
  | Ok st => mret (st_rdev st)
  | Err e => throw (system_error e name)
  end.

(** [struct SCbtInfo]. *)
Record SCbtInfo := CbtInfoOf {
  originalMajor : Z; originalMinor : Z; blockSize : Z; blockCount : Z; deviceCapacity : Z;
  generationId : Z; snapNumber : Z }.

Definition CCbt_new : U (list blk_snap_cbt_info) :=
  CBlksnap_open ≫= λ _,
  try CollectTrackers (λ e, uset CBlksnap_close ≫= λ _, throw e).

Definition GetCbtInfoInternal (cbtInfos : list blk_snap_cbt_info) (major minor : Z) : U blk_snap_cbt_info :=
  match find (λ i, (major =? mj (ci_dev_id i)) && (minor =? mn (ci_dev_id i))) cbtInfos with
  | Some i => mret i
  | None => throw (runtime_error ("The device [" +:+ pretty major +:+ ":" +:+ pretty minor
                                  +:+ "] was not found in the CBT table"))
  end.

Definition GetCbtInfo (cbtInfos : list blk_snap_cbt_info) (original : string) : U SCbtInfo :=
  d ← deviceByName original;
  i ← GetCbtInfoInternal cbtInfos (mj d) (mn d);
  mret {| originalMajor := mj d; originalMinor := mn d; blockSize := ci_blk_size i;
          blockCount := ci_blk_count i; deviceCapacity := ci_device_capacity i;
          generationId := ci_generation_id i; snapNumber := ci_snap_number i |}.

Definition GetCbtData (info : SCbtInfo) : U (list Z) :=
  ReadCbtMap {| mj := originalMajor info; mn := originalMinor info |} 0 (u32 (blockCount info)).

(** ** Service.cpp *)

(** A [CBlksnap] that lives as long as the function's body. *)
Definition with_CBlksnap {A} (body : U A) : U A := CBlksnap_open ≫= λ _, finally body CBlksnap_close.

(** Lower case hexadecimal digits, as [std::hex] prints them. *)
Definition hex_digit (d : Z) : string :=
  nth (Z.to_nat d) ["0"; "1"; "2"; "3"; "4"; "5"; "6"; "7"; "8"; "9"; "a"; "b"; "c"; "d"; "e"; "f"] "0"%S.
Fixpoint hex_loop (fuel : nat) (x : Z) : string :=
  match fuel with
  | O => ""
  | S fuel => if x <? 16 then hex_digit x else hex_loop fuel (x / 16) +:+ hex_digit (x mod 16)
  end.
Definition hex (x : Z) : string := hex_loop 16 x.

(** The characters up to the first zero; a name has no zero byte of its own here. *)
Definition version_string : U string :=
  with_CBlksnap (
    v ← Version;
    let s := pretty (v_major v) +:+ "." +:+ pretty (v_minor v) +:+ "." +:+ pretty (v_revision v)
             +:+ "." +:+ pretty (v_build v) in
    m ← Modification;
    match m with
    | None => mret s
    | Some m =>
        let s := if compatibility_flags m =? 0 then s else s +:+ "-0x" +:+ hex (compatibility_flags m) in
        let modification := String.substring 0 BLK_SNAP_MOD_NAME_LIMIT (mod_name m) in
        mret (if bool_decide (modification = "") then s else s +:+ "-" +:+ modification)
    end).

Definition GetSectorState (image : string) (offset : Z) : U (Z * Z * Z) :=
  with_CBlksnap (
    m ← Modification;
    match m with
    | None => throw (runtime_error "Failed to get sector state. Modification is not supported in blksnap module")
    | Some m =>
        if Z.land (compatibility_flags m) (Z.shiftl 1 blk_snap_compat_flag_debug_sector_state) =? 0 then
          throw (runtime_error
            "Failed to get sector state. Sectors state getting is not supported in blksnap module")
        else d ← deviceByName image; CBlksnap_GetSectorState d offset
    end).
End library.
