(* ===== verification/Fiemap.v ===== *)
(** * Files as difference storage (Session.cpp and tools/blksnap/main.cpp)

    [FiemapStorage] asks the file system where the blocks of a file are and turns
    them into ranges of sectors; [fiemapStorage] is the tool's copy of it.
    [FallocateStorage] makes such a file. *)
From S2P Require Import Prelude MemoryChecker Kernel Log Uapi EventQueue CbtMap DiffBuffer DiffIo.
From S2P Require Import DiffStorage Chunk DiffArea ChunkSpecs CowInv Cow CowSteps CowImage.
From S2P Require Import CowSafety State BdevFilter SnapImage Tracker Snapshot Main UserSpace.

(** [long long] of an unsigned 64-bit number. *)
Definition s64 (x : Z) : Z := if u64 x <? 2 ^ 63 then u64 x else u64 x - 2 ^ 64.

Definition extentMax : Z := 500.
Definition extent_range (e : fiemap_extent) : blk_snap_block_range :=
  {| sector_offset := Z.shiftr (fe_physical e) SECTOR_SHIFT;
     sector_count := Z.shiftr (fe_length e) SECTOR_SHIFT |}.

Section files.
Context {W X : Type} {OS : Os W}.
Notation U := (U W X).

(** An error code with its message, for [goto out]. *)
Definition failure : Type := Z * string.

(** The loop over the extents that were mapped: the offset in the file and the ranges
    so far; [log] is what the loop prints for each range. *)
Fixpoint fiemap_extents (log : blk_snap_block_range → U unit) (l : list fiemap_extent)
    (fileOffset : Z) (ranges : list blk_snap_block_range)
    : U (failure + Z * list blk_snap_block_range) :=
  match l with
  | [] => mret (inr (fileOffset, ranges))
  | e :: l =>
      if negb (Z.land (fe_physical e) (SECTOR_SIZE - 1) =? 0)
      then mret (inl (EINVAL, "File location is not ordered by sector size."%S))
      else
        log (extent_range e) ≫= λ _,
        fiemap_extents log l (s64 (fe_logical e + fe_length e)) (ranges ++ [extent_range e])
  end.

Fixpoint fiemap_loop (fuel : nat) (log : blk_snap_block_range → U unit) (filename : string)
    (fileSize fileOffset : Z) (ranges : list blk_snap_block_range)
    : U (failure + list blk_snap_block_range) :=
  if negb (fileOffset <? fileSize) then mret (inr ranges)
  else
    match fuel with
    | O => halted Endless
    | S fuel =>
        r ← on_os (os_fiemap filename fileOffset (fileSize - fileOffset) extentMax);
        match r with
        | Err e => mret (inl (e, "Failed to call FS_IOC_FIEMAP."%S))
        | Ok l =>
            r ← fiemap_extents log l fileOffset ranges;
            match r with
            | inl f => mret (inl f)
            | inr (fileOffset, ranges) => fiemap_loop fuel log filename fileSize fileOffset ranges
            end
        end
    end.

Definition fiemap_with (log : blk_snap_block_range → U unit) (fuel : nat) (filename : string)
    : U (blk_snap_dev * list blk_snap_block_range) :=
  s ← on_os (os_stat filename);
  match s with
  | Err e => throw (system_error e "Failed to get file size.")
  | Ok st =>
      r ← open_call (os_open filename);
      if r <? 0 then throw_errno "Failed to open file."
      else
        ok ← on_os os_malloc;
        r ← (if (ok : bool) then fiemap_loop fuel log filename (st_size st) 0 []
             else mret (inl (ENOMEM, "Failed to allocate memory for fiemap structure."%S)));
        close ≫= λ _,
        match r with
        | inl (e, m) => throw (system_error e m)
        | inr ranges => mret (st_dev st, ranges)
        end
  end.

Definition FiemapStorage : nat → string → U (blk_snap_dev * list blk_snap_block_range) :=
  fiemap_with (λ _, mret tt).

Definition fiemapStorage : nat → string → U (blk_snap_dev * list blk_snap_block_range) :=
  fiemap_with (λ rg, cout ("allocate range: ofs=" +:+ pretty (sector_offset rg)
                           +:+ " cnt=" +:+ pretty (sector_count rg))).

Definition FallocateStorage (filename : string) (filesize : Z) : U unit :=
  r ← open_call (os_create filename);
  if r <? 0 then throw_errno "[TBD]Failed to create file for diff storage."
  else
    r ← syscall (os_fallocate filename filesize);
    if negb (r =? 0) then
      err ← errno;
      ignore (syscall (os_remove filename)) ≫= λ _,
      close ≫= λ _,
      throw (system_error err "[TBD]Failed to allocate file for diff storage.")
    else close.

(** [fs::exists] and [fs::remove], which throw for an error. *)
Definition fs_exists (path : string) : U bool :=
  r ← on_os (os_exists path);
  match r with
  | Ok b => mret b
  | Err e => throw (system_error e "boost::filesystem::status")
  end.
Definition fs_remove (path : string) : U unit :=
  e ← on_os (os_remove path);
  if (e =? 0) || (e =? ENOENT) then mret tt else throw (system_error e "boost::filesystem::remove").
End files.

(** ** What FIEMAP documents

    The extents of a file, in the order of their place in the file: [dense from l] when
    they follow each other without a hole, each on whole sectors. *)
Definition extent_end (e : fiemap_extent) : Z := fe_logical e + fe_length e.
Definition file_end (from : Z) (l : list fiemap_extent) : Z := foldl (λ _ e, extent_end e) from l.
Definition extent_aligned (e : fiemap_extent) : Prop :=
  0 < fe_length e ∧ fe_length e mod SECTOR_SIZE = 0 ∧ fe_physical e mod SECTOR_SIZE = 0.
Fixpoint dense (from : Z) (l : list fiemap_extent) : Prop :=
  match l with
  | [] => True
  | e :: l => fe_logical e = from ∧ extent_aligned e ∧ dense (extent_end e) l
  end.

(** Extent [e] has a part in the [length] bytes from [start]. *)
Definition in_window (start length : Z) (e : fiemap_extent) : Prop :=
  start < extent_end e ∧ fe_logical e < start + length.
#[global] Instance in_window_dec start length e : Decision (in_window start length e).
Proof. unfold in_window. apply _. Defined.

(** The call returns the first [count] extents of the file in the window. *)
Definition reports {W} {OS : Os W} (w : W) (filename : string) (l : list fiemap_extent) : Prop :=
  ∀ start length count, os_fiemap filename start length count w =
    (Ok (take (Z.to_nat count) (filter (in_window start length) l)), w).

(** The file can be looked at, and nothing else changes. *)
Record readable {W} {OS : Os W} (w : W) (filename : string) (st : stat_t) : Prop := {
  readable_stat : os_stat filename w = (Ok st, w);
  readable_open : os_open filename w = (0, w);
  readable_malloc : os_malloc w = (true, w);
}.

Definition sum_sectors (l : list blk_snap_block_range) : Z := foldr (λ r n, sector_count r + n) 0 l.

Lemma dense_app from l1 l2 : dense from (l1 ++ l2) ↔ dense from l1 ∧ dense (file_end from l1) l2.
Proof.
  revert from. induction l1 as [|e l1 IH]; intros from; simpl; [tauto|].
  rewrite IH. unfold file_end. simpl. tauto.
Qed.

Lemma file_end_app from l1 l2 : file_end from (l1 ++ l2) = file_end (file_end from l1) l2.
Proof. apply foldl_app. Qed.

Lemma dense_end from l : dense from l → from ≤ file_end from l.
Proof.
  revert from. induction l as [|e l IH]; intros from; simpl; [done|].
  intros (<- & (? & _) & Hd). specialize (IH _ Hd).
  change (file_end _ (e :: l)) with (file_end (extent_end e) l). unfold extent_end in *. lia.
Qed.

Lemma dense_ends from l e : dense from l → e ∈ l → from ≤ fe_logical e ∧ extent_end e ≤ file_end from l.
Proof.
  revert from. induction l as [|x l IH]; intros from; simpl; [by intros _ ?%elem_of_nil|].
  intros (<- & (? & _) & Hd) [->|He]%elem_of_cons.
  - split; [done|]. apply (dense_end _ _ Hd).
  - destruct (IH _ Hd He) as [? ?]. change (file_end _ (x :: l)) with (file_end (extent_end x) l).
    unfold extent_end in *. split; [lia|done].
Qed.

Lemma dense_aligned from l : dense from l → Forall extent_aligned l.
Proof.
  revert from. induction l as [|e l IH]; intros from; simpl; [constructor|].
  intros (_ & ? & Hd). constructor; eauto.
Qed.

(** The sectors of the ranges are all the bytes of the extents. *)
Lemma dense_sectors from l : dense from l → sum_sectors (extent_range <$> l) * SECTOR_SIZE = file_end from l - from.
Proof.
  revert from. induction l as [|e l IH]; intros from Hd; [unfold file_end; simpl; lia|].
  destruct Hd as (<- & (_ & Hm & _) & Hd). specialize (IH _ Hd).
  change (file_end _ (e :: l)) with (file_end (extent_end e) l).
  change (sum_sectors _) with (sector_count (extent_range e) + sum_sectors (extent_range <$> l)) at 1.
  unfold extent_end in *. cbn [sector_count extent_range].
  rewrite Z.shiftr_div_pow2 by done. change (2 ^ SECTOR_SHIFT) with SECTOR_SIZE.
  pose proof (Z.div_mod (fe_length e) SECTOR_SIZE ltac:(done)). nia.
Qed.

(** The window from the end of some extents to the end of the file has the rest. *)
Lemma window_rest done rest size :
  dense 0 (done ++ rest) → (∀ e, e ∈ rest → fe_logical e < size) →
  filter (in_window (file_end 0 done) (size - file_end 0 done)) (done ++ rest) = rest.
Proof.
  intros Hd Hs. apply dense_app in Hd as [Hd Hr]. rewrite filter_app.
  assert (E1 : filter (in_window (file_end 0 done) (size - file_end 0 done)) done = []).
  { destruct (filter _ done) as [|e l] eqn:E; [done|].
    assert (He : e ∈ filter (in_window (file_end 0 done) (size - file_end 0 done)) done)
      by (rewrite E; apply elem_of_cons; by left).
    apply list_elem_of_filter in He as [[? _] He]. apply (dense_ends _ _ _ Hd) in He. lia. }
  rewrite E1. clear E1. simpl.
  assert (G : ∀ l from, dense from l → (∀ e, e ∈ l → fe_logical e < size) → ∀ start, start ≤ from →
    filter (in_window start (size - start)) l = l).
  { clear. induction l as [|e l IH]; intros from Hd Hs start Hle; [done|].
    destruct Hd as (<- & (Hl & _) & Hd). rewrite filter_cons_True.
    - f_equal. apply (IH _ Hd); [|unfold extent_end; lia]. intros x Hx. apply Hs, elem_of_cons. by right.
    - split; [unfold extent_end; lia|]. pose proof (Hs e ltac:(apply elem_of_cons; by left)). lia. }
  by eapply G.
Qed.

Section complete.
Context {W X : Type} {OS : Os W}.
Notation U := (U W X).

Lemma aligned_land x : x mod SECTOR_SIZE = 0 → (Z.land x (SECTOR_SIZE - 1) =? 0) = true.
Proof.
  intros H. change (SECTOR_SIZE - 1) with (Z.ones 9). rewrite Z.land_ones by done. by apply Z.eqb_eq.
Qed.

Lemma s64_small x : 0 ≤ x < 2 ^ 63 → s64 x = x.
Proof. intros. unfold s64. rewrite u64_small by lia. by destruct (Z.ltb_spec x (2 ^ 63)); [|lia]. Qed.

Lemma fiemap_extents_dense l off ranges (p : proc W X) :
  dense off l → 0 ≤ off → file_end off l < 2 ^ 63 →
  fiemap_extents (λ _, mret tt) l off ranges p =
    (Ret (inr (file_end off l, ranges ++ (extent_range <$> l))), p).
Proof.
  revert off ranges. induction l as [|e l IH]; intros off ranges Hd Ho Hend; simpl.
  - by rewrite app_nil_r.
  - destruct Hd as (<- & (? & _ & Ha) & Hd). rewrite (aligned_land _ Ha). simpl.
    unfold mbind, U_mbind. simpl. pose proof (dense_end _ _ Hd) as Hle.
    change (file_end (fe_logical e) (e :: l)) with (file_end (extent_end e) l) in *.
    unfold extent_end in *. rewrite s64_small by lia. rewrite IH; [|done|lia|done].
    by rewrite <- app_assoc.
Qed.

Context (filename : string) (l : list fiemap_extent) (size : Z).
Context (w : W) (Hreports : reports w filename l) (Hdense : dense 0 l).
Context (Hstart : ∀ e, e ∈ l → fe_logical e < size) (Hmax : file_end 0 l < 2 ^ 63).

(** A turn of the loop takes the next 500 extents. *)
Lemma fiemap_turn fuel done rest ranges (p : proc W X) :
  p_os p = w → l = done ++ rest → file_end 0 done < size →
  fiemap_loop (S fuel) (λ _, mret tt) filename size (file_end 0 done) ranges p =
  fiemap_loop fuel (λ _, mret tt) filename size (file_end 0 (done ++ take 500 rest))
    (ranges ++ (extent_range <$> take 500 rest)) p.
Proof.
  intros Hw -> Hlt. cbn [fiemap_loop]. rewrite (proj2 (Z.ltb_lt _ _) Hlt). cbn [negb].
  erewrite bind_ret by (apply on_os_same; rewrite Hw; apply Hreports). rewrite window_rest; [|done|].
  2: { intros e He. apply Hstart, elem_of_app. by right. }
  change (Z.to_nat extentMax) with 500%nat. apply dense_app in Hdense as [Hd1 Hd2].
  rewrite file_end_app in Hmax |- *. pose proof (dense_end _ _ Hd1) as H0.
  pose proof (proj1 (dense_app (file_end 0 done) (take 500 rest) (drop 500 rest))) as Hsplit.
  rewrite take_drop in Hsplit. destruct (Hsplit Hd2) as [Ht Hdr].
  rewrite (bind_ret _ _ p (inr (file_end (file_end 0 done) (take 500 rest),
    ranges ++ (extent_range <$> take 500 rest))) p); [done|].
  apply fiemap_extents_dense; [done..|].
  rewrite <- (take_drop 500 rest), file_end_app in Hmax. pose proof (dense_end _ _ Hdr). lia.
Qed.

Lemma fiemap_loop_dense fuel done rest ranges (p : proc W X) :
  p_os p = w → l = done ++ rest → size ≤ file_end 0 l → (length rest < fuel)%nat →
  fiemap_loop fuel (λ _, mret tt) filename size (file_end 0 done) ranges p =
    (Ret (inr (ranges ++ (extent_range <$> rest))), p).
Proof.
  revert done rest ranges. induction fuel as [|fuel IH]; intros done rest ranges Hw Hl Hend Hf; [lia|].
  destruct (Z.ltb_spec (file_end 0 done) size) as [Hlt|Hge].
  - rewrite (fiemap_turn fuel done rest) by done. destruct rest as [|e rest].
    { rewrite app_nil_r in Hl. subst l. lia. }
    rewrite (IH (done ++ take 500 (e :: rest)) (drop 500 (e :: rest))).
    + rewrite <- app_assoc, <- fmap_app, take_drop. done.
    + done.
    + by rewrite <- app_assoc, take_drop.
    + done.
    + rewrite length_drop. simpl in *. lia.
  - cbn [fiemap_loop]. rewrite (proj2 (Z.ltb_ge _ _) Hge). simpl. destruct rest as [|e rest].
    { by rewrite app_nil_r. }
    subst l. apply dense_app in Hdense as [_ (He & _)].
    pose proof (Hstart e ltac:(apply elem_of_app; right; apply elem_of_cons; by left)). lia.
Qed.

(** With a hole at the end of the file no turn makes progress once the extents are done. *)
Lemma fiemap_loop_hole fuel done rest ranges (p : proc W X) :
  p_os p = w → l = done ++ rest → file_end 0 l < size →
  fiemap_loop fuel (λ _, mret tt) filename size (file_end 0 done) ranges p = (Halt Endless, p).
Proof.
  revert done rest ranges. induction fuel as [|fuel IH]; intros done rest ranges Hw Hl Hend.
  all: assert (Hlt : file_end 0 done < size).
  all: try (subst l; rewrite file_end_app in Hend; apply dense_app in Hdense as [_ Hd];
            pose proof (dense_end _ _ Hd); lia).
  - cbn [fiemap_loop]. by rewrite (proj2 (Z.ltb_lt _ _) Hlt).
  - rewrite (fiemap_turn fuel done rest) by done. apply (IH _ (drop 500 rest)); [done| |done].
    by rewrite <- app_assoc, take_drop.
Qed.
End complete.

Section storage.
Context {W X : Type} {OS : Os W}.

Lemma fiemap_opens (filename : string) (st : stat_t) fuel (p : proc W X) r :
  readable (p_os p) filename st →
  (∀ p0 : proc W X, p_os p0 = p_os p → fiemap_loop fuel (λ _, mret tt) filename (st_size st) 0 [] p0 = (r, p0)) →
  FiemapStorage fuel filename p =
    match r with
    | Ret (inr ranges) => (Ret (st_dev st, ranges), p)
    | Ret (inl (e, m)) => (Throw (system_error e m), p)
    | Throw e => (Throw e, {| p with p_fds := p_fds p + 1 |})
    | Halt h => (Halt h, {| p with p_fds := p_fds p + 1 |})
    end.
Proof.
  intros [Hs Ho Hm] Hl. unfold FiemapStorage, fiemap_with.
  rewrite (bind_ret _ _ p (Ok st) p) by (apply on_os_same, Hs).
  set (p1 := {| p with p_fds := p_fds p + 1 |}).
  rewrite (bind_ret _ _ p 0 p1).
  2: { unfold open_call, syscall. rewrite (bind_ret _ _ p 0 p); [done|].
       by rewrite (bind_ret _ _ p 0 p) by (apply on_os_same, Ho). }
  cbn [Z.ltb Z.compare]. rewrite (bind_ret _ _ p1 true p1) by (apply on_os_same, Hm).
  destruct r as [r|e|h].
  - rewrite (bind_ret _ _ p1 r p1) by (by apply Hl).
    rewrite (bind_ret close _ p1 tt p) by (unfold close, uset, close_fd, p1; cbn; f_equal; destruct p; f_equal; cbn; lia).
    by destruct r as [[]|].
  - by rewrite (bind_throw _ _ p1 e p1) by (by apply Hl).
  - by rewrite (bind_halt _ _ p1 h p1) by (by apply Hl).
Qed.

(** C18: the ranges of a file are all of the file. For a file without holes, whose
    extents the file system reports in the order of the file and at most 500 at a time,
    [FiemapStorage] ends and returns exactly the extents, in their order and as sectors of
    the file's device; together they have room for the whole file, and no descriptor
    is left open. *)
Theorem fiemap_storage_complete filename st l fuel (p : proc W X) :
  readable (p_os p) filename st → reports (p_os p) filename l → dense 0 l →
  (∀ e, e ∈ l → fe_logical e < st_size st) → st_size st ≤ file_end 0 l < 2 ^ 63 →
  (length l < fuel)%nat →
  FiemapStorage fuel filename p = (Ret (st_dev st, extent_range <$> l), p) ∧
  st_size st ≤ sum_sectors (extent_range <$> l) * SECTOR_SIZE.
Proof.
  intros Hr Hrep Hd Hs Hend Hf. split.
  - rewrite (fiemap_opens filename st fuel p (Ret (inr (extent_range <$> l))) Hr); [done|].
    intros p0 Hp. apply (fiemap_loop_dense filename l _ _ Hrep Hd Hs ltac:(lia) fuel [] l [] p0 Hp eq_refl); [lia|done].
  - rewrite (dense_sectors 0 l Hd). lia.
Qed.

(** A hole at the end of a file is looked for for ever. When the last extent of
    a file ends before the file does, the offset stops moving: [FiemapStorage] asks for
    the same window again and again, whatever number of turns it is given, with the
    file open. *)
Theorem fiemap_storage_hole_hangs filename st l fuel (p : proc W X) :
  readable (p_os p) filename st → reports (p_os p) filename l → dense 0 l → file_end 0 l < st_size st < 2 ^ 63 →
  FiemapStorage fuel filename p = (Halt Endless, {| p with p_fds := p_fds p + 1 |}).
Proof.
  intros Hr Hrep Hd Hend. rewrite (fiemap_opens filename st fuel p (Halt Endless) Hr); [done|].
  intros p0 Hp. eapply (fiemap_loop_hole filename l (st_size st) _ Hrep Hd) with (done := []) (rest := l); [|lia|done|done|lia].
  intros e He. destruct (dense_ends _ _ _ Hd He) as [_ ?].
  destruct (proj1 (Forall_forall extent_aligned l) (dense_aligned _ _ Hd) e He) as (? & _).
  unfold extent_end in *. lia.
Qed.
End storage.

(** ** A small file system

    Names of devices and files with their extents; [fs_free] is the next free byte of
    the device that has the files, number 0:8. *)
Record toy_fs := ToyFs {
  fs_devs : gmap string blk_snap_dev;
  fs_files : gmap string (list fiemap_extent * Z);
  fs_free : Z;
}.

Definition toy_stat (name : string) (w : toy_fs) : result stat_t :=
  let disk := {| mj := 0; mn := 8 |} in
  match fs_devs w !! name, fs_files w !! name with
  | Some d, _ => Ok {| st_dev := disk; st_rdev := d; st_size := 0 |}
  | None, Some (_, n) => Ok {| st_dev := disk; st_rdev := no_dev; st_size := n |}
  | None, None => Err ENOENT
  end.

#[local] Instance toy_os : Os toy_fs :=
  {| os_open_ctl := mret 0;
     os_stat name := λ w, (toy_stat name w, w);
     os_exists name := λ w, (Ok (bool_decide (is_Some (fs_files w !! name))), w);
     os_create name := λ w, (0, {| w with fs_files := <[name := ([], 0)]> (fs_files w) |});
     os_open name := λ w, (if bool_decide (is_Some (fs_files w !! name)) then 0 else ENOENT, w);
     os_fallocate name n := λ w,
       (0, {| w with fs_files := <[name := ([{| fe_logical := 0; fe_physical := fs_free w; fe_length := n |}], n)]> (fs_files w);
                     fs_free := fs_free w + n |});
     os_fiemap name start length count := λ w,
       (match fs_files w !! name with
        | Some (l, _) => Ok (take (Z.to_nat count) (filter (in_window start length) l))
        | None => Err ENOENT end, w);
     os_malloc := mret true;
     os_remove name := λ w, (if bool_decide (is_Some (fs_files w !! name)) then 0 else ENOENT,
                             {| w with fs_files := delete name (fs_files w) |});
     os_strerror n := pretty n |}.

(** A file of 8 sectors in two extents, and one of 4 KiB of which half is a hole. *)
Definition toy_extents : list fiemap_extent :=
  [{| fe_logical := 0; fe_physical := 8192; fe_length := 1024 |};
   {| fe_logical := 1024; fe_physical := 4096; fe_length := 3072 |}].
Definition toy_files : toy_fs :=
  {| fs_devs := ∅;
     fs_files := {[ "full"%S := (toy_extents, 4096);
                    "half"%S := ([{| fe_logical := 0; fe_physical := 0; fe_length := 2048 |}], 4096) ]};
     fs_free := 65536 |}.
Definition toy_module : module := ex_loaded [].
Definition toy_proc (w : toy_fs) : proc toy_fs unit :=
  {| p_mod := toy_module; p_env := []; p_os := w; p_errno := 0; p_fds := 0; p_stdout := []; p_stderr := [];
     p_mem := tt |}.

Lemma toy_readable name l n :
  fs_files toy_files !! name = Some (l, n) →
  readable toy_files name {| st_dev := {| mj := 0; mn := 8 |}; st_rdev := no_dev; st_size := n |} ∧
  reports toy_files name l.
Proof.
  intros E. split; [split|].
  - cbn [os_stat toy_os]. unfold toy_stat. rewrite E.
    replace (fs_devs toy_files !! name) with (@None blk_snap_dev) by (symmetry; apply lookup_empty). done.
  - cbn [os_open toy_os]. rewrite E. by rewrite bool_decide_true.
  - done.
  - intros start length count. cbn [os_fiemap toy_os]. by rewrite E.
Qed.

Lemma fiemap_storage_complete_witness :
  FiemapStorage 3 "full" (toy_proc toy_files) =
    (Ret ({| mj := 0; mn := 8 |}, [{| sector_offset := 16; sector_count := 2 |};
                                   {| sector_offset := 8; sector_count := 6 |}]), toy_proc toy_files).
Proof.
  destruct (toy_readable "full" toy_extents 4096 eq_refl) as [Hr Hrep].
  refine (proj1 (fiemap_storage_complete "full" _ toy_extents 3 (toy_proc toy_files) Hr Hrep _ _ _ _)).
  - vm_compute. split_and!; reflexivity.
  - intros e [->|[->|[]%elem_of_nil]%elem_of_cons]%elem_of_cons; vm_compute; reflexivity.
  - vm_compute. split; [discriminate|reflexivity].
  - vm_compute. lia.
Defined.

Lemma fiemap_storage_hole_hangs_witness :
  (FiemapStorage 100 "half" (toy_proc toy_files)).1 = Halt Endless.
Proof.
  destruct (toy_readable "half" [{| fe_logical := 0; fe_physical := 0; fe_length := 2048 |}] 4096 eq_refl) as [Hr Hrep].
  rewrite (fiemap_storage_hole_hangs "half" _ _ 100 (toy_proc toy_files) Hr Hrep); [reflexivity| |].
  - vm_compute. split_and!; reflexivity.
  - vm_compute. split; reflexivity.
Defined.
