(* ===== verification/Session.v ===== *)
(** * Sessions (lib/blksnap/Session.cpp)

    A session holds a snapshot of some devices: its constructor creates and takes the
    snapshot, a thread answers the module's requests for more difference storage,
    and the destructor destroys the snapshot and removes the files. The storage is
    either a directory, in which files are made, or ranges of sectors of a device. *)
From S2P Require Import Prelude MemoryChecker Kernel Log Uapi EventQueue CbtMap DiffBuffer DiffIo.
From S2P Require Import DiffStorage Chunk DiffArea ChunkSpecs CowInv Cow CowSteps CowImage.
From S2P Require Import CowSafety State BdevFilter SnapImage Tracker Snapshot Main UserSpace.
From S2P Require Import LibBlksnap Fiemap.

(** [struct SRange], [struct SStorageRanges] (Sector.h). *)
Record SRange := Range { rg_sector : Z; rg_count : Z }.
Record SStorageRanges := StorageRanges { sr_device : string; sr_ranges : list SRange }.

(** [struct SSessionInfo]. *)
Record SSessionInfo := SessionInfo {
  original : blk_snap_dev;
  image : blk_snap_dev;
  originalName : string;
  imageName : string;
}.

(** [struct SRangeVectorPos]. *)
Record SRangeVectorPos := RangeVectorPos { rangeInx : Z; rangeOfs : Z }.

(** [struct SState]. *)
Record SState := State {
  ss_stop : bool;
  diffStorage : string;
  ss_id : Z;
  errorMessage : list string;
  diffStorageFiles : list string;
  diffStorageRanges : list SRange;
  diffDeviceMajor : Z;
  diffDeviceMinor : Z;
  diffStoragePosition : SRangeVectorPos;
}.
Definition new_state : SState :=
  {| ss_stop := false; diffStorage := ""; ss_id := 0; errorMessage := []; diffStorageFiles := [];
     diffStorageRanges := []; diffDeviceMajor := 0; diffDeviceMinor := 0;
     diffStoragePosition := {| rangeInx := 0; rangeOfs := 0 |} |}.

(** [class CSession] with the state its thread shares, whether the thread has been
    started, and the thread's [diffStorageNumber]. *)
Record CSession := Session {
  m_id : Z;
  m_devices : list SSessionInfo;
  m_state : SState;
  m_thread : bool;
  diffStorageNumber : Z;
}.
Definition no_session : CSession :=
  {| m_id := 0; m_devices := []; m_state := new_state; m_thread := false; diffStorageNumber := 1 |}.

(** ** Ranges out of the ranges that were given *)

(** The [while] loop of [AllocateDiffStorage]: the position and the ranges found. An
    index beyond the vector would be undefined. *)
Fixpoint allocate_loop (fuel : nat) (all : list SRange) (requestedSectors : Z) (pos : SRangeVectorPos)
    (ranges : list blk_snap_block_range) : outcome (SRangeVectorPos * list blk_snap_block_range) :=
  if requestedSectors =? 0 then Ret (pos, ranges)
  else
    match fuel with
    | O => Halt Endless
    | S fuel =>
        match nthZ all (rangeInx pos) with
        | None => Halt Undefined
        | Some rg =>
            let ofs := u64 (rg_sector rg + rangeOfs pos) in
            let sz := Z.min (u64 (rg_count rg - rangeOfs pos)) requestedSectors in
            if sz =? 0 then
              let pos := {| rangeInx := rangeInx pos + 1; rangeOfs := 0 |} in
              if lenZ all =? rangeInx pos then Ret (pos, ranges)
              else allocate_loop fuel all requestedSectors pos ranges
            else
              allocate_loop fuel all (requestedSectors - sz)
                {| rangeInx := rangeInx pos; rangeOfs := u64 (rangeOfs pos + sz) |}
                (ranges ++ [{| sector_offset := ofs; sector_count := sz |}])
        end
    end.

(** The loop leaves a range at most once for each range and takes from it at most once. *)
Definition allocate_fuel (all : list SRange) : nat := 2 * length all + 1.

Definition allocate (st : SState) (requestedSectors : Z)
    : outcome (SRangeVectorPos * list blk_snap_block_range) :=
  if lenZ (diffStorageRanges st) <=? rangeInx (diffStoragePosition st)
  then Throw (runtime_error "Failed to allocate diff storage. Not enough free ranges")
  else allocate_loop (allocate_fuel (diffStorageRanges st)) (diffStorageRanges st) requestedSectors
         (diffStoragePosition st) [].

Section session.
Context {W : Type} {OS : Os W} {P : ModuleParams} (text_start text_stop : list Z) (fuel : nat).
Notation U := (U W CSession).

Definition get_state : U SState := uget (λ p, m_state (p_mem p)).
Definition set_session (f : CSession → CSession) : U unit := uset (λ p, {| p with p_mem := f (p_mem p) |}).
Definition set_state (f : SState → SState) : U unit :=
  set_session (λ c, {| c with m_state := f (m_state c) |}).

Definition AllocateDiffStorage (requestedSectors : Z) : U (blk_snap_dev * list blk_snap_block_range) :=
  st ← get_state;
  match allocate st requestedSectors with
  | Throw e => throw e
  | Halt h => halted h
  | Ret (pos, ranges) =>
      set_state (λ st, {| st with diffStoragePosition := pos |}) ≫= λ _,
      mret ({| mj := diffDeviceMajor st; mn := diffDeviceMinor st |}, ranges)
  end.

Definition LogAppendedRanges (ranges : list blk_snap_block_range) : U unit :=
  cout "" ≫= λ _,
  cout ("Append " +:+ pretty (lenZ ranges) +:+ " ranges: ") ≫= λ _,
  for_each (λ rg, cout (pretty (sector_offset rg) +:+ ":" +:+ pretty (sector_count rg))) ranges ≫= λ _,
  cout ("Total sectors append: " +:+ pretty (u64 (sum_sectors ranges))).

Definition push_file (filename : string) : U unit :=
  set_state (λ st, {| st with diffStorageFiles := diffStorageFiles st ++ [filename] |}).
Definition push_error (e : exn) : U unit :=
  cerr (what e) ≫= λ _,
  set_state (λ st, {| st with errorMessage := errorMessage st ++ [what e] |}).

(** A new file of the requested size; the path and the name are concatenated. *)
Definition storage_file (number requestedSectors : Z) : U (blk_snap_dev * list blk_snap_block_range) :=
  st ← get_state;
  let filename := diffStorage st +:+ "diff_storage#" +:+ pretty number in
  old ← fs_exists filename;
  uwhen old (fs_remove filename) ≫= λ _,
  push_file filename ≫= λ _,
  FallocateStorage filename (u64 (Z.shiftl requestedSectors SECTOR_SHIFT)) ≫= λ _,
  FiemapStorage fuel filename.

(** The answer to a request for storage, whose files are numbered by [number]. *)
Definition append_portion (number : U Z) (requestedSectors : Z) : U unit :=
  st ← get_state;
  '(dev_id, ranges) ← (if bool_decide (diffStorage st = "")
                       then AllocateDiffStorage requestedSectors
                       else n ← number; storage_file n requestedSectors);
  LogAppendedRanges ranges ≫= λ _,
  AppendDiffStorage text_start text_stop (ss_id st) dev_id ranges.

Definition device_text (d : blk_snap_dev) : string := pretty (mj d) +:+ ":" +:+ pretty (mn d).

(** The [switch] over the event, in the constructor and in the thread. *)
Definition process_event (number : U Z) (corrupted_text : string) (ev : SBlksnapEvent) : U unit :=
  if bev_code ev =? blk_snap_event_code_low_free_space then
    match bev_data ev with
    | lowFreeSpace n => append_portion number n
    | _ => halted Undefined
    end
  else if bev_code ev =? blk_snap_event_code_corrupted then
    match bev_data ev with
    | corruptedEvent d e => throw (system_error e (corrupted_text +:+ device_text d))
    | _ => halted Undefined
    end
  else throw (runtime_error "Invalid blksnap event code received.").

(** [diffStorageNumber++]. *)
Definition next_number : U Z :=
  n ← uget (λ p, diffStorageNumber (p_mem p));
  set_session (λ c, {| c with diffStorageNumber := n + 1 |}) ≫= λ _, mret n.

(** A turn of the [while] loop of [BlksnapThread]; [false] when it breaks. *)
Definition BlksnapThread_turn : U bool :=
  st ← get_state;
  r ← try (ev ← WaitEvent text_start text_stop (ss_id st) 100; mret (Some ev))
          (λ ex, push_error ex ≫= λ _, mret None);
  match r with
  | None => mret false
  | Some None => mret true
  | Some (Some ev) =>
      try (process_event next_number "Snapshot corrupted for device " ev) push_error ≫= λ _,
      mret true
  end.

(** The thread, when it sees [stop] set after [turns] turns. *)
Fixpoint BlksnapThread (turns : nat) : U unit :=
  match turns with
  | O => mret tt
  | S turns =>
      go ← BlksnapThread_turn;
      if (go : bool) then BlksnapThread turns else mret tt
  end.

Definition DeviceNumberByName (deviceName : string) : U blk_snap_dev :=
  s ← on_os (os_stat deviceName);
  match s with
  | Ok st => mret (st_rdev st)
  | Err e => throw (system_error e "Failed to get file size.")
  end.

Definition add_device (name : string) : U unit :=
  d ← deviceByName name;
  set_session (λ c, {| c with m_devices := m_devices c ++
    [{| original := d; image := no_dev; originalName := name; imageName := "" |}] |}).

(** The images found, entered into the list of devices. *)
Definition same_dev (a b : blk_snap_dev) : bool := (mj a =? mj b) && (mn a =? mn b).
Definition image_name (d : blk_snap_dev) : string := "/dev/blksnap-image" +:+ pretty (mn d).
Definition enter_image (info : blk_snap_image_info) (devices : list SSessionInfo) : list SSessionInfo :=
  (λ d, if same_dev (original d) (orig_dev_id info)
        then {| d with image := image_dev_id info; imageName := image_name (image_dev_id info) |}
        else d) <$> devices.

(** The body of the constructor after [m_ptrBlksnap] has been made. The new thread runs
    [turns] turns before the snapshot is taken and [turns'] before the images are
    collected. *)
Definition CSession_body (turns turns' : nat) (devices : list string) (storage : string)
    (ranges : SStorageRanges) : U unit :=
  for_each add_device devices ≫= λ _,
  devs ← uget (λ p, original <$> m_devices (p_mem p));
  id ← Create text_start text_stop devs;
  set_session (λ c, {| c with m_id := id |}) ≫= λ _,
  set_state (λ st, {| st with diffStorage := storage; diffStorageRanges := sr_ranges ranges |}) ≫= λ _,
  (if bool_decide (sr_device ranges = "") then mret tt
   else
     d ← DeviceNumberByName (sr_device ranges);
     set_state (λ st, {| st with diffDeviceMajor := mj d; diffDeviceMinor := mn d |})) ≫= λ _,
  set_state (λ st, {| st with ss_id := id |}) ≫= λ _,
  ev ← WaitEvent text_start text_stop id 100;
  match ev with
  | None => mret tt
  | Some ev => process_event (mret 0) "Failed to create snapshot for device " ev
  end ≫= λ _,
  set_session (λ c, {| c with m_thread := true |}) ≫= λ _,
  BlksnapThread turns ≫= λ _,
  Take text_start text_stop id ≫= λ _,
  BlksnapThread turns' ≫= λ _,
  images ← Collect text_start text_stop id [];
  set_session (λ c, {| c with m_devices := foldl (λ l i, enter_image i l) (m_devices c) images |}).

(** An exception destroys the members: the descriptor is closed, but a thread that has
    been started is still joinable, and its destructor ends the process. *)
Definition CSession_new (turns turns' : nat) (devices : list string) (storage : string)
    (ranges : SStorageRanges) : U unit :=
  CBlksnap_open ≫= λ _,
  try (CSession_body turns turns' devices storage ranges)
      (λ e, started ← uget (λ p, m_thread (p_mem p));
            if (started : bool) then halted Terminated
            else uset CBlksnap_close ≫= λ _, throw e).

Definition remove_file (filename : string) : U unit :=
  try (r ← syscall (os_remove filename);
       if negb (r =? 0) then throw_errno "[TBD]Failed to remove diff storage file." else mret tt)
      (λ ex, cerr (what ex)).

(** The destructor; the thread ends its turn and is joined. Files are removed only when
    the snapshot has been destroyed. *)
Definition CSession_delete : U unit :=
  finally
    (set_state (λ st, {| st with ss_stop := true |}) ≫= λ _,
     set_session (λ c, {| c with m_thread := false |}) ≫= λ _,
     id ← uget (λ p, m_id (p_mem p));
     ok ← try (Destroy text_start text_stop id ≫= λ _, mret true)
              (λ ex, cerr (what ex) ≫= λ _, mret false);
     if negb ok then mret tt
     else st ← get_state; for_each remove_file (diffStorageFiles st))
    CBlksnap_close.

Definition GetImageDevice (name : string) : U string :=
  d ← deviceByName name;
  l ← uget (λ p, m_devices (p_mem p));
  match find (λ i, same_dev (original i) d) l with
  | Some i => mret (imageName i)
  | None => throw (runtime_error ("Failed to get image device for [" +:+ name +:+ "]."))
  end.

Definition GetOriginalDevice (name : string) : U string :=
  d ← deviceByName name;
  l ← uget (λ p, m_devices (p_mem p));
  match find (λ i, same_dev (image i) d) l with
  | Some i => mret (originalName i)
  | None => throw (runtime_error ("Failed to get original device for [" +:+ name +:+ "]."))
  end.

Definition GetError : U (option string) :=
  st ← get_state;
  match errorMessage st with
  | [] => mret None
  | e :: l => set_state (λ st, {| st with errorMessage := l |}) ≫= λ _, mret (Some e)
  end.
End session.
