(* ===== verification/SessionSpecs.v ===== *)
(** * What a session gives to the module (lib/blksnap/Session.cpp)

    The ranges of a session are a sequence of sectors, from which the answers to
    the module's requests are cut off one after the other; the regions that the
    module makes of them never overlap. *)
From S2P Require Import Prelude MemoryChecker Kernel Log Uapi EventQueue CbtMap DiffBuffer DiffIo.
From S2P Require Import DiffStorage Chunk DiffArea ChunkSpecs CowInv Cow CowSteps CowImage.
From S2P Require Import CowSafety State BdevFilter SnapImage Tracker Snapshot SnapshotSpecs.
From S2P Require Import Lifecycle Main UserSpace LibBlksnap Fiemap Session.

(** ** Ranges as sequences of sectors *)

Definition range_sectors (r : SRange) : list Z := seqZ (rg_sector r) (rg_count r).
Definition all_sectors (l : list SRange) : list Z := foldr (λ r s, range_sectors r ++ s) [] l.
Definition granted (l : list blk_snap_block_range) : list Z :=
  foldr (λ r s, seqZ (sector_offset r) (sector_count r) ++ s) [] l.

(** The sectors that have not been handed out. *)
Definition remaining (all : list SRange) (pos : SRangeVectorPos) : list Z :=
  match drop (Z.to_nat (rangeInx pos)) all with
  | [] => []
  | r :: rs => seqZ (rg_sector r + rangeOfs pos) (rg_count r - rangeOfs pos) ++ all_sectors rs
  end.

Definition range_ok (r : SRange) : Prop :=
  0 ≤ rg_sector r ∧ 0 ≤ rg_count r ∧ rg_sector r + rg_count r < 2 ^ 64.
(** A position is in a range, or behind the last one. *)
Definition pos_ok (all : list SRange) (pos : SRangeVectorPos) : Prop :=
  0 ≤ rangeInx pos ∧
  match nthZ all (rangeInx pos) with
  | Some r => 0 ≤ rangeOfs pos ≤ rg_count r
  | None => rangeInx pos = lenZ all ∧ rangeOfs pos = 0
  end.
Definition piece_ok (r : blk_snap_block_range) : Prop :=
  0 ≤ sector_offset r ∧ 0 < sector_count r ∧ sector_offset r + sector_count r < 2 ^ 64.

Lemma granted_app l1 l2 : granted (l1 ++ l2) = granted l1 ++ granted l2.
Proof. induction l1 as [|r l1 IH]; [done|]. simpl. by rewrite IH, app_assoc. Qed.

Lemma drop_nthZ {A} (l : list A) i x :
  nthZ l i = Some x → drop (Z.to_nat i) l = x :: drop (Z.to_nat (i + 1)) l.
Proof.
  intros E. pose proof (nthZ_inv _ _ _ E). unfold nthZ in E. destruct (Z.ltb_spec i 0); [done|].
  rewrite (drop_S _ _ _ E). do 2 f_equal. lia.
Qed.

(** The position at the start of the range after [pos]. *)
Lemma remaining_next all pos r :
  nthZ all (rangeInx pos) = Some r → rangeOfs pos = rg_count r →
  remaining all {| rangeInx := rangeInx pos + 1; rangeOfs := 0 |} = remaining all pos.
Proof.
  intros E Ho. unfold remaining. cbn [rangeInx rangeOfs]. rewrite (drop_nthZ _ _ _ E), Ho, Z.sub_diag.
  cbn [seqZ app]. destruct (drop (Z.to_nat (rangeInx pos + 1)) all) as [|r' rs]; [done|].
  by rewrite Z.add_0_r, Z.sub_0_r.
Qed.

Lemma remaining_split all pos r sz :
  nthZ all (rangeInx pos) = Some r → 0 ≤ sz ≤ rg_count r - rangeOfs pos →
  remaining all pos = seqZ (rg_sector r + rangeOfs pos) sz ++
    remaining all {| rangeInx := rangeInx pos; rangeOfs := rangeOfs pos + sz |}.
Proof.
  intros E Hsz. unfold remaining. cbn [rangeInx rangeOfs]. rewrite (drop_nthZ _ _ _ E).
  rewrite app_assoc. f_equal.
  replace (rg_count r - rangeOfs pos) with (sz + (rg_count r - (rangeOfs pos + sz))) by lia.
  rewrite seqZ_app by lia. by rewrite Z.add_assoc.
Qed.

Lemma next_pos_ok all pos r :
  Forall range_ok all → nthZ all (rangeInx pos) = Some r →
  pos_ok all {| rangeInx := rangeInx pos + 1; rangeOfs := 0 |}.
Proof.
  intros HF E. pose proof (nthZ_inv _ _ _ E). split; [cbn; lia|]. cbn [rangeInx rangeOfs].
  destruct (nthZ all (rangeInx pos + 1)) as [r'|] eqn:E'.
  - assert (Hr : range_ok r').
    { unfold nthZ in E'. destruct (_ <? _); [done|]. rewrite Forall_forall in HF.
      by apply HF, (list_elem_of_lookup_2 _ _ _ E'). }
    destruct Hr as (_ & ? & _). lia.
  - split; [|done]. destruct (decide (rangeInx pos + 1 < lenZ all)); [|lia].
    destruct (nthZ_Some all (rangeInx pos + 1)) as [? ?]; [lia|congruence].
Qed.

Definition turns_left (all : list SRange) (pos : SRangeVectorPos) : Z :=
  2 * (lenZ all - rangeInx pos) -
  match nthZ all (rangeInx pos) with Some r => if rangeOfs pos =? rg_count r then 1 else 0 | None => 0 end.

Lemma allocate_loop_spec fuel all n pos acc :
  Forall range_ok all → pos_ok all pos → rangeInx pos < lenZ all → 0 ≤ n < 2 ^ 64 →
  turns_left all pos ≤ Z.of_nat fuel →
  ∃ pos' new, allocate_loop fuel all n pos acc = Ret (pos', acc ++ new) ∧ pos_ok all pos' ∧
    granted new = take (Z.to_nat n) (remaining all pos) ∧
    remaining all pos' = drop (Z.to_nat n) (remaining all pos) ∧ Forall piece_ok new.
Proof.
  intros HF. revert n pos acc. induction fuel as [|fuel IH]; intros n pos acc [H0 Hp] Hlt Hn Hf.
  all: destruct (nthZ_Some all (rangeInx pos)) as [r E]; [lia|]; rewrite E in Hp; cbn [allocate_loop].
  all: destruct (Z.eqb_spec n 0) as [->|Hn0];
    [exists pos, []; rewrite app_nil_r; split_and!; [done|by split; [|rewrite E]|done..]|].
  { unfold turns_left in Hf. rewrite E in Hf. destruct (_ =? _); lia. }
  assert (Hr : range_ok r).
  { unfold nthZ in E. destruct (_ <? _); [done|]. rewrite Forall_forall in HF.
    by apply HF, (list_elem_of_lookup_2 _ _ _ E). }
  destruct Hr as (Hs & Hc & Hmax). rewrite E. rewrite !(u64_small (_ - _)) by lia.
  unfold turns_left in Hf. rewrite E in Hf.
  set (sz := Z.min (rg_count r - rangeOfs pos) n). destruct (Z.eqb_spec sz 0) as [Hz|Hz].
  - assert (Ho : rangeOfs pos = rg_count r) by lia. rewrite (proj2 (Z.eqb_eq _ _) Ho) in Hf.
    rewrite <- (remaining_next all pos r E Ho). pose proof (next_pos_ok all pos r HF E) as Hnext.
    cbn [rangeInx]. destruct (Z.eqb_spec (lenZ all) (rangeInx pos + 1)) as [Hend|Hend].
    + eexists _, []. rewrite app_nil_r. split; [done|]. split; [done|].
      assert (Enil : remaining all {| rangeInx := rangeInx pos + 1; rangeOfs := 0 |} = []).
      { unfold remaining. cbn [rangeInx]. rewrite drop_ge; [done|]. unfold lenZ in Hend. lia. }
      rewrite Enil, take_nil, drop_nil. by split_and!.
    + apply IH; [done|cbn; lia|done|]. unfold turns_left. cbn [rangeInx rangeOfs].
      destruct (nthZ all (rangeInx pos + 1)); [destruct (_ =? _)|]; lia.
  - rewrite (u64_small (rg_sector r + rangeOfs pos)), (u64_small (rangeOfs pos + sz)) by lia.
    set (pos1 := {| rangeInx := rangeInx pos; rangeOfs := rangeOfs pos + sz |}).
    set (piece := {| sector_offset := rg_sector r + rangeOfs pos; sector_count := sz |}).
    assert (Hp1 : pos_ok all pos1) by (split; [done|]; cbn [pos1 rangeInx rangeOfs]; rewrite E; lia).
    destruct (decide (n = sz)) as [Hnsz|Hnsz].
    + exists pos1, [piece]. replace (n - sz) with 0 by lia.
      split; [by destruct fuel|]. split; [done|].
      rewrite (remaining_split all pos r sz E) by lia. fold pos1.
      rewrite take_app_length', drop_app_length' by (rewrite length_seqZ; lia).
      split; [cbn [granted foldr piece sector_offset sector_count]; by rewrite app_nil_r|].
      split; [done|]. constructor; [|done]. split_and!; cbn; lia.
    + destruct (IH (n - sz) pos1 (acc ++ [piece])) as (pos' & new & -> & Hok & Hg & Hrem & Hpc);
        [done|done|lia| |].
      { unfold turns_left. cbn [pos1 rangeInx rangeOfs]. rewrite E.
        rewrite (proj2 (Z.eqb_eq _ _)) by lia. destruct (rangeOfs pos =? rg_count r) eqn:?; bool_hyps; lia. }
      exists pos', (piece :: new). rewrite <- app_assoc. split; [done|]. split; [done|].
      rewrite (remaining_split all pos r sz E) by lia. fold pos1.
      assert (El : length (seqZ (rg_sector r + rangeOfs pos) sz) = Z.to_nat sz) by apply length_seqZ.
      replace (Z.to_nat n) with (Z.to_nat sz + Z.to_nat (n - sz))%nat by lia.
      rewrite <- El at 1 2. rewrite take_app_add, drop_app_add.
      split; [cbn [granted foldr piece sector_offset sector_count]; by rewrite <- Hg|].
      split; [done|]. constructor; [|done]. split_and!; cbn; lia.
Qed.

Lemma allocate_spec st n :
  Forall range_ok (diffStorageRanges st) → pos_ok (diffStorageRanges st) (diffStoragePosition st) →
  0 ≤ n < 2 ^ 64 →
  let left := remaining (diffStorageRanges st) (diffStoragePosition st) in
  match allocate st n with
  | Ret (pos', ranges) =>
      rangeInx (diffStoragePosition st) < lenZ (diffStorageRanges st) ∧
      granted ranges = take (Z.to_nat n) left ∧
      remaining (diffStorageRanges st) pos' = drop (Z.to_nat n) left ∧
      pos_ok (diffStorageRanges st) pos' ∧ Forall piece_ok ranges
  | Throw _ => rangeInx (diffStoragePosition st) = lenZ (diffStorageRanges st)
  | Halt _ => False
  end.
Proof.
  intros HF Hp Hn left. unfold allocate. pose proof Hp as [H0 Hp'].
  destruct (Z.leb_spec (lenZ (diffStorageRanges st)) (rangeInx (diffStoragePosition st))) as [Hge|Hlt].
  - destruct (nthZ _ _) as [r|] eqn:E; [apply nthZ_inv in E; lia|]. by destruct Hp'.
  - destruct (allocate_loop_spec (allocate_fuel (diffStorageRanges st)) (diffStorageRanges st) n
      (diffStoragePosition st) []) as (pos' & new & -> & ? & ? & ? & ?); [done..| |by split_and!].
    unfold turns_left, allocate_fuel, lenZ in *. destruct (nthZ _ _); [destruct (_ =? _)|]; lia.
Qed.

(** C17: a session hands out its ranges in order and nothing twice. While ranges are
    left, [AllocateDiffStorage] ends, without undefined accesses, and its result refines
    cutting a prefix off a sequence: the sectors of the ranges it returns are the
    first [n] of the sectors that remain (all of them when fewer are left, without an
    error), and the others remain. When the position is behind the last range it throws. *)
Theorem allocate_refines st n :
  Forall range_ok (diffStorageRanges st) → pos_ok (diffStorageRanges st) (diffStoragePosition st) →
  0 ≤ n < 2 ^ 64 →
  let left := remaining (diffStorageRanges st) (diffStoragePosition st) in
  match allocate st n with
  | Ret (pos', ranges) =>
      rangeInx (diffStoragePosition st) < lenZ (diffStorageRanges st) ∧
      granted ranges = take (Z.to_nat n) left ∧
      remaining (diffStorageRanges st) pos' = drop (Z.to_nat n) left ∧
      pos_ok (diffStorageRanges st) pos' ∧ Forall piece_ok ranges
  | Throw _ => rangeInx (diffStoragePosition st) = lenZ (diffStorageRanges st)
  | Halt _ => False
  end.
Proof. apply allocate_spec. Qed.

(** ** The module's storage under a session *)

Lemma granted_has l bd x :
  Exists (blk_has bd x) (new_block bd <$> l) ↔ x ∈ granted l.
Proof.
  induction l as [|r l IH]; [split; [intros []%Exists_nil|intros []%elem_of_nil]|].
  rewrite fmap_cons, Exists_cons, IH. cbn [granted foldr]. rewrite elem_of_app, elem_of_seqZ.
  unfold blk_has. cbn [new_block sk_bdev sk_sector sk_count]. intuition.
Qed.

Lemma granted_dev l bd bd' x : Exists (blk_has bd' x) (new_block bd <$> l) → bd' = bd.
Proof. intros (b & (r & -> & _)%list_elem_of_fmap & Hb & _)%Exists_exists. done. Qed.

Lemma granted_length l bd :
  Forall piece_ok l → sum_count (new_block bd <$> l) = Z.of_nat (length (granted l)).
Proof.
  induction 1 as [|r l (? & ? & ?) _ IH]; [done|]. rewrite fmap_cons, sum_count_cons, IH.
  cbn [granted foldr]. rewrite length_app, length_seqZ. cbn. fold (granted l). lia.
Qed.

(** Pieces without a common sector are disjoint blocks. *)
Lemma granted_disjoint l bd : NoDup (granted l) → blocks_disjoint (new_block bd <$> l).
Proof.
  induction l as [|r l IH]; intros Hn bd' x; [cbn; lia|]. cbn [granted foldr] in Hn. fold (granted l) in Hn.
  apply NoDup_app in Hn as (_ & Hd & Hn). rewrite fmap_cons, filter_cons.
  destruct (decide (blk_has bd' x (new_block bd r))) as [Hx|]; [|by apply IH].
  cbn [length]. enough (filter (blk_has bd' x) (new_block bd <$> l) = []) as -> by (cbn; lia).
  destruct (filter _ _) as [|b bs] eqn:E; [done|]. exfalso.
  assert (Hb : b ∈ filter (blk_has bd' x) (new_block bd <$> l)) by (rewrite E; apply elem_of_cons; by left).
  apply list_elem_of_filter in Hb as [Hb Hin]. destruct Hx as [Hbd Hx].
  cbn in Hbd, Hx. subst bd'. apply (Hd x).
  - apply elem_of_seqZ. lia.
  - apply (granted_has l bd x), Exists_exists. by exists b.
Qed.

Lemma blocks_disjoint_app l1 l2 :
  blocks_disjoint l1 → blocks_disjoint l2 →
  (∀ bd x, Exists (blk_has bd x) l1 → ¬ Exists (blk_has bd x) l2) → blocks_disjoint (l1 ++ l2).
Proof.
  intros H1 H2 Hd bd x. rewrite filter_app, length_app. specialize (H1 bd x). specialize (H2 bd x).
  destruct (filter (blk_has bd x) l1) as [|b1 ?] eqn:E1; [cbn; lia|].
  destruct (filter (blk_has bd x) l2) as [|b2 ?] eqn:E2; [cbn in *; lia|]. exfalso.
  assert (G : ∀ b bs l, filter (blk_has bd x) l = b :: bs → Exists (blk_has bd x) l).
  { intros b bs k E. apply Exists_exists. exists b. apply and_comm, (list_elem_of_filter (blk_has bd x)).
    rewrite E. apply elem_of_cons. by left. }
  exact (Hd bd x (G _ _ _ E1) (G _ _ _ E2)).
Qed.

(** An event has the data of its code. *)
Definition event_ok (e : event) : Prop :=
  ev_data_size e = event_data_size (ev_data e) ∧
  ev_code e = match ev_data e with
              | low_free_space _ => blk_snap_event_code_low_free_space
              | corrupted _ _ => blk_snap_event_code_corrupted
              end.
Definition events_ok (d : diff_storage) : Prop := Forall event_ok (eq_list (ds_events d)).

Section history.
Context {P : ModuleParams}.
(** The session's ranges, on the device number [dev]. *)
Context (all : list SRange) (dev : Z).

(** The storage of a session's snapshot: the module takes regions, and the session
    answers requests, in any order and whatever fails; an answer may be lost on its
    way to the module. *)
Inductive session_history : SRangeVectorPos → diff_storage → list diff_region → Prop :=
  | history_new w d w' :
      diff_storage_new w = (Some d, w') → session_history {| rangeInx := 0; rangeOfs := 0 |} d []
  | history_region pos d rs count w r d' w' :
      session_history pos d rs → 0 < count < 2 ^ 64 →
      diff_storage_new_region count (d, w) = (r, (d', w')) →
      session_history pos d' (match r with Ok r => r :: rs | Err _ => rs end)
  | history_portion pos d rs st n pos' ranges w ret d' w' :
      session_history pos d rs → 0 ≤ n < 2 ^ 64 →
      diffStorageRanges st = all → diffStoragePosition st = pos →
      allocate st n = Ret (pos', ranges) →
      diff_storage_append_block dev ranges (d, w) = (ret, (d', w')) →
      session_history pos' d' rs
  | history_lost pos d rs st n pos' ranges :
      session_history pos d rs → 0 ≤ n < 2 ^ 64 →
      diffStorageRanges st = all → diffStoragePosition st = pos →
      allocate st n = Ret (pos', ranges) → session_history pos' d rs
  | history_event pos d rs k q :
      session_history pos d rs → Forall event_ok (eq_list q) →
      session_history pos {| d with ds_kref := k; ds_events := q |} rs.

Context (Hall : Forall range_ok all) (Hdup : NoDup (all_sectors all)).
Context (Hsize : Z.of_nat (length (all_sectors all)) < 2 ^ 64).

(** What the storage has been given, and what remains, is the session's ranges. *)
Record history_inv (pos : SRangeVectorPos) (d : diff_storage) (rs : list diff_region) : Prop := {
  hi_reach : storage_reach d rs;
  hi_pos : pos_ok all pos;
  hi_given : ∃ given, all_sectors all = given ++ remaining all pos ∧
    (∀ bd x, covered d bd x → bd = dev ∧ x ∈ given) ∧ capacity d ≤ Z.of_nat (length given);
}.

Lemma remaining_start : remaining all {| rangeInx := 0; rangeOfs := 0 |} = all_sectors all.
Proof.
  unfold remaining. cbn [rangeInx rangeOfs]. change (drop (Z.to_nat 0) all) with all.
  destruct all as [|r rs]; [done|]. by rewrite Z.add_0_r, Z.sub_0_r.
Qed.

Lemma start_ok : pos_ok all {| rangeInx := 0; rangeOfs := 0 |}.
Proof.
  split; [done|]. cbn [rangeInx rangeOfs]. destruct all as [|r rs]; [done|].
  change (nthZ (r :: rs) 0) with (Some r). apply list.Forall_cons in Hall as [(_ & ? & _) _]. lia.
Qed.

Lemma piece_block r : piece_ok r → block_ok (new_block dev r).
Proof. intros (? & ? & ?). unfold block_ok. cbn. lia. Qed.

(** The pieces of a request are ranges that the module may rely on. *)
Lemma portion_ranges_ok d given ranges n rest :
  storage_wf d → all_sectors all = given ++ rest → granted ranges = take n rest → Forall piece_ok ranges →
  (∀ bd x, covered d bd x → bd = dev ∧ x ∈ given) → capacity d ≤ Z.of_nat (length given) →
  ranges_ok d dev ranges.
Proof.
  intros Hwf Eall Hg Hpc Hcov Hcap. rewrite Eall in Hdup, Hsize.
  apply NoDup_app in Hdup as (_ & Hdis & Hrest). rewrite length_app in Hsize.
  split; [|split].
  - apply Forall_fmap. eapply Forall_impl; [exact Hpc|]. intros r Hr. by apply piece_block.
  - rewrite granted_length by done. rewrite Hg, length_take. lia.
  - apply blocks_disjoint_app; [by destruct Hwf| |].
    + apply granted_disjoint. rewrite Hg. eapply sublist_NoDup; [exact Hrest|apply sublist_take].
    + intros bd x [-> Hx]%Hcov Hn. apply granted_has in Hn. rewrite Hg in Hn.
      apply (Hdis x Hx). eapply elem_of_sublist; [exact Hn|apply sublist_take].
Qed.

Lemma session_history_inv pos d rs : session_history pos d rs → history_inv pos d rs.
Proof.
  induction 1 as [w d w' E|pos d rs count w r d' w' _ IH Hc E
                 |pos d rs st n pos' ranges w ret d' w' _ IH Hn Est Epos Ea E
                 |pos d rs st n pos' ranges _ IH Hn Est Epos Ea|pos d rs k q _ IH _].
  - destruct (wp_run _ _ _ _ _ (diff_storage_new_spec w) E) as (_ & H).
    destruct (H d eq_refl) as (_ & _ & Hb & _ & _ & Hcap). split; [by eapply reach_new|apply start_ok|].
    exists []. rewrite remaining_start. split; [done|]. split; [|rewrite Hcap; cbn; lia].
    intros bd x Hx. unfold covered in Hx. rewrite Hb in Hx. by apply Exists_nil in Hx.
  - destruct IH as [Hre Hp (given & Eg & Hcov & Hcap)].
    destruct (storage_reach_inv _ _ Hre) as (Hwf & _).
    destruct (wp_run _ _ _ _ _ (new_region_ok count d w Hwf Hc) E) as (_ & _ & Hcov' & _).
    destruct (wp_run _ _ _ _ _ (diff_storage_new_region_bdevs count d w) E) as [_ Hcap'].
    split; [by eapply reach_region|done|]. exists given. split; [done|]. cbn [fst] in *.
    split; [|lia]. intros bd x Hx. by apply Hcov, Hcov'.
  - destruct IH as [Hre Hp (given & Eg & Hcov & Hcap)].
    destruct (storage_reach_inv _ _ Hre) as (Hwf & Hbd & _). subst pos.
    pose proof (allocate_spec st n) as Hal. rewrite Est, Ea in Hal.
    destruct (Hal Hall Hp Hn) as (_ & Hg & Hrem & Hp' & Hpc).
    assert (Hok : ranges_ok d dev ranges) by (by eapply portion_ranges_ok).
    destruct (wp_run _ _ _ _ _ (diff_storage_append_block_spec dev ranges d w Hwf Hbd Hok) E)
      as (_ & _ & _ & _ & _ & _ & _ & Hcap' & Hcov'). cbn [fst] in *.
    split; [by eapply reach_append|done|]. exists (given ++ granted ranges).
    rewrite Hrem, <- app_assoc, Hg, take_drop. split; [done|]. split.
    + intros bd x [[-> Hx]%Hcov|Hx]%Hcov'; [split; [done|apply elem_of_app; by left]|].
      pose proof (granted_dev _ _ _ _ Hx) as ->. split; [done|].
      apply elem_of_app. right. rewrite <- Hg. by apply (granted_has ranges dev).
    + rewrite <- Hg, length_app. rewrite granted_length in Hcap' by done. lia.
  - destruct IH as [Hre Hp (given & Eg & Hcov & Hcap)]. subst pos.
    pose proof (allocate_spec st n) as Hal. rewrite Est, Ea in Hal.
    destruct (Hal Hall Hp Hn) as (_ & Hg & Hrem & Hp' & Hpc). split; [done|done|].
    exists (given ++ granted ranges). rewrite Hrem, <- app_assoc, Hg, take_drop. split; [done|]. split.
    + intros bd x [-> Hx]%Hcov. split; [done|apply elem_of_app; by left].
    + rewrite length_app. lia.
  - destruct IH as [Hre Hp Hg]. split; [by apply reach_event|done|exact Hg].
Qed.

Lemma history_regions pos d rs :
  session_history pos d rs →
  regions_disjoint rs ∧
  ∀ r bd x, r ∈ rs → region_has r bd x →
    bd = dev ∧ x ∈ all_sectors all ∧ x ∉ remaining all pos.
Proof.
  intros H. destruct (session_history_inv pos d rs H) as [Hre _ (given & Eg & Hcov & _)].
  destruct (storage_reach_inv _ _ Hre) as (Hwf & _ & Hdis & Htk). split; [done|].
  intros r bd x Hr Hx. assert (Ht : taken d bd x) by (apply Htk, Exists_exists; by exists r).
  assert (Hc : covered d bd x).
  { apply Exists_exists in Ht as (b & Hin & Hb & Hbx). apply Exists_exists. exists b. split; [done|].
    pose proof (sw_blocks _ Hwf) as Hbl. rewrite Forall_forall in Hbl. destruct (Hbl b Hin) as (? & ? & ?).
    split; [done|lia]. }
  destruct (Hcov bd x Hc) as [-> Hin]. split; [done|]. rewrite Eg in Hdup |- *.
  apply NoDup_app in Hdup as (_ & Hd & _). split; [apply elem_of_app; by left|by apply Hd].
Qed.

(** C16: the module never uses a sector of a session's ranges twice. The session's
    ranges do not overlap each other and have less than 2^64 sectors together (the
    library does not check it). Then, however the module's demand for regions and the session's answers to its requests alternate,
    and whatever fails on either side, the regions handed out to chunks do not overlap,
    lie on the session's device and in the ranges the session was given, and none
    of their sectors is still to be handed out by the session. *)
Theorem session_regions_in_ranges pos d rs :
  session_history pos d rs →
  regions_disjoint rs ∧
  ∀ r bd x, r ∈ rs → region_has r bd x →
    bd = dev ∧ x ∈ all_sectors all ∧ x ∉ remaining all pos.
Proof. apply history_regions. Qed.

(** ** Events *)

Lemma event_low_ok d w :
  events_ok d → wp diff_storage_event_low (d, w) (λ _ s, events_ok s.1).
Proof.
  intros He. unfold diff_storage_event_low, storage_event_gen. wp_steps. wp_call event_gen_spec.
  intros [r q] w' (_ & Hr). wp_steps. cbn in *. unfold events_ok. cbn.
  destruct Hr as [[_ ->]|(_ & e & Hc & Hd & Hs & ->)]; [done|]. apply Forall_app. split; [done|].
  constructor; [|done]. split; [by rewrite Hd|by rewrite Hc, Hd].
Qed.

Lemma new_region_events count d w :
  events_ok d → wp (diff_storage_new_region count) (d, w) (λ _ s, events_ok s.1).
Proof.
  intros He. unfold diff_storage_new_region. wp_steps. simpl. wp_if Eo; wp_steps; [done|].
  apply wp_alloc. intros ok vs. destruct ok; simpl; wp_steps; [|done].
  destruct (take_region _ _ _ _) as [[[r empty'] filled_l'] fill'].
  destruct r as [r|]; wp_steps; [|done]. wp_if Eh; wp_steps; [|done]. simpl.
  wp_if Ef; wp_steps; [|done]. wp_call event_low_ok; [done|]. intros _ [d' w'] H. by wp_steps.
Qed.

Lemma append_ranges_events bdev ranges d w :
  wp (append_ranges bdev ranges) (d, w) (λ _ s, ds_events s.1 = ds_events d).
Proof.
  revert d w. induction ranges as [|r ranges IH]; intros d w; cbn [append_ranges]; wp_steps; [done|].
  apply wp_copy_user; [lia|]. intros n vs Hn. wp_steps. wp_if En; wp_steps; [done|].
  unfold diff_storage_add_range. wp_steps. apply wp_alloc. intros ok vs'. simpl.
  destruct ok; simpl; wp_steps; [|done]. simpl. wp_call IH. by intros ret s ->.
Qed.

Lemma append_block_events dev0 ranges d w :
  wp (diff_storage_append_block dev0 ranges) (d, w) (λ _ s, ds_events s.1 = ds_events d).
Proof.
  assert (G : ∀ bdev d1 w1, ds_events d1 = ds_events d →
    wp (ret ← append_ranges bdev ranges;
      if negb (ret =? 0) then mret ret
      else d0 ← gets fst;
           when (negb (low_space_flag d0 =? 0) && (requested d0 <=? capacity d0))
             (on_storage (λ d, {| d with low_space_flag := 0 |}));; mret 0) (d1, w1)
     (λ _ s, ds_events s.1 = ds_events d)).
  { intros bdev d1 w1 E. wp_call append_ranges_events. intros ret [d2 w2] E2. simpl in *.
    wp_if Er; wp_steps; simpl; [congruence|]. wp_if El; wp_steps; simpl; congruence. }
  unfold diff_storage_append_block. wp_steps. simpl.
  destruct (diff_storage_bdev_by_id d dev0) as [bdev|]; wp_steps; [by apply G|].
  unfold diff_storage_add_storage_bdev. wp_steps. apply wp_blkdev_get_by_dev.
  - intros. by wp_steps.
  - intros vs. wp_steps. apply wp_alloc. intros ok vs'. destruct ok; simpl; wp_steps; [by apply G|done].
Qed.

Lemma history_events_ok pos d rs : session_history pos d rs → events_ok d.
Proof.
  induction 1 as [w d w' E|pos d rs count w r d' w' _ IH Hc E
                 |pos d rs st n pos' ranges w ret d' w' _ IH Hn Est Epos Ea E
                 |pos d rs st n pos' ranges _ IH Hn Est Epos Ea|pos d rs k q _ IH Hq]; [| | |done|done].
  - refine (wp_run _ _ (λ r _, ∀ d, r = Some d → events_ok d) _ _ _ E d eq_refl).
    unfold diff_storage_new. wp_steps. apply wp_alloc. intros ok vs. destruct ok; simpl; wp_steps; [|done].
    wp_call event_low_ok; [by constructor|]. intros _ [d' w2] H. wp_steps. by intros ? [= <-].
  - exact (wp_run _ _ _ _ _ (new_region_events count d w IH) E).
  - pose proof (wp_run _ _ _ _ _ (append_block_events dev ranges d w) E) as H. cbn in H.
    unfold events_ok. by rewrite H.
Qed.
End history.

(** ** Names of devices and images *)

Definition set_image (d : SSessionInfo) (info : blk_snap_image_info) : SSessionInfo :=
  if same_dev (original d) (orig_dev_id info)
  then {| d with image := image_dev_id info; imageName := image_name (image_dev_id info) |}
  else d.

Lemma same_dev_spec a b : same_dev a b = true ↔ a = b.
Proof.
  unfold same_dev. rewrite andb_true_iff, !Z.eqb_eq. destruct a, b. cbn. split; [intros [-> ->]; done|by intros [= -> ->]].
Qed.

Lemma same_dev_refl a : same_dev a a = true.
Proof. by apply same_dev_spec. Qed.

(** The loops over the images and over the devices can be exchanged. *)
Lemma enter_images_each images l :
  foldl (λ l i, enter_image i l) l images = (λ d, foldl set_image d images) <$> l.
Proof.
  revert l. induction images as [|i images IH]; intros l; cbn [foldl]; [by rewrite list_fmap_id|].
  rewrite IH. unfold enter_image. rewrite <- list_fmap_compose. done.
Qed.

Lemma set_images_original images d :
  original (foldl set_image d images) = original d ∧ originalName (foldl set_image d images) = originalName d.
Proof.
  revert d. induction images as [|i images IH]; intros d; cbn [foldl]; [done|].
  destruct (IH (set_image d i)) as [-> ->]. unfold set_image. by destruct (same_dev _ _).
Qed.

Lemma set_images_absent images d :
  original d ∉ (orig_dev_id <$> images) → foldl set_image d images = d.
Proof.
  revert d. induction images as [|i images IH]; intros d Hn; cbn [foldl]; [done|].
  rewrite fmap_cons in Hn. apply not_elem_of_cons in Hn as [Hne Hn].
  unfold set_image at 2. destruct (same_dev _ _) eqn:E; [by apply same_dev_spec in E|]. by apply IH.
Qed.

Lemma set_images_found images d i :
  NoDup (orig_dev_id <$> images) → i ∈ images → orig_dev_id i = original d →
  image (foldl set_image d images) = image_dev_id i ∧
  imageName (foldl set_image d images) = image_name (image_dev_id i).
Proof.
  intros Hn Hi Ei. apply list_elem_of_split in Hi as (l1 & l2 & ->).
  rewrite fmap_app, fmap_cons in Hn. apply NoDup_app in Hn as (_ & _ & Hn). apply NoDup_cons in Hn as [Hn _].
  rewrite foldl_app. cbn [foldl]. destruct (set_images_original l1 d) as [Eo _].
  set (d1 := foldl set_image d l1) in *.
  assert (E1 : set_image d1 i = {| d1 with image := image_dev_id i; imageName := image_name (image_dev_id i) |}).
  { unfold set_image. rewrite Eo, Ei, same_dev_refl. done. }
  rewrite E1, set_images_absent; [done|]. cbn [original]. by rewrite Eo, <- Ei.
Qed.

Section names.
Context {W : Type} {OS : Os W}.

(** A session's list of devices, as [add_device] leaves it for each of [l]. *)
Definition added (l : list (string * blk_snap_dev)) : list SSessionInfo :=
  (λ x, {| original := x.2; image := no_dev; originalName := x.1; imageName := "" |}) <$> l.

Lemma find_device {A} (f : A → blk_snap_dev) (l : list A) x :
  NoDup (f <$> l) → x ∈ l → find (λ y, same_dev (f y) (f x)) l = Some x.
Proof.
  induction l as [|y l IH]; intros Hn Hx; [by apply elem_of_nil in Hx|]. rewrite fmap_cons in Hn.
  apply NoDup_cons in Hn as [Hy Hn]. cbn. destruct (same_dev (f y) (f x)) eqn:E.
  - apply same_dev_spec in E. apply elem_of_cons in Hx as [->|Hx]; [done|].
    destruct Hy. rewrite E. by apply list_elem_of_fmap_2.
  - apply elem_of_cons in Hx as [->|Hx]; [by rewrite same_dev_refl in E|]. by apply IH.
Qed.

Lemma NoDup_fmap_through {A B C} (f : A → B) (g : A → C) (l : list A) :
  (∀ x y, x ∈ l → y ∈ l → g x = g y → f x = f y) → NoDup (f <$> l) → NoDup (g <$> l).
Proof.
  induction l as [|x l IH]; intros Hg Hn; [constructor|]. rewrite fmap_cons in *.
  apply NoDup_cons in Hn as [Hx Hn]. apply NoDup_cons. split.
  - intros (y & Ey & Hy)%list_elem_of_fmap. apply Hx. apply list_elem_of_fmap. exists y. split; [|done].
    apply Hg; [apply elem_of_cons; by left|apply elem_of_cons; by right|done].
  - apply IH; [|done]. intros a b Ha Hb. apply Hg; apply elem_of_cons; by right.
Qed.

Definition devices_of (l : list (string * blk_snap_dev)) (images : list blk_snap_image_info) : list SSessionInfo :=
  foldl (λ l i, enter_image i l) (added l) images.

(** The entry of a device, and that images tell the devices apart. *)
Lemma devices_of_entry l images name d i :
  NoDup (orig_dev_id <$> images) → (name, d) ∈ l → i ∈ images → orig_dev_id i = d →
  ∃ x, x ∈ devices_of l images ∧ original x = d ∧ originalName x = name ∧
    image x = image_dev_id i ∧ imageName x = image_name (image_dev_id i).
Proof.
  intros Hn Hl Hi Ei. unfold devices_of, added. rewrite enter_images_each, <- list_fmap_compose.
  eexists. split; [by apply list_elem_of_fmap_2, Hl|]. cbn [compose fst snd].
  destruct (set_images_original images {| original := d; image := no_dev; originalName := name; imageName := "" |}) as [-> ->].
  destruct (set_images_found images {| original := d; image := no_dev; originalName := name; imageName := "" |} i Hn Hi Ei)
    as [-> ->]. done.
Qed.

Lemma devices_of_originals l images : original <$> devices_of l images = l.*2.
Proof.
  unfold devices_of, added. rewrite enter_images_each, <- !list_fmap_compose. apply list_fmap_ext.
  intros ? x _. cbn [compose]. apply (set_images_original images).
Qed.

Lemma devices_of_images l images :
  NoDup l.*2 → NoDup (orig_dev_id <$> images) → NoDup (image_dev_id <$> images) →
  (∀ n d, (n, d) ∈ l → d ∈ (orig_dev_id <$> images)) → NoDup (image <$> devices_of l images).
Proof.
  intros Hl Ho Hi Hc. apply (NoDup_fmap_through original); [|by rewrite devices_of_originals].
  assert (G : ∀ x, x ∈ devices_of l images → ∃ i, i ∈ images ∧ orig_dev_id i = original x ∧ image x = image_dev_id i).
  { intros x Hx. unfold devices_of, added in Hx. rewrite enter_images_each, <- list_fmap_compose in Hx.
    apply list_elem_of_fmap in Hx as ([n d] & -> & Hx). cbn [compose fst snd].
    destruct (proj1 (list_elem_of_fmap _ _ _) (Hc n d Hx)) as (i & -> & Hin). exists i. split; [done|].
    destruct (set_images_original images {| original := orig_dev_id i; image := no_dev; originalName := n; imageName := "" |}) as [-> _].
    split; [done|]. by apply set_images_found. }
  intros x y Hx Hy E. destruct (G x Hx) as (i & Hix & <- & Ex), (G y Hy) as (j & Hjy & <- & Ey).
  rewrite Ex, Ey in E. apply list_elem_of_lookup in Hix as [a Ha], Hjy as [b Hb].
  assert (a = b) as <-; [|congruence]. apply (NoDup_lookup _ _ _ (image_dev_id i) Hi); rewrite list_lookup_fmap.
  - by rewrite Ha.
  - rewrite Hb. cbn. by rewrite E.
Qed.

(** Images and devices find each other. In a session with different devices,
    for each of which the module has reported an image, [GetImageDevice] of a device's
    name gives the path of its image, and [GetOriginalDevice] of that path gives the
    device's name back. *)
Theorem session_names_roundtrip (p : proc W CSession) l images name d i st sti :
  m_devices (p_mem p) = devices_of l images →
  NoDup l.*2 → NoDup (orig_dev_id <$> images) → NoDup (image_dev_id <$> images) →
  (∀ n d, (n, d) ∈ l → d ∈ (orig_dev_id <$> images)) →
  (name, d) ∈ l → i ∈ images → orig_dev_id i = d →
  os_stat name (p_os p) = (Ok st, p_os p) → st_rdev st = d →
  os_stat (image_name (image_dev_id i)) (p_os p) = (Ok sti, p_os p) → st_rdev sti = image_dev_id i →
  GetImageDevice name p = (Ret (image_name (image_dev_id i)), p) ∧
  GetOriginalDevice (image_name (image_dev_id i)) p = (Ret name, p).
Proof.
  intros Hm Hl Ho Hi Hc Hn Hin Ei Hs Es Hsi Esi.
  destruct (devices_of_entry l images name d i Ho Hn Hin Ei) as (x & Hx & Ex1 & Ex2 & Ex3 & Ex4).
  assert (Hst : ∀ n s, os_stat n (p_os p) = (Ok s, p_os p) → deviceByName n p = (Ret (st_rdev s), p)).
  { intros n s E. unfold deviceByName. by rewrite (bind_ret _ _ p (Ok s) p) by (by apply on_os_same). }
  split.
  - unfold GetImageDevice. rewrite (bind_ret _ _ p _ p (Hst _ _ Hs)), (bind_ret _ _ p (m_devices (p_mem p)) p) by done.
    rewrite Hm, Es, <- Ex1, (find_device original); [by rewrite Ex4| |done]. by rewrite devices_of_originals.
  - unfold GetOriginalDevice. rewrite (bind_ret _ _ p _ p (Hst _ _ Hsi)), (bind_ret _ _ p (m_devices (p_mem p)) p) by done.
    rewrite Hm, Esi, <- Ex3, (find_device image); [by rewrite Ex2| |done]. by apply devices_of_images.
Qed.
End names.

(** ** Examples: two ranges of 8 and 16 sectors *)

Definition ex_ranges : list SRange := [{| rg_sector := 100; rg_count := 8 |}; {| rg_sector := 40; rg_count := 16 |}].
Definition ex_state (inx ofs : Z) : SState :=
  {| new_state with diffStorageRanges := ex_ranges; diffDeviceMinor := 8;
                    diffStoragePosition := {| rangeInx := inx; rangeOfs := ofs |} |}.

Lemma ex_ranges_ok : Forall range_ok ex_ranges.
Proof. repeat constructor; vm_compute; congruence. Qed.
Lemma ex_ranges_nodup : NoDup (all_sectors ex_ranges).
Proof. apply (bool_decide_unpack _). vm_compute. exact I. Qed.

Lemma allocate_refines_witness :
  granted [{| sector_offset := 104; sector_count := 4 |}; {| sector_offset := 40; sector_count := 6 |}] =
    take 10 (remaining ex_ranges {| rangeInx := 0; rangeOfs := 4 |}).
Proof.
  assert (Hp : pos_ok ex_ranges {| rangeInx := 0; rangeOfs := 4 |}) by (vm_compute; split; [congruence|split; congruence]).
  exact (proj1 (proj2 (allocate_refines (ex_state 0 4) 10 ex_ranges_ok Hp ltac:(lia)))).
Defined.

#[local] Existing Instance default_params.

Definition ex_new_storage : diff_storage :=
  {| ds_kref := 1; storage_bdevs := []; empty_blocks := []; filled_blocks := []; capacity := 0; filled := 0;
     requested := 2097152; low_space_flag := 0; overflow_flag := 0;
     ds_events := {| eq_list := [{| ev_time := 0; ev_code := 0; ev_data_size := 8;
       ev_data := low_free_space 2097152 |}] |} |}.

Lemma ex_history_new : session_history ex_ranges 8 {| rangeInx := 0; rangeOfs := 0 |} ex_new_storage [].
Proof. eapply (history_new _ _ world0). vm_compute. reflexivity. Qed.

(** The module is given 10 sectors and takes a region of 8. *)
Definition ex_storage10 (used : Z) : diff_storage :=
  {| ex_new_storage with
     storage_bdevs := [{| sb_dev_id := 8; sb_bdev := 8 |}]; capacity := 10; filled := used;
     empty_blocks := [{| sk_bdev := 8; sk_sector := 100; sk_count := 8; sk_used := used |};
                      {| sk_bdev := 8; sk_sector := 40; sk_count := 2; sk_used := 0 |}] |}.
Definition ex_region8 : diff_region := {| dr_bdev := 8; dr_sector := 100; dr_count := 8 |}.

Lemma ex_history : session_history ex_ranges 8 {| rangeInx := 1; rangeOfs := 2 |} (ex_storage10 8) [ex_region8].
Proof.
  eapply (history_region _ _ _ (ex_storage10 0) [] 8 world0 (Ok ex_region8)); [|done|vm_compute; reflexivity].
  eapply (history_portion _ _ _ ex_new_storage [] (ex_state 0 0) 10 _
    [{| sector_offset := 100; sector_count := 8 |}; {| sector_offset := 40; sector_count := 2 |}] world0);
    [exact ex_history_new|lia|reflexivity..|vm_compute; reflexivity].
Qed.

Lemma session_regions_in_ranges_witness :
  105 ∈ all_sectors ex_ranges ∧ 105 ∉ remaining ex_ranges {| rangeInx := 1; rangeOfs := 2 |}.
Proof.
  assert (Hx : region_has ex_region8 8 105) by (split; [reflexivity|vm_compute; split; congruence]).
  assert (Hr : ex_region8 ∈ [ex_region8]) by (apply elem_of_cons; by left).
  exact (proj2 (proj2 (session_regions_in_ranges ex_ranges 8 ex_ranges_ok ex_ranges_nodup ltac:(vm_compute; reflexivity)
    _ _ _ ex_history) ex_region8 8 105 Hr Hx)).
Defined.
