(* ===== verification/SessionThread.v ===== *)
(** * The thread of a session and the module together

    [BlksnapThread] of Session.cpp runs against the module of Main.v, while the tasks of
    the areas take regions from the snapshot's storage and others use the module. *)
From S2P Require Import Prelude MemoryChecker Kernel Log Uapi EventQueue CbtMap DiffBuffer DiffIo.
From S2P Require Import DiffStorage Chunk DiffArea ChunkSpecs CowInv Cow CowSteps CowImage.
From S2P Require Import CowSafety StorageUse State BdevFilter SnapImage Tracker Snapshot SnapshotSpecs.
From S2P Require Import Lifecycle Main UserSpace LibBlksnap Fiemap Session SessionSpecs.

Section thread.
Context {W : Type} {OS : Os W} {P : ModuleParams} (text_start text_stop : list Z) (fuel : nat).
(** The session's ranges on device [dev], and its snapshot's id. *)
Context (all : list SRange) (dev : blk_snap_dev) (id : Z).
Notation history := (session_history all (MKDEV (mj dev) (mn dev))).

(** The module has the session's snapshot, whose storage has gone through a history
    of the session's ranges. *)
Record held (m : module) (pos : SRangeVectorPos) (rs : list diff_region)
    (xs : list Z) (p : Z) (x : snapshot) (d : diff_storage) : Prop := {
  held_ring : ring_ok (links (md_mod m)) xs;
  held_found : find (has_id (md_mod m) id) xs = Some p;
  held_snapshot : snapshot_objs (md_mod m) !! p = Some x;
  held_kref : 1 ≤ snap_kref x;
  held_storage : storages (md_mod m) !! snap_storage x = Some d;
  held_history : history pos d rs;
  held_chunks a da st : areas (md_mod m) !! a = Some (da, st) → 9 ≤ chunk_shift da ≤ 27;
}.
Definition holds (m : module) (pos : SRangeVectorPos) (rs : list diff_region) : Prop :=
  ∃ xs p x d, held m pos rs xs p x d.

(** No pointer has gone bad and no task is stuck that was not. *)
Definition alive (m m' : module) : Prop :=
  stuck (md_mod m') = stuck (md_mod m) ∧ broken (md_mod m') = broken (md_mod m).

(** A module whose storage and kernel have changed. *)
Definition with_storage_of (m : module) (st : Z) (d : diff_storage) (w : world) : module :=
  {| m with md_mod := let s := md_mod m in
       {| s with storages := <[st := d]> (storages s); mkern := w |} |}.

Lemma held_update m pos rs xs p x d pos' rs' d' w :
  held m pos rs xs p x d → history pos' d' rs' →
  held (with_storage_of m (snap_storage x) d' w) pos' rs' xs p x d'.
Proof. intros [] H. split; try done. cbn. apply lookup_insert_eq. Qed.

Lemma with_storage_alive m st d w : alive m (with_storage_of m st d w).
Proof. done. Qed.

(** Getting a copy from user space only asks the environment. *)
Lemma copy_whole_spec size m (Q : bool → module → Prop) :
  0 ≤ size →
  (∀ ok vs, Q ok {| m with md_mod := let s := md_mod m in
     {| s with mkern := let w := mkern s in {| w with w_oracle := vs |} |} |}) →
  wp (copy_whole size) m Q.
Proof.
  intros Hs H. unfold copy_whole, on_k, on_mod, in_kern. wp_steps. apply wp_copy_user; [done|].
  intros n vs Hn. wp_steps. apply H.
Qed.

(** The module with another kernel around it. *)
Definition with_kern (m : module) (w : world) : module :=
  {| m with md_mod := let s := md_mod m in {| s with mkern := w |} |}.

Lemma held_kern m pos rs xs p x d w : held m pos rs xs p x d → held (with_kern m w) pos rs xs p x d.
Proof. by intros []. Qed.

(** The storage of the snapshot is the one that the operation works on. *)
Lemma append_storage_spec ranges m pos rs xs p x d :
  held m pos rs xs p x d →
  wp (snapshot_append_storage id dev ranges) (md_mod m) (λ ret s, ∃ w d' w',
    diff_storage_append_block (MKDEV (mj dev) (mn dev)) ranges (d, w) = (ret, (d', w')) ∧
    s = md_mod (with_storage_of m (snap_storage x) d' w')).
Proof.
  intros [Hr Hf Hx Hk Hst _ _]. unfold snapshot_append_storage. wp_step. unfold wp at 1.
  rewrite (get_by_id_spec _ _ _ _ _ Hr Hf Hx). cbn [fst snd]. unfold get_snapshot, with_store. wp_run_steps.
  rewrite lookup_insert_eq. wp_run_steps. cbn [snap_storage]. rewrite Hst. wp_run_steps.
  destruct (diff_storage_append_block _ ranges (d, mkern (md_mod m))) as [ret [d' w']] eqn:E.
  cbn [fst snd]. eapply wp_mono.
  - exact (put_got p (md_mod (with_storage_of m (snap_storage x) d' w')) x Hx Hk).
  - intros [] s ->. wp_steps. by exists (mkern (md_mod m)), d', w'.
Qed.

Lemma ioctl_append_spec arg ranges m pos rs st n pos' :
  holds m pos rs → 0 ≤ n < 2 ^ 64 → diffStorageRanges st = all → diffStoragePosition st = pos →
  allocate st n = Ret (pos', ranges) →
  u_append_storage arg = {| as_id := id; as_dev_id := dev; as_ranges := ranges |} →
  wp (ioctl_snapshot_append_storage arg) m (λ r m',
    (∃ ret, r = code ret) ∧ alive m m' ∧ holds m' pos' rs).
Proof.
  intros (xs & p & x & d & Hh) Hn Est Epos Ea Earg. unfold ioctl_snapshot_append_storage. wp_step.
  apply copy_whole_spec; [done|]. intros ok vs.
  set (w1 := let w := mkern (md_mod m) in {| w with w_oracle := vs |}).
  change (wp _ _ _) with (wp (if negb ok then mret (code (- EINVAL))
    else ret ← on_mod (snapshot_append_storage (as_id (u_append_storage arg)) (as_dev_id (u_append_storage arg))
                         (as_ranges (u_append_storage arg))); mret (code ret)) (with_kern m w1)
    (λ r m', (∃ ret, r = code ret) ∧ alive m m' ∧ holds m' pos' rs)).
  apply (held_kern _ _ _ _ _ _ _ w1) in Hh. destruct ok; cbn [negb].
  - rewrite Earg. cbn [as_id as_dev_id as_ranges]. unfold on_mod. wp_steps.
    eapply wp_mono; [apply (append_storage_spec ranges _ _ _ _ _ _ _ Hh)|].
    intros ret s (w & d' & w' & E & ->). wp_steps. split; [by eexists|]. split; [done|].
    exists xs, p, x, d'.
    apply (held_update (with_kern m w1) pos rs xs p x d pos' rs d' w' Hh).
    eapply history_portion; [apply (held_history _ _ _ _ _ _ _ Hh)|done..].
  - wp_steps. split; [by eexists|]. split; [done|]. exists xs, p, x, d.
    destruct Hh. split; try done. by eapply history_lost.
Qed.

(** Waiting takes the first event off the queue, or leaves it as it is. *)
Definition wait_result (r : result event) : Prop :=
  match r with Ok e => event_ok e | Err e => e = - ENOENT ∨ e = - EINTR end.

Lemma event_wait_spec q ret :
  Forall event_ok (eq_list q) → (0 < ret → eq_list q ≠ []) → (ret ≤ 0 → ret = 0 ∨ ret = - ERESTARTSYS) →
  ∃ r q', event_wait q ret = Some (r, q') ∧ Forall event_ok (eq_list q') ∧ wait_result r.
Proof.
  intros Hq Hne Hz. unfold event_wait. destruct (Z.ltb_spec 0 ret) as [Hp|Hp].
  - destruct (eq_list q) as [|e l]; [by destruct (Hne Hp)|]. apply list.Forall_cons in Hq as [He Hq].
    by eexists _, _.
  - destruct (Hz Hp) as [->| ->]; eexists _, q; (split; [done|]); (split; [done|]); cbn; auto.
Qed.

Lemma wait_event_spec m pos rs xs p x d :
  held m pos rs xs p x d →
  wp (snapshot_wait_event id) (md_mod m) (λ r s, ∃ q w',
    Forall event_ok (eq_list q) ∧ wait_result r ∧
    s = md_mod (with_storage_of m (snap_storage x) {| d with ds_events := q |} w')).
Proof.
  intros [Hr Hf Hx Hk Hst Hh _]. pose proof (history_events_ok _ _ _ _ _ Hh) as Hev.
  unfold snapshot_wait_event. wp_step. unfold wp at 1.
  rewrite (get_by_id_spec _ _ _ _ _ Hr Hf Hx). cbn [fst snd]. wp_run_steps.
  rewrite lookup_insert_eq. cbn [mbind option_bind snap_storage]. rewrite Hst. cbn [mbind option_bind].
  unfold in_kern at 1. wp_run_steps. apply wp_oracle. intros v vs. wp_run_steps.
  set (ret := match eq_list (ds_events d) with [] => _ | _ => _ end).
  destruct (event_wait_spec (ds_events d) ret) as (r & q & -> & Hq & He); [done|..].
  { subst ret. destruct (eq_list (ds_events d)); [destruct (v =? 0); done|done]. }
  { subst ret. destruct (eq_list (ds_events d)); [destruct (v =? 0); auto|lia]. }
  wp_run_steps.
  set (w1 := {| w_mem := _; w_oracle := vs; w_disk := _; w_open := _; w_garbage := _; w_bio_list := _ |}).
  eapply wp_mono; [exact (put_got p (md_mod (with_storage_of m (snap_storage x) {| d with ds_events := q |} w1)) x Hx Hk)|].
  intros [] s ->. wp_steps. by exists q, w1.
Qed.

(** What the wait leaves of the module. *)
Definition waited (m : module) (pos : SRangeVectorPos) (rs : list diff_region) (m' : module) : Prop :=
  alive m m' ∧ holds m' pos rs.

Lemma waited_kern m pos rs m1 w : waited m pos rs m1 → waited m pos rs (with_kern m1 w).
Proof.
  intros [Ha (xs & p & x & d & Hh)]. split; [done|]. exists xs, p, x, d. by apply held_kern.
Qed.

Definition wait_answer (r : answer) : Prop :=
  (∃ ret, r = code ret ∧ ret ∈ [- ENOMEM; - EINVAL; - ENOENT; - EINTR]) ∨
  ∃ e d, r = (Some 0, REvent e) ∧ se_data e = Some d ∧
    se_code e = match d with
                | low_free_space _ => blk_snap_event_code_low_free_space
                | corrupted _ _ => blk_snap_event_code_corrupted end.

Lemma waited_on_k {A} (k : K A) m pos rs m1 (Q : A → module → Prop) :
  waited m pos rs m1 → (∀ a m2, waited m pos rs m2 → Q a m2) → wp (on_k k) m1 Q.
Proof. intros H HQ. apply HQ. by apply (waited_kern m pos rs m1 (k (mkern (md_mod m1))).2). Qed.

Lemma waited_copy size m pos rs m1 (Q : bool → module → Prop) :
  waited m pos rs m1 → (∀ a m2, waited m pos rs m2 → Q a m2) → wp (copy_whole size) m1 Q.
Proof. intros H HQ. unfold copy_whole. wp_step. eapply waited_on_k; [done|]. intros a m2 H2. wp_steps. auto. Qed.

Lemma send_event_spec e m pos rs m1 :
  waited m pos rs m1 → event_ok e →
  wp (send_event id e) m1 (λ r m', wait_answer r ∧ waited m pos rs m').
Proof.
  intros H1 [Hsz Hcode]. unfold send_event.
  assert ((EVENT_DATA_SIZE <? ev_data_size e) = false) as -> by (rewrite Hsz; by destruct (ev_data e)).
  cbn [when]. wp_steps. eapply waited_on_k; [done|]. intros [] m2 H2. wp_step.
  eapply waited_copy; [done|]. intros ok m3 H3. wp_steps. split; [|done].
  destruct ok; [right|left; eexists; split; [done|set_solver]]. eexists _, (ev_data e). split; [done|]. by split.
Qed.

Lemma waiting_spec m pos rs m1 :
  waited m pos rs m1 →
  wp (on_mod (snapshot_wait_event id)) m1 (λ r m', waited m pos rs m' ∧ wait_result r).
Proof.
  intros [Ha (xs & p & x & d & Hhd)]. unfold on_mod. wp_step.
  eapply wp_mono; [apply (wait_event_spec m1 pos rs xs p x d Hhd)|].
  intros r s (q & w' & Hq & He & ->). split; [|done]. split; [done|].
  exists xs, p, x, {| d with ds_events := q |}.
  apply (held_update m1 pos rs xs p x d pos rs {| d with ds_events := q |} w' Hhd).
  apply (history_event _ _ pos d rs (ds_kref d) q (held_history _ _ _ _ _ _ _ Hhd) Hq).
Qed.

Lemma ioctl_wait_spec arg m pos rs :
  holds m pos rs → se_id (u_event arg) = id →
  wp (ioctl_snapshot_wait_event arg) m (λ r m', wait_answer r ∧ waited m pos rs m').
Proof.
  intros Hh Hid. assert (H0 : waited m pos rs m) by (by split).
  assert (Hcode : ∀ ret, ret ∈ [- ENOMEM; - EINVAL; - ENOENT; - EINTR] → wait_answer (code ret)).
  { intros ret Hret. left. by exists ret. }
  unfold ioctl_snapshot_wait_event. wp_step. eapply waited_on_k; [done|]. intros ok m1 H1.
  destruct ok; cbn [negb]; wp_step; [|split; [apply Hcode; set_solver|done]].
  eapply waited_on_k; [done|]. intros [] m2 H2. wp_step. eapply waited_copy; [done|]. intros ok m3 H3.
  wp_step. eapply (wp_mono _ _ (λ r m', wait_answer r ∧ waited m pos rs m')).
  - destruct ok; cbn [negb]; [|wp_steps; split; [apply Hcode; set_solver|done]]. rewrite Hid. wp_step.
    eapply wp_mono; [by apply (waiting_spec m pos rs)|]. intros [e|e] m4 [H4 He]; cbn in He; [|wp_steps; split; [apply Hcode; set_solver|done]].
    apply send_event_spec; auto.
  - intros r m4 [Hr H4]. wp_step. eapply waited_on_k; [done|]. intros [] m5 H5. by wp_steps.
Qed.

(** ** The process *)

(** The [int] that [::ioctl] returns for a code of the module. *)
Definition ioctl_int (ret : Z) : Z :=
  let r := s32 (u32 ret) in if (-4095 <=? r) && (r <? 0) then -1 else r.
Definition after_ioctl {X} (p : proc W X) (m : module) (e : Z) : proc W X :=
  {| p with p_mod := m; p_env := tail (p_env p); p_errno := e |}.

Lemma ioctl_run {X} nr f arg (p : proc W X) Q :
  (∀ m, ctrl_unlocked_ioctl text_start text_stop nr arg m = run_command f arg m) →
  wp (f arg) (others p) (λ r m', alive (others p) m' ∧
    ∃ ret, r.1 = Some ret ∧ ∀ e, Q (Ret (ioctl_int ret, r.2)) (after_ioctl p m' e)) →
  run (ioctl text_start text_stop nr arg) p Q.
Proof.
  intros Hc Hw. unfold run, ioctl. rewrite Hc. unfold run_command, mbind, M_mbind, mret, M_mret. cbn [fst snd].
  unfold wp in Hw. destruct (f arg (others p)) as [[c rep] m']. cbn [fst snd] in *.
  destruct Hw as ([-> ->] & ret & -> & HQ). rewrite !andb_negb_r. unfold ioctl_int in HQ.
  destruct ((_ <=? _) && _); cbn [fst snd]; [apply HQ|].
  specialize (HQ (p_errno p)). by destruct p.
Qed.

(** *** The rest of the system *)

(** Between [m] and [m'] nobody has touched the session's snapshot and its storage; areas
    may have come and gone. *)
Record apart (m m' : module) : Prop := {
  ap_snapshot xs p x :
    ring_ok (links (md_mod m)) xs → find (has_id (md_mod m) id) xs = Some p →
    snapshot_objs (md_mod m) !! p = Some x → 1 ≤ snap_kref x →
    ∃ xs' x', ring_ok (links (md_mod m')) xs' ∧ find (has_id (md_mod m') id) xs' = Some p ∧
      snapshot_objs (md_mod m') !! p = Some x' ∧ 1 ≤ snap_kref x' ∧ snap_storage x' = snap_storage x ∧
      storages (md_mod m') !! snap_storage x = storages (md_mod m) !! snap_storage x;
  ap_chunks a da st :
    areas (md_mod m') !! a = Some (da, st) →
    9 ≤ chunk_shift da ≤ 27 ∨ ∃ da0 st0, areas (md_mod m) !! a = Some (da0, st0) ∧ chunk_shift da = chunk_shift da0;
}.

(** What happens to the module between two ioctls of the session, in any number and order:
    the tasks of the areas, of this snapshot or another, take their steps (a writer in the
    filter, a bio or a request that completes, the workers of the caches and of the images;
    StorageUse.v), other processes wait for the snapshot's events, and anything else that
    does not touch the snapshot. What is not among them: nobody else gives storage to
    this snapshot or destroys it. *)
Inductive env_act : (module → module) → Prop :=
  | env_area a op : env_act (λ m, (on_mod (with_area a (area_do op)) m).2)
  | env_wait arg : se_id (u_event arg) = id → env_act (λ m, (ioctl_snapshot_wait_event arg m).2)
  | env_apart f : (∀ m, apart m (f m)) → env_act f
  | env_then f g : env_act f → env_act g → env_act (λ m, g (f m)).

Lemma corrupted_event_ok bd err d w :
  events_ok d →
  wp (storage_event_gen blk_snap_event_code_corrupted (corrupted bd err)) (d, w) (λ _ s,
    ∃ q, s.1 = {| d with ds_events := q |} ∧ Forall event_ok (eq_list q)).
Proof.
  intros Hev. unfold storage_event_gen. wp_call event_gen_spec. intros [r q] w' (_ & Hr). wp_steps. cbn.
  exists q. split; [done|]. destruct Hr as [[_ ->]|(_ & e & Ec & Ed & Es & ->)]; [done|]. apply Forall_app.
  split; [done|]. constructor; [|constructor]. split; by rewrite Ed.
Qed.

(** The storage after an area has used it. *)
Lemma history_uses pos d rs new d' :
  history pos d rs → store_uses d new d' → history pos d' (new ++ rs).
Proof.
  intros H U. revert H. induction U as [d|d new d1 count w r d' w' _ IH Hc E|d new d1 bd err w r d' w' _ IH E]; intros H.
  - done.
  - pose proof (history_region _ _ _ _ _ _ _ _ _ _ (IH H) Hc E) as H'. by destruct r.
  - specialize (IH H). pose proof (history_events_ok _ _ _ _ _ IH) as Hev.
    destruct (wp_run _ _ _ _ _ (corrupted_event_ok bd err d1 w Hev) E) as (q & Eq & Hq). cbn [fst] in Eq.
    rewrite Eq. exact (history_event _ _ pos d1 _ (ds_kref d1) q IH Hq).
Qed.

(** An area's step, on the session's storage or on another. *)
Lemma area_holds a op m pos rs :
  holds m pos rs → ∃ new, holds (on_mod (with_area a (area_do op)) m).2 pos (new ++ rs).
Proof.
  intros (xs & p & x & d & [Hr Hf Hx Hk Hst Hh Hc]). unfold on_mod, zoom. cbn [snd].
  unfold with_area. change ((gets _ ≫= ?f) (md_mod m)) with (f (md_mod m) (md_mod m)). cbv beta.
  destruct (areas (md_mod m) !! a) as [[da st]|] eqn:Ea; [|by exists [], xs, p, x, d].
  destruct (storages (md_mod m) !! st) as [d0|] eqn:Ed; [|by exists [], xs, p, x, d].
  set (s0 := {| area := da; storage := d0; kern := mkern (md_mod m); oops := false; hung := false |}).
  destruct (area_do_spends op s0 (Hc a da st Ea)) as [Esh [new U]]. cbn [area storage s0] in Esh, U.
  assert (Hc' : ∀ b da' st', <[a := (area (area_do op s0).2, st)]> (areas (md_mod m)) !! b = Some (da', st') →
    9 ≤ chunk_shift da' ≤ 27).
  { intros b da' st' [[<- [= <- <-]]|[_ Hb]]%lookup_insert_Some; [rewrite Esh; by eapply Hc|by eapply Hc]. }
  destruct (decide (st = snap_storage x)) as [->|Hne].
  - rewrite Hst in Ed. injection Ed as <-. exists new, xs, p, x, (storage (area_do op s0).2).
    split; try done; [apply lookup_insert_eq|by eapply history_uses].
  - exists [], xs, p, x, d. split; try done. unfold mbind, M_mbind, modify. cbn. by rewrite lookup_insert_ne.
Qed.

Lemma apart_holds m m' pos rs : apart m m' → holds m pos rs → holds m' pos rs.
Proof.
  intros [Hs Hch] (xs & p & x & d & [Hr Hf Hx Hk Hst Hh Hc]).
  destruct (Hs xs p x Hr Hf Hx Hk) as (xs' & x' & Hr' & Hf' & Hx' & Hk' & Es & Est).
  exists xs', p, x', d. split; try done; [by rewrite Es, Est|].
  intros a da st Ha. destruct (Hch a da st Ha) as [?|(da0 & st0 & H0 & ->)]; [done|by eapply Hc].
Qed.

(** Whatever it is, the snapshot stays the session's, with more regions taken. *)
Lemma env_holds f m pos rs : env_act f → holds m pos rs → ∃ new, holds (f m) pos (new ++ rs).
Proof.
  intros He. revert m rs. induction He as [a op|arg Hid|f Hf|f g _ IHf _ IHg]; intros m rs H.
  - by apply area_holds.
  - exists []. by destruct (ioctl_wait_spec arg m pos rs H Hid) as (_ & _ & ?).
  - exists []. by eapply apart_holds.
  - destruct (IHf m rs H) as [n1 H1]. destruct (IHg _ _ H1) as [n2 H2]. exists (n2 ++ n1). by rewrite <- app_assoc.
Qed.

Record steady (p : proc W CSession) (pos : SRangeVectorPos) (rs : list diff_region) : Prop := {
  sy_module : holds (p_mod p) pos rs;
  sy_env : Forall env_act (p_env p);
  sy_id : ss_id (m_state (p_mem p)) = id;
  sy_dir : diffStorage (m_state (p_mem p)) = ""%S;
  sy_ranges : diffStorageRanges (m_state (p_mem p)) = all;
  sy_dev : dev = {| mj := diffDeviceMajor (m_state (p_mem p)); mn := diffDeviceMinor (m_state (p_mem p)) |};
  sy_pos : diffStoragePosition (m_state (p_mem p)) = pos;
}.

Lemma others_holds (p : proc W CSession) pos rs :
  holds (p_mod p) pos rs → Forall env_act (p_env p) →
  ∃ new, holds (others p) pos (new ++ rs) ∧ Forall env_act (tail (p_env p)).
Proof.
  intros H HF. unfold others. destruct (p_env p) as [|f fs]; [by exists []|].
  apply list.Forall_cons in HF as [Hf HF]. destruct (env_holds _ _ _ _ Hf H) as [new Hn]. by exists new.
Qed.

(** A computation that keeps the session going, with more regions taken meanwhile, and
    whose result satisfies [R]; it throws only if [T]. *)
Definition goes_on_to (T : Prop) {A} (R : A → Prop) (m : U W CSession A) : Prop :=
  ∀ p pos rs, steady p pos rs →
  run m p (λ o p', match o with Ret a => R a | Throw _ => T | Halt _ => False end ∧
                   ∃ pos' new, steady p' pos' (new ++ rs)).
Definition goes_on {A} (m : U W CSession A) : Prop := goes_on_to True (λ _, True) m.

Lemma goes_on_ret T {A} (R : A → Prop) (a : A) : R a → goes_on_to T R (mret a).
Proof. intros Ha p pos rs H. split; [done|]. by exists pos, []. Qed.
Lemma goes_on_bind T {A B} (R : A → Prop) (Q : B → Prop) (m : U W CSession A) (f : A → U W CSession B) :
  goes_on_to T R m → (∀ a, R a → goes_on_to T Q (f a)) → goes_on_to T Q (m ≫= f).
Proof.
  intros Hm Hf p pos rs H. apply run_bind. eapply run_mono; [exact (Hm p pos rs H)|].
  intros o p' (Ho & pos' & new & H'). destruct o as [a|e|h]; [|by eauto|done].
  eapply run_mono; [exact (Hf a Ho p' pos' _ H')|]. intros o p2 (Ho2 & pos2 & new2 & H2). split; [done|].
  exists pos2, (new2 ++ new). by rewrite <- app_assoc.
Qed.
Lemma goes_on_try T {A} (R : A → Prop) (m : U W CSession A) h :
  goes_on_to True R m → (∀ e, goes_on_to T R (h e)) → goes_on_to T R (try m h).
Proof.
  intros Hm Hh p pos rs H. specialize (Hm p pos rs H). unfold run, try in *.
  destruct (m p) as [[a|e|x] p1]; [done| |done]. destruct Hm as (_ & pos1 & new1 & H1).
  destruct (Hh e p1 pos1 _ H1) as (Ho & pos2 & new2 & H2). split; [done|].
  exists pos2, (new2 ++ new1). by rewrite <- app_assoc.
Qed.
Lemma goes_on_throw {A} (R : A → Prop) e : goes_on_to True R (throw e).
Proof. intros p pos rs H. split; [done|]. by exists pos, []. Qed.
Lemma goes_on_push_error e : goes_on_to False (λ _, True) (push_error e).
Proof. intros p pos rs []. split; [done|]. exists pos, []. by split. Qed.

Definition with_stdout {X} (p : proc W X) (out : list string) : proc W X := {| p with p_stdout := out |}.

Lemma for_each_cout {X A} (f : A → string) l (p : proc W X) :
  ∃ out, for_each (λ a, cout (f a)) l p = (Ret tt, with_stdout p out).
Proof.
  revert p. induction l as [|a l IH]; intros p; cbn [for_each].
  - exists (p_stdout p). by destruct p.
  - rewrite (bind_ret _ _ p tt (with_stdout p (p_stdout p ++ [f a]))) by done.
    destruct (IH (with_stdout p (p_stdout p ++ [f a]))) as [out ->]. by exists out.
Qed.

Lemma LogAppendedRanges_run ranges (p : proc W CSession) :
  ∃ out, LogAppendedRanges ranges p = (Ret tt, with_stdout p out).
Proof.
  unfold LogAppendedRanges. erewrite bind_ret by reflexivity. erewrite bind_ret by reflexivity.
  match goal with |- ∃ _, (for_each ?f _ ≫= _) ?p1 = _ => destruct (for_each_cout
    (λ rg, pretty (sector_offset rg) +:+ ":" +:+ pretty (sector_count rg)) ranges p1) as [out E] end.
  erewrite bind_ret by exact E. by eexists.
Qed.

(** An answer on its way: the session has moved on to [pos'], the module has not seen
    the ranges yet. *)
Lemma AppendDiffStorage_run (p : proc W CSession) pos rs st n pos' ranges :
  steady p pos rs → 0 ≤ n < 2 ^ 64 → st = m_state (p_mem p) → allocate st n = Ret (pos', ranges) →
  ∀ out, let p1 := with_stdout {| p with p_mem := let c := p_mem p in
           {| c with m_state := {| st with diffStoragePosition := pos' |} |} |} out in
  run (AppendDiffStorage text_start text_stop id dev ranges) p1 (λ o p',
    (∀ h, o ≠ Halt h) ∧ ∃ new, steady p' pos' (new ++ rs)).
Proof.
  intros [Hm He Hi Hd Hr Hdev Hp] Hn -> Ha out p1. unfold AppendDiffStorage. apply run_bind.
  destruct (others_holds p1 pos rs Hm He) as (new & Hh & Htl).
  eapply ioctl_run; [done|]. eapply wp_mono; [by eapply (ioctl_append_spec _ ranges _ pos (new ++ rs))|].
  intros r m' ((ret & ->) & Hal & Hh'). split; [done|]. exists ret. split; [done|]. intros e. cbn [code snd fst].
  assert (Hs : steady (after_ioctl p1 m' e) pos' (new ++ rs)) by done.
  destruct (ioctl_int ret =? 0); cbn [negb]; (split; [done|]); by exists new.
Qed.

Context (Hall : Forall range_ok all) (Hdup : NoDup (all_sectors all)).
Context (Hsize : Z.of_nat (length (all_sectors all)) < 2 ^ 64).

Lemma steady_pos_ok p pos rs : steady p pos rs → pos_ok all pos.
Proof.
  intros [(xs & q & x & d & Hh) _ _ _ _ _ _].
  exact (hi_pos _ _ _ _ _ (session_history_inv all _ Hall Hdup Hsize _ _ _ (held_history _ _ _ _ _ _ _ Hh))).
Qed.

Lemma goes_on_append_portion number n :
  0 ≤ n < 2 ^ 64 → goes_on (append_portion text_start text_stop fuel number n).
Proof.
  intros Hn p pos rs H. pose proof H as [Hm He Hi Hd Hr Hdev Hp]. unfold append_portion, get_state.
  apply run_bind. unfold run at 1, uget. cbn [fst snd]. rewrite Hd. cbn [bool_decide decide_rel].
  apply run_bind. unfold AllocateDiffStorage, get_state. apply run_bind. unfold run at 1, uget. cbn [fst snd].
  pose proof (allocate_spec (m_state (p_mem p)) n) as Hal. rewrite Hr, Hp in Hal.
  specialize (Hal Hall (steady_pos_ok _ _ _ H) Hn).
  destruct (allocate (m_state (p_mem p)) n) as [[pos' ranges]|e|h] eqn:Ea; [| |done].
  - apply run_bind. unfold run, set_state, set_session, uset, mret, U_mret. cbn [fst snd].
    set (p1 := {| p with p_mem := _ |}). rewrite Hi, <- Hdev. destruct (LogAppendedRanges_run ranges p1) as [out E].
    erewrite bind_ret by exact E.
    destruct (AppendDiffStorage_run p pos rs _ n pos' ranges H Hn eq_refl Ea out) as (Ho & new & Hs).
    split; [|exists pos', new; exact Hs].
    match goal with |- match ?o with Ret _ => _ | _ => _ end => change o with
      (AppendDiffStorage text_start text_stop id dev ranges (with_stdout p1 out)).1 end.
    destruct (AppendDiffStorage _ _ _ _ _ (with_stdout p1 out)).1 as [| |h] eqn:Eo; [done..|by destruct (Ho h)].
  - split; [done|]. by exists pos, [].
Qed.

Lemma goes_on_process_event number text ev :
  (bev_data ev = noMember → bev_code ev ≠ blk_snap_event_code_low_free_space ∧
                            bev_code ev ≠ blk_snap_event_code_corrupted) →
  (∀ n, bev_data ev = lowFreeSpace n → bev_code ev = blk_snap_event_code_low_free_space ∧ 0 ≤ n < 2 ^ 64) →
  (∀ d e, bev_data ev = corruptedEvent d e → bev_code ev = blk_snap_event_code_corrupted) →
  goes_on (process_event text_start text_stop fuel number text ev).
Proof.
  intros H0 Hl Hc. unfold process_event. destruct (bev_data ev) as [n|d e|].
  - destruct (Hl n eq_refl) as [-> Hn]. by apply goes_on_append_portion.
  - rewrite (Hc d e eq_refl). apply goes_on_throw.
  - destruct (H0 eq_refl) as [H1 H2]. rewrite !(proj2 (Z.eqb_neq _ _)) by done. apply goes_on_throw.
Qed.

(** An event that the module has sent can be processed. *)
Definition sent (ev : option SBlksnapEvent) : Prop :=
  ∀ e number text, ev = Some e → goes_on (process_event text_start text_stop fuel number text e).

Lemma sent_event ev d :
  se_data ev = Some d →
  se_code ev = match d with
               | low_free_space _ => blk_snap_event_code_low_free_space
               | corrupted _ _ => blk_snap_event_code_corrupted end →
  sent (Some {| bev_code := se_code ev; bev_time := time_label ev;
                bev_data := event_member (se_code ev) (se_data ev) |}).
Proof.
  intros Ed Ec e number text [= <-]. apply goes_on_process_event; cbn [bev_code bev_data]; rewrite Ed, Ec;
    unfold event_member.
  - by destruct d.
  - destruct d; cbn; [|done]. intros ? [= <-]. split; [done|apply u64_range].
  - by destruct d.
Qed.

Lemma goes_on_wait : goes_on_to True sent (WaitEvent text_start text_stop id 100).
Proof.
  intros p pos rs [Hm He Hi Hd Hr Hdev Hp]. unfold WaitEvent. apply run_bind.
  destruct (others_holds p pos rs Hm He) as (new & Hh & Htl).
  eapply ioctl_run; [done|]. eapply wp_mono; [by apply (ioctl_wait_spec _ _ pos (new ++ rs))|].
  intros r m' (Hans & Hal & Hh'). split; [done|].
  assert (Hs : ∀ e, ∃ pos' new, steady (after_ioctl p m' e) pos' (new ++ rs)) by (intros; by exists pos, new).
  destruct Hans as [(ret & -> & Hret)|(ev & d & -> & Ed & Ec)].
  - exists ret. split; [done|]. intros e. cbn [code snd].
    assert ((ioctl_int ret =? 0) = false) as ->.
    { repeat (apply elem_of_cons in Hret as [->|Hret]; [done|]). by apply elem_of_nil in Hret. }
    cbn [negb]. apply run_bind. unfold run at 1, errno, uget. cbn [fst snd]. destruct (_ || _); (split; [done|apply Hs]).
  - exists 0. split; [done|]. intros e. cbn [snd fst]. change (negb (ioctl_int 0 =? 0)) with false. cbv iota.
    apply run_ret. split; [by apply (sent_event ev d)|apply Hs].
Qed.

Lemma goes_on_turn : goes_on_to False (λ _, True) (BlksnapThread_turn text_start text_stop fuel).
Proof.
  unfold BlksnapThread_turn, get_state.
  intros p pos rs H. apply run_bind. unfold run at 1, uget. cbn [fst snd]. rewrite (sy_id _ _ _ H).
  revert p pos rs H. change (goes_on_to False (λ _, True) (r ← try (ev ← WaitEvent text_start text_stop id 100; mret (Some ev))
    (λ ex, push_error ex ≫= λ _, mret None);
    match r with
    | None => mret false
    | Some None => mret true
    | Some (Some ev) =>
        try (process_event text_start text_stop fuel next_number "Snapshot corrupted for device " ev) push_error ≫= λ _,
        mret true
    end)).
  apply (goes_on_bind _ (λ r, ∀ ev, r = Some ev → sent ev)).
  - apply goes_on_try.
    + apply (goes_on_bind _ sent); [apply goes_on_wait|]. intros ev Hev. apply goes_on_ret. by intros ? [= <-].
    + intros e. apply (goes_on_bind _ (λ _, True)); [apply goes_on_push_error|]. intros _ _. by apply goes_on_ret.
  - intros [[ev|]|] Hr; [|by apply goes_on_ret..]. apply (goes_on_bind _ (λ _, True)).
    + apply goes_on_try; [|apply goes_on_push_error]. by apply (Hr (Some ev)).
    + intros _ _. by apply goes_on_ret.
Qed.

Lemma goes_on_thread turns : goes_on_to False (λ _, True) (BlksnapThread text_start text_stop fuel turns).
Proof.
  induction turns as [|turns IH]; cbn [BlksnapThread]; [by apply goes_on_ret|].
  apply (goes_on_bind _ (λ _, True)); [apply goes_on_turn|]. intros [] _; [done|by apply goes_on_ret].
Qed.

End thread.

(** ** A session in the middle of its life

    Snapshot 77 with the storage 1, for which the module has asked for more space, and the
    area 102 of a device with two chunks. *)
#[local] Existing Instance default_params.
#[local] Existing Instance toy_os.

Definition ex_served : module :=
  {| md_mod := {| ex_module with
       snapshot_objs := {[ 2 := new_snapshot 77 1 0 ]};
       links := {[ SNAPSHOTS := (2, 2); 2 := (SNAPSHOTS, SNAPSHOTS) ]};
       areas := {[ 102 := (ex_area, 1) ]};
       storages := {[ 1 := ex_new_storage ]} |};
     md_log := ex_log; md_bioset := true; md_misc := true |}.

Definition ex_steps (l : list area_op) (m : module) : module :=
  foldl (λ m op, (on_mod (with_area 102 (area_do op)) m).2) m l.
(** A writer starts to copy the first chunk before the thread's wait; the chunk has been
    read when the thread appends the ranges, and is stored to a new region afterwards. *)
Definition ex_serving : proc toy_fs CSession :=
  {| p_mod := ex_served;
     p_env := [ex_steps [OpWriter (ex_writer 0 8 false)]; ex_steps [OpBioEnd 0 0 0]; ex_steps [OpNotify 0]];
     p_os := toy_files; p_errno := 0; p_fds := 1; p_stdout := []; p_stderr := [];
     p_mem := {| no_session with m_id := 77; m_thread := true;
                   m_state := let st := ex_state 0 0 in {| st with ss_id := 77 |} |} |}.

Lemma ex_steps_act l : env_act 77 (ex_steps l).
Proof.
  induction l as [|op l IH]; [apply env_apart; intros m; split; eauto 10|].
  exact (env_then _ _ _ (env_area _ 102 op) IH).
Qed.

Lemma ex_serving_steady :
  steady ex_ranges (ex_dev 8) 77 ex_serving {| rangeInx := 0; rangeOfs := 0 |} [].
Proof.
  split; try done.
  - exists [2], 2, (new_snapshot 77 1 0), ex_new_storage. split; try done; [|exact ex_history_new|].
    + split; [vm_compute; by split_and!|]. by apply (bool_decide_unpack _); vm_compute.
    + intros a da st. change (areas _) with ({[ 102 := (ex_area, 1) ]} : gmap Z (diff_area * Z)).
      intros [_ [= <- _]]%lookup_singleton_Some. cbn. lia.
  - repeat constructor; apply ex_steps_act.
Qed.


(** ** Sessions from the beginning to the end

    On the module of Lifecycle.v with no objects; /dev/sda is the device to snapshot, and
    /dev/sdb has the ranges. *)
Definition ex_start (oracle : list Z) : proc toy_fs CSession :=
  {| p_mod := {| md_mod := with_oracle oracle ex_module; md_log := ex_log; md_bioset := true; md_misc := true |};
     p_env := [];
     p_os := {| fs_devs := {[ "/dev/sda"%S := ex_dev 1; "/dev/sdb"%S := ex_dev 8;
                              "/dev/blksnap-image6"%S := ex_dev 6 ]};
                fs_files := ∅; fs_free := 0 |};
     p_errno := 0; p_fds := 0; p_stdout := []; p_stderr := []; p_mem := no_session |}.
Definition ex_storage_ranges (l : list SRange) : SStorageRanges := {| sr_device := "/dev/sdb"; sr_ranges := l |}.
Definition no_ranges : SStorageRanges := {| sr_device := ""; sr_ranges := [] |}.

(** A session on ranges of a device, and one on files in a directory. *)
Definition ex_on_ranges : outcome unit * proc toy_fs CSession :=
  CSession_new [] [] 10 1 1 ["/dev/sda"%S] "" (ex_storage_ranges [{| rg_sector := 0; rg_count := 4096 |}]) (ex_start []).
Definition ex_on_files : outcome unit * proc toy_fs CSession :=
  CSession_new [] [] 10 1 1 ["/dev/sda"%S] "/mnt/" no_ranges (ex_start []).
Definition ex_ended (s : outcome unit * proc toy_fs CSession) : outcome unit * proc toy_fs CSession :=
  CSession_delete [] [] s.2.

Definition snapshot_left (p : proc toy_fs CSession) : option (list Z) := snapshot_entries (md_mod (p_mod p)).

(** A session's whole life. With ranges of a device or with files in a directory,
    the constructor creates the snapshot, answers the module's first request, takes the
    snapshot and knows the image; the destructor destroys the snapshot, removes the files
    and closes the control device. In between the module has the snapshot and, with
    files, the file of the requested size is there. *)
Theorem session_whole_life :
  ex_on_ranges.1 = Ret tt ∧ ex_on_files.1 = Ret tt ∧
  (imageName <$> m_devices (p_mem ex_on_ranges.2)) = ["/dev/blksnap-image6"]%S ∧
  snapshot_left ex_on_ranges.2 = Some [2] ∧
  (snd <$> fs_files (p_os ex_on_files.2)) = {[ "/mnt/diff_storage#0"%S := 2097152 * 512 ]} ∧
  ∀ s, s ∈ [ex_on_ranges; ex_on_files] →
    (ex_ended s).1 = Ret tt ∧ snapshot_left (ex_ended s).2 = Some [] ∧
    fs_files (p_os (ex_ended s).2) = ∅ ∧ p_fds (ex_ended s).2 = 0 ∧ p_stderr (ex_ended s).2 = [].
Proof.
  do 5 (split; [vm_compute; reflexivity|]).
  intros s [->|[->|[]%elem_of_nil]%elem_of_cons]%elem_of_cons; vm_compute; by split_and!.
Qed.

(** Without ranges the first request cannot be answered. *)
Definition ex_failed : outcome unit * proc toy_fs CSession :=
  CSession_new [] [] 10 1 1 ["/dev/sda"%S] "" no_ranges (ex_start []).
(** A session in which the environment's answer number [n] is a failure. *)
Definition ex_failing (n : nat) : outcome unit * proc toy_fs CSession :=
  CSession_new [] [] 10 1 1 ["/dev/sda"%S] "" (ex_storage_ranges [{| rg_sector := 0; rg_count := 4096 |}])
    (ex_start (replicate n 0 ++ [1])).
Definition throws {A} (o : outcome A) : bool := match o with Throw _ => true | _ => false end.
Definition terminates {A} (o : outcome A) : bool := match o with Halt Terminated => true | _ => false end.

(** A constructor that fails leaves the snapshot behind, or ends the process.
    Whatever fails between the creation of the snapshot and the start of the thread (the
    wait for the first event, its copies, adding the storage), and also when the session
    has no ranges left to give, the constructor throws, and the snapshot stays in the
    module, with no session that would destroy it. Whatever fails when the snapshot
    is taken, after the thread has been started, the exception destroys the thread
    object while the thread is running, which ends the whole process. *)
Theorem session_failure_leaks :
  (throws ex_failed.1 = true ∧ snapshot_left ex_failed.2 = Some [2] ∧ p_fds ex_failed.2 = 0) ∧
  (∀ n, n ∈ [20; 21; 23; 24; 25; 26; 27; 28]%nat →
     throws (ex_failing n).1 = true ∧ snapshot_left (ex_failing n).2 = Some [2] ∧ p_fds (ex_failing n).2 = 0) ∧
  ∀ n, n ∈ [32; 33; 34; 35; 36; 37; 38]%nat → terminates (ex_failing n).1 = true.
Proof.
  split; [vm_compute; by split_and!|]. split; intros n Hn.
  - repeat (apply elem_of_cons in Hn as [->|Hn]; [vm_compute; by split_and!|]). by apply elem_of_nil in Hn.
  - repeat (apply elem_of_cons in Hn as [->|Hn]; [vm_compute; reflexivity|]). by apply elem_of_nil in Hn.
Qed.

(** The devices and images of [ex_on_ranges]. *)
Lemma session_names_roundtrip_witness :
  (GetImageDevice "/dev/sda" ex_on_ranges.2).1 = Ret "/dev/blksnap-image6"%S ∧
  (GetOriginalDevice "/dev/blksnap-image6" ex_on_ranges.2).1 = Ret "/dev/sda"%S.
Proof.
  assert (Hs : m_devices (p_mem ex_on_ranges.2) = devices_of [("/dev/sda"%S, ex_dev 1)]
    [{| orig_dev_id := ex_dev 1; image_dev_id := ex_dev 6 |}]) by (vm_compute; reflexivity).
  assert (Ho : p_os ex_on_ranges.2 = p_os (ex_start [])) by (vm_compute; reflexivity).
  destruct (session_names_roundtrip ex_on_ranges.2 [("/dev/sda"%S, ex_dev 1)]
    [{| orig_dev_id := ex_dev 1; image_dev_id := ex_dev 6 |}] "/dev/sda" (ex_dev 1)
    {| orig_dev_id := ex_dev 1; image_dev_id := ex_dev 6 |}
    {| st_dev := ex_dev 8; st_rdev := ex_dev 1; st_size := 0 |}
    {| st_dev := ex_dev 8; st_rdev := ex_dev 6; st_size := 0 |} Hs) as [H1 H2];
    try reflexivity; try (apply NoDup_singleton); try (apply elem_of_cons; by left);
    try (rewrite Ho; vm_compute; reflexivity).
  - intros n d [[= -> ->]|[]%elem_of_nil]%elem_of_cons. apply elem_of_cons. by left.
  - split; [by rewrite H1|]. cbn [image_dev_id] in H2.
    change "/dev/blksnap-image6"%S with (image_name (ex_dev 6)). by rewrite H2.
Defined.
