(* ===== verification/Tool.v ===== *)
(** * The command line tool (tools/blksnap/main.cpp)

    Every command of the tool as a function of its parsed options: what it reads, which
    ioctls it makes, what it prints and when it throws. Parsing the options is boost's;
    parsing the text of identifiers is libuuid's. *)
From Stdlib Require Import Ascii.
From stdpp Require Import sorting.
From S2P Require Import Prelude MemoryChecker Kernel Log Uapi EventQueue CbtMap DiffBuffer DiffIo.
From S2P Require Import DiffStorage Chunk DiffArea ChunkSpecs CowInv Cow CowSteps CowImage.
From S2P Require Import CowSafety State BdevFilter SnapImage Tracker Snapshot Main UserSpace.
From S2P Require Import LibBlksnap Fiemap.

(** ** Numbers in text *)

(** [strtoull] in base 10: white space, a sign, then digits up to the first other
    character. The result is the sign, the value and the number of digits. *)
Definition digit_of (c : ascii) : option Z := Z.of_nat <$> Ascii.is_nat c.
Fixpoint skip_space (s : string) : string :=
  match s with
  | String c s' => if Ascii.is_space c then skip_space s' else s
  | "" => ""
  end.
Definition read_sign (s : string) : bool * string :=
  match s with
  | String "-" s => (true, s)
  | String "+" s => (false, s)
  | _ => (false, s)
  end.
Fixpoint read_digits (s : string) (n : Z) : Z :=
  match s with
  | String c s => match digit_of c with Some d => read_digits s (n * 10 + d) | None => n end
  | "" => n
  end.
Definition has_digit (s : string) : bool :=
  match s with String c _ => bool_decide (is_Some (digit_of c)) | "" => false end.

(** [std::stoull] and [std::stoi]: they throw when there is no digit, and when the
    number is too large; a negative number is accepted, and what follows is ignored. *)
Definition stoull (s : string) : exn + Z :=
  let '(negative, s) := read_sign (skip_space s) in
  if negb (has_digit s) then inl (invalid_argument "stoull")
  else
    let n := read_digits s 0 in
    if 2 ^ 64 <=? n then inl (out_of_range "stoull")
    else inr (if (negative : bool) then u64 (- n) else n).
Definition stoi (s : string) : exn + Z :=
  let '(negative, s) := read_sign (skip_space s) in
  if negb (has_digit s) then inl (invalid_argument "stoi")
  else
    let n := if (negative : bool) then - read_digits s 0 else read_digits s 0 in
    if (n <? - 2 ^ 31) || (2 ^ 31 <=? n) then inl (out_of_range "stoi") else inr n.

(** [str.substr(0, pos)] and [str.substr(pos + 1)] for the first colon. *)
Fixpoint split_colon (s : string) : option (string * string) :=
  match s with
  | String ":" s => Some (""%S, s)
  | String c s => '(a, b) ← split_colon s; Some (String c a, b)
  | "" => None
  end.

(** ** The options of a command *)
Variant option_value : Type :=
  | is_set
  | is_string (s : string)
  | is_strings (l : list string)
  | is_unsigned (n : Z)
  | is_int (n : Z).
Notation variables_map := (gmap string option_value).

(** boost::program_options, libuuid and the output file of a stream. A text that is no
    identifier leaves the identifier as it was, which is [uuid_garbage] for one that has no
    value yet; [ofstream_opens] tells whether a stream can open the file. *)
Class ToolLibs := {
  ofstream_opens : string → bool;
  po_parse : string → list string → exn + variables_map;
  po_text : string → string;
  uuid_parse : string → option Z;
  uuid_unparse : Z → string;
  uuid_garbage : Z;
  tz_minutes_west : Z;
}.

(** The members of [StretchSnapshotArgsProc], and the bytes written to the output file
    of [tracker_readcbtmap]. *)
Record tool := ToolMem {
  stretch_id : Z;
  m_path : string;
  m_allocated_sectFiles : list string;
  m_counter : Z;
  m_allocated_sect : Z;
  m_limit_sect : Z;
  output : list Z;
}.

Section tool.
Context {W : Type} {OS : Os W} {L : ToolLibs} {P : ModuleParams}.
Context (text_start text_stop : list Z) (fuel : nat).
Notation U := (U W tool).
Notation ioctl := (ioctl (W:=W) (X:=tool) text_start text_stop).

Definition lift {A} (r : exn + A) : U A := match r with inl e => throw e | inr a => mret a end.

Definition parseRange (str : string) : U blk_snap_block_range :=
  match split_colon str with
  | None => throw (invalid_argument "Invalid format of range string.")
  | Some (a, b) =>
      offset ← lift (stoull a);
      count ← lift (stoull b);
      mret {| sector_offset := offset; sector_count := count |}
  end.

Fixpoint parse_all (l : list string) : U (list blk_snap_block_range) :=
  match l with
  | [] => mret []
  | s :: l => r ← parseRange s; rs ← parse_all l; mret (r :: rs)
  end.

(** [vm.count(name)], and [vm[name].as<T>()], which throws for another type. *)
Definition vm_count (vm : variables_map) (name : string) : bool := bool_decide (is_Some (vm !! name)).
Definition bad_cast : exn := runtime_error "boost::bad_any_cast".
Definition as_string (vm : variables_map) (name : string) : U string :=
  match vm !! name with Some (is_string s) => mret s | _ => throw bad_cast end.
Definition as_strings (vm : variables_map) (name : string) : U (list string) :=
  match vm !! name with Some (is_strings l) => mret l | _ => throw bad_cast end.
Definition as_unsigned (vm : variables_map) (name : string) : U Z :=
  match vm !! name with Some (is_unsigned n) => mret n | _ => throw bad_cast end.
Definition as_int (vm : variables_map) (name : string) : U Z :=
  match vm !! name with Some (is_int n) => mret n | _ => throw bad_cast end.
(** The check that an option is there. *)
Definition required (vm : variables_map) (name : string) : U unit :=
  if vm_count vm name then mret tt
  else throw (invalid_argument ("Argument '" +:+ name +:+ "' is missed.")).
Definition no_json (vm : variables_map) : U unit :=
  if vm_count vm "json" then throw (invalid_argument "Argument 'json' is not supported yet.") else mret tt.

(** [CBlksnapFileWrap]: the control device, open while the command runs. *)
Definition with_ctl {A} (body : U A) : U A :=
  (r ← open_call os_open_ctl;
   if r <? 0 then throw_errno "/dev/blksnap-control" else mret tt) ≫= λ _,
  finally body close_fd.

(** [Uuid::FromString] on an identifier that is [old]. *)
Definition from_string (old : Z) (s : string) : Z := default old (uuid_parse s).
Definition id_option (vm : variables_map) : U Z :=
  required vm "id" ≫= λ _, s ← as_string vm "id"; mret (from_string uuid_garbage s).

(** ** Version and trackers *)

Definition Version_Execute (vm : variables_map) : U unit :=
  with_ctl (
    if vm_count vm "modification" || vm_count vm "compatibility" then
      '(r, rep) ← ioctl blk_snap_ioctl_mod no_arg;
      if negb (r =? 0) then throw_errno "Failed to get modification or compatibility information."
      else
        let '(flags, name) := match rep with RModification f => (f, MOD_NAME) | _ => (0, ""%S) end in
        uwhen (vm_count vm "modification") (cout name) ≫= λ _,
        uwhen (vm_count vm "compatibility")
          (uwhen (Z.testbit flags blk_snap_compat_flag_debug_sector_state) (cout "debug_sector_state") ≫= λ _,
           uwhen (Z.testbit flags blk_snap_compat_flag_setlog) (cout "setlog"))
    else
      '(r, rep) ← ioctl (ioctl_nr blk_snap_ioctl_version) no_arg;
      if negb (r =? 0) then throw_errno "Failed to get version."
      else
        let v := match rep with RVersion v => v
                 | _ => {| v_major := 0; v_minor := 0; v_revision := 0; v_build := 0 |} end in
        cout (pretty (v_major v) +:+ "." +:+ pretty (v_minor v) +:+ "." +:+ pretty (v_revision v)
              +:+ "." +:+ pretty (v_build v))).

Definition TrackerRemove_Execute (vm : variables_map) : U unit :=
  with_ctl (
    required vm "device" ≫= λ _,
    name ← as_string vm "device";
    d ← deviceByName name;
    '(r, _) ← ioctl (ioctl_nr blk_snap_ioctl_tracker_remove)
                {| no_arg with u_tracker_remove := {| tr_remove_dev_id := d |} |};
    if negb (r =? 0) then throw_errno "Failed to remove block device from change tracking." else mret tt).

Definition cout_all (l : list string) : U unit := for_each cout l.
Definition dev_text (d : blk_snap_dev) : string := pretty (mj d) +:+ ":" +:+ pretty (mn d).
Definition cbt_lines (it : blk_snap_cbt_info) : list string :=
  [ ","; "device=" +:+ dev_text (ci_dev_id it); "blk_size=" +:+ pretty (ci_blk_size it);
    "device_capacity=" +:+ pretty (ci_device_capacity it); "blk_count=" +:+ pretty (ci_blk_count it);
    "generationId=" +:+ uuid_unparse (ci_generation_id it); "snap_number=" +:+ pretty (ci_snap_number it) ]%S.

(** The count and the entries after the two calls. *)
Definition TrackerCollect_Execute (vm : variables_map) : U unit :=
  let failed : string := "[TBD]Failed to collect block devices with change tracking." in
  with_ctl (
    '(r, rep) ← ioctl (ioctl_nr blk_snap_ioctl_tracker_collect) no_arg;
    if negb (r =? 0) then throw_errno failed
    else
      let count := match rep with RCbtInfo n _ => n | _ => 0 end in
      '(r, rep) ← ioctl (ioctl_nr blk_snap_ioctl_tracker_collect)
        {| no_arg with u_tracker_collect := {| tc_count := count; tc_cbt_info_array := 0 <? count |} |};
      if negb (r =? 0) then throw_errno failed
      else
        let '(count', l) := match rep with RCbtInfo n l => (n, l) | _ => (count, []) end in
        no_json vm ≫= λ _,
        cout ("count=" +:+ pretty count') ≫= λ _,
        for_each (λ it, cout_all (cbt_lines it))
          (take (Z.to_nat count') (filled_vector no_cbt_info count l)) ≫= λ _,
        cout ".").

(** The [do] loop: the buffer has 1 MiB. A stream whose file could not be opened drops
    what is written to it. *)
Definition CBTMAP_SIZE : Z := 1024 * 1024.
Fixpoint read_cbt_loop (fuel : nat) (good : bool) (d : blk_snap_dev) (offset : Z) : U unit :=
  match fuel with
  | O => halted Endless
  | S fuel =>
      '(ret, rep) ← ioctl (ioctl_nr blk_snap_ioctl_tracker_read_cbt_map)
        {| no_arg with u_read_cbt_bitmap := {| rc_dev_id := d; rc_offset := offset; rc_length := CBTMAP_SIZE |} |};
      if ret <? 0 then throw_errno "[TBD]Failed to read map of difference from change tracking."
      else if 0 <? ret then
        let bytes := match rep with RBitmap l => l | _ => [] end in
        uset (λ p, {| p with p_mem := let m := p_mem p in
                      {| m with output := output m ++ if good then take (Z.to_nat ret) bytes else [] |} |}) ≫= λ _,
        read_cbt_loop fuel good d (u32 (offset + ret))
      else mret tt
  end.

Definition TrackerReadCbtMap_Execute (vm : variables_map) : U unit :=
  with_ctl (
    required vm "device" ≫= λ _,
    name ← as_string vm "device";
    d ← deviceByName name;
    no_json vm ≫= λ _,
    required vm "file" ≫= λ _,
    file ← as_string vm "file";
    uset (λ p, {| p with p_mem := let m := p_mem p in {| m with output := [] |} |}) ≫= λ _,
    read_cbt_loop fuel (ofstream_opens file) d 0).

(** The device and the ranges: a file's, or those in the option [ranges]; [checked] is
    the name that is looked for before the option is read. *)
Definition ranges_of (vm : variables_map) (checked ranges : string) : U (blk_snap_dev * list blk_snap_block_range) :=
  if vm_count vm "file" then f ← as_string vm "file"; fiemapStorage fuel f
  else
    required vm "device" ≫= λ _,
    name ← as_string vm "device";
    d ← deviceByName name;
    required vm checked ≫= λ _,
    l ← as_strings vm ranges;
    rs ← parse_all l;
    mret (d, rs).

Definition TrackerMarkDirtyBlock_Execute (vm : variables_map) : U unit :=
  with_ctl (
    '(d, ranges) ← ranges_of vm "ranges" "ranges";
    '(r, _) ← ioctl (ioctl_nr blk_snap_ioctl_tracker_mark_dirty_blocks)
      {| no_arg with u_mark_dirty_blocks := {| md_dev_id := d; dirty_blocks_array := ranges |} |};
    if negb (r =? 0) then throw_errno "[TBD]Failed to mark dirty blocks in change tracking map." else mret tt).

(** ** Snapshots *)

Fixpoint devices_by_name (l : list string) : U (list blk_snap_dev) :=
  match l with
  | [] => mret []
  | n :: l => d ← deviceByName n; ds ← devices_by_name l; mret (d :: ds)
  end.

Definition SnapshotCreate_Execute (vm : variables_map) : U unit :=
  with_ctl (
    required vm "device" ≫= λ _,
    names ← as_strings vm "device";
    devices ← devices_by_name names;
    '(r, rep) ← ioctl (ioctl_nr blk_snap_ioctl_snapshot_create)
      {| no_arg with u_create := {| dev_id_array := devices |} |};
    if negb (r =? 0) then throw_errno "[TBD]Failed to create snapshot object."
    else cout (uuid_unparse (match rep with RSnapshotId id => id | _ => 0 end))).

Definition SnapshotDestroy_Execute (vm : variables_map) : U unit :=
  with_ctl (
    id ← id_option vm;
    '(r, _) ← ioctl (ioctl_nr blk_snap_ioctl_snapshot_destroy) {| no_arg with u_destroy := {| sd_id := id |} |};
    if negb (r =? 0) then throw_errno "[TBD]Failed to destroy snapshot." else mret tt).

(** The option is called range; the check looks for ranges. *)
Definition SnapshotAppendStorage_Execute (vm : variables_map) : U unit :=
  with_ctl (
    id ← id_option vm;
    '(d, ranges) ← ranges_of vm "ranges" "range";
    '(r, _) ← ioctl (ioctl_nr blk_snap_ioctl_snapshot_append_storage)
      {| no_arg with u_append_storage := {| as_id := id; as_dev_id := d; as_ranges := ranges |} |};
    if negb (r =? 0) then throw_errno "[TBD]Failed to append storage for snapshot." else mret tt).

Definition SnapshotTake_Execute (vm : variables_map) : U unit :=
  with_ctl (
    id ← id_option vm;
    '(r, _) ← ioctl (ioctl_nr blk_snap_ioctl_snapshot_take) {| no_arg with u_take := {| sk_id := id |} |};
    if negb (r =? 0) then throw_errno "[TBD]Failed to take snapshot." else mret tt).

Definition event_lines (e : blk_snap_snapshot_event) : list string :=
  if se_code e =? blk_snap_event_code_low_free_space then
    [ "event=low_free_space";
      "requested_nr_sect=" +:+ pretty (match se_data e with Some (low_free_space n) => n | _ => 0 end) ]%S
  else if se_code e =? blk_snap_event_code_corrupted then [ "event=corrupted" ]%S
  else [ "event=" +:+ pretty (se_code e) ]%S.

Definition SnapshotWaitEvent_Execute (vm : variables_map) : U unit :=
  with_ctl (
    id ← id_option vm;
    required vm "timeout" ≫= λ _,
    t ← as_string vm "timeout";
    timeout ← lift (stoi t);
    '(r, rep) ← ioctl (ioctl_nr blk_snap_ioctl_snapshot_wait_event)
      {| no_arg with u_event := {| se_id := id; timeout_ms := u32 timeout; se_code := 0; time_label := 0;
                                   se_data := None |} |};
    if negb (r =? 0) then
      e ← errno;
      if e =? ENOENT then no_json vm ≫= λ _, cout "result=timeout"
      else if e =? EINTR then no_json vm ≫= λ _, cout "result=interrupted"
      else throw_errno "[TBD]Failed to get event from snapshot."
    else
      match rep with
      | REvent e =>
          no_json vm ≫= λ _,
          cout_all (["result=ok"; "time=" +:+ pretty (time_label e)]%S ++ event_lines e)
      | _ => halted Undefined
      end).

Definition CollectSnapshots : U (list Z) :=
  '(r, rep) ← ioctl (ioctl_nr blk_snap_ioctl_snapshot_collect) no_arg;
  if negb (r =? 0) then throw_errno "[TBD]Failed to get list of active snapshots."
  else
    let count := match rep with RSnapshotIds n _ => n | _ => 0 end in
    if count =? 0 then mret []
    else
      '(r, rep) ← ioctl (ioctl_nr blk_snap_ioctl_snapshot_collect)
        {| no_arg with u_collect := {| sc_count := count; sc_ids := true |} |};
      if negb (r =? 0) then throw_errno "[TBD]Failed to get list of snapshots."
      else
        let '(count', l) := match rep with RSnapshotIds n l => (n, l) | _ => (count, []) end in
        mret (take (Z.to_nat count') (filled_vector 0 count l)).

Definition image_lines (info : blk_snap_image_info) : list string :=
  [ ","; "orig_dev_id=" +:+ dev_text (orig_dev_id info); "image_dev_id=" +:+ dev_text (image_dev_id info) ]%S.

(** [CollectImages] makes the calls of [CBlksnap::Collect]. *)
Definition SnapshotCollect_Execute (vm : variables_map) : U unit :=
  with_ctl (
    no_json vm ≫= λ _,
    ids ← (if vm_count vm "id" then s ← as_string vm "id"; mret [from_string uuid_garbage s]
           else CollectSnapshots);
    for_each (λ id,
      cout ("snapshot=" +:+ uuid_unparse id) ≫= λ _,
      images ← Collect text_start text_stop id [];
      cout ("count=" +:+ pretty (lenZ images)) ≫= λ _,
      for_each (λ info, cout_all (image_lines info)) images ≫= λ _,
      cout ".") ids).

(** ** The service that stretches a snapshot *)

Definition quoted (s : string) : string := String "034" (s +:+ String "034" "").

Definition set_tool (f : tool → tool) : U unit := uset (λ p, {| p with p_mem := f (p_mem p) |}).

Definition ProcessLowFreeSpace (time_label requested_nr_sect : Z) : U unit :=
  cout (pretty (u32 time_label) +:+ " - Low free space in diff storage. Requested "
        +:+ pretty requested_nr_sect +:+ " sectors.") ≫= λ _,
  m ← uget p_mem;
  if m_limit_sect m <? m_allocated_sect m then cerr "The diff storage limit has been achieved."
  else
    let filename := m_path m +:+ "diff_storage#" +:+ pretty (m_counter m) in
    set_tool (λ m, {| m with m_counter := m_counter m + 1 |}) ≫= λ _,
    old ← fs_exists filename;
    uwhen old (fs_remove filename) ≫= λ _,
    r ← open_call (os_create filename);
    if r <? 0 then throw_errno "[TBD]Failed to create file for diff storage."
    else
      set_tool (λ m, {| m with m_allocated_sectFiles := m_allocated_sectFiles m ++ [filename] |}) ≫= λ _,
      r ← syscall (os_fallocate filename (u64 (requested_nr_sect * SECTOR_SIZE)));
      if negb (r =? 0) then
        err ← errno;
        close ≫= λ _,
        throw (system_error err "[TBD]Failed to allocate file for diff storage.")
      else
        close ≫= λ _,
        set_tool (λ m, {| m with m_allocated_sect := u64 (m_allocated_sect m + requested_nr_sect) |}) ≫= λ _,
        '(dev_id, ranges) ← fiemapStorage fuel filename;
        '(r, _) ← ioctl (ioctl_nr blk_snap_ioctl_snapshot_append_storage)
          {| no_arg with u_append_storage := {| as_id := stretch_id m; as_dev_id := dev_id; as_ranges := ranges |} |};
        if negb (r =? 0) then throw_errno "[TBD]Failed to append storage for snapshot." else mret tt.

Definition ProcessEventCorrupted (time_label : Z) (d : blk_snap_dev) (err_code : Z) : U unit :=
  cout (pretty (u32 time_label) +:+ " - The snapshot was corrupted for device [" +:+ dev_text d
        +:+ "] with error " +:+ quoted (os_strerror err_code) +:+ ".").

(** The [while] loop, for [turns] turns; the service runs until the snapshot is
    corrupted. *)
Fixpoint stretch_loop (turns : nat) : U unit :=
  match turns with
  | O => halted Endless
  | S turns =>
      m ← uget p_mem;
      '(r, rep) ← ioctl (ioctl_nr blk_snap_ioctl_snapshot_wait_event)
        {| no_arg with u_event := {| se_id := stretch_id m; timeout_ms := 1000; se_code := 0; time_label := 0;
                                     se_data := None |} |};
      if negb (r =? 0) then
        e ← errno;
        if (e =? ENOENT) || (e =? EINTR) then stretch_loop turns
        else throw (system_error e "[TBD]Failed to get event from snapshot.")
      else
        match rep with
        | REvent e =>
            match event_member (se_code e) (se_data e) with
            | lowFreeSpace n => ProcessLowFreeSpace (time_label e) n ≫= λ _, stretch_loop turns
            | corruptedEvent d err => ProcessEventCorrupted (time_label e) d err
            | noMember =>
                if (se_code e =? blk_snap_event_code_low_free_space) || (se_code e =? blk_snap_event_code_corrupted)
                then halted Undefined
                else
                  cout (pretty (u32 (time_label e)) +:+ " - unsupported event #" +:+ pretty (se_code e) +:+ ".") ≫= λ _,
                  stretch_loop turns
            end
        | _ => halted Undefined
        end
  end.

Definition cleanup_file (filename : string) : U unit :=
  r ← syscall (os_remove filename);
  if r =? 0 then mret tt
  else e ← errno; cout ("Failed to cleanup diff storage file " +:+ quoted filename +:+ ". " +:+ os_strerror e).

Definition StretchSnapshot_Execute (vm : variables_map) : U unit :=
  with_ctl (
    required vm "id" ≫= λ _,
    s ← as_string vm "id";
    set_tool (λ m, {| m with stretch_id := from_string (stretch_id m) s |}) ≫= λ _,
    required vm "path" ≫= λ _,
    path ← as_string vm "path";
    set_tool (λ m, {| m with m_path := path |}) ≫= λ _,
    (if vm_count vm "limit" then
       n ← as_unsigned vm "limit";
       set_tool (λ m, {| m with m_limit_sect := u64 (1024 * 1024 / SECTOR_SIZE * n) |})
     else set_tool (λ m, {| m with m_limit_sect := 2 ^ 64 - 1 |})) ≫= λ _,
    cout "Stretch snapshot service started." ≫= λ _,
    try (set_tool (λ m, {| m with m_counter := 0 |}) ≫= λ _,
         stretch_loop fuel ≫= λ _,
         m ← uget p_mem;
         for_each cleanup_file (m_allocated_sectFiles m))
        (λ ex, cerr (what ex) ≫= λ _, throw (runtime_error "Stretch snapshot service failed.")) ≫= λ _,
    cout "Stretch snapshot service finished.").

(** ** The log *)

Fixpoint bytes_of (s : string) : list Z :=
  match s with "" => [] | String c s => Z.of_N (N_of_ascii c) :: bytes_of s end.

Definition Setlog_Execute (vm : variables_map) : U unit :=
  with_ctl (
    if vm_count vm "disable" then
      '(r, _) ← ioctl blk_snap_ioctl_setlog
        {| no_arg with u_setlog := {| tz_minuteswest := 0; sl_level := u32 (-1); sl_filepath := None |} |};
      if negb (r =? 0) then throw_errno "Failed to disable logging." else mret tt
    else
      level ← as_int vm "level";
      required vm "path" ≫= λ _,
      path ← as_string vm "path";
      '(r, _) ← ioctl blk_snap_ioctl_setlog
        {| no_arg with u_setlog := {| tz_minuteswest := tz_minutes_west; sl_level := u32 level;
             (** [data()] of an empty vector is a null pointer. *)
             sl_filepath := if bool_decide (path = "") then None else Some (bytes_of path) |} |};
      if negb (r =? 0) then throw_errno "Failed to set logging." else mret tt).

(** ** Dispatch *)

Definition argsProcMap : list (string * (variables_map → U unit)) :=
  [ ("version"%S, Version_Execute);
    ("tracker_remove"%S, TrackerRemove_Execute);
    ("tracker_collect"%S, TrackerCollect_Execute);
    ("tracker_readcbtmap"%S, TrackerReadCbtMap_Execute);
    ("tracker_markdirtyblock"%S, TrackerMarkDirtyBlock_Execute);
    ("snapshot_create"%S, SnapshotCreate_Execute);
    ("snapshot_destroy"%S, SnapshotDestroy_Execute);
    ("snapshot_appendstorage"%S, SnapshotAppendStorage_Execute);
    ("snapshot_take"%S, SnapshotTake_Execute);
    ("snapshot_waitevent"%S, SnapshotWaitEvent_Execute);
    ("snapshot_collect"%S, SnapshotCollect_Execute);
    ("stretch_snapshot"%S, StretchSnapshot_Execute);
    ("setlog"%S, Setlog_Execute) ].

Definition find_command (name : string) : option (variables_map → U unit) :=
  snd <$> find (λ c, bool_decide (c.1 = name)) argsProcMap.

(** [IArgsProc::Process]. *)
Definition Process (name : string) (execute : variables_map → U unit) (args : list string) : U unit :=
  vm ← lift (po_parse name args);
  if vm_count vm "help" then cout (po_text name) else execute vm.

Definition usage_header : list string :=
  [ "[TBD]Usage:"; "--help, -h or help:"; "	Print this usage."; "<command> [arguments]:";
    "	Execute the management command."; ""; "Available commands with arguments:" ]%S.
(** The map prints its commands in the order of their names. *)
Definition printUsage : U unit :=
  cout_all usage_header ≫= λ _,
  for_each (λ name, cout (name +:+ ":") ≫= λ _, cout (po_text name)) (merge_sort String.le argsProcMap.*1).

Definition process (argv : list string) : U unit :=
  match argv with
  | _ :: name :: args =>
      match find_command name with
      | Some execute => Process name execute args
      | None =>
          if bool_decide (name ∈ ["help"; "--help"; "-h"]%S) then printUsage
          else throw (runtime_error "Command is not set.")
      end
  | _ => throw (runtime_error "[TBD]Command not found.")
  end.

Definition main (argv : list string) : U Z :=
  try (process argv ≫= λ _, mret 0) (λ ex, cerr (what ex) ≫= λ _, mret 1).
End tool.
