(* ===== verification/ToolSpecs.v ===== *)
(** * What the commands of the tool do (tools/blksnap/main.cpp) *)
From Stdlib Require Import Ascii.
From S2P Require Import Prelude MemoryChecker Kernel Log Uapi EventQueue CbtMap DiffBuffer DiffIo.
From S2P Require Import DiffStorage Chunk DiffArea ChunkSpecs CowInv Cow CowSteps CowImage.
From S2P Require Import CowSafety State BdevFilter SnapImage Tracker Snapshot Lifecycle Main UserSpace.
From S2P Require Import LibBlksnap Fiemap Session SessionSpecs SessionThread Tool.

(** ** Ranges in text *)

Lemma digit_of_pretty n : (n < 10)%N → digit_of (pretty_N_char n) = Some (Z.of_N n).
Proof. intros H. destruct n as [|n]; [done|]. by repeat (destruct n as [n|n|]; try lia). Qed.

(** Reading the digits that are printed in front of [s] gives the number. *)
Lemma read_digits_go x s : read_digits (pretty_N_go x s) 0 = read_digits s (Z.of_N x).
Proof.
  revert s. induction (N.lt_wf_0 x) as [x _ IH]; intros s.
  destruct (decide (x = 0)%N) as [->|Hx]; [done|].
  rewrite pretty_N_go_step by lia. rewrite IH by (apply N.div_lt; lia). cbn [read_digits].
  rewrite digit_of_pretty by (apply N.mod_lt; done). f_equal.
  pose proof (N.div_mod x 10 ltac:(done)). lia.
Qed.

Fixpoint digits_only (s : string) : Prop :=
  match s with "" => True | String c s => is_Some (digit_of c) ∧ digits_only s end.

Lemma pretty_go_digits x s : digits_only s → digits_only (pretty_N_go x s).
Proof.
  revert s. induction (N.lt_wf_0 x) as [x _ IH]; intros s Hs.
  destruct (decide (x = 0)%N) as [->|Hx]; [done|].
  rewrite pretty_N_go_step by lia. apply IH; [apply N.div_lt; lia|]. split; [|done].
  rewrite digit_of_pretty by (apply N.mod_lt; done). by eexists.
Qed.

(** A number in text, as the tool is given it. *)
Record number_text (s : string) (n : Z) : Prop := {
  nt_digits : digits_only s;
  nt_some : has_digit s = true;
  nt_value : read_digits s 0 = n;
}.

Lemma pretty_number n : 0 ≤ n → number_text (pretty n) n.
Proof.
  intros Hn. destruct n as [|p|p]; [split; [by split; [eexists|]|done..]| |lia].
  change (pretty (Z.pos p)) with (pretty_N_go (N.pos p) "").
  pose proof (pretty_go_digits (N.pos p) "" I) as Hd. pose proof (read_digits_go (N.pos p) "") as Hv.
  cbn [read_digits] in Hv. destruct (pretty_N_go (N.pos p) "") as [|c s]; [done|].
  split; [done| |done]. destruct Hd as [Hc _]. cbn. by rewrite bool_decide_true.
Qed.

Lemma digit_char c : is_Some (digit_of c) →
  Ascii.is_space c = false ∧ c ≠ "-"%char ∧ c ≠ "+"%char ∧ c ≠ ":"%char.
Proof. destruct c as [[][][][][][][][]]; cbn; intros [? H]; (discriminate H || by split_and!). Qed.

Lemma read_sign_digit c s : is_Some (digit_of c) → read_sign (String c s) = (false, String c s).
Proof. destruct c as [[][][][][][][][]]; cbn; intros [? H]; (discriminate H || done). Qed.

Lemma stoull_number s n : number_text s n → n < 2 ^ 64 → stoull s = inr n.
Proof.
  intros [Hd Hs Hv] Hn. destruct s as [|c s]; [done|]. pose proof Hd as [Hc _].
  destruct (digit_char c Hc) as (Hsp & _). unfold stoull. cbn [skip_space]. rewrite Hsp, read_sign_digit, Hs, Hv by done.
  cbn [negb]. by rewrite (proj2 (Z.leb_gt _ _)).
Qed.

Lemma split_colon_digits s t : digits_only s → split_colon (s +:+ String ":" t) = Some (s, t).
Proof.
  induction s as [|c s IH]; intros Hs; [done|]. destruct Hs as [Hc Hs].
  change (String c s +:+ String ":" t) with (String c (s +:+ String ":" t)).
  assert (E : ∀ u, split_colon (String c u) = '(a, b) ← split_colon u; Some (String c a, b)).
  { intros u. destruct (digit_char c Hc) as (_ & _ & _ & Hne). destruct c as [[][][][][][][][]]; (done || by destruct Hne). }
  by rewrite E, IH.
Qed.

Section ranges.
Context {W : Type} {OS : Os W}.

(** A range in the tool's format is read back as it was printed. The text
    'sector:count' of two numbers below 2^64 is parsed to exactly these numbers. *)
Theorem parse_range_roundtrip (r : blk_snap_block_range) (p : proc W tool) :
  0 ≤ sector_offset r < 2 ^ 64 → 0 ≤ sector_count r < 2 ^ 64 →
  parseRange (pretty (sector_offset r) +:+ ":" +:+ pretty (sector_count r)) p = (Ret r, p).
Proof.
  intros Ho Hc. pose proof (pretty_number (sector_offset r) ltac:(lia)) as Hto.
  pose proof (pretty_number (sector_count r) ltac:(lia)) as Htc. unfold parseRange.
  change (":" +:+ pretty (sector_count r)) with (String ":" (pretty (sector_count r))).
  rewrite split_colon_digits by apply Hto.
  rewrite (stoull_number _ _ Hto), (stoull_number _ _ Htc) by lia. by destruct r.
Qed.
End ranges.

(** ** Descriptors *)

Section balanced.
Context {W : Type} {OS : Os W} {L : ToolLibs} {P : ModuleParams}.
Context (text_start text_stop : list Z) (fuel : nat).
Notation U := (U W tool).

(** From [n] open descriptors to [n'], if the computation comes back. *)
Definition moves {A} (d : Z) (m : U A) : Prop :=
  ∀ p, match m p with (Halt _, _) => True | (_, p') => p_fds p' = p_fds p + d end.
Definition balanced {A} (m : U A) : Prop := moves 0 m.
(** A computation that does not throw. *)
Definition nothrow {A} (m : U A) : Prop := ∀ p e, (m p).1 ≠ Throw e.

Lemma balanced_keeps {A} (m : U A) : keeps p_fds m → balanced m.
Proof. intros H p. specialize (H p). destruct (m p) as [[] ?]; cbn in *; lia. Qed.

Lemma balanced_bind {A B} (m : U A) (f : A → U B) :
  balanced m → (∀ a, balanced (f a)) → balanced (m ≫= f).
Proof.
  intros Hm Hf p. specialize (Hm p). unfold mbind, U_mbind. destruct (m p) as [[a| |] p1]; [|done..].
  specialize (Hf a p1). destruct (f a p1) as [[] ?]; [lia..|done].
Qed.
Lemma moves_bind {A B} d (m : U A) (f : A → U B) :
  moves d m → nothrow m → (∀ a, moves (- d) (f a)) → balanced (m ≫= f).
Proof.
  intros Hm Hn Hf p. specialize (Hm p). specialize (Hn p). unfold mbind, U_mbind.
  destruct (m p) as [[a|e|] p1]; [|by destruct (Hn e)|done].
  specialize (Hf a p1). destruct (f a p1) as [[] ?]; [lia..|done].
Qed.
Lemma moves_after {A B} d (m : U A) (f : A → U B) :
  balanced m → nothrow m → (∀ a, moves d (f a)) → moves d (m ≫= f).
Proof.
  intros Hm Hn Hf p. specialize (Hm p). specialize (Hn p). unfold mbind, U_mbind.
  destruct (m p) as [[a|e|] p1]; [|by destruct (Hn e)|done].
  specialize (Hf a p1). destruct (f a p1) as [[] ?]; [lia..|done].
Qed.
Lemma moves_then {A B} d (m : U A) (f : A → U B) :
  moves d m → nothrow m → (∀ a, balanced (f a)) → moves d (m ≫= f).
Proof.
  intros Hm Hn Hf p. specialize (Hm p). specialize (Hn p). unfold mbind, U_mbind.
  destruct (m p) as [[a|e|] p1]; [|by destruct (Hn e)|done].
  specialize (Hf a p1). destruct (f a p1) as [[] ?]; [lia..|done].
Qed.

Lemma balanced_ret {A} (a : A) : balanced (mret a).
Proof. intros p. cbn. lia. Qed.
Lemma balanced_throw {A} e : balanced (throw e : U A).
Proof. intros p. cbn. lia. Qed.
Lemma balanced_halted {A} h : balanced (halted h : U A).
Proof. done. Qed.
Lemma balanced_try {A} (m : U A) h : balanced m → (∀ e, balanced (h e)) → balanced (try m h).
Proof.
  intros Hm Hh p. specialize (Hm p). unfold try. destruct (m p) as [[a|e|] p1]; [done| |done].
  specialize (Hh e p1). destruct (h e p1) as [[] ?]; [lia..|done].
Qed.
Lemma balanced_for_each {A} (f : A → U unit) l : (∀ a, balanced (f a)) → balanced (for_each f l).
Proof. intros H. induction l; cbn; [apply balanced_ret|]. by apply balanced_bind. Qed.
Lemma balanced_ioctl nr arg : balanced (ioctl text_start text_stop nr arg).
Proof.
  intros p. unfold ioctl. destruct (_ && _); [done|]. destruct (_ && _); [done|].
  destruct (ctrl_unlocked_ioctl _ _ _ _ _).1 as [[[ret|] rep]|]; [|done..]. destruct (_ && _); cbn; lia.
Qed.
Lemma balanced_on_os {A} (m : M W A) : balanced (on_os m : U A).
Proof. intros p. cbn. lia. Qed.
Lemma balanced_uget {A} (f : proc W tool → A) : balanced (uget f).
Proof. intros p. cbn. lia. Qed.
Lemma balanced_uset f : (∀ p : proc W tool, p_fds (f p) = p_fds p) → balanced (uset f).
Proof. intros H p. cbn. rewrite H. lia. Qed.
Lemma balanced_syscall m : balanced (syscall m : U Z).
Proof.
  apply balanced_bind; [apply balanced_on_os|]. intros e. destruct (_ =? _); [apply balanced_ret|].
  apply balanced_bind; [by apply balanced_uset|]. intros _. apply balanced_ret.
Qed.
Lemma nothrow_syscall m : nothrow (syscall m : U Z).
Proof. intros p e. unfold syscall, mbind, U_mbind. cbn. by destruct (_ =? _). Qed.
Lemma moves_close : moves (-1) (close : U unit).
Proof. intros p. cbn. lia. Qed.

(** Opening: 0 with one more descriptor, or something negative with none. *)
Lemma open_bind {B} m (f : Z → U B) :
  moves (-1) (f 0) → balanced (f (-1)) → balanced (open_call m ≫= f).
Proof.
  intros H0 H1 p. unfold open_call, syscall, mbind, U_mbind. cbn [on_os].
  destruct ((m (p_os p)).1 =? 0); cbn.
  - match goal with |- match f 0 ?q with _ => _ end => specialize (H0 q); destruct (f 0 q) as [[] ?] end;
      cbn in *; [lia..|done].
  - match goal with |- match f (-1) ?q with _ => _ end => specialize (H1 q); destruct (f (-1) q) as [[] ?] end;
      cbn in *; [lia..|done].
Qed.

Lemma balanced_uwhen b (m : U unit) : balanced m → balanced (uwhen b m).
Proof. intros. destruct b; [done|apply balanced_ret]. Qed.

Lemma nothrow_ret {A} (a : A) : nothrow (mret a : U A).
Proof. done. Qed.
Lemma nothrow_bind {A B} (m : U A) (f : A → U B) : nothrow m → (∀ a, nothrow (f a)) → nothrow (m ≫= f).
Proof.
  intros Hm Hf p e. specialize (Hm p). unfold mbind, U_mbind. destruct (m p) as [[a|e'|] p1]; [apply Hf| |done].
  by destruct (Hm e').
Qed.

Lemma balanced_with_ctl {A} (body : U A) : balanced body → balanced (with_ctl body).
Proof.
  intros H p. unfold with_ctl, open_call, syscall, throw_errno, errno, uget, throw, mbind, U_mbind. cbn [on_os].
  destruct ((os_open_ctl (p_os p)).1 =? 0); cbn; [|lia]. unfold finally.
  match goal with |- context [body ?q] => specialize (H q); destruct (body q) as [[] ?] end; cbn in *; [lia..|done].
Qed.
End balanced.

Create HintDb balanced.
#[export] Hint Resolve balanced_ret balanced_throw balanced_halted balanced_ioctl balanced_on_os balanced_uget
  balanced_syscall balanced_with_ctl : balanced.
#[export] Hint Extern 1 (balanced (uset _)) => apply balanced_uset; intros ?; reflexivity : balanced.
(** Follow the structure of a command. *)
Ltac balance :=
  repeat (intros; lazymatch goal with
  | |- balanced (_ ≫= _) => apply balanced_bind
  | |- balanced (for_each _ _) => apply balanced_for_each
  | |- balanced (try _ _) => apply balanced_try
  | |- balanced (uwhen _ _) => apply balanced_uwhen
  | |- balanced (with_ctl _) => apply balanced_with_ctl
  | |- balanced (if ?b then _ else _) => destruct b
  | |- balanced (match ?x with _ => _ end) => destruct x
  | |- balanced (let '_ := ?x in _) => destruct x
  | |- balanced _ => solve [eauto with balanced]
  end).

Section commands.
Context {W : Type} {OS : Os W} {L : ToolLibs} {P : ModuleParams}.
Context (text_start text_stop : list Z) (fuel : nat).
Notation U := (U W tool).

Lemma balanced_cout l : balanced (cout l : U unit).
Proof. unfold cout. balance. Qed.
Lemma balanced_cerr l : balanced (cerr l : U unit).
Proof. unfold cerr. balance. Qed.
Lemma balanced_throw_errno {A} w : balanced (throw_errno w : U A).
Proof. unfold throw_errno, errno. balance. Qed.
Lemma balanced_deviceByName n : balanced (deviceByName n : U blk_snap_dev).
Proof. unfold deviceByName. balance. Qed.
Lemma balanced_lift {A} (r : exn + A) : balanced (lift r : U A).
Proof. unfold lift. balance. Qed.
Lemma balanced_required vm n : balanced (required vm n : U unit).
Proof. unfold required. balance. Qed.
Lemma balanced_no_json vm : balanced (no_json vm : U unit).
Proof. unfold no_json. balance. Qed.
Lemma balanced_as_string vm n : balanced (as_string vm n : U string).
Proof. unfold as_string. balance. Qed.
Lemma balanced_as_strings vm n : balanced (as_strings vm n : U (list string)).
Proof. unfold as_strings. balance. Qed.
Lemma balanced_as_unsigned vm n : balanced (as_unsigned vm n : U Z).
Proof. unfold as_unsigned. balance. Qed.
Lemma balanced_as_int vm n : balanced (as_int vm n : U Z).
Proof. unfold as_int. balance. Qed.
#[local] Hint Resolve balanced_cout balanced_cerr balanced_throw_errno balanced_deviceByName
  balanced_lift balanced_required balanced_no_json balanced_as_string balanced_as_strings balanced_as_unsigned balanced_as_int : balanced.

Lemma balanced_cout_all l : balanced (cout_all l : U unit).
Proof. unfold cout_all. balance. Qed.
Lemma balanced_parse_all l : balanced (parse_all l : U (list blk_snap_block_range)).
Proof. induction l; cbn [parse_all]; unfold parseRange; balance. Qed.
Lemma balanced_id_option vm : balanced (id_option vm : U Z).
Proof. unfold id_option. balance. Qed.
#[local] Hint Resolve balanced_cout_all balanced_parse_all balanced_id_option : balanced.

Lemma fiemap_extents_calm log l off rs :
  (∀ r, balanced (log r) ∧ nothrow (log r)) →
  balanced (fiemap_extents log l off rs : U _) ∧ nothrow (fiemap_extents log l off rs : U _).
Proof.
  intros Hlog. revert off rs. induction l as [|e l IH]; intros off rs; cbn [fiemap_extents]; [by split; [balance|]|].
  destruct (negb _); [by split; [balance|]|]. destruct (Hlog (extent_range e)) as [Hb Hn].
  split; [apply balanced_bind|apply nothrow_bind]; try done; intros _; apply IH.
Qed.

Lemma fiemap_loop_calm n log f size off rs :
  (∀ r, balanced (log r) ∧ nothrow (log r)) →
  balanced (fiemap_loop n log f size off rs : U _) ∧ nothrow (fiemap_loop n log f size off rs : U _).
Proof.
  intros Hlog. revert off rs. induction n as [|n IH]; intros off rs; cbn [fiemap_loop];
    (destruct (negb _); [by split; [balance|]|]); [by split|].
  split.
  - apply balanced_bind; [balance|]. intros [l|e]; [|balance].
    apply balanced_bind; [by apply fiemap_extents_calm|]. intros [?|[]]; [balance|apply IH].
  - apply nothrow_bind; [done|]. intros [l|e]; [|done].
    apply nothrow_bind; [by apply fiemap_extents_calm|]. intros [?|[]]; [done|apply IH].
Qed.

Lemma balanced_fiemapStorage f : balanced (fiemapStorage fuel f : U _).
Proof.
  unfold fiemapStorage, fiemap_with. apply balanced_bind; [balance|]. intros [st|e]; [|balance].
  apply open_bind; [|cbn; balance]. cbn [Z.ltb Z.compare].
  apply moves_after; [balance|done|]. intros ok. apply moves_after.
  - destruct ok; [|balance]. apply fiemap_loop_calm. by split; [balance|].
  - destruct ok; [|done]. apply fiemap_loop_calm. by split; [balance|].
  - intros r. apply moves_then; [apply moves_close|done|]. intros _. balance.
Qed.
#[local] Hint Resolve balanced_fiemapStorage : balanced.

Lemma balanced_ranges_of vm a b : balanced (ranges_of fuel vm a b : U _).
Proof. unfold ranges_of. balance. Qed.
#[local] Hint Resolve balanced_ranges_of : balanced.

Lemma balanced_read_cbt_loop n g d off : balanced (read_cbt_loop text_start text_stop n g d off : U unit).
Proof. revert off. induction n as [|n IH]; intros off; cbn [read_cbt_loop]; balance. Qed.

Lemma balanced_Collect id l : balanced (Collect text_start text_stop id l : U _).
Proof. unfold Collect. balance. Qed.
Lemma balanced_devices_by_name l : balanced (devices_by_name l : U _).
Proof. induction l; cbn [devices_by_name]; balance. Qed.
Lemma balanced_CollectSnapshots : balanced (CollectSnapshots text_start text_stop : U _).
Proof. unfold CollectSnapshots. balance. Qed.
Lemma balanced_set_tool f : balanced (set_tool f : U unit).
Proof. unfold set_tool. balance. Qed.
Lemma balanced_fs_exists f : balanced (fs_exists f : U bool).
Proof. unfold fs_exists. balance. Qed.
Lemma balanced_fs_remove f : balanced (fs_remove f : U unit).
Proof. unfold fs_remove. balance. Qed.
#[local] Hint Resolve balanced_read_cbt_loop balanced_Collect balanced_devices_by_name balanced_CollectSnapshots
  balanced_set_tool balanced_fs_exists balanced_fs_remove : balanced.

Lemma balanced_ProcessLowFreeSpace t n : balanced (ProcessLowFreeSpace text_start text_stop fuel t n : U unit).
Proof.
  unfold ProcessLowFreeSpace. do 2 (apply balanced_bind; [balance|]; intros ?). destruct (_ <? _); [balance|].
  do 3 (apply balanced_bind; [balance|]; intros ?). apply open_bind; [|cbn; balance]. cbn [Z.ltb Z.compare].
  apply moves_after; [balance|done|]. intros _. apply moves_after; [balance|apply nothrow_syscall|]. intros r.
  destruct (negb _); [apply moves_after; [unfold errno; balance|done|]; intros err|];
    (apply moves_then; [apply moves_close|done|]); intros _; balance.
Qed.
#[local] Hint Resolve balanced_ProcessLowFreeSpace : balanced.

Lemma balanced_stretch_loop n : balanced (stretch_loop text_start text_stop fuel n : U unit).
Proof.
  induction n as [|n IH]; cbn [stretch_loop]; unfold errno, ProcessEventCorrupted; balance.
Qed.
Lemma balanced_cleanup_file f : balanced (cleanup_file f : U unit).
Proof. unfold cleanup_file, errno. balance. Qed.
#[local] Hint Resolve balanced_stretch_loop balanced_cleanup_file : balanced.

Lemma balanced_command name execute :
  find_command text_start text_stop fuel name = Some execute → ∀ vm, balanced (execute vm : U unit).
Proof.
  intros H vm. unfold find_command in H. destruct (find _ _) as [[n f]|] eqn:E; [|done]. injection H as <-. cbn.
  apply find_some in E as [Hin _]. apply list_elem_of_In in Hin. unfold argsProcMap in Hin.
  repeat (apply elem_of_cons in Hin as [[= -> ->]|Hin]; [
    unfold Version_Execute, TrackerRemove_Execute, TrackerCollect_Execute, TrackerReadCbtMap_Execute,
      TrackerMarkDirtyBlock_Execute, SnapshotCreate_Execute, SnapshotDestroy_Execute, SnapshotAppendStorage_Execute,
      SnapshotTake_Execute, SnapshotWaitEvent_Execute, SnapshotCollect_Execute, StretchSnapshot_Execute,
      Setlog_Execute, errno; by balance|]).
  by apply elem_of_nil in Hin.
Qed.

(** *** Commands that come back when the module does *)

(** The process [p'] has been left by an ioctl that does not come back, or the module behind
    it has followed a pointer that points nowhere. *)
Definition lost (h : halt) (p' : proc W tool) : Prop :=
  (∃ nr arg p1, ioctl text_start text_stop nr arg p1 = (Halt h, p')) ∨ broken (md_mod (p_mod p')) = true.
Definition answered {A} (m : U A) : Prop := ∀ p h p', m p = (Halt h, p') → lost h p'.

Lemma answered_ret {A} (a : A) : answered (mret a).
Proof. done. Qed.
Lemma answered_throw {A} e : answered (throw e : U A).
Proof. done. Qed.
Lemma answered_bind {A B} (m : U A) (f : A → U B) : answered m → (∀ a, answered (f a)) → answered (m ≫= f).
Proof.
  intros Hm Hf p h p'. specialize (Hm p). unfold mbind, U_mbind. destruct (m p) as [[a|e|] p1]; [apply Hf|done|].
  intros [= -> ->]. by apply Hm.
Qed.
Lemma answered_finally {A} (m : U A) f : answered m → answered (finally m f).
Proof.
  intros Hm p h p'. specialize (Hm p). unfold finally. destruct (m p) as [[a|e|] p1]; [done..|].
  intros [= -> ->]. by apply Hm.
Qed.
Lemma answered_for_each {A} (f : A → U unit) l : (∀ a, answered (f a)) → answered (for_each f l).
Proof. intros H. induction l; cbn; [apply answered_ret|]. by apply answered_bind. Qed.
Lemma answered_uwhen b (m : U unit) : answered m → answered (uwhen b m).
Proof. by destruct b. Qed.
Lemma answered_uget {A} (f : proc W tool → A) : answered (uget f).
Proof. done. Qed.
Lemma answered_uset f : answered (uset f : U unit).
Proof. done. Qed.
Lemma answered_on_os {A} (m : M W A) : answered (on_os m : U A).
Proof. done. Qed.
Lemma answered_ioctl nr arg : answered (ioctl text_start text_stop nr arg).
Proof. intros p h p' E. left. by exists nr, arg, p. Qed.

#[local] Hint Resolve answered_ret answered_throw answered_uget answered_uset answered_on_os answered_ioctl : answered.
(** Follow the structure of a command. *)
Ltac answer :=
  repeat (intros; lazymatch goal with
  | |- answered (_ ≫= _) => apply answered_bind
  | |- answered (for_each _ _) => apply answered_for_each
  | |- answered (finally _ _) => apply answered_finally
  | |- answered (uwhen _ _) => apply answered_uwhen
  | |- answered (if ?b then _ else _) => destruct b
  | |- answered (match ?x with _ => _ end) => destruct x
  | |- answered (let '_ := ?x in _) => destruct x
  | |- answered _ => solve [eauto with answered]
  end).

Lemma answered_syscall m : answered (syscall m : U Z).
Proof. unfold syscall. answer. Qed.
Lemma answered_with_ctl {A} (body : U A) : answered body → answered (with_ctl body).
Proof. intros H. unfold with_ctl, open_call, syscall, throw_errno, errno. answer. Qed.
Lemma answered_parse_all l : answered (parse_all l : U (list blk_snap_block_range)).
Proof. induction l; cbn [parse_all]; unfold parseRange, lift; answer. Qed.
Lemma answered_deviceByName n : answered (deviceByName n : U blk_snap_dev).
Proof. unfold deviceByName. answer. Qed.
#[local] Hint Resolve answered_parse_all answered_deviceByName : answered.
Lemma answered_devices_by_name l : answered (devices_by_name l : U _).
Proof. induction l; cbn [devices_by_name]; answer. Qed.
Lemma answered_Collect id l : answered (Collect text_start text_stop id l : U _).
Proof. unfold Collect, throw_errno, errno. answer. Qed.
Lemma answered_CollectSnapshots : answered (CollectSnapshots text_start text_stop : U _).
Proof. unfold CollectSnapshots, throw_errno, errno. answer. Qed.
Lemma answered_ranges_of vm a b : vm_count vm "file" = false → answered (ranges_of fuel vm a b : U _).
Proof. intros H. unfold ranges_of, required, as_string, as_strings, lift. rewrite H. answer. Qed.
#[local] Hint Resolve answered_devices_by_name answered_Collect answered_CollectSnapshots answered_ranges_of : answered.

Lemma snapshot_wait_answers id s :
  wp (snapshot_wait_event id) s (λ r s',
    match r with Ok _ => True | Err e => -4095 ≤ e < 0 ∨ broken s' = true end).
Proof.
  unfold snapshot_wait_event. apply wp_bind, wp_eq. intros [p|] s1 _; [|wp_steps; left; unfold ESRCH; lia].
  wp_step. wp_step. destruct (_ ≫= _) as [[st d]|]; [|unfold broken_pointer; wp_steps; by right].
  apply wp_bind, wp_eq. intros v s2 _.
  destruct (event_wait _ _) as [[e q]|] eqn:E; [|unfold broken_pointer; wp_steps; by right].
  wp_steps. apply wp_eq. intros [] s3 _. wp_steps. unfold event_wait in E.
  destruct (eq_list (ds_events d)) as [|e0 l]; cbn in E.
  - destruct (v =? 0); injection E as <- <-; left; cbn; unfold ENOENT, EINTR; lia.
  - injection E as <- <-. done.
Qed.

(** The module answers a wait with an event, with an error, or it has followed a
    pointer that points nowhere. *)
Lemma wait_event_answers arg m :
  wp (ioctl_snapshot_wait_event arg) m (λ r m',
    (∃ e, r.2 = REvent e) ∨ (∃ ret, r.1 = Some ret ∧ -4095 ≤ ret < 0) ∨ broken (md_mod m') = true).
Proof.
  unfold ioctl_snapshot_wait_event. apply wp_bind, wp_eq. intros ok m1 _. destruct ok; cbn [negb].
  2:{ wp_steps. right. left. eexists. split; [reflexivity|]. unfold ENOMEM. lia. }
  apply wp_bind, wp_eq. intros [] m2 _. apply wp_bind, wp_eq. intros ok m3 _.
  apply wp_bind. eapply (wp_mono _ _ (λ (r : answer) m',
    (∃ e, r.2 = REvent e) ∨ (∃ ret, r.1 = Some ret ∧ -4095 ≤ ret < 0) ∨ broken (md_mod m') = true)).
  2:{ intros r m4 H. unfold on_k, on_mod, in_kern. wp_steps. exact H. }
  destruct ok; cbn [negb].
  2:{ wp_steps. right. left. eexists. split; [reflexivity|]. unfold EINVAL. lia. }
  wp_step. unfold on_mod at 1. wp_step. eapply wp_mono; [apply snapshot_wait_answers|]. intros [e|e] s1 H1.
  - unfold send_event. apply wp_bind, wp_eq. intros [] m5 _. apply wp_bind, wp_eq. intros [] m6 _.
    apply wp_bind, wp_eq. intros ok m7 _. destruct ok; wp_steps; [left; by eexists|].
    right. left. eexists. split; [reflexivity|]. unfold EINVAL. lia.
  - wp_steps. right. destruct H1 as [H1|H1]; [left; by eexists|by right].
Qed.

Lemma answered_wait {A} arg (f : Z * reply → U A) :
  (∀ r rep, r ≠ 0 ∨ (∃ e, rep = REvent e) → answered (f (r, rep))) →
  (∀ rep, (∀ e, rep ≠ REvent e) → f (0, rep) = halted Undefined) →
  answered (ioctl text_start text_stop (ioctl_nr blk_snap_ioctl_snapshot_wait_event) arg ≫= f).
Proof.
  intros Hf H0 p h p' E. pose proof (wait_event_answers arg (others p)) as Hw. unfold mbind, U_mbind in E.
  destruct (ioctl _ _ _ arg p) as [[[r rep]|e|] p1] eqn:Ei; [|done|injection E as -> ->; by eapply answered_ioctl].
  destruct (decide (r = 0)) as [->|Hr]; [|eapply Hf; [by left|exact E]].
  assert (Hd : (∃ e, rep = REvent e) ∨ ∀ e, rep ≠ REvent e) by (destruct rep; eauto).
  destruct Hd as [Hd|Hn]; [eapply Hf; [by right|exact E]|].
  rewrite H0 in E by done. injection E as <- <-. right. unfold ioctl in Ei.
  change (ctrl_unlocked_ioctl text_start text_stop (ioctl_nr blk_snap_ioctl_snapshot_wait_event) arg)
    with (r ← ioctl_snapshot_wait_event arg; mret (Some r) : IO (option answer)) in Ei.
  unfold wp in Hw. change ((r ← ioctl_snapshot_wait_event arg; mret (Some r) : IO (option answer)) (others p))
    with (Some (ioctl_snapshot_wait_event arg (others p)).1, (ioctl_snapshot_wait_event arg (others p)).2) in Ei.
  destruct (ioctl_snapshot_wait_event arg (others p)) as [[ret rep'] m'] eqn:Em. cbn [fst snd] in Hw, Ei.
  destruct (_ && _); [done|]. destruct (_ && _); [done|]. destruct ret as [ret|]; [|done].
  destruct Hw as [(e & ->)|[(ret' & [= ->] & Hret)|Hb]].
  - exfalso. destruct (_ && _); [|by injection Ei as _ <- _; apply (Hn e)]. injection Ei as Ez _ _. lia.
  - exfalso. assert (Ez : s32 (u32 ret') = ret') by (apply s32_u32; lia).
    rewrite Ez in Ei. destruct (_ && _) eqn:Eb; [injection Ei as Ez' _ _; lia|].
    injection Ei as -> _ _. lia.
  - destruct (_ && _); [injection Ei as Ez _ _; lia|]. injection Ei as _ _ <-. exact Hb.
Qed.

(** The commands with a loop that the module or the file system must end: reading a table of
    changes, the stretching service, and those that walk through the extents of a file. *)
Definition loops (name : string) (vm : variables_map) : bool :=
  bool_decide (name ∈ ["tracker_readcbtmap"; "stretch_snapshot"]%S) ||
  bool_decide (name ∈ ["tracker_markdirtyblock"; "snapshot_appendstorage"]%S) && vm_count vm "file".

Lemma answered_WaitEvent vm : answered (SnapshotWaitEvent_Execute text_start text_stop vm : U unit).
Proof.
  unfold SnapshotWaitEvent_Execute, id_option, required, as_string, lift. apply answered_with_ctl.
  do 4 (apply answered_bind; [answer|intros ?]). apply answered_wait.
  - intros r rep Hor. unfold errno, no_json, cout_all, cout, throw_errno, errno. destruct (Z.eqb_spec r 0) as [->|]; cbn [negb]; [|answer].
    destruct Hor as [|[e ->]]; [done|]. answer.
  - intros rep Hn. cbn. destruct rep; try done. by destruct (Hn e).
Qed.

Lemma answered_command name execute vm :
  find_command text_start text_stop fuel name = Some execute → loops name vm = false → answered (execute vm : U unit).
Proof.
  intros H Hl. unfold find_command in H. destruct (find _ _) as [[n f]|] eqn:E; [|done]. injection H as <-. cbn.
  apply find_some in E as [Hin Hn%bool_decide_eq_true]. cbn in Hn. subst n.
  apply list_elem_of_In in Hin. unfold argsProcMap in Hin. unfold loops in Hl.
  repeat (apply elem_of_cons in Hin as [[= -> ->]|Hin]; [
    try apply answered_WaitEvent; try discriminate Hl;
    unfold Version_Execute, TrackerRemove_Execute, TrackerCollect_Execute,
      TrackerMarkDirtyBlock_Execute, SnapshotCreate_Execute, SnapshotDestroy_Execute, SnapshotAppendStorage_Execute,
      SnapshotTake_Execute, SnapshotCollect_Execute, Setlog_Execute,
      id_option, required, as_string, as_strings, as_int, no_json, cout_all, cout, throw_errno, errno;
    apply answered_with_ctl; by answer|]).
  by apply elem_of_nil in Hin.
Qed.


(** ** Commands that never reach the module *)

(** A computation that comes back and leaves the module alone; one that throws. *)
Definition calm {A} (m : U A) : Prop :=
  ∀ p, match m p with (Halt _, _) => False | (_, p') => p_mod p' = p_mod p ∧ p_env p' = p_env p end.
Definition refuses {A} (m : U A) : Prop :=
  ∀ p, ∃ e p', m p = (Throw e, p') ∧ p_mod p' = p_mod p ∧ p_env p' = p_env p.

Lemma refuses_bind {A B} (m : U A) (f : A → U B) : calm m → (∀ a, refuses (f a)) → refuses (m ≫= f).
Proof.
  intros Hm Hf p. specialize (Hm p). unfold mbind, U_mbind. destruct (m p) as [[a|e|] p1]; [| |done].
  - destruct (Hf a p1) as (e & p' & -> & H1 & H2). destruct Hm. exists e, p'. split; [done|]. split; congruence.
  - by exists e, p1.
Qed.
Lemma refuses_first {A B} (m : U A) (f : A → U B) : refuses m → refuses (m ≫= f).
Proof. intros Hm p. destruct (Hm p) as (e & p' & E & H). exists e, p'. split; [|done]. unfold mbind, U_mbind. by rewrite E. Qed.
Lemma calm_required vm n : calm (required vm n : U unit).
Proof. intros p. unfold required. by destruct (vm_count _ _). Qed.
Lemma calm_as_string vm n : calm (as_string vm n : U string).
Proof. intros p. unfold as_string. by destruct (vm !! n) as [[]|]. Qed.
Lemma calm_deviceByName n : calm (deviceByName n : U blk_snap_dev).
Proof. intros p. unfold deviceByName, mbind, U_mbind. cbn. by destruct (os_stat n (p_os p)).1. Qed.
Lemma calm_id_option vm : calm (id_option vm : U Z).
Proof.
  intros p. unfold id_option, required, as_string, mbind, U_mbind. destruct (vm_count vm "id"); [|done]. cbn.
  by destruct (vm !! "id"%S) as [[]|].
Qed.

Lemma refuses_with_ctl {A} (body : U A) : refuses body → refuses (with_ctl body).
Proof.
  intros H p. unfold with_ctl, open_call, syscall, throw_errno, errno, uget, throw, mbind, U_mbind. cbn [on_os].
  destruct ((os_open_ctl (p_os p)).1 =? 0); cbn; [|by eexists _, _].
  unfold finally. match goal with |- context [body ?q] => destruct (H q) as (e & p' & -> & ? & ?) end. by eexists e, _.
Qed.

(** The options that snapshot_appendstorage declares. *)
Definition append_options : list string := ["help"; "id"; "device"; "range"; "file"]%S.

(** Storage on a device cannot be appended with the tool. The command
    snapshot_appendstorage declares an option range, but looks for one called ranges before it
    reads it: for options that are among the declared ones, without a file, the command
    throws, whatever device and ranges it is given, and never reaches the module. *)
Theorem append_storage_ranges_refused vm (p : proc W tool) :
  (∀ name v, vm !! name = Some v → name ∈ append_options) → vm !! "file"%S = None →
  ∃ e p', SnapshotAppendStorage_Execute text_start text_stop fuel vm p = (Throw e, p') ∧
    p_mod p' = p_mod p ∧ p_env p' = p_env p.
Proof.
  intros Hopt Hf. unfold SnapshotAppendStorage_Execute. apply refuses_with_ctl, refuses_bind; [apply calm_id_option|].
  intros id. apply refuses_first. unfold ranges_of, vm_count. rewrite Hf. cbn [bool_decide decide_rel].
  rewrite bool_decide_false by (by intros [? ?]).
  apply refuses_bind; [apply calm_required|]. intros _. apply refuses_bind; [apply calm_as_string|]. intros name.
  apply refuses_bind; [apply calm_deviceByName|]. intros d. apply refuses_first. intros q. unfold required, vm_count.
  destruct (vm !! "ranges"%S) as [v|] eqn:E.
  - specialize (Hopt _ _ E). unfold append_options in Hopt.
    repeat (apply elem_of_cons in Hopt as [[=]|Hopt]). by apply elem_of_nil in Hopt.
  - rewrite bool_decide_false by (by intros [? ?]). by eexists _, _.
Qed.

(** ** The limit of the stretching service *)

Lemma ioctl_frame nr arg (p : proc W tool) :
  p_os (ioctl text_start text_stop nr arg p).2 = p_os p ∧ p_mem (ioctl text_start text_stop nr arg p).2 = p_mem p.
Proof.
  unfold ioctl. destruct (_ && _); [done|]. destruct (_ && _); [done|].
  destruct (ctrl_unlocked_ioctl _ _ _ _ _).1 as [[[ret|] rep]|]; [|done..]. by destruct (_ && _).
Qed.

(** Only messages have been written, and the module asked. *)
Definition only_talks (p p' : proc W tool) : Prop := p_os p' = p_os p ∧ p_mem p' = p_mem p.

Lemma bind_talks {A B} (m : U A) (f : A → U B) (p : proc W tool) :
  only_talks p (m p).2 → (∀ a p', only_talks p p' → only_talks p' (f a p').2) → only_talks p ((m ≫= f) p).2.
Proof.
  intros Hm Hf. unfold mbind, U_mbind. destruct (m p) as [[a| |] p1]; [|done..].
  destruct (Hf a p1 Hm) as [H1 H2], Hm as [H3 H4]. cbn [snd] in *. split; congruence.
Qed.

Lemma low_space_refused t n (p : proc W tool) :
  m_limit_sect (p_mem p) < m_allocated_sect (p_mem p) →
  only_talks p (ProcessLowFreeSpace text_start text_stop fuel t n p).2.
Proof.
  intros H. unfold ProcessLowFreeSpace, cout, cerr, uset, uget, mbind, U_mbind. cbn.
  by rewrite (proj2 (Z.ltb_lt _ _) H).
Qed.

Lemma stretch_loop_refuses turns (p : proc W tool) :
  m_limit_sect (p_mem p) < m_allocated_sect (p_mem p) →
  only_talks p (stretch_loop text_start text_stop fuel turns p).2.
Proof.
  revert p. induction turns as [|turns IH]; intros p H; cbn [stretch_loop]; [done|].
  apply bind_talks; [done|]. intros m p1 [E1 E1']. apply bind_talks; [apply ioctl_frame|].
  intros [r rep] p2 [E2 E2'].
  assert (H2 : m_limit_sect (p_mem p2) < m_allocated_sect (p_mem p2)) by congruence.
  destruct (negb _).
  - apply bind_talks; [done|]. intros e p3 [E3 E3']. destruct (_ || _); [|done]. apply IH. congruence.
  - destruct rep; try done. destruct (event_member _ _).
    + apply bind_talks; [by apply low_space_refused|]. intros _ p3 [E3 E3']. apply IH. congruence.
    + done.
    + destruct (_ || _); [done|]. apply bind_talks; [done|]. intros _ p3 [E3 E3']. apply IH. congruence.
Qed.

(** The part of the process that the service would change to give storage. *)
Definition given_storage (p : proc W tool) : W * list string * Z :=
  (p_os p, m_allocated_sectFiles (p_mem p), m_allocated_sect (p_mem p)).

Lemma stretch_service_refuses (p : proc W tool) :
  m_limit_sect (p_mem p) < m_allocated_sect (p_mem p) → m_allocated_sectFiles (p_mem p) = [] →
  given_storage ((cout "Stretch snapshot service started." ≫= λ _,
    try (set_tool (λ m, {| m with m_counter := 0 |}) ≫= λ _,
         stretch_loop text_start text_stop fuel fuel ≫= λ _,
         m ← uget p_mem;
         for_each cleanup_file (m_allocated_sectFiles m))
        (λ ex, cerr (what ex) ≫= λ _, throw (runtime_error "Stretch snapshot service failed.")) ≫= λ _,
    cout "Stretch snapshot service finished.") p).2 = given_storage p.
Proof.
  intros Hlt Hf. erewrite bind_ret by reflexivity. unfold try at 1. unfold mbind at 1, U_mbind at 1.
  erewrite bind_ret by reflexivity.
  match goal with |- context [(stretch_loop _ _ _ _ ≫= _) ?q] => set (p1 := q) end.
  destruct (stretch_loop_refuses fuel p1 Hlt) as [E1 E2]. unfold mbind at 1, U_mbind at 1.
  destruct (stretch_loop text_start text_stop fuel fuel p1) as [[[]|e|h] p2]; cbn [snd] in *.
  - erewrite bind_ret by reflexivity. rewrite E2. cbn [m_allocated_sectFiles p1 p_mem]. rewrite Hf. cbn.
    unfold given_storage. cbn. by rewrite E1, E2.
  - unfold given_storage, mbind, U_mbind. cbn. by rewrite E1, E2.
  - unfold given_storage, mbind, U_mbind. cbn. by rewrite E1, E2.
Qed.

(** The stretching service may never give any storage. [m_allocated_sect] has no
    initial value. When the value it happens to have is above the limit, the service
    refuses every request of the module, however long it runs and however the events
    arrive: it makes no file, and the file system is as it was. *)
Theorem stretch_garbage_refuses vm limit (p : proc W tool) :
  vm !! "limit"%S = Some (is_unsigned limit) → os_open_ctl (p_os p) = (0, p_os p) →
  u64 (2048 * limit) < m_allocated_sect (p_mem p) → m_allocated_sectFiles (p_mem p) = [] →
  let p' := (StretchSnapshot_Execute text_start text_stop fuel vm p).2 in
  p_os p' = p_os p ∧ m_allocated_sectFiles (p_mem p') = [] ∧ m_allocated_sect (p_mem p') = m_allocated_sect (p_mem p).
Proof.
  intros Hl Ho Hg Hf. cut (given_storage (StretchSnapshot_Execute text_start text_stop fuel vm p).2 = given_storage p).
  { unfold given_storage. intros [= -> -> ->]. by rewrite Hf. }
  unfold StretchSnapshot_Execute, with_ctl.
  set (p1 := {| p with p_fds := p_fds p + 1 |}).
  rewrite (bind_ret _ _ p tt p1).
  2: { unfold open_call, syscall. rewrite (bind_ret _ _ p 0 p1); [done|].
       rewrite (bind_ret _ _ p 0 p); [done|]. by rewrite (bind_ret _ _ p 0 p) by (by apply on_os_same). }
  assert (G : ∀ (m : U unit), given_storage (m p1).2 = given_storage p → given_storage (finally m close_fd p1).2 = given_storage p).
  { intros m E. unfold finally. by destruct (m p1) as [[] ?]. }
  apply G. clear G. unfold required, as_string.
  destruct (vm_count vm "id"); [|reflexivity]. erewrite bind_ret by reflexivity.
  destruct (vm !! "id"%S) as [[]|]; try reflexivity. do 2 (erewrite bind_ret by reflexivity).
  destruct (vm_count vm "path"); [|reflexivity]. erewrite bind_ret by reflexivity.
  destruct (vm !! "path"%S) as [[]|]; try reflexivity. do 2 (erewrite bind_ret by reflexivity).
  unfold vm_count, as_unsigned. rewrite Hl, bool_decide_true by (by eexists).
  erewrite bind_ret; [|by erewrite bind_ret by reflexivity].
  etrans; [by apply stretch_service_refuses|reflexivity].
Qed.
End commands.

(** ** Examples *)
#[local] Existing Instance default_params.
#[local] Existing Instance toy_os.

(** Identifiers written as decimal numbers, and no options at all. *)
#[local] Instance toy_libs : ToolLibs :=
  {| ofstream_opens _ := true; po_parse _ _ := inr ∅; po_text name := name;
     uuid_parse s := match stoull s with inl _ => None | inr n => Some n end; uuid_unparse := pretty;
     uuid_garbage := 12345; tz_minutes_west := 0 |}.

Definition ex_tool_mem : tool :=
  {| stretch_id := 0; m_path := ""; m_allocated_sectFiles := []; m_counter := 0; m_allocated_sect := 0;
     m_limit_sect := 0; output := [] |}.
Definition ex_tool : proc toy_fs tool :=
  {| p_mod := toy_module; p_env := []; p_os := p_os (ex_start []); p_errno := 0; p_fds := 3; p_stdout := [];
     p_stderr := []; p_mem := ex_tool_mem |}.

Lemma parse_range_roundtrip_witness :
  (parseRange "1024:18446744073709551615" ex_tool).1 =
    Ret {| sector_offset := 1024; sector_count := 18446744073709551615 |}.
Proof.
  pose proof (parse_range_roundtrip {| sector_offset := 1024; sector_count := 18446744073709551615 |} ex_tool) as H.
  cbn [sector_offset sector_count] in H. specialize (H ltac:(lia) ltac:(lia)).
  change (pretty 1024 +:+ ":" +:+ pretty 18446744073709551615) with "1024:18446744073709551615"%S in H.
  by rewrite H.
Defined.

(** The options --id=77 --device=/dev/sda --range=0:1024. *)
Definition ex_append_options : gmap string option_value :=
  {[ "id"%S := is_string "77"; "device"%S := is_string "/dev/sda"; "range"%S := is_strings ["0:1024"]%S ]}.

Lemma append_storage_ranges_refused_witness :
  (∃ e p', SnapshotAppendStorage_Execute [] [] 10 ex_append_options ex_tool = (Throw e, p') ∧
     p_mod p' = p_mod ex_tool ∧ p_env p' = p_env ex_tool) ∧
  (SnapshotAppendStorage_Execute [] [] 10 ex_append_options ex_tool).1 =
    Throw (invalid_argument "Argument 'ranges' is missed.").
Proof.
  split; [|vm_compute; reflexivity].
  apply (append_storage_ranges_refused [] [] 10 ex_append_options ex_tool); [|vm_compute; reflexivity].
  intros name v H. assert (Hm : map_Forall (λ n _, n ∈ append_options) ex_append_options); [|by eapply Hm].
  by apply (bool_decide_unpack _); vm_compute.
Defined.

(** The service for snapshot 77 of SessionThread.v, whose storage has asked for more
    space, with a limit of one MiB and garbage above it. *)
Definition ex_stretch_options : gmap string option_value :=
  {[ "id"%S := is_string "77"; "path"%S := is_string "/tmp/"; "limit"%S := is_unsigned 1 ]}.
Definition ex_stretching : proc toy_fs tool :=
  {| ex_tool with p_mod := ex_served; p_env := [id];
       p_mem := {| ex_tool_mem with m_allocated_sect := 4096 |} |}.

Lemma stretch_garbage_refuses_witness :
  p_os (StretchSnapshot_Execute [] [] 10 ex_stretch_options ex_stretching).2 = p_os ex_stretching ∧
  p_stderr (StretchSnapshot_Execute [] [] 10 ex_stretch_options ex_stretching).2 =
    ["The diff storage limit has been achieved."]%S.
Proof.
  split; [|vm_compute; reflexivity].
  exact (proj1 (stretch_garbage_refuses [] [] 10 ex_stretch_options 1 ex_stretching
    ltac:(vm_compute; reflexivity) ltac:(vm_compute; reflexivity) ltac:(vm_compute; reflexivity) eq_refl)).
Defined.
