(* ===== verification/ToolOptions.v ===== *)
(** * The options of the tool's commands (tools/blksnap/main.cpp)

    What every command declares to boost::program_options, and that it reads its options as
    it has declared them. *)
From Stdlib Require Import Ascii.
From S2P Require Import Prelude MemoryChecker Kernel Log Uapi EventQueue CbtMap DiffBuffer DiffIo.
From S2P Require Import DiffStorage Chunk DiffArea ChunkSpecs CowInv Cow CowSteps CowImage.
From S2P Require Import CowSafety State BdevFilter SnapImage Tracker Snapshot Main UserSpace.
From S2P Require Import LibBlksnap Fiemap Session SessionSpecs SessionThread Tool ToolSpecs.

(** ** Declarations *)

(** An option without a value, and [po::value<T>()] for the types the tool uses; an [int] may
    have a default. *)
Inductive value_type : Type :=
  | no_value
  | value_string
  | value_strings
  | value_unsigned
  | value_int (default_value : option Z).

(** The long name, the letter and the type; boost also keeps a text. *)
Record option_decl := OptionDecl {
  od_name : string;
  od_letter : string;
  od_type : value_type;
}.

(** A command: [m_usage] and [m_desc]. *)
Record args_proc := ArgsProc {
  m_usage : string;
  m_desc : list option_decl;
}.

(** The constructor of [IArgsProc] declares one option for every command. *)
Definition IArgsProc (usage : string) (options : list option_decl) : args_proc :=
  {| m_usage := usage; m_desc := OptionDecl "help" "h" no_value :: options |}.

Definition VersionArgsProc : args_proc :=
  IArgsProc "[TBD]Print module version."
    [ OptionDecl "modification" "m" no_value; OptionDecl "compatibility" "c" no_value;
      OptionDecl "json" "j" no_value ].
Definition TrackerRemoveArgsProc : args_proc :=
  IArgsProc "[TBD]Remove block device from change tracking." [ OptionDecl "device" "d" value_string ].
Definition TrackerCollectArgsProc : args_proc :=
  IArgsProc "[TBD]Collect block devices with change tracking." [ OptionDecl "json" "j" no_value ].
Definition TrackerReadCbtMapArgsProc : args_proc :=
  IArgsProc "[TBD]Read change tracking map."
    [ OptionDecl "device" "d" value_string; OptionDecl "file" "f" value_string; OptionDecl "json" "j" no_value ].
Definition TrackerMarkDirtyBlockArgsProc : args_proc :=
  IArgsProc "[TBD]Mark blocks as changed in change tracking map."
    [ OptionDecl "file" "f" value_string; OptionDecl "device" "d" value_string; OptionDecl "ranges" "r" value_strings ].
Definition SnapshotCreateArgsProc : args_proc :=
  IArgsProc "[TBD]Create snapshot object structure." [ OptionDecl "device" "d" value_strings ].
Definition SnapshotDestroyArgsProc : args_proc :=
  IArgsProc "[TBD]Release snapshot and destroy snapshot object." [ OptionDecl "id" "i" value_string ].
Definition SnapshotAppendStorageArgsProc : args_proc :=
  IArgsProc "[TBD]Append space in difference storage for snapshot."
    [ OptionDecl "id" "i" value_string; OptionDecl "device" "d" value_string; OptionDecl "range" "r" value_strings;
      OptionDecl "file" "f" value_string ].
Definition SnapshotTakeArgsProc : args_proc :=
  IArgsProc "[TBD]Take snapshot." [ OptionDecl "id" "i" value_string ].
Definition SnapshotWaitEventArgsProc : args_proc :=
  IArgsProc "[TBD]Wait and read event from snapshot."
    [ OptionDecl "id" "i" value_string; OptionDecl "timeout" "t" value_string; OptionDecl "json" "j" no_value ].
Definition SnapshotCollectArgsProc : args_proc :=
  IArgsProc "[TBD]Get collection of devices and his snapshot images."
    [ OptionDecl "id" "i" value_string; OptionDecl "json" "j" no_value ].
Definition StretchSnapshotArgsProc : args_proc :=
  IArgsProc "[TBD]Start stretch snapshot service."
    [ OptionDecl "id" "i" value_string; OptionDecl "path" "p" value_string; OptionDecl "limit" "l" value_unsigned ].
Definition SetlogArgsProc : args_proc :=
  IArgsProc "Set module additional logging."
    [ OptionDecl "level" "l" (value_int (Some 6)); OptionDecl "path" "p" value_string;
      OptionDecl "disable" "" no_value ].

(** The objects that [argsProcMap] holds. *)
Definition args_procs : list (string * args_proc) :=
  [ ("version"%S, VersionArgsProc); ("tracker_remove"%S, TrackerRemoveArgsProc);
    ("tracker_collect"%S, TrackerCollectArgsProc); ("tracker_readcbtmap"%S, TrackerReadCbtMapArgsProc);
    ("tracker_markdirtyblock"%S, TrackerMarkDirtyBlockArgsProc); ("snapshot_create"%S, SnapshotCreateArgsProc);
    ("snapshot_destroy"%S, SnapshotDestroyArgsProc); ("snapshot_appendstorage"%S, SnapshotAppendStorageArgsProc);
    ("snapshot_take"%S, SnapshotTakeArgsProc); ("snapshot_waitevent"%S, SnapshotWaitEventArgsProc);
    ("snapshot_collect"%S, SnapshotCollectArgsProc); ("stretch_snapshot"%S, StretchSnapshotArgsProc);
    ("setlog"%S, SetlogArgsProc) ].
Definition options_of (name : string) : list option_decl :=
  match find (λ c, bool_decide (c.1 = name)) args_procs with Some c => m_desc c.2 | None => [] end.

(** ** What boost promises

    A parsed command line holds declared options only, each with a value of its type, and
    those with a default always. *)
Definition type_of (l : list option_decl) (name : string) : option value_type :=
  od_type <$> find (λ d, bool_decide (od_name d = name)) l.
Definition has_type (t : value_type) (v : option_value) : Prop :=
  match t, v with
  | no_value, is_set | value_string, is_string _ | value_strings, is_strings _ => True
  | value_unsigned, is_unsigned n => 0 ≤ n < 2 ^ 32
  | value_int _, is_int n => - 2 ^ 31 ≤ n < 2 ^ 31
  | _, _ => False
  end.
Record typed (l : list option_decl) (vm : variables_map) : Prop := {
  ty_declared name v : vm !! name = Some v → ∃ t, type_of l name = Some t ∧ has_type t v;
  ty_default name d : type_of l name = Some (value_int (Some d)) → is_Some (vm !! name);
}.

(** ** Commands that read their options as they are declared *)

Section casts.
Context {W : Type} {OS : Os W} {L : ToolLibs} {P : ModuleParams}.
Context (text_start text_stop : list Z) (fuel : nat).
Notation U := (U W tool).

Definition castfree {A} (m : U A) : Prop := ∀ p, (m p).1 ≠ Throw bad_cast.

Lemma castfree_ret {A} (a : A) : castfree (mret a).
Proof. done. Qed.
Lemma castfree_throw {A} e : e ≠ bad_cast → castfree (throw e : U A).
Proof. intros He p. cbn. congruence. Qed.
Lemma castfree_halted {A} h : castfree (halted h : U A).
Proof. done. Qed.
Lemma castfree_bind {A B} (m : U A) (f : A → U B) : castfree m → (∀ a, castfree (f a)) → castfree (m ≫= f).
Proof.
  intros Hm Hf p. specialize (Hm p). unfold mbind, U_mbind. destruct (m p) as [[a|e|] p1]; [apply Hf|cbn in *; congruence|done].
Qed.
Lemma castfree_try {A} (m : U A) h : (∀ e, castfree (h e)) → castfree (try m h).
Proof. intros Hh p. unfold try. destruct (m p) as [[a|e|] p1]; [done|apply Hh|done]. Qed.
Lemma castfree_finally {A} (m : U A) f : castfree m → castfree (finally m f).
Proof. intros Hm p. specialize (Hm p). unfold finally. by destruct (m p) as [[a|e|] p1]. Qed.
Lemma castfree_for_each {A} (f : A → U unit) l : (∀ a, castfree (f a)) → castfree (for_each f l).
Proof. intros H. induction l; cbn; [apply castfree_ret|]. by apply castfree_bind. Qed.
Lemma castfree_uwhen b (m : U unit) : castfree m → castfree (uwhen b m).
Proof. by destruct b. Qed.
Lemma castfree_uget {A} (f : proc W tool → A) : castfree (uget f).
Proof. done. Qed.
Lemma castfree_uset f : castfree (uset f : U unit).
Proof. done. Qed.
Lemma castfree_on_os {A} (m : M W A) : castfree (on_os m : U A).
Proof. done. Qed.
Lemma castfree_ioctl nr arg : castfree (ioctl text_start text_stop nr arg).
Proof.
  intros p. unfold ioctl. destruct (_ && _); [done|]. destruct (_ && _); [done|].
  destruct (ctrl_unlocked_ioctl _ _ _ _ _).1 as [[[ret|] rep]|]; [|done..]. by destruct (_ && _).
Qed.
(** A required option is there afterwards. *)
Lemma castfree_required {A} vm n (f : unit → U A) :
  (vm_count vm n = true → castfree (f tt)) → castfree (required vm n ≫= f).
Proof.
  intros H. unfold required. destruct (vm_count vm n); [by apply castfree_bind; [|intros []; apply H]|done].
Qed.
End casts.

Create HintDb castfree.
#[export] Hint Resolve castfree_ret castfree_halted castfree_uget castfree_uset castfree_on_os castfree_ioctl : castfree.
#[export] Hint Extern 1 (castfree (throw _)) => apply castfree_throw; discriminate : castfree.
(** Follow the structure of a command, remembering which options are there. *)
Ltac castfree :=
  repeat (intros; lazymatch goal with
  | |- castfree (required _ _ ≫= _) => apply castfree_required
  | |- castfree (_ ≫= _) => apply castfree_bind
  | |- castfree (for_each _ _) => apply castfree_for_each
  | |- castfree (try _ _) => apply castfree_try
  | |- castfree (finally _ _) => apply castfree_finally
  | |- castfree (uwhen _ _) => apply castfree_uwhen
  | |- castfree (if vm_count ?vm ?n then _ else _) => let E := fresh "E" in destruct (vm_count vm n) eqn:E
  | |- castfree (if ?b then _ else _) => destruct b
  | |- castfree (match ?x with _ => _ end) => destruct x
  | |- castfree _ => solve [eauto with castfree]
  end).

Section commands.
Context {W : Type} {OS : Os W} {L : ToolLibs} {P : ModuleParams}.
Context (text_start text_stop : list Z) (fuel : nat).
Notation U := (U W tool).

Lemma castfree_cout l : castfree (cout l : U unit).
Proof. done. Qed.
Lemma castfree_cerr l : castfree (cerr l : U unit).
Proof. done. Qed.
Lemma castfree_throw_errno {A} w : castfree (throw_errno w : U A).
Proof. done. Qed.
Lemma castfree_syscall m : castfree (syscall m : U Z).
Proof. unfold syscall. castfree. Qed.
#[local] Hint Resolve castfree_cout castfree_cerr castfree_throw_errno castfree_syscall : castfree.
Lemma castfree_open_call m : castfree (open_call m : U Z).
Proof. unfold open_call. castfree. Qed.
Lemma castfree_close : castfree (close : U unit).
Proof. done. Qed.
#[local] Hint Resolve castfree_open_call castfree_close : castfree.
Lemma castfree_with_ctl {A} (body : U A) : castfree body → castfree (with_ctl body).
Proof. intros H. unfold with_ctl. castfree; done. Qed.
Lemma castfree_deviceByName n : castfree (deviceByName n : U blk_snap_dev).
Proof. unfold deviceByName. castfree. Qed.
Lemma castfree_stoull s : castfree (lift (stoull s) : U Z).
Proof. unfold stoull. destruct (read_sign _) as [neg r]. destruct (negb _); [done|]. by destruct (_ <=? _). Qed.
Lemma castfree_stoi s : castfree (lift (stoi s) : U Z).
Proof. unfold stoi. destruct (read_sign _) as [neg r]. destruct (negb _); [done|]. by destruct (_ || _). Qed.
Lemma castfree_no_json vm : castfree (no_json vm : U unit).
Proof. unfold no_json. castfree. Qed.
#[local] Hint Resolve castfree_deviceByName castfree_stoull castfree_stoi castfree_no_json : castfree.
Lemma castfree_cout_all l : castfree (cout_all l : U unit).
Proof. unfold cout_all. castfree. Qed.
Lemma castfree_parse_all l : castfree (parse_all l : U (list blk_snap_block_range)).
Proof. induction l; cbn [parse_all]; unfold parseRange; castfree. Qed.
Lemma castfree_devices l : castfree (devices_by_name l : U (list blk_snap_dev)).
Proof. induction l; cbn [devices_by_name]; castfree. Qed.
#[local] Hint Resolve castfree_cout_all castfree_parse_all castfree_devices : castfree.

Lemma castfree_extents log l off rs : (∀ r, castfree (log r)) → castfree (fiemap_extents log l off rs : U _).
Proof. intros H. revert off rs. induction l; intros off rs; cbn [fiemap_extents]; castfree. Qed.
#[local] Hint Resolve castfree_extents : castfree.
Lemma castfree_fiemap_loop n log f size off rs : (∀ r, castfree (log r)) → castfree (fiemap_loop n log f size off rs : U _).
Proof. intros H. revert off rs. induction n; intros off rs; cbn [fiemap_loop]; castfree. Qed.
#[local] Hint Resolve castfree_fiemap_loop : castfree.
Lemma castfree_fiemapStorage f : castfree (fiemapStorage fuel f : U _).
Proof. unfold fiemapStorage, fiemap_with. castfree. Qed.
Lemma castfree_read_cbt_loop n g d off : castfree (read_cbt_loop text_start text_stop n g d off : U unit).
Proof. revert off. induction n; intros off; cbn [read_cbt_loop]; castfree. Qed.
Lemma castfree_Collect id l : castfree (Collect text_start text_stop id l : U _).
Proof. unfold Collect. castfree. Qed.
Lemma castfree_CollectSnapshots : castfree (CollectSnapshots text_start text_stop : U _).
Proof. unfold CollectSnapshots. castfree. Qed.
#[local] Hint Resolve castfree_fiemapStorage castfree_read_cbt_loop castfree_Collect castfree_CollectSnapshots : castfree.

(** *** Options *)

Section options.
Context (l : list option_decl) (vm : variables_map).
Hypothesis T : typed l vm.

Lemma undeclared_absent n : type_of l n = None → vm_count vm n = true → False.
Proof.
  unfold vm_count. intros Hn [v Hv]%bool_decide_eq_true. destruct (ty_declared _ _ T n v Hv) as (t & Ht & _). congruence.
Qed.
Lemma castfree_as_string n : type_of l n = Some value_string → vm_count vm n = true → castfree (as_string vm n : U string).
Proof.
  unfold vm_count, as_string. intros Hn [v Hv]%bool_decide_eq_true. destruct (ty_declared _ _ T n v Hv) as (t & Ht & Hty).
  rewrite Hn in Ht. injection Ht as <-. rewrite Hv. by destruct v.
Qed.
Lemma castfree_as_strings n :
  type_of l n = Some value_strings → vm_count vm n = true → castfree (as_strings vm n : U (list string)).
Proof.
  unfold vm_count, as_strings. intros Hn [v Hv]%bool_decide_eq_true. destruct (ty_declared _ _ T n v Hv) as (t & Ht & Hty).
  rewrite Hn in Ht. injection Ht as <-. rewrite Hv. by destruct v.
Qed.
Lemma castfree_as_unsigned n :
  type_of l n = Some value_unsigned → vm_count vm n = true → castfree (as_unsigned vm n : U Z).
Proof.
  unfold vm_count, as_unsigned. intros Hn [v Hv]%bool_decide_eq_true. destruct (ty_declared _ _ T n v Hv) as (t & Ht & Hty).
  rewrite Hn in Ht. injection Ht as <-. rewrite Hv. by destruct v.
Qed.
(** An option with a default is read without a check. *)
Lemma castfree_as_int n d : type_of l n = Some (value_int (Some d)) → castfree (as_int vm n : U Z).
Proof.
  unfold as_int. intros Hn. destruct (ty_default _ _ T n d Hn) as [v Hv].
  destruct (ty_declared _ _ T n v Hv) as (t & Ht & Hty). rewrite Hn in Ht. injection Ht as <-. rewrite Hv. by destruct v.
Qed.
End options.

#[local] Hint Extern 2 (castfree (as_string _ _)) => eapply castfree_as_string; [eassumption|reflexivity|assumption] : castfree.
#[local] Hint Extern 2 (castfree (as_strings _ _)) => eapply castfree_as_strings; [eassumption|reflexivity|assumption] : castfree.
#[local] Hint Extern 2 (castfree (as_unsigned _ _)) => eapply castfree_as_unsigned; [eassumption|reflexivity|assumption] : castfree.
#[local] Hint Extern 2 (castfree (as_int _ _)) => eapply castfree_as_int; [eassumption|reflexivity] : castfree.
(** The option is not declared, so the check before it has refused. *)
#[local] Hint Extern 3 (castfree _) => exfalso; eapply undeclared_absent; [eassumption| |eassumption]; reflexivity : castfree.
Lemma castfree_set_tool f : castfree (set_tool f : U unit).
Proof. done. Qed.
#[local] Hint Resolve castfree_with_ctl castfree_set_tool : castfree.

(** C33: every command reads its options as it has declared them. What boost hands to a
    command holds declared options only, each with a value of its declared type and those
    with a default always; then none of the thirteen commands, whatever the files, the
    module and the devices answer, ends in the [bad_any_cast] that reading an option throws when it is not there or has
    another type. For snapshot_appendstorage this rests on
    the check for ranges, an option that is not declared: it keeps the command from reading
    the ranges at all. *)
Theorem tool_options_typed name execute vm (p : proc W tool) :
  find_command text_start text_stop fuel name = Some execute →
  typed (options_of name) vm →
  (execute vm p).1 ≠ Throw bad_cast.
Proof.
  intros H T. revert p. change (castfree (execute vm)). unfold find_command in H.
  destruct (find _ _) as [[n f]|] eqn:E; [|done]. injection H as <-. cbn.
  apply find_some in E as [Hin Hn%bool_decide_eq_true]. cbn in Hn. subst n.
  apply list_elem_of_In in Hin. unfold argsProcMap in Hin.
  repeat (apply elem_of_cons in Hin as [[= -> ->]|Hin]; [
    unfold Version_Execute, TrackerRemove_Execute, TrackerCollect_Execute, TrackerReadCbtMap_Execute,
      TrackerMarkDirtyBlock_Execute, SnapshotCreate_Execute, SnapshotDestroy_Execute, SnapshotAppendStorage_Execute,
      SnapshotTake_Execute, SnapshotWaitEvent_Execute, SnapshotCollect_Execute, StretchSnapshot_Execute,
      Setlog_Execute, id_option, ranges_of, errno; apply castfree_with_ctl; castfree|]).
  by apply elem_of_nil in Hin.
Qed.
End commands.

(** ** Examples *)
#[local] Existing Instance default_params.
#[local] Existing Instance toy_os.
#[local] Existing Instance toy_libs.

(** A value decides whether it has the declared type. *)
Definition has_type_b (t : value_type) (v : option_value) : bool :=
  match t, v with
  | no_value, is_set | value_string, is_string _ | value_strings, is_strings _ => true
  | value_unsigned, is_unsigned n => (0 <=? n) && (n <? 2 ^ 32)
  | value_int _, is_int n => (- 2 ^ 31 <=? n) && (n <? 2 ^ 31)
  | _, _ => false
  end.
Definition typed_b (l : list option_decl) (vm : gmap string option_value) : bool :=
  forallb (λ '(n, v), match type_of l n with Some t => has_type_b t v | None => false end) (map_to_list vm) &&
  forallb (λ d, match od_type d with value_int (Some _) => vm_count vm (od_name d) | _ => true end) l.
Lemma has_type_spec t v : has_type_b t v = true → has_type t v.
Proof. destruct t, v; cbn; try done; intros; bool_hyps; lia. Qed.
Lemma typed_spec l vm : typed_b l vm = true → typed l vm.
Proof.
  unfold typed_b. intros [H1 H2]%andb_true_iff. rewrite forallb_forall in H1. rewrite forallb_forall in H2. split.
  - intros n v Hv%elem_of_map_to_list%list_elem_of_In. specialize (H1 _ Hv). cbn in H1.
    destruct (type_of l n) as [t|]; [|done]. exists t. split; [done|]. by apply has_type_spec.
  - intros n d. unfold type_of. destruct (find _ l) as [o|] eqn:E; [|done]. intros [= Ht].
    apply find_some in E as [Hin Hn%bool_decide_eq_true]. specialize (H2 _ Hin). cbn in H2. rewrite Ht in H2.
    subst n. by apply bool_decide_eq_true in H2.
Qed.

(** The service of ToolSpecs.v with its three options, and --level=7 for setlog without a path,
    which is refused with another exception. *)
Definition ex_setlog_options : gmap string option_value := {[ "level"%S := is_int 7 ]}.

Lemma tool_options_typed_witness :
  typed_b (options_of "stretch_snapshot") ex_stretch_options = true ∧
  (StretchSnapshot_Execute [] [] 10 ex_stretch_options ex_stretching).1 ≠ Throw bad_cast ∧
  (Setlog_Execute [] [] ex_setlog_options ex_tool).1 ≠ Throw bad_cast ∧
  (Setlog_Execute [] [] ex_setlog_options ex_tool).1 = Throw (invalid_argument "Argument 'path' is missed.").
Proof.
  split; [vm_compute; reflexivity|]. split.
  - apply (tool_options_typed [] [] 10 "stretch_snapshot" _ ex_stretch_options ex_stretching); [reflexivity|].
    apply typed_spec. vm_compute. reflexivity.
  - split; [|vm_compute; reflexivity].
    apply (tool_options_typed [] [] 10 "setlog" _ ex_setlog_options ex_tool); [reflexivity|].
    apply typed_spec. vm_compute. reflexivity.
Defined.
