(* ===== verification/CbtRead.v ===== *)
(** * Reading the change tracking map from user space

    From the library's [GetCbtData] and the tool's loop, through the control device and
    [tracker_read_cbt_bitmap], to the readable table of the device's map: what user space
    is told of the blocks written between two snapshots. *)
From stdpp Require Export strings pretty.
From S2P Require Import Prelude MemoryChecker Kernel Log Uapi EventQueue CbtMap DiffBuffer DiffIo.
From S2P Require Import DiffStorage Chunk DiffArea ChunkSpecs CowInv Cow CowSteps CowImage.
From S2P Require Import CowSafety State BdevFilter SnapImage Tracker Snapshot Main UserSpace LibBlksnap.
From S2P Require Import SnapshotSpecs SnapshotTake Lifecycle Fiemap Session SessionSpecs SessionThread Tool ToolSpecs.

Global Open Scope Z_scope.

(** ** The module's side *)

(** The device [d] is tracked with the map [m], and a snapshot of it is taken. *)
Definition snapped (s : modst) (d : Z) (m : cbt_map) : Prop :=
  ∃ e t tr p, bdev_extension_find_bdev (dev_ptr (devices s d)) (bdev_extension_list s) = Some e ∧
    bd_filter e = Some t ∧ tracked s t tr p m ∧ snapshot_is_taken tr = true ∧ 1 ≤ flt_kref tr.

(** Besides, [rm] is the table that can be read. *)
Record shows (s : modst) (d : Z) (m : cbt_map) (rm : list Z) : Prop := {
  sh_filter : snapped s d m;
  sh_intact : is_corrupted m = false;
  sh_table : read_map m = Some rm;
  sh_length : lenZ rm = blk_count m;
  sh_count : 0 < blk_count m < 2 ^ 31;
}.

(** Only the kernel has changed, every device is open as often as before, and the
    environment has not begun to refuse. *)
Definition only_asked (s s' : modst) : Prop :=
  ∃ w, s' = {| s with mkern := w |} ∧ (∀ d, w_open w d = w_open (mkern s) d) ∧
    (w_oracle (mkern s) = [] → w_oracle w = []).

Lemma only_asked_trans s1 s2 s3 : only_asked s1 s2 → only_asked s2 s3 → only_asked s1 s3.
Proof. intros (w & -> & H & Hq) (w' & -> & H' & Hq'). exists w'. split; [done|]. split; [|by auto]. intros d. by rewrite H', <- H. Qed.

Lemma shows_asked s s' d m rm : only_asked s s' → shows s d m rm → shows s' d m rm.
Proof. intros (w & -> & _) [(e & t & tr & p & ? & ? & [] & ? & ?) ? ? ? ?]. split; try done. by exists e, t, tr, p. Qed.

(** What the environment answers next is no more than an error number: the answer to
    [blkdev_get_by_dev]. *)
Definition errno_next (n : nat) (w : world) : Prop := ∀ v, w_oracle w !! n = Some v → Z.abs v ≤ 4095.

(** A read either fails with an error number, or gives the first bytes of the table; it
    gives all that were asked for, when the environment refuses nothing. *)
Definition read_answer (m : cbt_map) (rm : list Z) (offset length : Z) (calm : Prop) (ret : Z) (bytes : list Z) : Prop :=
  (¬ calm ∧ -4095 ≤ ret < 0) ∨
  (0 ≤ ret ≤ Z.min (blk_count m - offset) length ∧ bytes = take (Z.to_nat ret) rm ∧
   (calm → ret = Z.min (blk_count m - offset) length)).

Lemma read_answer_weaken m rm offset length (C C' : Prop) ret bytes :
  (C' → C) → read_answer m rm offset length C ret bytes → read_answer m rm offset length C' ret bytes.
Proof. intros H [[HC Hr]|(Hr & Hb & HC)]; [left|right]; naive_solver. Qed.

Lemma cbt_map_read_spec m rm offset length w :
  is_corrupted m = false → read_map m = Some rm → lenZ rm = blk_count m → 0 ≤ offset ≤ blk_count m →
  blk_count m < 2 ^ 31 → 0 ≤ length →
  wp (cbt_map_read_to_user m offset length) w (λ r w', ∃ ret bytes, r = Some (ret, bytes) ∧
    w_open w' = w_open w ∧ (w_oracle w = [] → w_oracle w' = []) ∧
    read_answer m rm offset length (w_oracle w = []) ret bytes).
Proof.
  intros Hc Hr Hl Ho Hn Hlen. unfold cbt_map_read_to_user. rewrite Hc, Hr, u64_small by lia.
  rewrite (proj2 (Z.ltb_ge _ _)) by lia. unfold copy_user. wp_steps. unfold wp, oracle.
  destruct (w_oracle w) as [|v vs] eqn:Ew; cbn -[Z.min Z.max take]; eexists _, _; (split; [done|]); (split; [done|]); (split; [done|]); right.
  - replace (Z.max 0 (Z.min 0 (Z.min (blk_count m - offset) length))) with 0 by lia. split_and!; [cbn; lia..|done|done].
  - destruct (Z.eqb_spec (Z.max 0 (Z.min v (Z.min (blk_count m - offset) length))) 0) as [E|E];
      split_and!; try lia; done.
Qed.

Lemma open_answer d w :
  errno_next 0 w →
  wp (blkdev_get_by_dev d) w (λ r w',
    (r = Ok d ∧ w_open w' = upd (w_open w) d (w_open w d + 1) ∧ (w_oracle w = [] → w_oracle w' = [])) ∨
    (∃ e, r = Err e ∧ -4095 ≤ e < 0 ∧ w_open w' = w_open w ∧ w_oracle w ≠ [])).
Proof.
  intros He. unfold blkdev_get_by_dev. wp_step. unfold wp, oracle, errno_next in *.
  destruct (w_oracle w) as [|v vs] eqn:E; cbn; [by left|]. specialize (He v eq_refl).
  destruct (Z.eqb_spec v 0); cbn; [by left|]. right. exists (- Z.abs v). split_and!; try done; lia.
Qed.

Lemma bdev_filter_get_put t tr (M : gmap Z tracker) :
  M !! t = Some tr →
  alter (λ t, {| t with flt_kref := flt_kref t - 1 |}) t (alter (λ t, {| t with flt_kref := flt_kref t + 1 |}) t M) = M.
Proof.
  intros Ht. apply map_eq. intros k. destruct (decide (k = t)) as [->|Hk].
  - rewrite !lookup_alter_eq, Ht. cbn. f_equal. destruct tr; cbn. f_equal. lia.
  - by rewrite !lookup_alter_ne.
Qed.

Lemma tracker_read_spec d offset length s m rm :
  shows s d m rm → 0 ≤ offset ≤ blk_count m → 0 ≤ length → errno_next 0 (mkern s) →
  wp (tracker_read_cbt_bitmap d offset length) s (λ r s', only_asked s s' ∧ ∃ ret bytes, r = Some (ret, bytes) ∧
    read_answer m rm offset length (w_oracle (mkern s) = []) ret bytes).
Proof.
  intros [(e & t & tr & p & He & Hf & [Ht Hp Hm] & Htk & Hk) Hc Hr Hl Hn] Ho Hlen Herr.
  unfold tracker_read_cbt_bitmap, open_bdev, in_kern. wp_run_steps. eapply wp_mono; [by apply open_answer|].
  intros r w1 [(-> & Ho1 & Hq1)|(err & -> & Hb & Ho1 & Hq1)]; wp_run_steps.
  2:{ split; [exists w1; split_and!; [done|by intros; rewrite Ho1|done]|]. exists err, []. split; [done|]. left. by split. }
  unfold tracker_get_by_dev, bdev_filter_get_by_bdev, bdev_filter_get, mod_tracker. wp_run_steps. cbn [id].
  cbn [bdev_of bd_ptr devices]. rewrite He, Hf. wp_run_steps. unfold get_tracker, tracker_cbt. wp_run_steps.
  rewrite lookup_alter_eq, Ht. cbn [fmap option_fmap option_map mbind option_bind tr_cbt_map]. rewrite Hp.
  cbn [mbind option_bind]. rewrite Hm. cbn [fmap option_fmap option_map snapshot_is_taken]. rewrite Htk. wp_run_steps.
  eapply wp_mono; [by apply (cbt_map_read_spec m rm); try lia|]. intros r w2 (ret & bytes & -> & Ho2 & Hq2 & Ha).
  wp_run_steps. unfold tracker_put, bdev_filter_put, mod_tracker, get_tracker. wp_run_steps.
  rewrite (bdev_filter_get_put _ _ _ Ht), Ht.
  rewrite (proj2 (Z.eqb_neq _ _)) by lia. wp_run_steps. unfold close_bdev, in_kern, blkdev_put. wp_run_steps.
  cbn [bd_dev bdev_of]. split; [eexists; split_and!; [done| |cbn; by auto]|].
  - cbn. rewrite Ho2, Ho1. intros d'. destruct (decide (d' = d)) as [->|Hd]; [rewrite !upd_eq; lia|by rewrite !upd_ne].
  - exists ret, bytes. split; [done|]. by eapply read_answer_weaken.
Qed.

(** ** The ioctl *)

Section process.
Context {W X : Type} {OS : Os W} {P : ModuleParams} (text_start text_stop : list Z).
#[local] Notation U := (U W X).

Definition read_arg (d : blk_snap_dev) (offset length : Z) : user_arg :=
  {| no_arg with u_read_cbt_bitmap := {| rc_dev_id := d; rc_offset := offset; rc_length := length |} |}.

(** The module after a read. *)
Definition asked (m m' : module) : Prop :=
  ∃ s, m' = {| m with md_mod := s |} ∧ only_asked (md_mod m) s.

Lemma copy_whole_answer n x :
  0 ≤ n →
  wp (copy_whole n) x (λ ok x', ∃ s, x' = {| x with md_mod := s |} ∧ only_asked (md_mod x) s ∧
    (w_oracle (mkern (md_mod x)) = [] → ok = true ∧ w_oracle (mkern s) = []) ∧
    (errno_next 1 (mkern (md_mod x)) → errno_next 0 (mkern s))).
Proof.
  intros Hn. unfold copy_whole, on_k, on_mod, in_kern. wp_steps. unfold copy_user. wp_step. unfold wp, oracle, errno_next.
  destruct (w_oracle (mkern (md_mod x))) as [|v vs] eqn:E; cbn -[Z.min Z.max]; (eexists; split; [done|]).
  - split; [eexists; by split_and!|]. split; [|by intros _ u; cbn; rewrite E].
    intros _. cbn -[Z.min Z.max]. split; [|by rewrite E]. by rewrite Z.min_l by lia.
  - split; [eexists; split_and!; [done|done|by rewrite E]|]. split; [done|]. intros H u Hu. by apply H.
Qed.

Lemma ioctl_read_spec d offset length x m rm :
  shows (md_mod x) (MKDEV (mj d) (mn d)) m rm → 0 ≤ offset ≤ blk_count m → 0 ≤ length →
  errno_next 1 (mkern (md_mod x)) →
  wp (ioctl_tracker_read_cbt_map (read_arg d offset length)) x (λ r x', asked x x' ∧ ∃ ret bytes,
    r.1 = Some ret ∧ read_answer m rm offset length (w_oracle (mkern (md_mod x)) = []) ret bytes ∧
    (0 ≤ ret → r.2 = RBitmap bytes)).
Proof.
  intros Hs Ho Hl He. unfold ioctl_tracker_read_cbt_map. wp_step. eapply wp_mono; [by apply copy_whole_answer|].
  intros ok x1 (s1 & -> & Ha & Hq & He1). destruct ok; cbn [negb].
  2:{ wp_steps. split; [by exists s1|]. exists (- ENODATA), []. split; [done|]. split; [|done].
      left. split; [|done]. by intros [? _]%Hq. }
  unfold on_mod. apply wp_bind, wp_zoom. eapply wp_mono.
  { apply (tracker_read_spec _ _ _ _ m rm); [by eapply shows_asked|done|done|by apply He1]. }
  intros r s2 (Ha2 & ret & bytes & -> & Hr). wp_steps. split.
  - exists s2. split; [done|]. by eapply only_asked_trans.
  - exists ret, bytes. split; [done|]. split; [|done]. eapply read_answer_weaken; [|exact Hr]. by intros [_ ?]%Hq.
Qed.

(** [::ioctl] for the command: -1, or the bytes read; the process keeps everything but
    its [errno]. *)
Lemma read_cbt_ioctl d offset length (p : proc W X) m rm :
  shows (md_mod (others p)) (MKDEV (mj d) (mn d)) m rm → 0 ≤ offset ≤ blk_count m → 0 ≤ length →
  errno_next 1 (mkern (md_mod (others p))) →
  run (ioctl text_start text_stop (ioctl_nr blk_snap_ioctl_tracker_read_cbt_map) (read_arg d offset length)) p
    (λ o p', ∃ ret rep x e, o = Ret (ret, rep) ∧ p' = after_ioctl p x e ∧ asked (others p) x ∧
      ((ret = -1 ∧ w_oracle (mkern (md_mod (others p))) ≠ []) ∨
       (0 ≤ ret ≤ Z.min (blk_count m - offset) length ∧ rep = RBitmap (take (Z.to_nat ret) rm) ∧
        (w_oracle (mkern (md_mod (others p))) = [] → ret = Z.min (blk_count m - offset) length)))).
Proof.
  intros Hs Ho Hl He. apply (ioctl_run _ _ _ ioctl_tracker_read_cbt_map); [done|].
  eapply wp_mono; [by apply (ioctl_read_spec _ _ _ _ m rm)|]. intros [c rep] x (Ha & ret & bytes & Hc & Hr & Hrep).
  cbn [fst snd] in *. split; [by destruct Ha as (s & -> & w & -> & _)|]. exists ret. split; [done|]. intros e.
  exists (ioctl_int ret), rep, x, e. split_and!; [done..|]. pose proof (sh_count _ _ _ _ Hs). unfold ioctl_int.
  destruct Hr as [(Hn & Hb)|(Hb & -> & Hq)].
  - left. split; [|done]. rewrite s32_u32 by lia. rewrite (proj2 (Z.leb_le _ _)), (proj2 (Z.ltb_lt _ _)) by lia. done.
  - right. rewrite s32_u32 by lia. rewrite (proj2 (Z.ltb_ge ret 0)), andb_false_r by lia. rewrite Hrep by lia. done.
Qed.

(** ** The library *)

(** What [CCbt::GetCbtData] returns is the readable table. Of a device with a snapshot
    and an intact map, whatever the environment refuses, it returns the first
    [blockCount] bytes of that table, with [blockCount] not above the table's length, or
    it throws; it throws only if the table has become shorter than [blockCount] or the
    environment has refused something. It changes nothing in the module's objects. *)
Lemma cbt_data_exact info (p : proc W X) m rm :
  let d := MKDEV (originalMajor info) (originalMinor info) in
  shows (md_mod (others p)) d m rm → errno_next 1 (mkern (md_mod (others p))) →
  0 ≤ blockCount info < 2 ^ 32 →
  run (GetCbtData text_start text_stop info) p (λ o p',
    (∃ x e, p' = after_ioctl p x e ∧ asked (others p) x) ∧
    match o with
    | Ret l => blockCount info ≤ blk_count m ∧ l = take (Z.to_nat (blockCount info)) rm
    | Throw _ => blk_count m < blockCount info ∨ w_oracle (mkern (md_mod (others p))) ≠ []
    | Halt _ => False
    end).
Proof.
  intros d Hs He Hb. pose proof (sh_count _ _ _ _ Hs) as Hc. unfold GetCbtData, ReadCbtMap. rewrite u32_small by lia.
  apply run_bind. eapply run_mono; [apply (read_cbt_ioctl _ _ _ p m rm); [exact Hs|lia|lia|done]|].
  intros o p' (ret & rep & x & e & -> & -> & Ha & H). cbn beta iota.
  assert (Hp : ∃ y f, after_ioctl p x e = after_ioctl p y f ∧ asked (others p) y) by by exists x, e.
  destruct H as [[-> Hq]|(Hr & -> & Hq)]; [split; [done|by right]|].
  destruct (Z.ltb_spec ret 0); [lia|]. rewrite (u32_small ret) by lia.
  destruct (Z.eqb_spec ret (blockCount info)) as [->|Hne]; (split; [done|]); cbn.
  - split; [lia|done].
  - destruct (decide (blk_count m < blockCount info)); [by left|]. right. intros E. specialize (Hq E). lia.
Qed.

(** C20: the library reports exactly the blocks written between two snapshots. Take a
    snapshot of a device whose map is intact (not at the wrap-around of the number), let
    any writes and further snapshots follow without a wrap-around, and take one more
    snapshot. Whatever the environment refuses, [CCbt::GetCbtData] then returns a table of
    one byte for each block, in which the bytes above the first snapshot's number are
    those of the blocks written in between, or it throws; it throws only if the
    environment refuses something. *)
Theorem library_reports_changes info (p : proc W X) m w m1 w1 evs m2 w2 :
  cbt_wf m → is_corrupted m = false → snap_number_active m ≠ 255 →
  cbt_map_switch m w = (Some m1, w1) →
  snap_number_active m1 + switches evs < 255 →
  Forall ev_valid evs → Forall (ev_on_device m1) evs →
  cbt_run (evs ++ [EvSwitch]) m1 w1 = (Some m2, w2) →
  snapped (md_mod (others p)) (MKDEV (originalMajor info) (originalMinor info)) m2 →
  errno_next 1 (mkern (md_mod (others p))) →
  blockCount info = blk_count m1 → blk_count m1 < 2 ^ 31 →
  run (GetCbtData text_start text_stop info) p (λ o _,
    match o with
    | Ret l => lenZ l = blk_count m1 ∧ ∀ b, 0 ≤ b < blk_count m1 →
        snap_number_previous m1 < default 0 (nthZ l b) ↔ touched m1 evs b
    | Throw _ => w_oracle (mkern (md_mod (others p))) ≠ []
    | Halt _ => False
    end).
Proof.
  intros Hwf Hcor Hne Hsw Hno Hv Hd Hrun Hsn He Hb Hlt.
  destruct (cbt_run_changes m w m1 w1 evs) as (m2' & w2' & Hrun' & Hwf2 & Hc2 & Hn2 & _ & Ht); [done..|].
  rewrite Hrun in Hrun'. injection Hrun' as <- <-. destruct (wf_read _ Hwf2) as (rm & Hrm & Hl & _).
  pose proof (wf_count _ Hwf2). eapply run_mono; [apply (cbt_data_exact info p m2 rm); [|done|lia]|].
  { split; [done..|lia]. }
  intros o p' [_ Ho]. destruct o as [l|e|h]; [|destruct Ho; [lia|done]|done]. destruct Ho as [_ ->].
  rewrite take_ge by (unfold lenZ in Hl; lia). split; [lia|]. intros b Hbb. rewrite <- Ht by done.
  unfold table_at. by rewrite Hrm.
Qed.
End process.

(** ** The tool *)

Section tool.
Context {W : Type} {P : ModuleParams} (text_start text_stop : list Z).

(** The bytes written when [left] bytes of the table are still to be read: each turn
    writes the beginning of the table. *)
Fixpoint pieces (n : nat) (left : Z) (rm : list Z) : list Z :=
  match n with
  | O => []
  | S n =>
      let k := Z.min left CBTMAP_SIZE in
      if 0 <? k then take (Z.to_nat k) rm ++ pieces n (left - k) rm else []
  end.

Lemma pieces_step n left rm :
  0 < left →
  pieces (S n) left rm =
    take (Z.to_nat (Z.min left CBTMAP_SIZE)) rm ++ pieces n (left - Z.min left CBTMAP_SIZE) rm.
Proof.
  intros H. assert (Hz : CBTMAP_SIZE = 1048576) by done. cbn [pieces].
  destruct (Z.ltb_spec 0 (Z.min left CBTMAP_SIZE)); [done|lia].
Qed.
Lemma pieces_nil n rm : pieces n 0 rm = [].
Proof. by destruct n. Qed.

(** The rest of the system is quiet, and refuses nothing. *)
Definition quiet_process {X} (p : proc W X) : Prop := p_env p = [] ∧ w_oracle (mkern (md_mod (p_mod p))) = [].

Lemma read_cbt_turn {X} d offset length (p : proc W X) m rm :
  quiet_process p → shows (md_mod (p_mod p)) (MKDEV (mj d) (mn d)) m rm → 0 ≤ offset ≤ blk_count m → 0 ≤ length →
  ∃ p', ioctl text_start text_stop (ioctl_nr blk_snap_ioctl_tracker_read_cbt_map) (read_arg d offset length) p =
      (Ret (Z.min (blk_count m - offset) length,
            RBitmap (take (Z.to_nat (Z.min (blk_count m - offset) length)) rm)), p') ∧
    quiet_process p' ∧ shows (md_mod (p_mod p')) (MKDEV (mj d) (mn d)) m rm ∧
    p_mem p' = p_mem p ∧ p_fds p' = p_fds p.
Proof.
  intros [He Hor] Hs Ho Hl. assert (Eo : others p = p_mod p) by (unfold others; by rewrite He).
  pose proof (read_cbt_ioctl text_start text_stop d offset length p m rm) as H.
  rewrite Eo in H. specialize (H Hs Ho Hl). unfold run, errno_next in H. rewrite Hor in H.
  destruct (ioctl _ _ _ _ p) as [o p']. destruct H as (ret & rep & x & e & Ho' & Hp' & Ha & H); [done|].
  cbn [fst snd] in *. subst. destruct H as [[_ ?]|(Hr & -> & Hret)]; [done|]. rewrite <- Hret by done.
  exists (after_ioctl p x e). destruct Ha as (s & -> & Ha). split; [done|]. split_and!; try done.
  - split; cbn; [by rewrite He|]. destruct Ha as (w & -> & _ & Hq). by apply Hq.
  - cbn. by eapply shows_asked.
Qed.

(** A turn of the loop, with the bytes it has written. *)
Lemma read_cbt_loop_step n d offset (p : proc W tool) m rm Q :
  quiet_process p → shows (md_mod (p_mod p)) (MKDEV (mj d) (mn d)) m rm → 0 ≤ offset ≤ blk_count m →
  let k := Z.min (blk_count m - offset) CBTMAP_SIZE in
  (∀ p', quiet_process p' → shows (md_mod (p_mod p')) (MKDEV (mj d) (mn d)) m rm → p_fds p' = p_fds p →
     if 0 <? k then
       output (p_mem p') = output (p_mem p) ++ take (Z.to_nat k) rm →
       run (read_cbt_loop text_start text_stop n true d (offset + k)) p' Q
     else output (p_mem p') = output (p_mem p) → Q (Ret tt) p') →
  run (read_cbt_loop text_start text_stop (S n) true d offset) p Q.
Proof.
  intros Hq Hs Ho k H. pose proof (sh_count _ _ _ _ Hs) as Hc. assert (Hz : CBTMAP_SIZE = 1048576) by done.
  destruct (read_cbt_turn d offset CBTMAP_SIZE p m rm) as (p' & E & Hq' & Hs' & Hm & Hf); [done..|lia|].
  cbn [read_cbt_loop]. unfold run. rewrite (bind_ret _ _ _ _ _ E). fold k.
  rewrite (proj2 (Z.ltb_ge k 0)) by lia. destruct (Z.ltb_spec 0 k) as [Hk|Hk].
  - erewrite bind_ret by reflexivity. rewrite u32_small by lia. rewrite firstn_firstn, Nat.min_id. apply H.
    + done.
    + done.
    + done.
    + cbn. by rewrite Hm.
  - apply (H p' Hq' Hs' Hf). by rewrite Hm.
Qed.

Lemma read_cbt_loop_run n d offset (p : proc W tool) m rm :
  quiet_process p → shows (md_mod (p_mod p)) (MKDEV (mj d) (mn d)) m rm → 0 ≤ offset ≤ blk_count m →
  blk_count m - offset ≤ CBTMAP_SIZE * Z.of_nat n →
  run (read_cbt_loop text_start text_stop (S n) true d offset) p (λ o p', o = Ret tt ∧ p_fds p' = p_fds p ∧
    output (p_mem p') = output (p_mem p) ++ pieces (S n) (blk_count m - offset) rm).
Proof.
  assert (Hz : CBTMAP_SIZE = 1048576) by done.
  revert offset p. induction n as [|n IH]; intros offset p Hq Hs Ho Hn;
    apply (read_cbt_loop_step _ _ _ _ m rm); try done; intros p' Hq' Hs' Hf.
  - cbn [pieces]. rewrite (proj2 (Z.ltb_ge 0 _)) by lia. rewrite app_nil_r. done.
  - destruct (Z.ltb_spec 0 (Z.min (blk_count m - offset) CBTMAP_SIZE)).
    2:{ replace (blk_count m - offset) with 0 by lia. by rewrite pieces_nil, app_nil_r. }
    intros Hout. eapply run_mono; [apply IH; [done|done|lia|lia]|]. intros o p2 (-> & Hf2 & Hout2).
    split_and!; [done|congruence|]. rewrite Hout2, Hout, <- app_assoc. f_equal. rewrite (pieces_step (S n)) by lia.
    do 2 f_equal. lia.
Qed.

(** C32: the tool writes the change tracking table to its file, if it has no more than a
    mebibyte. On a quiet system, the loop of the command that reads the table ends, with
    as many turns as the table has mebibytes and one more; what it writes is the table
    when that has at most 2^20 blocks. A longer table, of up to twice the length, is not
    written: its second part is the beginning of the table once more, because the module
    copies from the start of the table whatever the offset. *)
Theorem tool_reads_table n d (p : proc W tool) m rm :
  quiet_process p → shows (md_mod (p_mod p)) (MKDEV (mj d) (mn d)) m rm →
  blk_count m ≤ CBTMAP_SIZE * Z.of_nat n →
  run (read_cbt_loop text_start text_stop (S n) true d 0) p (λ o p', o = Ret tt ∧ p_fds p' = p_fds p ∧
    (blk_count m ≤ CBTMAP_SIZE → output (p_mem p') = output (p_mem p) ++ rm) ∧
    (CBTMAP_SIZE < blk_count m ≤ 2 * CBTMAP_SIZE →
       output (p_mem p') = output (p_mem p) ++ take (Z.to_nat CBTMAP_SIZE) rm ++
                           take (Z.to_nat (blk_count m - CBTMAP_SIZE)) rm)).
Proof.
  assert (Hz : CBTMAP_SIZE = 1048576) by done. intros Hq Hs Hn. pose proof (sh_count _ _ _ _ Hs) as Hc.
  pose proof (sh_length _ _ _ _ Hs) as Hl. eapply run_mono; [apply (read_cbt_loop_run n d 0 p m rm); [done..|lia|lia]|].
  intros o p' (-> & Hf & Hout). rewrite Z.sub_0_r in Hout. split_and!; [done..| |]; intros Hb; rewrite Hout; f_equal.
  - rewrite pieces_step by lia. rewrite Z.min_l by lia. rewrite Z.sub_diag, pieces_nil, app_nil_r by lia.
    apply take_ge. unfold lenZ in Hl. lia.
  - rewrite pieces_step by lia. rewrite Z.min_r by lia. f_equal. destruct n as [|[|n]]; [lia|lia|].
    rewrite pieces_step by lia. rewrite Z.min_l by lia. by rewrite Z.sub_diag, pieces_nil, app_nil_r by lia.
Qed.
End tool.

(** ** Witnesses: the device of [ex_tracked] *)

#[local] Existing Instance default_params.

Definition ex_m1 : cbt_map := default cbt_map_zero (cbt_map_switch ex_map1 world0).1.
Definition ex_evs : list cbt_event := [EvWrite 128 200; EvSwitch; EvWrite 1 1].
Definition ex_m2 : cbt_map := default cbt_map_zero (cbt_run (ex_evs ++ [EvSwitch]) ex_m1 world0).1.
Definition ex_process {X} (x : X) : proc unit X :=
  Proc (let m := ex_loaded [] in {| m with md_mod := ex_tracked true ex_m2 500 [] |}) [] tt 0 3 [] [] x.
Definition ex_info : SCbtInfo :=
  {| originalMajor := 0; originalMinor := 1; blockSize := 65536; blockCount := 4; deviceCapacity := 500;
     generationId := 0; snapNumber := 2 |}.

Lemma ex_snapped {X} (x : X) : snapped (md_mod (p_mod (ex_process x))) (MKDEV 0 1) ex_m2.
Proof.
  exists {| ext_dev_id := 1; ext_bdev := 50; bd_filter := Some 100 |}, 100, (ex_tracker1 true), 101.
  split_and!; try reflexivity. apply ex_tracked_ok.
Qed.

Lemma run_out {W X A} (m : U W X A) p Q o : (m p).1 = o → run m p Q → Q o (m p).2.
Proof. by intros <-. Qed.

Lemma ex_m1_switch : cbt_map_switch ex_map1 world0 = (Some ex_m1, world0).
Proof. vm_compute. reflexivity. Qed.
Lemma ex_m2_run : cbt_run (ex_evs ++ [EvSwitch]) ex_m1 world0 = (Some ex_m2, world0).
Proof. vm_compute. reflexivity. Qed.
Lemma ex_evs_valid : Forall ev_valid ex_evs ∧ Forall (ev_on_device ex_m1) ex_evs.
Proof. split; repeat constructor; simpl; try lia; vm_compute; reflexivity. Qed.
Lemma ex_m1_numbers :
  (snap_number_active ex_map1 ≠ 255 ∧ snap_number_active ex_m1 + switches ex_evs < 255) ∧
  blk_count ex_m1 = 4 ∧ snap_number_previous ex_m1 = 2.
Proof. split; [split|]; vm_compute; [discriminate|reflexivity|split; reflexivity]. Qed.

Lemma ex_errno {X} (x : X) : errno_next 1 (mkern (md_mod (others (ex_process x)))).
Proof. by intros v. Qed.

Lemma library_reports_changes_witness :
  (GetCbtData [] [] ex_info (ex_process tt)).1 = Ret [4; 3; 3; 1] ∧
  touched ex_m1 ex_evs 2 ∧ ¬ touched ex_m1 ex_evs 3.
Proof.
  assert (E : (GetCbtData [] [] ex_info (ex_process tt)).1 = Ret [4; 3; 3; 1]) by (vm_compute; reflexivity).
  split; [exact E|]. destruct ex_m1_numbers as ([Ha Hb] & Hn & Hp).
  destruct (run_out _ _ _ _ E (library_reports_changes [] [] ex_info (ex_process tt) ex_map1 world0 ex_m1 world0
    ex_evs ex_m2 world0 ex_map1_wf eq_refl Ha ex_m1_switch Hb (proj1 ex_evs_valid) (proj2 ex_evs_valid) ex_m2_run
    (ex_snapped tt) (ex_errno tt) (eq_sym Hn) ltac:(rewrite Hn; lia))) as [_ H].
  rewrite Hn, Hp in H. clear E.
  split; [apply (H 2); [lia|reflexivity]|]. intros Ht. apply (H 3) in Ht; [discriminate Ht|lia].
Defined.

Lemma tool_reads_table_witness :
  output (p_mem (ex_process ex_tool_mem)) = [] ∧
  output (p_mem (read_cbt_loop [] [] 2 true (ex_dev 1) 0 (ex_process ex_tool_mem)).2) = [4; 3; 3; 1].
Proof.
  split; [reflexivity|].
  assert (Hs : shows (md_mod (p_mod (ex_process ex_tool_mem))) (MKDEV 0 1) ex_m2 [4; 3; 3; 1]).
  { split; [apply ex_snapped|..]; vm_compute; try reflexivity. split; reflexivity. }
  pose proof (tool_reads_table [] [] 1 (ex_dev 1) (ex_process ex_tool_mem) ex_m2 [4; 3; 3; 1]
    (conj eq_refl eq_refl) Hs) as H. unfold run in H. destruct H as (_ & _ & H & _); [by vm_compute|].
  apply H. by vm_compute.
Defined.
